(** * The MRT record parser of bgpctl (usr.sbin/bgpctl/mrtparser.c)

    A shallow embedding of the parser and the proofs of its specified
    properties.  The C code works on raw buffers with pointer arithmetic;
    the embedding keeps that shape:

    - a buffer is a [list byte], a pointer into it is an offset ([Z]);
    - [u_int], [uint16_t] and [uint8_t] variables are [Z] with the
      wrap-around of their width written out ([u32], [u16], [u8]);
    - every function runs in the monad [M], which threads the [world]
      (heap of [malloc]ed byte buffers, the file descriptor, the calls made
      to the user's callbacks) and distinguishes a normal return, the
      process exit of [err(3)]/[errx(3)], and an access outside its object,
      which is undefined behaviour in C;
    - loops that are not bounded by a counter take a fuel argument, and
      lemmas show that the fuel the callers pass is never exhausted. *)

From Stdlib Require Import ZArith List Lia String.
From stdpp Require Import base option list gmap.
From coqutil Require Import Byte.

Local Open Scope Z_scope.

(** ** Machine integers *)

Definition u8 (z : Z) : Z := z mod 2 ^ 8.
Definition u16 (z : Z) : Z := z mod 2 ^ 16.
Definition u32 (z : Z) : Z := z mod 2 ^ 32.

(** [ntohs]/[ntohl] of bytes copied with [memcpy]: the big-endian value. *)
Definition be_uint (bs : list byte) : Z :=
  fold_left (fun acc b => acc * 256 + byte.unsigned b) bs 0.

(** The big-endian encoding on [n] bytes, used to write down wire data. *)
Fixpoint be_bytes (n : nat) (z : Z) : list byte :=
  match n with
  | O => []
  | S n' => be_bytes n' (z / 256) ++ [byte.of_Z z]
  end.

Definition bytes_of (l : list Z) : list byte := map byte.of_Z l.

(** ** Address families and addresses (bgpd.h) *)

(** Modelled from the spec: bgpd.h is not among the sources; the spec's
    families are IPv4, IPv6, VPNv4, VPNv6 and Unspecified. *)
Inductive aid_t : Type :=
| AID_UNSPEC | AID_INET | AID_INET6 | AID_VPN_IPv4 | AID_VPN_IPv6.

Global Instance aid_eq_dec : EqDecision aid_t.
Proof. solve_decision. Defined.

(** [struct bgpd_addr]: the address union ([v4] is its first 4 bytes, [v6]
    all 16) and the family tag. *)
Record bgpd_addr : Type := mk_addr { ba_aid : aid_t; ba_bytes : list byte }.

Definition addr_zero : bgpd_addr := mk_addr AID_UNSPEC (replicate 16 Byte.x00).

Definition set_v4 (ad : bgpd_addr) (bs : list byte) : list byte :=
  bs ++ drop (length bs) (ba_bytes ad).

(** ** Decoded values (mrtparser.h) *)

Definition ptr : Type := nat.

Record mrt_attr : Type := mk_attr { ap_attr : ptr; ap_attr_len : Z }.

Record mrt_rib_entry : Type := mk_re {
  re_aspath : option ptr;
  re_attrs : list mrt_attr;
  re_nexthop : bgpd_addr;
  re_originated : Z;
  re_local_pref : Z;
  re_med : Z;
  re_path_id : Z;
  re_peer_idx : Z;
  re_aspath_len : Z;
  re_nattrs : Z;
  re_origin : Z
}.

(** A [calloc]ed entry. *)
Definition re_zero : mrt_rib_entry :=
  mk_re None [] addr_zero 0 0 0 0 0 0 0 0.

Record mrt_rib : Type := mk_rib {
  r_entries : option (list mrt_rib_entry);
  r_prefix : bgpd_addr;
  r_seqnum : Z;
  r_nentries : Z;
  r_prefixlen : Z;
  r_add_path : Z
}.

Definition rib_zero : mrt_rib := mk_rib None addr_zero 0 0 0 0.

Record mrt_peer_entry : Type := mk_pe {
  pe_addr : bgpd_addr;
  pe_bgp_id : Z;
  pe_asnum : Z
}.

Definition pe_zero : mrt_peer_entry := mk_pe addr_zero 0 0.

Record mrt_peer : Type := mk_peer {
  p_view : option ptr;
  p_peers : option (list mrt_peer_entry);
  p_bgp_id : Z;
  p_npeers : Z
}.

Record mrt_bgp_state : Type := mk_state {
  s_sec : Z;
  s_nsec : Z;
  s_src : bgpd_addr;
  s_dst : bgpd_addr;
  s_src_as : Z;
  s_dst_as : Z;
  s_old_state : Z;
  s_new_state : Z
}.

Record mrt_bgp_msg : Type := mk_msg {
  m_sec : Z;
  m_nsec : Z;
  m_src : bgpd_addr;
  m_dst : bgpd_addr;
  m_src_as : Z;
  m_dst_as : Z;
  m_add_path : Z;
  m_msg_len : Z;
  m_msg : option ptr
}.

(** ** The world: heap, file descriptor, and what the process did *)

(** What the parser does that its caller can observe: the three callbacks
    of [struct mrt_parser] (with the heap at the time of the call, since the
    values point into it) and the diagnostics printed when verbose. *)
Inductive event : Type :=
| EvDump (r : mrt_rib) (pctx : option mrt_peer) (h : gmap nat (list byte))
| EvState (s : mrt_bgp_state)
| EvMessage (m : mrt_bgp_msg) (h : gmap nat (list byte))
| EvPrintf (fmt : string) (args : list Z).

(** One call of read(2): it delivers at most [n] bytes (at least one when
    bytes are left), is interrupted by a signal, or fails. *)
Inductive read_step : Type :=
| RdChunk (n : nat)
| RdEintr
| RdError.

Record world : Type := mk_world {
  w_heap : gmap nat (list byte);
  w_next : nat;
  w_out : list event;
  w_file : list byte;
  w_reads : list read_step
}.

Definition set_heap (f : gmap nat (list byte) -> gmap nat (list byte))
    (w : world) : world :=
  mk_world (f (w_heap w)) (w_next w) (w_out w) (w_file w) (w_reads w).

Inductive outcome (A : Type) : Type :=
| Ret (a : A) (w : world)
| Exit (msg : string) (w : world)
| Fault (msg : string) (w : world)
| OutOfFuel.

Arguments Ret {A} a w.
Arguments Exit {A} msg w.
Arguments Fault {A} msg w.
Arguments OutOfFuel {A}.

Definition M (A : Type) : Type := world -> outcome A.

Definition ret {A} (a : A) : M A := fun w => Ret a w.

Definition bind {A B} (m : M A) (k : A -> M B) : M B :=
  fun w =>
    match m w with
    | Ret a w' => k a w'
    | Exit s w' => Exit s w'
    | Fault s w' => Fault s w'
    | OutOfFuel => OutOfFuel
    end.

Declare Scope mrt_scope.
Delimit Scope mrt_scope with mrt.
Notation "'let*' x ':=' c 'in' k" := (bind c (fun x => k))
  (at level 10, x pattern, c at level 200, k at level 200) : mrt_scope.
Local Open Scope mrt_scope.

(** [err(1, msg)] and [errx(1, msg)]. *)
Definition err {A} (msg : string) : M A := fun w => Exit msg w.

Definition fault {A} (msg : string) : M A := fun w => Fault msg w.

Definition out_of_fuel {A} : M A := fun _ => OutOfFuel.

Definition emit (e : event) : M unit :=
  fun w => Ret tt (mk_world (w_heap w) (w_next w) (w_out w ++ [e])
                            (w_file w) (w_reads w)).

Definition printf (verbose : bool) (fmt : string) (args : list Z) : M unit :=
  if verbose then emit (EvPrintf fmt args) else ret tt.

(** ** Reading the record buffer *)

(** [n] bytes at offset [off] lie inside the buffer. *)
Definition in_obj (buf : list byte) (off n : Z) : bool :=
  (n =? 0) || ((0 <=? off) && (0 <=? n) && (off + n <=? Z.of_nat (length buf))).

Definition slice (buf : list byte) (off n : Z) : list byte :=
  take (Z.to_nat n) (drop (Z.to_nat off) buf).

(** [memcpy(dst, buf + off, n)] seen from the source side. *)
Definition load (buf : list byte) (off n : Z) : M (list byte) :=
  if in_obj buf off n then ret (slice buf off n)
  else fault "read outside the buffer".

Definition load8 (buf : list byte) (off : Z) : M Z :=
  let* bs := load buf off 1 in ret (be_uint bs).

Definition load16 (buf : list byte) (off : Z) : M Z :=
  let* bs := load buf off 2 in ret (be_uint bs).

Definition load32 (buf : list byte) (off : Z) : M Z :=
  let* bs := load buf off 4 in ret (be_uint bs).

(** ** The heap of byte buffers *)

(** [malloc(n)]; allocation failure is not modelled. *)
Definition malloc (n : Z) : M ptr :=
  fun w =>
    Ret (w_next w)
        (mk_world (<[w_next w := replicate (Z.to_nat n) Byte.x00]> (w_heap w))
                  (S (w_next w)) (w_out w) (w_file w) (w_reads w)).

(** [free(p)]: nothing for NULL. *)
Definition free (p : option ptr) : M unit :=
  fun w =>
    match p with
    | None => Ret tt w
    | Some q =>
        match w_heap w !! q with
        | Some _ => Ret tt (set_heap (delete q) w)
        | None => Fault "free of a pointer that is not allocated" w
        end
    end.

(** [memcpy(p, src, length src)] seen from the destination side. *)
Definition memcpy_to (p : ptr) (src : list byte) : M unit :=
  fun w =>
    match w_heap w !! p with
    | Some blk =>
        if (length src <=? length blk)%nat
        then Ret tt (set_heap <[p := src ++ drop (length src) blk]> w)
        else Fault "write outside the allocation" w
    | None => Fault "write outside the allocation" w
    end.

(** [p[i] = b]. *)
Definition poke (p : ptr) (i : Z) (b : byte) : M unit :=
  fun w =>
    match w_heap w !! p with
    | Some blk =>
        if (0 <=? i) && (i <? Z.of_nat (length blk))
        then Ret tt (set_heap <[p := <[Z.to_nat i := b]> blk]> w)
        else Fault "write outside the allocation" w
    | None => Fault "write outside the allocation" w
    end.

(** ** mrt_aspath_inflate *)

(** The first loop: [olen], [nlen] and [seg_size] are [uint16_t]. *)
Fixpoint inflate_len (fuel : nat) (buf : list byte) (seg olen nlen : Z)
    : M (option Z) :=
  if olen >? 0 then
    match fuel with
    | O => out_of_fuel
    | S fuel' =>
        let* seg_len := load8 buf (seg + 1) in
        let seg_size := u16 (2 + 2 * seg_len) in
        let nlen := u16 (nlen + (2 + 4 * seg_len)) in
        if seg_size >? olen then ret None
        else inflate_len fuel' buf (seg + seg_size) (u16 (olen - seg_size)) nlen
    end
  else ret (Some nlen).

(** The inner copy loop, [seg_len] times. *)
Fixpoint inflate_asns (seg_len : nat) (buf : list byte) (ndata : ptr)
    (seg nseg : Z) : M (Z * Z) :=
  match seg_len with
  | O => ret (seg, nseg)
  | S n =>
      let* _ := poke ndata nseg Byte.x00 in
      let* _ := poke ndata (nseg + 1) Byte.x00 in
      let* hi := load8 buf seg in
      let* _ := poke ndata (nseg + 2) (byte.of_Z hi) in
      let* lo := load8 buf (seg + 1) in
      let* _ := poke ndata (nseg + 3) (byte.of_Z lo) in
      inflate_asns n buf ndata (seg + 2) (nseg + 4)
  end.

(** The second loop. *)
Fixpoint inflate_copy (fuel : nat) (buf : list byte) (ndata : ptr)
    (seg nseg nlen : Z) : M unit :=
  if nseg <? nlen then
    match fuel with
    | O => out_of_fuel
    | S fuel' =>
        let* t := load8 buf seg in
        let* _ := poke ndata nseg (byte.of_Z t) in
        let* seg_len := load8 buf (seg + 1) in
        let* _ := poke ndata (nseg + 1) (byte.of_Z seg_len) in
        let* (seg', nseg') := inflate_asns (Z.to_nat seg_len) buf ndata
                                        (seg + 2) (nseg + 2) in
        inflate_copy fuel' buf ndata seg' nseg' nlen
    end
  else ret tt.

(** Returns [None] for NULL, and otherwise the new buffer with the value
    stored in [*newlen]. *)
Definition mrt_aspath_inflate (buf : list byte) (data len : Z)
    : M (option (ptr * Z)) :=
  let* r := inflate_len (Z.to_nat len) buf data len 0 in
  match r with
  | None => ret None
  | Some nlen =>
      let* ndata := malloc nlen in
      let* _ := inflate_copy (Z.to_nat nlen) buf ndata data 0 nlen in
      ret (Some (ndata, nlen))
  end.

(** ** mrt_extract_addr *)

(** Returns the C return value and what [*addr] holds afterwards (it is
    cleared by [memset] first, also when the call fails). *)
Definition mrt_extract_addr (buf : list byte) (b len : Z) (aid : aid_t)
    : M (Z * bgpd_addr) :=
  match aid with
  | AID_INET =>
      if len <? 4 then ret (-1, addr_zero)
      else let* v := load buf b 4 in
           ret (4, mk_addr aid (set_v4 addr_zero v))
  | AID_INET6 =>
      if len <? 16 then ret (-1, addr_zero)
      else let* v := load buf b 16 in
           ret (16, mk_addr aid v)
  | AID_VPN_IPv4 =>
      if len <? 8 + 4 then ret (-1, addr_zero)
      else let* v := load buf (b + 8) 4 in
           ret (8 + 4, mk_addr aid (set_v4 addr_zero v))
  | AID_VPN_IPv6 =>
      if len <? 8 + 16 then ret (-1, addr_zero)
      else let* v := load buf (b + 8) 16 in
           ret (8 + 16, mk_addr aid v)
  | AID_UNSPEC => ret (-1, addr_zero)
  end.

(** ** mrt_extract_attr *)

(** Modelled from the spec: mrt.h is not among the sources; the attribute
    type codes and the extended-length flag are those of section 4.3. *)
Definition MRT_ATTR_ORIGIN : Z := 1.
Definition MRT_ATTR_ASPATH : Z := 2.
Definition MRT_ATTR_NEXTHOP : Z := 3.
Definition MRT_ATTR_MED : Z := 4.
Definition MRT_ATTR_LOCALPREF : Z := 5.
Definition MRT_ATTR_MP_REACH_NLRI : Z := 14.
Definition MRT_ATTR_AS4PATH : Z := 17.
Definition MRT_ATTR_EXTLEN : Z := 0x10.
Definition UCHAR_MAX : Z := 255.

Definition re_set_aspath (p : option ptr) (re : mrt_rib_entry) :=
  mk_re p (re_attrs re) (re_nexthop re) (re_originated re) (re_local_pref re)
        (re_med re) (re_path_id re) (re_peer_idx re) (re_aspath_len re)
        (re_nattrs re) (re_origin re).
Definition re_set_aspath_len (l : Z) (re : mrt_rib_entry) :=
  mk_re (re_aspath re) (re_attrs re) (re_nexthop re) (re_originated re)
        (re_local_pref re) (re_med re) (re_path_id re) (re_peer_idx re) l
        (re_nattrs re) (re_origin re).
Definition re_set_attrs (n : Z) (l : list mrt_attr) (re : mrt_rib_entry) :=
  mk_re (re_aspath re) l (re_nexthop re) (re_originated re)
        (re_local_pref re) (re_med re) (re_path_id re) (re_peer_idx re)
        (re_aspath_len re) n (re_origin re).
Definition re_set_nexthop (nh : bgpd_addr) (re : mrt_rib_entry) :=
  mk_re (re_aspath re) (re_attrs re) nh (re_originated re)
        (re_local_pref re) (re_med re) (re_path_id re) (re_peer_idx re)
        (re_aspath_len re) (re_nattrs re) (re_origin re).
Definition re_set_origin (o : Z) (re : mrt_rib_entry) :=
  mk_re (re_aspath re) (re_attrs re) (re_nexthop re) (re_originated re)
        (re_local_pref re) (re_med re) (re_path_id re) (re_peer_idx re)
        (re_aspath_len re) (re_nattrs re) o.
Definition re_set_med (v : Z) (re : mrt_rib_entry) :=
  mk_re (re_aspath re) (re_attrs re) (re_nexthop re) (re_originated re)
        (re_local_pref re) v (re_path_id re) (re_peer_idx re)
        (re_aspath_len re) (re_nattrs re) (re_origin re).
Definition re_set_local_pref (v : Z) (re : mrt_rib_entry) :=
  mk_re (re_aspath re) (re_attrs re) (re_nexthop re) (re_originated re)
        v (re_med re) (re_path_id re) (re_peer_idx re)
        (re_aspath_len re) (re_nattrs re) (re_origin re).

(** How one turn of the do-while loop ends: with a [return], or at the
    loop condition with the advanced pointer and remaining length. *)
Inductive attr_next : Type :=
| AttrReturn (r : Z) (re : mrt_rib_entry)
| AttrNext (re : mrt_rib_entry) (a alen : Z).

(** The [default:] case, also reached from AS4_PATH by fall-through.
    [attr] points at the flags byte, [a] at the payload. *)
Definition attr_default (buf : list byte) (re : mrt_rib_entry)
    (attr a attr_len : Z) : M mrt_rib_entry :=
  let nattrs := u8 (re_nattrs re + 1) in
  if nattrs >=? UCHAR_MAX then err "too many attributes"
  else
    let ap_len := a + attr_len - attr in
    let* p := malloc ap_len in
    let* bs := load buf attr ap_len in
    let* _ := memcpy_to p bs in
    ret (re_set_attrs nattrs (re_attrs re ++ [mk_attr p ap_len]) re).

(** The [MRT_ATTR_MP_REACH_NLRI] case up to its [break]. *)
Definition attr_mp_reach (buf : list byte) (aid : aid_t) (re : mrt_rib_entry)
    (a alen attr_len : Z) : M attr_next :=
  let* first := load8 buf a in
  let '(a, alen, attr_len) :=
    if negb (first =? attr_len - 1)
    then (a + 3, alen - 3, u16 (attr_len - 3))
    else (a, alen, attr_len) in
  match aid with
  | AID_INET6 =>
      if attr_len <? 16 + 1 then ret (AttrReturn (-1) re)
      else
        let* v := load buf (a + 1) 16 in
        ret (AttrNext (re_set_nexthop (mk_addr aid v) re)
                      (a + attr_len) (alen - attr_len))
  | AID_VPN_IPv4 =>
      if attr_len <? 8 + 4 then ret (AttrReturn (-1) re)
      else
        let* v := load buf (a + 1 + 8) 4 in
        ret (AttrNext
               (re_set_nexthop (mk_addr aid (set_v4 (re_nexthop re) v)) re)
               (a + attr_len) (alen - attr_len))
  | AID_VPN_IPv6 =>
      if attr_len <? 8 + 16 then ret (AttrReturn (-1) re)
      else
        let* v := load buf (a + 1 + 8) 16 in
        ret (AttrNext (re_set_nexthop (mk_addr aid v) re)
                      (a + attr_len) (alen - attr_len))
  | _ => ret (AttrNext re (a + attr_len) (alen - attr_len))
  end.

(** The [switch (type)] and the two statements after it; [attr] points at
    the flags byte, [a] at the payload, [alen] is what is left after the
    attribute header. *)
Definition attr_switch (buf : list byte) (aid : aid_t) (as4 : bool)
    (re : mrt_rib_entry) (type attr a alen attr_len : Z) : M attr_next :=
  let next re := ret (AttrNext re (a + attr_len) (alen - attr_len)) in
  let default :=
    let* re' := attr_default buf re attr a attr_len in next re' in
  if type =? MRT_ATTR_ORIGIN then
    if negb (attr_len =? 1) then ret (AttrReturn (-1) re)
    else let* o := load8 buf a in next (re_set_origin o re)
  else if type =? MRT_ATTR_ASPATH then
    if as4 then
      let* p := malloc attr_len in
      let* bs := load buf a attr_len in
      let* _ := memcpy_to p bs in
      next (re_set_aspath (Some p) (re_set_aspath_len attr_len re))
    else
      let* r := mrt_aspath_inflate buf a attr_len in
      match r with
      | None => ret (AttrReturn (-1) (re_set_aspath None re))
      | Some (p, newlen) =>
          next (re_set_aspath (Some p) (re_set_aspath_len newlen re))
      end
  else if type =? MRT_ATTR_NEXTHOP then
    if negb (attr_len =? 4) then ret (AttrReturn (-1) re)
    else if negb (bool_decide (aid = AID_INET)) then next re
    else
      let* tmp := load buf a 4 in
      next (re_set_nexthop (mk_addr AID_INET (set_v4 (re_nexthop re) tmp)) re)
  else if type =? MRT_ATTR_MED then
    if negb (attr_len =? 4) then ret (AttrReturn (-1) re)
    else let* tmp := load32 buf a in next (re_set_med tmp re)
  else if type =? MRT_ATTR_LOCALPREF then
    if negb (attr_len =? 4) then ret (AttrReturn (-1) re)
    else let* tmp := load32 buf a in next (re_set_local_pref tmp re)
  else if type =? MRT_ATTR_MP_REACH_NLRI then
    attr_mp_reach buf aid re a alen attr_len
  else if (type =? MRT_ATTR_AS4PATH) && negb as4 then
    let* _ := free (re_aspath re) in
    let* p := malloc attr_len in
    let* bs := load buf a attr_len in
    let* _ := memcpy_to p bs in
    next (re_set_aspath (Some p) (re_set_aspath_len attr_len re))
  else default.

(** One turn of the do-while loop. *)
Definition attr_body (buf : list byte) (aid : aid_t) (as4 : bool)
    (re : mrt_rib_entry) (a alen : Z) : M attr_next :=
  if alen <? 3 then ret (AttrReturn (-1) re)
  else
    let attr := a in
    let* flags := load8 buf a in
    let* type := load8 buf (a + 1) in
    if negb (Z.land flags MRT_ATTR_EXTLEN =? 0) then
      if alen - 2 <? 2 then ret (AttrReturn (-1) re)
      else
        let* attr_len := load16 buf (a + 2) in
        attr_switch buf aid as4 re type attr (a + 4) (alen - 4) attr_len
    else
      let* attr_len := load8 buf (a + 2) in
      attr_switch buf aid as4 re type attr (a + 3) (alen - 3) attr_len.

Fixpoint attr_loop (fuel : nat) (buf : list byte) (aid : aid_t) (as4 : bool)
    (re : mrt_rib_entry) (a alen : Z) : M (Z * mrt_rib_entry) :=
  match fuel with
  | O => out_of_fuel
  | S fuel' =>
      let* n := attr_body buf aid as4 re a alen in
      match n with
      | AttrReturn r re' => ret (r, re')
      | AttrNext re' a' alen' =>
          if alen' >? 0 then attr_loop fuel' buf aid as4 re' a' alen'
          else ret (0, re')
      end
  end.

(** Returns the C return value and what [*re] holds afterwards. *)
Definition mrt_extract_attr (buf : list byte) (re : mrt_rib_entry)
    (a alen : Z) (aid : aid_t) (as4 : bool) : M (Z * mrt_rib_entry) :=
  attr_loop (S (Z.to_nat alen)) buf aid as4 re a alen.

(** The world at program start: empty heap, nothing read, nothing done. *)
Definition w0 : world := mk_world ∅ 0 [] [] [].

(** ** The common header and the message codes (mrt.h) *)

(** [struct mrt_hdr]; the fields hold the values after [ntohl]/[ntohs]. *)
Record mrt_hdr : Type := mk_hdr {
  h_timestamp : Z;
  h_type : Z;
  h_subtype : Z;
  h_length : Z
}.

(** Modelled from the spec: mrt.h is not among the sources; the codes are
    those of the dispatch table of section 4.7 and of RFC 6396 and 8050. *)
Definition MSG_TABLE_DUMP : Z := 12.
Definition MSG_TABLE_DUMP_V2 : Z := 13.
Definition MSG_PROTOCOL_BGP4MP : Z := 16.
Definition MSG_PROTOCOL_BGP4MP_ET : Z := 17.

(** Modelled from the spec: the types that section 4.7 lists as skipped as
    deprecated, and as skipped as unsupported. *)
Definition msg_deprecated (type : Z) : bool :=
  bool_decide (type ∈ [0; 1; 2; 3; 6; 4; 5; 7; 8]).
Definition msg_unsupported (type : Z) : bool :=
  bool_decide (type ∈ [9; 10; 11; 14]).

Definition MRT_DUMP_AFI_IP : Z := 1.
Definition MRT_DUMP_AFI_IPv6 : Z := 2.

Definition MRT_DUMP_V2_PEER_INDEX_TABLE : Z := 1.
Definition MRT_DUMP_V2_RIB_IPV4_UNICAST : Z := 2.
Definition MRT_DUMP_V2_RIB_IPV4_MULTICAST : Z := 3.
Definition MRT_DUMP_V2_RIB_IPV6_UNICAST : Z := 4.
Definition MRT_DUMP_V2_RIB_IPV6_MULTICAST : Z := 5.
Definition MRT_DUMP_V2_RIB_GENERIC : Z := 6.
Definition MRT_DUMP_V2_RIB_IPV4_UNICAST_ADDPATH : Z := 8.
Definition MRT_DUMP_V2_RIB_IPV4_MULTICAST_ADDPATH : Z := 9.
Definition MRT_DUMP_V2_RIB_IPV6_UNICAST_ADDPATH : Z := 10.
Definition MRT_DUMP_V2_RIB_IPV6_MULTICAST_ADDPATH : Z := 11.
Definition MRT_DUMP_V2_RIB_GENERIC_ADDPATH : Z := 12.

Definition MRT_DUMP_V2_PEER_BIT_I : Z := 0x1.
Definition MRT_DUMP_V2_PEER_BIT_A : Z := 0x2.

Definition BGP4MP_STATE_CHANGE : Z := 0.
Definition BGP4MP_MESSAGE : Z := 1.
Definition BGP4MP_ENTRY : Z := 2.
Definition BGP4MP_MESSAGE_AS4 : Z := 4.
Definition BGP4MP_STATE_CHANGE_AS4 : Z := 5.
Definition BGP4MP_MESSAGE_LOCAL : Z := 6.
Definition BGP4MP_MESSAGE_AS4_LOCAL : Z := 7.
Definition BGP4MP_MESSAGE_ADDPATH : Z := 8.
Definition BGP4MP_MESSAGE_AS4_ADDPATH : Z := 9.
Definition BGP4MP_MESSAGE_LOCAL_ADDPATH : Z := 10.
Definition BGP4MP_MESSAGE_AS4_LOCAL_ADDPATH : Z := 11.

Definition aid_code (aid : aid_t) : Z :=
  match aid with
  | AID_UNSPEC => 0 | AID_INET => 1 | AID_INET6 => 2
  | AID_VPN_IPv4 => 3 | AID_VPN_IPv6 => 4
  end.

(** ** mrt_afi2aid *)

Definition mrt_afi2aid (afi safi : Z) (verbose : bool) : M aid_t :=
  let unhandled :=
    let* _ := printf verbose "unhandled AFI/SAFI %d/%d" [afi; safi] in
    ret AID_UNSPEC in
  if afi =? MRT_DUMP_AFI_IP then
    if (safi =? -1) || (safi =? 1) || (safi =? 2) then ret AID_INET
    else if safi =? 128 then ret AID_VPN_IPv4
    else unhandled
  else if afi =? MRT_DUMP_AFI_IPv6 then
    if (safi =? -1) || (safi =? 1) || (safi =? 2) then ret AID_INET6
    else if safi =? 128 then ret AID_VPN_IPv6
    else unhandled
  else unhandled.

(** ** mrt_extract_prefix *)

(** The NLRI decoders of bgpd (util.c), which this file only calls: each
    gets the bytes of the [ibuf] and returns [None] for -1, or the prefix,
    its length in bits and the number of bytes it consumed. *)
Record nlri_ops : Type := mk_nlri {
  nlri_get_prefix : list byte -> option (bgpd_addr * Z * Z);
  nlri_get_prefix6 : list byte -> option (bgpd_addr * Z * Z);
  nlri_get_vpn4 : list byte -> option (bgpd_addr * Z * Z);
  nlri_get_vpn6 : list byte -> option (bgpd_addr * Z * Z)
}.

(** Modelled from the spec: the NLRI decoder of section 4.2, which reads a
    1-byte bit length and then that many bits rounded up to whole bytes, and
    fails when the bit length exceeds the family width or bytes are missing. *)
Definition spec_nlri_get (aid : aid_t) (width : Z) (ibuf : list byte)
    : option (bgpd_addr * Z * Z) :=
  match ibuf with
  | [] => None
  | b :: rest =>
      let bits := byte.unsigned b in
      let n := Z.to_nat ((bits + 7) / 8) in
      if (width <? bits) || (length rest <? n)%nat then None
      else Some (mk_addr aid (take n rest ++ replicate (16 - n) Byte.x00),
                 bits, Z.of_nat (S n))
  end.

Definition spec_nlri : nlri_ops :=
  mk_nlri (spec_nlri_get AID_INET 32) (spec_nlri_get AID_INET6 128)
          (spec_nlri_get AID_VPN_IPv4 32) (spec_nlri_get AID_VPN_IPv6 128).

(** Returns the C return value, [*prefix] and [*prefixlen].  The [ibuf]
    covers [len] bytes from [m]; the model faults when that range is not
    inside the record buffer. *)
Definition mrt_extract_prefix (nlri : nlri_ops) (buf : list byte) (m len : Z)
    (aid : aid_t) (verbose : bool) : M (Z * bgpd_addr * Z) :=
  let* ibuf := load buf m len in
  let finish (r : option (bgpd_addr * Z * Z)) : M (Z * bgpd_addr * Z) :=
    match r with
    | None =>
        let* _ := printf verbose "failed to parse prefix of AID %d"
                         [aid_code aid] in
        ret (-1, addr_zero, 0)
    | Some (prefix, prefixlen, consumed) => ret (consumed, prefix, prefixlen)
    end in
  match aid with
  | AID_INET => finish (nlri_get_prefix nlri ibuf)
  | AID_INET6 => finish (nlri_get_prefix6 nlri ibuf)
  | AID_VPN_IPv4 => finish (nlri_get_vpn4 nlri ibuf)
  | AID_VPN_IPv6 => finish (nlri_get_vpn6 nlri ibuf)
  | AID_UNSPEC =>
      let* _ := printf verbose "unknown prefix AID %d" [aid_code aid] in
      ret (-1, addr_zero, 0)
  end.

(** ** mrt_free_peers, mrt_free_rib *)

Definition mrt_free_peers (p : mrt_peer) : M unit := free (p_view p).

Fixpoint free_attrs (l : list mrt_attr) : M unit :=
  match l with
  | [] => ret tt
  | ap :: l' => let* _ := free (Some (ap_attr ap)) in free_attrs l'
  end.

Fixpoint free_entries (l : list mrt_rib_entry) : M unit :=
  match l with
  | [] => ret tt
  | re :: l' =>
      let* _ := free_attrs (take (Z.to_nat (re_nattrs re)) (re_attrs re)) in
      let* _ := free (re_aspath re) in
      free_entries l'
  end.

Definition mrt_free_rib (r : mrt_rib) : M unit :=
  match r_entries r with
  | None => ret tt
  | Some entries => free_entries (take (Z.to_nat (r_nentries r)) entries)
  end.

(** ** mrt_free_bgp_state and mrt_free_bgp_msg *)

(** The structure itself is a value here; [free(s)] has nothing to do. *)
Definition mrt_free_bgp_state (s : mrt_bgp_state) : M unit := ret tt.

Definition mrt_free_bgp_msg (m : mrt_bgp_msg) : M unit := free (m_msg m).

(** ** mrt_parse_v2_peer *)

(** The [fail:] label: [p->peers] is still NULL there. *)
Definition v2_peer_fail (view : option ptr) : M (option mrt_peer) :=
  let* _ := mrt_free_peers (mk_peer view None 0 0) in ret None.

(** The loop over the peer entries, [cnt - i] turns left; returns [None]
    when it left through [goto fail]. *)
Fixpoint v2_peer_entries (turns : nat) (msg : list byte) (b len : Z)
    (peers : list mrt_peer_entry) : M (option (list mrt_peer_entry)) :=
  match turns with
  | O => ret (Some peers)
  | S turns' =>
      if len <? 1 + 4 then ret None
      else
        let* type := load8 msg b in
        let* bid := load32 msg (b + 1) in
        let b := b + 1 + 4 in
        let len := u32 (len - 1 - 4) in
        let aid := if negb (Z.land type MRT_DUMP_V2_PEER_BIT_I =? 0)
                   then AID_INET6 else AID_INET in
        let asz := if negb (Z.land type MRT_DUMP_V2_PEER_BIT_I =? 0)
                   then 16 else 4 in
        let* (r, addr) := mrt_extract_addr msg b len aid in
        if r =? -1 then ret None
        else
          let b := b + asz in
          let len := u32 (len - asz) in
          if negb (Z.land type MRT_DUMP_V2_PEER_BIT_A =? 0) then
            let* as4 := load32 msg b in
            v2_peer_entries turns' msg (b + 4) (u32 (len - 4))
              (peers ++ [mk_pe addr bid as4])
          else
            let* as2 := load16 msg b in
            v2_peer_entries turns' msg (b + 2) (u32 (len - 2))
              (peers ++ [mk_pe addr bid as2])
  end.

Definition mrt_parse_v2_peer (hdr : mrt_hdr) (msg : list byte)
    : M (option mrt_peer) :=
  let len := h_length hdr in
  if len <? 8 then ret None
  else
    let* bid := load32 msg 0 in
    let* cnt := load16 msg 4 in
    let b := 4 + 2 in
    let len := u32 (u32 (len - 4) - 2) in
    if cnt >? len then v2_peer_fail None
    else
      let* view :=
        if negb (cnt =? 0) then
          let* v := malloc (cnt + 1) in
          let* name := load msg b cnt in
          let* _ := memcpy_to v name in
          let* _ := poke v cnt Byte.x00 in
          ret v
        else
          let* v := malloc 1 in
          let* _ := memcpy_to v [Byte.x00] in
          ret v in
      let b := b + cnt in
      let len := u32 (len - cnt) in
      if len <? 2 then v2_peer_fail (Some view)
      else
        let* cnt := load16 msg b in
        let* peers := v2_peer_entries (Z.to_nat cnt) msg (b + 2)
                                      (u32 (len - 2)) [] in
        match peers with
        | None => v2_peer_fail (Some view)
        | Some peers => ret (Some (mk_peer (Some view) (Some peers) bid cnt))
        end.

(** ** mrt_parse_v2_rib *)

Definition re_set_entry_hdr (pix otm pid : Z) (re : mrt_rib_entry) :=
  mk_re (re_aspath re) (re_attrs re) (re_nexthop re) otm (re_local_pref re)
        (re_med re) pid pix (re_aspath_len re) (re_nattrs re) (re_origin re).

Definition re_set_originated (otm : Z) (re : mrt_rib_entry) :=
  mk_re (re_aspath re) (re_attrs re) (re_nexthop re) otm (re_local_pref re)
        (re_med re) (re_path_id re) (re_peer_idx re) (re_aspath_len re)
        (re_nattrs re) (re_origin re).

(** The loop over the RIB entries; [path_id] keeps its value from one turn
    to the next.  Returns [None] when it left through [goto fail]. *)
Fixpoint v2_rib_entries (turns : nat) (msg : list byte) (b len : Z)
    (add_path : Z) (aid : aid_t) (path_id : Z)
    (entries : list mrt_rib_entry) : M (option (list mrt_rib_entry)) :=
  match turns with
  | O => ret (Some entries)
  | S turns' =>
      if len <? 2 * 2 + 4 then ret None
      else
        let* pix := load16 msg b in
        let* otm := load32 msg (b + 2) in
        let b := b + 2 + 4 in
        let len := u32 (len - 2 - 4) in
        let attrs (b len path_id : Z) :=
          let* alen := load16 msg b in
          let b := b + 2 in
          let len := u32 (len - 2) in
          if len <? alen then ret None
          else
            let* (r, re) := mrt_extract_attr msg
                              (re_set_entry_hdr pix otm path_id re_zero)
                              b alen aid true in
            if r =? -1 then ret None
            else v2_rib_entries turns' msg (b + alen) (u32 (len - alen))
                   add_path aid path_id (entries ++ [re]) in
        if negb (add_path =? 0) then
          if len <? 4 + 2 then ret None
          else
            let* path_id := load32 msg b in
            attrs (b + 4) (u32 (len - 4)) path_id
        else attrs b len path_id
  end.

Definition mrt_parse_v2_rib (nlri : nlri_ops) (hdr : mrt_hdr) (msg : list byte)
    (verbose : bool) : M (option mrt_rib) :=
  let len := h_length hdr in
  if len <? 4 + 1 then ret None
  else
    let* snum := load32 msg 0 in
    let b := 4 in
    let len := u32 (len - 4) in
    let st := h_subtype hdr in
    let add_path :=
      if bool_decide (st ∈ [MRT_DUMP_V2_RIB_IPV4_UNICAST_ADDPATH;
                            MRT_DUMP_V2_RIB_IPV4_MULTICAST_ADDPATH;
                            MRT_DUMP_V2_RIB_IPV6_UNICAST_ADDPATH;
                            MRT_DUMP_V2_RIB_IPV6_MULTICAST_ADDPATH;
                            MRT_DUMP_V2_RIB_GENERIC_ADDPATH])
      then 1 else 0 in
    (* after the switch: the prefix was decoded from [used] bytes *)
    let rest (b len : Z) (prefix : bgpd_addr) (prefixlen used : Z) :=
      let b := b + used in
      let len := u32 (len - used) in
      if len <? 2 then ret None
      else
        let* cnt := load16 msg b in
        let* entries := v2_rib_entries (Z.to_nat cnt) msg (b + 2)
                          (u32 (len - 2)) add_path (ba_aid prefix) 0 [] in
        match entries with
        | None => ret None
        | Some entries =>
            ret (Some (mk_rib (Some entries) prefix snum cnt prefixlen add_path))
        end in
    let with_prefix (b len : Z) (aid : aid_t) :=
      let* (r, prefix, prefixlen) := mrt_extract_prefix nlri msg b len aid verbose in
      if r =? -1 then ret None else rest b len prefix prefixlen r in
    if bool_decide (st ∈ [MRT_DUMP_V2_RIB_IPV4_UNICAST_ADDPATH;
                          MRT_DUMP_V2_RIB_IPV4_MULTICAST_ADDPATH;
                          MRT_DUMP_V2_RIB_IPV4_UNICAST;
                          MRT_DUMP_V2_RIB_IPV4_MULTICAST])
    then with_prefix b len AID_INET
    else if bool_decide (st ∈ [MRT_DUMP_V2_RIB_IPV6_UNICAST_ADDPATH;
                               MRT_DUMP_V2_RIB_IPV6_MULTICAST_ADDPATH;
                               MRT_DUMP_V2_RIB_IPV6_UNICAST;
                               MRT_DUMP_V2_RIB_IPV6_MULTICAST])
    then with_prefix b len AID_INET6
    else if bool_decide (st ∈ [MRT_DUMP_V2_RIB_GENERIC_ADDPATH;
                               MRT_DUMP_V2_RIB_GENERIC])
    then
      if len <? 3 then ret None
      else
        let* afi := load16 msg b in
        let* safi := load8 msg (b + 2) in
        let* aid := mrt_afi2aid afi safi verbose in
        if bool_decide (aid = AID_UNSPEC) then ret None
        else with_prefix (b + 3) (u32 (len - 3)) aid
    else err "unknown subtype".

(** ** mrt_parse_dump and mrt_parse_dump_mp *)

(** [*pp] after the first lines: the context that exists, or the one made
    for legacy records, with a single zeroed entry. *)
Definition peer_singleton (pp : option mrt_peer) : mrt_peer :=
  match pp with
  | Some p => p
  | None => mk_peer None (Some [pe_zero]) 0 1
  end.

(** A store through [p->peers], that is into the first entry of the array. *)
Definition peers_update (f : mrt_peer_entry -> mrt_peer_entry) (p : mrt_peer)
    : M mrt_peer :=
  match p_peers p with
  | Some (pe :: rest) =>
      ret (mk_peer (p_view p) (Some (f pe :: rest)) (p_bgp_id p) (p_npeers p))
  | _ => fault "write outside the allocation"
  end.

Definition pe_set_addr (ad : bgpd_addr) (pe : mrt_peer_entry) :=
  mk_pe ad (pe_bgp_id pe) (pe_asnum pe).
Definition pe_set_asnum (asn : Z) (pe : mrt_peer_entry) :=
  mk_pe (pe_addr pe) (pe_bgp_id pe) asn.

(** The [fail:] label of both functions: the rib holds the one entry. *)
Definition dump_fail (p : mrt_peer) (re : mrt_rib_entry)
    : M (Z * option mrt_peer * option mrt_rib) :=
  let* _ := mrt_free_rib (mk_rib (Some [re]) addr_zero 0 1 0 0) in
  ret (-1, Some p, None).

(** Returns the C return value, [*pp] and, on success, [*rp]. *)
Definition mrt_parse_dump (hdr : mrt_hdr) (msg : list byte)
    (pp : option mrt_peer) : M (Z * option mrt_peer * option mrt_rib) :=
  let len := h_length hdr in
  let p := peer_singleton pp in
  let re := re_zero in
  if len <? 2 * 2 then dump_fail p re
  else
    let* seqnum := load16 msg 2 in
    let b := 4 in
    let len := u32 (u32 (len - 2) - 2) in
    let aid_of_subtype :=
      if h_subtype hdr =? MRT_DUMP_AFI_IP then Some (AID_INET, 4)
      else if h_subtype hdr =? MRT_DUMP_AFI_IPv6 then Some (AID_INET6, 16)
      else None in
    (* after the second switch *)
    let tail (p : mrt_peer) (prefix : bgpd_addr) (prefixlen otm b len : Z) :=
      let* asnum := load16 msg b in
      let* p := peers_update (pe_set_asnum asnum) p in
      let* alen := load16 msg (b + 2) in
      let b := b + 2 + 2 in
      let len := u32 (u32 (len - 2) - 2) in
      let re := re_set_originated otm re in
      if len <? alen then dump_fail p re
      else
        let* (r, re) := mrt_extract_attr msg re b alen (ba_aid prefix) false in
        if r =? -1 then dump_fail p re
        else ret (0, Some p,
                  Some (mk_rib (Some [re]) prefix seqnum 1 prefixlen 0)) in
    (* after the first switch *)
    let middle (prefix : bgpd_addr) (b len : Z) :=
      if len <? 2 * 4 + 2 * 2 + 2 then dump_fail p re
      else
        let* prefixlen := load8 msg b in
        let* otm := load32 msg (b + 2) in
        let b := b + 1 + 1 + 4 in
        let len := u32 (len - 1 - 1 - 4) in
        match aid_of_subtype with
        | Some (aid, sz) =>
            let* (r, ad) := mrt_extract_addr msg b len aid in
            let* p := peers_update (pe_set_addr ad) p in
            if r =? -1 then dump_fail p (re_set_originated otm re)
            else tail p prefix prefixlen otm (b + sz) (u32 (len - sz))
        | None => tail p prefix prefixlen otm b len
        end in
    match aid_of_subtype with
    | Some (aid, sz) =>
        let* (r, prefix) := mrt_extract_addr msg b len aid in
        if r =? -1 then dump_fail p re
        else middle prefix (b + sz) (u32 (len - sz))
    | None => middle addr_zero b len
    end.

Definition mrt_parse_dump_mp (nlri : nlri_ops) (hdr : mrt_hdr)
    (msg : list byte) (pp : option mrt_peer) (verbose : bool)
    : M (Z * option mrt_peer * option mrt_rib) :=
  let len := h_length hdr in
  let '(b, len) :=
    if h_type hdr =? MSG_PROTOCOL_BGP4MP_ET then (4, u32 (len - 4))
    else (0, len) in
  let p := peer_singleton pp in
  let re := re_zero in
  if len <? 4 * 2 then dump_fail p re
  else
    let* asnum := load16 msg (b + 2) in
    let* p := peers_update (pe_set_asnum asnum) p in
    let* afi := load16 msg (b + 2 + 2 + 2) in
    let b := b + 4 * 2 in
    let len := u32 (len - 4 * 2) in
    (* after the switch on the first afi *)
    let tail (p : mrt_peer) (b len : Z) :=
      if len <? 2 * 2 + 2 * 4 then dump_fail p re
      else
        let* otm := load32 msg (b + 2 * 2) in
        let re := re_set_originated otm re in
        let* afi := load16 msg (b + 2 * 2 + 4) in
        let* safi := load8 msg (b + 2 * 2 + 4 + 2) in
        let* aid := mrt_afi2aid afi safi verbose in
        if bool_decide (aid = AID_UNSPEC) then dump_fail p re
        else
          let* nhlen := load8 msg (b + 2 * 2 + 4 + 2 + 1) in
          let b := b + 2 * 2 + 4 + 2 + 1 + 1 in
          let len := u32 (len - 2 * 2 - 4 - 2 - 1 - 1) in
          let* (r, nh) := mrt_extract_addr msg b len aid in
          let re := re_set_nexthop nh re in
          if r =? -1 then dump_fail p re
          else if len <? nhlen then dump_fail p re
          else
            let b := b + nhlen in
            let len := u32 (len - nhlen) in
            let* (r, prefix, prefixlen) :=
              mrt_extract_prefix nlri msg b len aid verbose in
            if r =? -1 then dump_fail p re
            else
              let b := b + r in
              let len := u32 (len - r) in
              let* alen := load16 msg b in
              let b := b + 2 in
              let len := u32 (len - 2) in
              if len <? alen then dump_fail p re
              else
                let* (r, re) := mrt_extract_attr msg re b alen
                                  (ba_aid prefix) false in
                if r =? -1 then dump_fail p re
                else ret (0, Some p,
                          Some (mk_rib (Some [re]) prefix 0 1 prefixlen 0)) in
    let skip_addrs (aid : aid_t) (sz : Z) :=
      if len <? 2 * sz then dump_fail p re
      else
        let b := b + sz in
        let len := u32 (len - sz) in
        let* (r, ad) := mrt_extract_addr msg b len aid in
        let* p := peers_update (pe_set_addr ad) p in
        if r =? -1 then dump_fail p re
        else tail p (b + sz) (u32 (len - sz)) in
    if afi =? MRT_DUMP_AFI_IP then skip_addrs AID_INET 4
    else if afi =? MRT_DUMP_AFI_IPv6 then skip_addrs AID_INET6 16
    else tail p b len.

(** ** mrt_parse_state and mrt_parse_msg *)

(** The microsecond field of the [_ET] header and the common fields. *)
Definition bgp4mp_common (hdr : mrt_hdr) (msg : list byte) (as4 : bool)
    : M (option (Z * Z * Z * Z * Z * Z)) :=
  let len := h_length hdr in
  let* (b, len, nsec) :=
    if h_type hdr =? MSG_PROTOCOL_BGP4MP_ET then
      let* usec := load32 msg 0 in
      ret (4, u32 (len - 4), u32 (usec * 1000))
    else ret (0, len, 0) in
  if as4 then
    if len <? 12 then ret None
    else
      let* sas := load32 msg b in
      let* das := load32 msg (b + 4) in
      let* afi := load16 msg (b + 4 + 4 + 2) in
      ret (Some (b + 12, u32 (len - 12), nsec, sas, das, afi))
  else
    if len <? 8 then ret None
    else
      let* sas := load16 msg b in
      let* das := load16 msg (b + 2) in
      let* afi := load16 msg (b + 2 + 2 + 2) in
      ret (Some (b + 8, u32 (len - 8), nsec, sas, das, afi)).

Definition mrt_parse_state (hdr : mrt_hdr) (msg : list byte) (verbose : bool)
    : M (option mrt_bgp_state) :=
  let st := h_subtype hdr in
  if negb ((st =? BGP4MP_STATE_CHANGE) || (st =? BGP4MP_STATE_CHANGE_AS4))
  then
    (* the microsecond field is read before the switch *)
    let* _ := (if h_type hdr =? MSG_PROTOCOL_BGP4MP_ET
               then let* _ := load32 msg 0 in ret tt else ret tt) in
    err "mrt_parse_state: bad subtype"
  else
    let* c := bgp4mp_common hdr msg (st =? BGP4MP_STATE_CHANGE_AS4) in
    match c with
    | None => ret None
    | Some (b, len, nsec, sas, das, afi) =>
        let* aid := mrt_afi2aid afi (-1) verbose in
        if bool_decide (aid = AID_UNSPEC) then ret None
        else
          let* (r, src) := mrt_extract_addr msg b len aid in
          if r =? -1 then ret None
          else
            let b := b + r in
            let len := u32 (len - r) in
            let* (r, dst) := mrt_extract_addr msg b len aid in
            if r =? -1 then ret None
            else
              let b := b + r in
              let* old_state := load16 msg b in
              let* new_state := load16 msg (b + 2) in
              ret (Some (mk_state (h_timestamp hdr) nsec src dst sas das
                                  old_state new_state))
    end.

Definition mrt_parse_msg (hdr : mrt_hdr) (msg : list byte) (verbose : bool)
    : M (option mrt_bgp_msg) :=
  let st := h_subtype hdr in
  let as2 := bool_decide (st ∈ [BGP4MP_MESSAGE_ADDPATH;
                                BGP4MP_MESSAGE_LOCAL_ADDPATH;
                                BGP4MP_MESSAGE; BGP4MP_MESSAGE_LOCAL]) in
  let as4 := bool_decide (st ∈ [BGP4MP_MESSAGE_AS4_ADDPATH;
                                BGP4MP_MESSAGE_AS4_LOCAL_ADDPATH;
                                BGP4MP_MESSAGE_AS4;
                                BGP4MP_MESSAGE_AS4_LOCAL]) in
  let addpath :=
    if bool_decide (st ∈ [BGP4MP_MESSAGE_ADDPATH; BGP4MP_MESSAGE_LOCAL_ADDPATH;
                          BGP4MP_MESSAGE_AS4_ADDPATH;
                          BGP4MP_MESSAGE_AS4_LOCAL_ADDPATH])
    then 1 else 0 in
  if negb (as2 || as4) then
    let* _ := (if h_type hdr =? MSG_PROTOCOL_BGP4MP_ET
               then let* _ := load32 msg 0 in ret tt else ret tt) in
    err "mrt_parse_msg: bad subtype"
  else
    let* c := bgp4mp_common hdr msg as4 in
    match c with
    | None => ret None
    | Some (b, len, nsec, sas, das, afi) =>
        let* aid := mrt_afi2aid afi (-1) verbose in
        if bool_decide (aid = AID_UNSPEC) then ret None
        else
          let* (r, src) := mrt_extract_addr msg b len aid in
          if r =? -1 then ret None
          else
            let b := b + r in
            let len := u32 (len - r) in
            let* (r, dst) := mrt_extract_addr msg b len aid in
            if r =? -1 then ret None
            else
              let b := b + r in
              let len := u32 (len - r) in
              if len >? 0 then
                let* m := malloc len in
                let* bs := load msg b len in
                let* _ := memcpy_to m bs in
                ret (Some (mk_msg (h_timestamp hdr) nsec src dst sas das
                                  addpath len (Some m)))
              else
                ret (Some (mk_msg (h_timestamp hdr) nsec src dst sas das
                                  addpath 0 None))
    end.

(** ** mrt_read_buf and mrt_read_msg *)

(** The loop of [mrt_read_buf] over the calls of read(2) that [reads]
    foretells; once the list is used up, every call delivers all the bytes
    asked for, or those that are left.  Returns the bytes stored in the
    buffer, the rest of the file and of the list, or [None] for [err]. *)
Fixpoint read_loop (reads : list read_step) (file : list byte) (len : nat)
    (got : list byte) : option (list byte * list byte * list read_step) :=
  match len with
  | O => Some (got, file, reads)
  | S _ =>
      match reads with
      | [] => Some (got ++ take len file, drop len file, [])
      | RdEintr :: reads' => read_loop reads' file len got
      | RdError :: _ => None
      | RdChunk n :: reads' =>
          let k := Nat.min (Nat.max 1 n) len in
          match take k file with
          | [] => Some (got, file, reads')
          | chunk =>
              read_loop reads' (drop k file) (len - length chunk)
                        (got ++ chunk)
          end
      end
  end.

(** Returns the bytes read; their number is the C return value. *)
Definition mrt_read_buf (len : Z) : M (list byte) :=
  fun w =>
    match read_loop (w_reads w) (w_file w) (Z.to_nat len) [] with
    | Some (got, file, reads) =>
        Ret got (mk_world (w_heap w) (w_next w) (w_out w) file reads)
    | None => Exit "read" w
    end.

Definition hdr_of_bytes (bs : list byte) : mrt_hdr :=
  mk_hdr (be_uint (slice bs 0 4)) (be_uint (slice bs 4 2))
         (be_uint (slice bs 6 2)) (be_uint (slice bs 8 4)).

(** Returns [None] for NULL, else the header and the record buffer, which
    holds exactly [length] bytes; the buffer is kept as a value. *)
Definition mrt_read_msg : M (option (mrt_hdr * list byte)) :=
  let* hb := mrt_read_buf 12 in
  if negb (Z.of_nat (length hb) =? 12) then ret None
  else
    let hdr := hdr_of_bytes hb in
    let* buf := mrt_read_buf (h_length hdr) in
    if negb (Z.of_nat (length buf) =? h_length hdr) then ret None
    else ret (Some (hdr, buf)).

(** ** mrt_parse *)

(** [struct mrt_parser]: which of the callbacks are set. *)
Record mrt_parser : Type := mk_parser {
  mp_dump : bool;
  mp_state : bool;
  mp_message : bool
}.

Definition heap_now : M (gmap nat (list byte)) := fun w => Ret (w_heap w) w.

(** [if (p->dump) p->dump(r, pctx, p->arg); mrt_free_rib(r);] *)
Definition deliver_rib (p : mrt_parser) (r : mrt_rib) (pctx : option mrt_peer)
    : M unit :=
  let* _ := (if mp_dump p
             then let* h := heap_now in emit (EvDump r pctx h)
             else ret tt) in
  mrt_free_rib r.

(** The body of the [while] loop for one record: the switch on the type.
    Returns the peer context for the next record. *)
Definition mrt_dispatch (nlri : nlri_ops) (p : mrt_parser) (verbose : bool)
    (h : mrt_hdr) (msg : list byte) (pctx : option mrt_peer)
    : M (option mrt_peer) :=
  let type := h_type h in
  let st := h_subtype h in
  let skip (fmt : string) (n : Z) :=
    let* _ := printf verbose fmt [n] in ret pctx in
  if type =? MSG_TABLE_DUMP then
    if (st =? MRT_DUMP_AFI_IP) || (st =? MRT_DUMP_AFI_IPv6) then
      if negb (mp_dump p) then ret pctx
      else
        let* (r, pctx, rib) := mrt_parse_dump h msg pctx in
        match rib with
        | Some rib => let* _ := deliver_rib p rib pctx in ret pctx
        | None => ret pctx
        end
    else skip "unknown AFI %d in table dump"%string st
  else if type =? MSG_TABLE_DUMP_V2 then
    if st =? MRT_DUMP_V2_PEER_INDEX_TABLE then
      if negb (mp_dump p) then ret pctx
      else
        let* _ := (match pctx with
                   | Some c => mrt_free_peers c
                   | None => ret tt
                   end) in
        mrt_parse_v2_peer h msg
    else if bool_decide (st ∈ [MRT_DUMP_V2_RIB_IPV4_UNICAST;
                               MRT_DUMP_V2_RIB_IPV4_MULTICAST;
                               MRT_DUMP_V2_RIB_IPV6_UNICAST;
                               MRT_DUMP_V2_RIB_IPV6_MULTICAST;
                               MRT_DUMP_V2_RIB_GENERIC;
                               MRT_DUMP_V2_RIB_IPV4_UNICAST_ADDPATH;
                               MRT_DUMP_V2_RIB_IPV4_MULTICAST_ADDPATH;
                               MRT_DUMP_V2_RIB_IPV6_UNICAST_ADDPATH;
                               MRT_DUMP_V2_RIB_IPV6_MULTICAST_ADDPATH;
                               MRT_DUMP_V2_RIB_GENERIC_ADDPATH])
    then
      if negb (mp_dump p) then ret pctx
      else
        let* r := mrt_parse_v2_rib nlri h msg verbose in
        match r with
        | Some rib => let* _ := deliver_rib p rib pctx in ret pctx
        | None => ret pctx
        end
    else skip "unhandled DUMP_V2 subtype %d"%string st
  else if (type =? MSG_PROTOCOL_BGP4MP_ET) || (type =? MSG_PROTOCOL_BGP4MP)
  then
    if (st =? BGP4MP_STATE_CHANGE) || (st =? BGP4MP_STATE_CHANGE_AS4) then
      let* s := mrt_parse_state h msg verbose in
      match s with
      | Some s =>
          let* _ := (if mp_state p then emit (EvState s) else ret tt) in
          ret pctx
      | None => ret pctx
      end
    else if bool_decide (st ∈ [BGP4MP_MESSAGE; BGP4MP_MESSAGE_AS4;
                               BGP4MP_MESSAGE_LOCAL; BGP4MP_MESSAGE_AS4_LOCAL;
                               BGP4MP_MESSAGE_ADDPATH;
                               BGP4MP_MESSAGE_AS4_ADDPATH;
                               BGP4MP_MESSAGE_LOCAL_ADDPATH;
                               BGP4MP_MESSAGE_AS4_LOCAL_ADDPATH])
    then
      let* m := mrt_parse_msg h msg verbose in
      match m with
      | Some m =>
          let* _ := (if mp_message p
                     then let* hp := heap_now in emit (EvMessage m hp)
                     else ret tt) in
          let* _ := free (m_msg m) in
          ret pctx
      | None => ret pctx
      end
    else if st =? BGP4MP_ENTRY then
      if negb (mp_dump p) then ret pctx
      else
        let* (r, pctx, rib) := mrt_parse_dump_mp nlri h msg pctx verbose in
        match rib with
        | Some rib => let* _ := deliver_rib p rib pctx in ret pctx
        | None => ret pctx
        end
    else skip "unhandled BGP4MP subtype %d"%string st
  else if msg_deprecated type then skip "deprecated MRT type %d"%string type
  else if msg_unsupported type then skip "unsupported MRT type %d"%string type
  else skip "unknown MRT type %d"%string type.

(** The [while] loop; every turn takes at least the 12 bytes of a header
    from the file. *)
Fixpoint mrt_parse_loop (fuel : nat) (nlri : nlri_ops) (p : mrt_parser)
    (verbose : bool) (pctx : option mrt_peer) : M unit :=
  match fuel with
  | O => out_of_fuel
  | S fuel' =>
      let* m := mrt_read_msg in
      match m with
      | None =>
          match pctx with
          | Some c => mrt_free_peers c
          | None => ret tt
          end
      | Some (h, msg) =>
          let* pctx := mrt_dispatch nlri p verbose h msg pctx in
          mrt_parse_loop fuel' nlri p verbose pctx
      end
  end.

Definition mrt_parse (nlri : nlri_ops) (p : mrt_parser) (verbose : bool)
    : M unit :=
  fun w => mrt_parse_loop (S (length (w_file w))) nlri p verbose None w.

(** The world in which the process starts reading [file]. *)
Definition world_of (file : list byte) (reads : list read_step) : world :=
  mk_world ∅ 0 [] file reads.

(** * Vocabulary of the specification *)

Arguments u8 : simpl never.
Arguments u16 : simpl never.
Arguments u32 : simpl never.

(** The bytes [l] sit in [buf] at offset [off]. *)
Definition at_off (buf : list byte) (off : Z) (l : list byte) : Prop :=
  0 <= off /\ exists post, drop (Z.to_nat off) buf = l ++ post.

Definition with_block (p : ptr) (blk : list byte) (w : world) : world :=
  set_heap <[p := blk]> w.

Definition as_seg : Type := byte * list Z.

Definition seg_enc (width : nat) (s : as_seg) : list byte :=
  s.1 :: byte.of_Z (Z.of_nat (length s.2)) :: flat_map (be_bytes width) s.2.

Definition aspath_enc (width : nat) (segs : list as_seg) : list byte :=
  flat_map (seg_enc width) segs.

Definition aspath_deflate (segs : list as_seg) : list byte := aspath_enc 2 segs.

Definition seg_wf (s : as_seg) : Prop :=
  (length s.2 <= 255)%nat /\ Forall (fun a => 0 <= a < 2 ^ 16) s.2.

Definition inflated_size (segs : list as_seg) : Z :=
  fold_right (fun s acc => 2 + 4 * Z.of_nat (length s.2) + acc) 0 segs.

(** The loop reaches the state [s'] from [s] after some successful turns. *)
Inductive attr_reach (buf : list byte) (aid : aid_t) (as4 : bool)
    : mrt_rib_entry * Z * Z * world -> mrt_rib_entry * Z * Z * world -> Prop :=
| reach_here s : attr_reach buf aid as4 s s
| reach_turn re a alen w re1 a1 alen1 w1 s :
    attr_body buf aid as4 re a alen w = Ret (AttrNext re1 a1 alen1) w1 ->
    0 < alen1 ->
    attr_reach buf aid as4 (re1, a1, alen1, w1) s ->
    attr_reach buf aid as4 (re, a, alen, w) s.

(** The wire form of a path attribute header: flags, type, and the length
    on one byte, or on two when the extended-length flag is set. *)
Definition extlen (flags : byte) : bool :=
  negb (Z.land (byte.unsigned flags) MRT_ATTR_EXTLEN =? 0).

Definition attr_hdr (flags type : byte) (attr_len : Z) : list byte :=
  if extlen flags then [flags; type] ++ be_bytes 2 attr_len
  else [flags; type; byte.of_Z attr_len].

Definition attr_len_ok (flags : byte) (attr_len : Z) : Prop :=
  0 <= attr_len <= (if extlen flags then 65535 else 255).

Definition attr_tlv (flags type : byte) (payload : list byte) : list byte :=
  attr_hdr flags type (Z.of_nat (length payload)) ++ payload.

(** The invariant of the unknown-attribute array: [nattrs] counts it and
    stays below [UCHAR_MAX]. *)
Definition re_attrs_ok (re : mrt_rib_entry) : Prop :=
  re_nattrs re = Z.of_nat (length (re_attrs re)) /\ re_nattrs re <= 254.

Definition attr_next_entry (n : attr_next) : mrt_rib_entry :=
  match n with AttrReturn _ re => re | AttrNext re _ _ => re end.

(** A type that no case of the switch handles (AS4_PATH is one of them when
    the path is already in 4-byte form). *)
Definition unknown_attr (as4 : bool) (type : byte) : Prop :=
  let t := byte.unsigned type in
  t <> MRT_ATTR_ORIGIN /\ t <> MRT_ATTR_ASPATH /\ t <> MRT_ATTR_NEXTHOP /\
  t <> MRT_ATTR_MED /\ t <> MRT_ATTR_LOCALPREF /\ t <> MRT_ATTR_MP_REACH_NLRI /\
  (t = MRT_ATTR_AS4PATH -> as4 = true).

(** The world after [malloc] of a buffer that then receives [bs]. *)
Definition alloc_world (bs : list byte) (w : world) : world :=
  mk_world (<[w_next w := bs]> (w_heap w)) (S (w_next w))
           (w_out w) (w_file w) (w_reads w).

(** The pointer stored in [re->aspath] is NULL or a live allocation. *)
Definition aspath_live (re : mrt_rib_entry) (w : world) : Prop :=
  match re_aspath re with
  | Some q => is_Some (w_heap w !! q)
  | None => True
  end.

(** The heap after [free(p)]. *)
Definition heap_free (p : option ptr) (h : gmap nat (list byte))
    : gmap nat (list byte) :=
  match p with Some q => delete q h | None => h end.

Record peer_wire : Type := mk_pw {
  pw_type : byte;
  pw_bgp_id : Z;
  pw_addr : list byte;
  pw_asn : Z
}.

Definition pw_bit (bit : Z) (e : peer_wire) : bool :=
  negb (Z.land (byte.unsigned (pw_type e)) bit =? 0).

Definition peer_wire_enc (e : peer_wire) : list byte :=
  [pw_type e] ++ be_bytes 4 (pw_bgp_id e) ++ pw_addr e ++
  be_bytes (if pw_bit MRT_DUMP_V2_PEER_BIT_A e then 4 else 2) (pw_asn e).

Definition peer_wire_wf (e : peer_wire) : Prop :=
  0 <= pw_bgp_id e < 2 ^ 32 /\
  length (pw_addr e) = (if pw_bit MRT_DUMP_V2_PEER_BIT_I e then 16 else 4)%nat /\
  0 <= pw_asn e < (if pw_bit MRT_DUMP_V2_PEER_BIT_A e then 2 ^ 32 else 2 ^ 16).

(** The entry of the peer context for an entry of the wire: an IPv6
    address is the 16 bytes of the wire; an IPv4 address is the 4 bytes
    of the wire, and the other 12 bytes of the address union are zero. *)
Definition peer_of_wire (e : peer_wire) : mrt_peer_entry :=
  mk_pe (if pw_bit MRT_DUMP_V2_PEER_BIT_I e
         then mk_addr AID_INET6 (pw_addr e)
         else mk_addr AID_INET (pw_addr e ++ replicate 12 Byte.x00))
        (pw_bgp_id e) (pw_asn e).

Definition peer_index_wire (collector : Z) (view : list byte)
    (entries : list peer_wire) : list byte :=
  be_bytes 4 collector ++ be_bytes 2 (Z.of_nat (length view)) ++ view ++
  be_bytes 2 (Z.of_nat (length entries)) ++ flat_map peer_wire_enc entries.

Definition peer_wire_size (e : peer_wire) : Z :=
  Z.of_nat (length (peer_wire_enc e)).

(** No call of read(2) fails. *)
Definition reads_succeed (reads : list read_step) : Prop :=
  Forall (fun r => r <> RdError) reads.

(** What is left of the file is a truncated record: less than a header, or
    a header and less payload than its length field says. *)
Definition record_truncated (file : list byte) : Prop :=
  (length file < 12)%nat \/
  Z.of_nat (length file) - 12 < h_length (hdr_of_bytes (take 12 file)).

(** The view name of the peer context is NULL or a live allocation. *)
Definition peers_live (pctx : option mrt_peer) (w : world) : Prop :=
  match pctx with
  | Some c =>
      match p_view c with
      | Some v => is_Some (w_heap w !! v)
      | None => True
      end
  | None => True
  end.

Definition rib_entries_capped (r : mrt_rib) : Prop :=
  exists entries,
    r_entries r = Some entries /\
    Forall (fun re => Z.of_nat (length (re_attrs re)) <= 254) entries.

(** ** Termination *)

(** [m] ends (it does not exhaust the fuel of a loop), leaves the file
    descriptor alone, and what it returns satisfies [Q]. *)
Definition runs {A} (m : M A) (Q : A -> Prop) : Prop :=
  forall w,
    match m w with
    | Ret a w' => Q a /\ w_file w' = w_file w /\ w_reads w' = w_reads w
    | Exit _ w' | Fault _ w' => w_file w' = w_file w /\ w_reads w' = w_reads w
    | OutOfFuel => False
    end.

(** ** Concrete records and attribute blocks *)

(** The common header on the wire. *)
Definition hdr_wire (ts type subtype len : Z) : list byte :=
  be_bytes 4 ts ++ be_bytes 2 type ++ be_bytes 2 subtype ++ be_bytes 4 len.

Definition dump_only : mrt_parser := mk_parser true false false.

(** A BGP4MP STATE_CHANGE record whose 16 bytes of payload end after the
    two IPv4 addresses. *)
Definition state_record_short : list byte :=
  hdr_wire 0 16 0 16 ++
  bytes_of [0; 1; 0; 2; 0; 0; 0; 1; 10; 0; 0; 1; 10; 0; 0; 2].

(** A PEER_INDEX_TABLE record with one peer entry (IPv4, 2-byte AS) whose
    17 bytes of payload end before the AS number. *)
Definition peer_record_short : list byte :=
  hdr_wire 0 13 1 17 ++
  bytes_of [1; 2; 3; 4; 0; 0; 0; 1; 0; 10; 0; 0; 1; 192; 0; 2; 1].

(** A BGP4MP_ENTRY record whose 36 bytes of payload end after the prefix. *)
Definition entry_record_short : list byte :=
  hdr_wire 0 16 2 36 ++
  bytes_of [0; 1; 0; 2; 0; 0; 0; 1; 10; 0; 0; 1; 10; 0; 0; 2;
            0; 0; 0; 0; 0; 0; 0; 9; 0; 1; 1; 4; 10; 0; 0; 2;
            24; 192; 0; 2].

(** An attribute block of 5 bytes, an optional attribute of type 99 that
    declares 10 bytes of payload where 2 are left, and the 8 bytes that
    follow the block in its record. *)
Definition overlong_block : list byte := bytes_of [0x80; 99; 10; 1; 2].
Definition overlong_after : list byte := bytes_of [0; 1; 0; 0; 0; 9; 0; 4].

(** A TABLE_DUMP_V2 RIB_IPV4_UNICAST record with two entries; the first
    carries [overlong_block]. *)
Definition overlong_record : list byte :=
  hdr_wire 0 13 2 35 ++
  bytes_of [0; 0; 0; 1; 24; 10; 0; 0; 0; 2] ++
  bytes_of [0; 0; 0; 0; 0; 9; 0; 5] ++ overlong_block ++
  bytes_of [0; 1; 0; 0; 0; 9; 0; 4; 0x40; 1; 1; 0].

(** An MP_REACH_NLRI attribute that declares 2 bytes of payload, and the
    bytes that follow it in its record. *)
Definition short_mp_reach : list byte := bytes_of [0x80; 14; 2; 0; 2].
Definition short_mp_after : list byte :=
  bytes_of [0; 1; 101; 102; 103; 104; 105; 106; 107; 108; 109; 110; 111;
            112; 113; 114; 115; 116; 117; 118].

(** An AS path of 65 segments of 255 AS numbers: 33280 bytes with 2-byte
    AS numbers, 66430 bytes with 4-byte ones. *)
Definition long_path : list as_seg := replicate 65 (Byte.x02, replicate 255 1).

(** An AS path whose 4-byte form has exactly 65536 bytes. *)
Definition wrap_path : list as_seg :=
  replicate 64 (Byte.x02, replicate 255 1) ++
  [(Byte.x02, replicate 31 1); (Byte.x02, [])].

(** The path 100 200 as one AS_SEQUENCE. *)
Definition small_path : list as_seg := [(Byte.x02, [100; 200])].

(** An AS_PATH attribute with 2-byte AS numbers followed by an AS4_PATH
    attribute, and the state of the loop between the two. *)
Definition as4_payload : list byte := bytes_of [2; 2; 0; 0; 0; 100; 0; 0; 0; 200].
Definition as4_block : list byte :=
  bytes_of [0x40; 2; 6; 2; 2; 0; 100; 0; 200] ++
  attr_tlv (byte.of_Z 0xC0) (byte.of_Z MRT_ATTR_AS4PATH) as4_payload.
Definition as4_re1 : mrt_rib_entry :=
  re_set_aspath (Some 0%nat) (re_set_aspath_len 10 re_zero).
Definition as4_w1 : world := alloc_world (aspath_enc 4 small_path) w0.
Definition as4_w2 : world :=
  alloc_world as4_payload (set_heap (heap_free (Some 0%nat)) as4_w1).

(** A peer index table: view name [ab], the IPv6 peer 2001:db8::1 with a
    4-byte AS number and the IPv4 peer 192.0.2.1 with a 2-byte one; and
    the peer context that it is decoded to. *)
Definition peer_table_entries : list peer_wire :=
  [mk_pw (byte.of_Z 3) 0x0A000001
         (bytes_of [0x20; 1; 0x0d; 0xb8; 0; 0; 0; 0; 0; 0; 0; 0; 0; 0; 0; 1])
         4200000000;
   mk_pw (byte.of_Z 0) 0x0A000002 (bytes_of [192; 0; 2; 1]) 64512].
Definition peer_table_msg : list byte :=
  peer_index_wire 0x01020304 (bytes_of [97; 98]) peer_table_entries.
Definition peer_table_hdr : mrt_hdr := mk_hdr 0 13 1 46.
Definition peer_table_peers : list mrt_peer_entry :=
  [mk_pe (mk_addr AID_INET6
            (bytes_of [0x20; 1; 0x0d; 0xb8; 0; 0; 0; 0; 0; 0; 0; 0; 0; 0; 0; 1]))
         0x0A000001 4200000000;
   mk_pe (mk_addr AID_INET
            (bytes_of [192; 0; 2; 1; 0; 0; 0; 0; 0; 0; 0; 0; 0; 0; 0; 0]))
         0x0A000002 64512].
Definition peer_table_ctx : mrt_peer :=
  mk_peer (Some 0%nat) (Some peer_table_peers) 0x01020304 2.

(** An entry that already holds 254 unknown attributes. *)
Definition full_entry : mrt_rib_entry :=
  re_set_attrs 254 (replicate 254 (mk_attr 0%nat 3)) re_zero.

(** 255 unknown attributes without payload. *)
Definition many_attrs : list byte :=
  concat (replicate 255 (bytes_of [0x80; 99; 0])).

(** A NEXT_HOP attribute that declares 5 bytes, and one that declares 4. *)
Definition nexthop5_block : list byte := bytes_of [0x40; 3; 5; 10; 0; 0; 1; 0].
Definition nexthop4_block : list byte := bytes_of [0x40; 3; 4; 10; 0; 0; 1].

(** ** Vocabulary of the further properties *)

(** The world with the file descriptor at [file] and the calls of read(2)
    that are to come. *)
Definition at_file (file : list byte) (reads : list read_step) (w : world)
    : world :=
  mk_world (w_heap w) (w_next w) (w_out w) file reads.

(** The loop of [mrt_parse] entered with the peer context [pctx];
    [mrt_parse] enters it with NULL. *)
Definition mrt_parse_from (nlri : nlri_ops) (p : mrt_parser) (verbose : bool)
    (pctx : option mrt_peer) : M unit :=
  fun w => mrt_parse_loop (S (length (w_file w))) nlri p verbose pctx w.

(** The fields of a header fit their width on the wire. *)
Definition hdr_ok (h : mrt_hdr) : Prop :=
  0 <= h_timestamp h < 2 ^ 32 /\ 0 <= h_type h < 2 ^ 16 /\
  0 <= h_subtype h < 2 ^ 16 /\ 0 <= h_length h < 2 ^ 32.

(** A record on the wire: the header, whose length field counts the
    payload, and the payload. *)
Definition record_wire (h : mrt_hdr) (msg : list byte) : list byte :=
  hdr_wire (h_timestamp h) (h_type h) (h_subtype h) (h_length h) ++ msg.

(** A record type that [mrt_parse] steps over when the parser [p] is the
    user's: one that is not BGP4MP, and not a table dump when the dump
    callback is set. *)
Definition skipped_type (p : mrt_parser) (type : Z) : Prop :=
  type <> MSG_PROTOCOL_BGP4MP /\ type <> MSG_PROTOCOL_BGP4MP_ET /\
  (mp_dump p = true -> type <> MSG_TABLE_DUMP /\ type <> MSG_TABLE_DUMP_V2).

(** What the parser may do for the user's [p] and [verbose]: call a
    callback that is set, and print when verbose. *)
Definition event_allowed (p : mrt_parser) (verbose : bool) (e : event) : bool :=
  match e with
  | EvDump _ _ _ => mp_dump p
  | EvState _ => mp_state p
  | EvMessage _ _ => mp_message p
  | EvPrintf _ _ => verbose
  end.

(** From [w] to [w'] the process kept what it had done and did only what
    it may. *)
Definition outputs (p : mrt_parser) (verbose : bool) (w w' : world) : Prop :=
  exists evs,
    w_out w' = w_out w ++ evs /\
    Forall (fun e => event_allowed p verbose e = true) evs.

(** The world in which an outcome leaves the process. *)
Definition final_world {A} (o : outcome A) : option world :=
  match o with
  | Ret _ w | Exit _ w | Fault _ w => Some w
  | OutOfFuel => None
  end.

(** Whatever [m] does, it takes the world along [R]. *)
Definition keeps {A} (R : world -> world -> Prop) (m : M A) : Prop :=
  forall w,
    match m w with
    | Ret _ w' | Exit _ w' | Fault _ w' => R w w'
    | OutOfFuel => True
    end.

(** The bytes [mrt_extract_addr] takes for a family (for a VPN family the
    8 bytes of the route distinguisher come first), and those of the
    address among them. *)
Definition addr_size (aid : aid_t) : Z :=
  match aid with
  | AID_UNSPEC => 0 | AID_INET => 4 | AID_INET6 => 16
  | AID_VPN_IPv4 => 8 + 4 | AID_VPN_IPv6 => 8 + 16
  end.

Definition addr_width (aid : aid_t) : Z :=
  match aid with
  | AID_UNSPEC => 0
  | AID_INET | AID_VPN_IPv4 => 4
  | AID_INET6 | AID_VPN_IPv6 => 16
  end.

(** The address union that holds [bs] at its start and is zero behind. *)
Definition addr_of (aid : aid_t) (bs : list byte) : bgpd_addr :=
  mk_addr aid (bs ++ replicate (16 - length bs) Byte.x00).

(** A path attribute on the wire: flags, type and payload. *)
Definition tlv : Type := byte * byte * list byte.

Definition tlv_enc (t : tlv) : list byte := attr_tlv t.1.1 t.1.2 t.2.

(** An attribute that no case of the switch handles, with a payload that
    its length field can count. *)
Definition tlv_unknown (as4 : bool) (t : tlv) : Prop :=
  unknown_attr as4 t.1.2 /\ attr_len_ok t.1.1 (Z.of_nat (length t.2)).

(** The world after buffers that hold [bss] were allocated one after the
    other, and the array entries that point to them. *)
Definition alloc_all (bss : list (list byte)) (w : world) : world :=
  fold_left (fun w bs => alloc_world bs w) bss w.

Fixpoint attrs_from (q : ptr) (bss : list (list byte)) : list mrt_attr :=
  match bss with
  | [] => []
  | bs :: bss' => mk_attr q (Z.of_nat (length bs)) :: attrs_from (S q) bss'
  end.

(** The RIB entry header of TABLE_DUMP_V2 on the wire, up to the length
    of the attribute block; the path id is there in the ADDPATH
    subtypes. *)
Definition rib_entry_hdr_wire (add_path : bool) (pix otm pid alen : Z)
    : list byte :=
  be_bytes 2 pix ++ be_bytes 4 otm ++
  (if add_path then be_bytes 4 pid else []) ++ be_bytes 2 alen.

(** The start of a BGP4MP record on the wire: the microseconds of the
    [_ET] types, the two AS numbers on 2 bytes, or on 4 in the AS4
    subtypes, the interface index, the address family and the two
    addresses. *)
Definition bgp4mp_wire (et as4 : bool) (usec sas das ifx afi : Z)
    (src dst : list byte) : list byte :=
  (if et then be_bytes 4 usec else []) ++
  be_bytes (if as4 then 4 else 2) sas ++ be_bytes (if as4 then 4 else 2) das ++
  be_bytes 2 ifx ++ be_bytes 2 afi ++ src ++ dst.

(** The values fit the fields, and the addresses the family, IPv6 when
    [v6] and IPv4 otherwise. *)
Definition bgp4mp_ok (as4 v6 : bool) (usec sas das ifx afi : Z)
    (src dst : list byte) : Prop :=
  0 <= usec < 2 ^ 32 /\
  0 <= sas < (if as4 then 2 ^ 32 else 2 ^ 16) /\
  0 <= das < (if as4 then 2 ^ 32 else 2 ^ 16) /\
  0 <= ifx < 2 ^ 16 /\
  afi = (if v6 then MRT_DUMP_AFI_IPv6 else MRT_DUMP_AFI_IP) /\
  length src = (if v6 then 16 else 4)%nat /\
  length dst = (if v6 then 16 else 4)%nat.

(** The pointer that [malloc] returns next is not in use. *)
Definition next_fresh (w : world) : Prop := w_heap w !! w_next w = None.

(** From [w] to [w'] the heap stayed as it was. *)
Definition same_heap (w w' : world) : Prop :=
  w_heap w' = w_heap w /\ w_next w' = w_next w.

(** The subtype of a BGP4MP message record: with 4-byte AS numbers, from
    the local side, with ADD-PATH. *)
Definition bgp4mp_message_subtype (as4 loc addpath : bool) : Z :=
  match as4, loc, addpath with
  | false, false, false => BGP4MP_MESSAGE
  | true, false, false => BGP4MP_MESSAGE_AS4
  | false, true, false => BGP4MP_MESSAGE_LOCAL
  | true, true, false => BGP4MP_MESSAGE_AS4_LOCAL
  | false, false, true => BGP4MP_MESSAGE_ADDPATH
  | true, false, true => BGP4MP_MESSAGE_AS4_ADDPATH
  | false, true, true => BGP4MP_MESSAGE_LOCAL_ADDPATH
  | true, true, true => BGP4MP_MESSAGE_AS4_LOCAL_ADDPATH
  end.

(** The world after [malloc] and stores into the new buffer, which then
    holds [blk]. *)
Definition fresh_block (blk : list byte) (w : world) : world :=
  mk_world (<[w_next w := blk]> (w_heap w)) (S (w_next w)) (w_out w)
           (w_file w) (w_reads w).

(** What the caller of [mrt_extract_attr] sets in an entry before the
    call. *)
Definition entry_hdr (re : mrt_rib_entry) : Z * Z * Z :=
  (re_peer_idx re, re_originated re, re_path_id re).

(** A RIB entry of TABLE_DUMP_V2 on the wire: peer index, originated
    time, path id and attribute block. *)
Record rib_entry_wire : Type := mk_rw {
  rw_peer_idx : Z;
  rw_originated : Z;
  rw_path_id : Z;
  rw_attrs : list byte
}.

Definition rib_entry_enc (add_path : bool) (e : rib_entry_wire) : list byte :=
  rib_entry_hdr_wire add_path (rw_peer_idx e) (rw_originated e) (rw_path_id e)
                     (Z.of_nat (length (rw_attrs e))) ++ rw_attrs e.

Definition rib_entry_wf (e : rib_entry_wire) : Prop :=
  0 <= rw_peer_idx e < 2 ^ 16 /\ 0 <= rw_originated e < 2 ^ 32 /\
  0 <= rw_path_id e < 2 ^ 32 /\ Z.of_nat (length (rw_attrs e)) < 2 ^ 16.

(** The subtypes of TABLE_DUMP_V2 whose entries carry a path id. *)
Definition rib_addpath_subtype (st : Z) : bool :=
  bool_decide (st ∈ [MRT_DUMP_V2_RIB_IPV4_UNICAST_ADDPATH;
                     MRT_DUMP_V2_RIB_IPV4_MULTICAST_ADDPATH;
                     MRT_DUMP_V2_RIB_IPV6_UNICAST_ADDPATH;
                     MRT_DUMP_V2_RIB_IPV6_MULTICAST_ADDPATH;
                     MRT_DUMP_V2_RIB_GENERIC_ADDPATH]).

(** The decoders of [nlri] take the prefix from the front of the [ibuf]:
    what they report as consumed is at most its size.  (In the C code the
    number is [len - ibuf_size(msg)].) *)
Definition nlri_in_bounds (nlri : nlri_ops) : Prop :=
  forall get,
    get ∈ [nlri_get_prefix nlri; nlri_get_prefix6 nlri;
           nlri_get_vpn4 nlri; nlri_get_vpn6 nlri] ->
    forall ibuf prefix plen used,
      get ibuf = Some (prefix, plen, used) ->
      0 <= used <= Z.of_nat (length ibuf).

(** A record of a stream of BGP4MP records: what its header and the BGP4MP
    header behind it say, and a state change (with the bytes that follow
    the two states) or a message (with the flags of its subtype and the
    BGP message). *)
Record bgp4mp_head : Type := mk_bh {
  bh_time : Z;
  bh_et : bool;
  bh_as4 : bool;
  bh_v6 : bool;
  bh_usec : Z;
  bh_sas : Z;
  bh_das : Z;
  bh_ifx : Z;
  bh_src : list byte;
  bh_dst : list byte
}.

Inductive bgp4mp_body : Type :=
| BodyState (old new : Z) (rest : list byte)
| BodyMessage (loc addpath : bool) (body : list byte).

Definition bgp4mp_rec : Type := bgp4mp_head * bgp4mp_body.

Definition rec_afi (h : bgp4mp_head) : Z :=
  if bh_v6 h then MRT_DUMP_AFI_IPv6 else MRT_DUMP_AFI_IP.

Definition rec_msg (r : bgp4mp_rec) : list byte :=
  let h := r.1 in
  bgp4mp_wire (bh_et h) (bh_as4 h) (bh_usec h) (bh_sas h) (bh_das h)
              (bh_ifx h) (rec_afi h) (bh_src h) (bh_dst h) ++
  match r.2 with
  | BodyState old new rest => be_bytes 2 old ++ be_bytes 2 new ++ rest
  | BodyMessage _ _ body => body
  end.

Definition rec_hdr (r : bgp4mp_rec) : mrt_hdr :=
  let h := r.1 in
  mk_hdr (bh_time h)
         (if bh_et h then MSG_PROTOCOL_BGP4MP_ET else MSG_PROTOCOL_BGP4MP)
         match r.2 with
         | BodyState _ _ _ =>
             if bh_as4 h then BGP4MP_STATE_CHANGE_AS4 else BGP4MP_STATE_CHANGE
         | BodyMessage loc addpath _ =>
             bgp4mp_message_subtype (bh_as4 h) loc addpath
         end
         (Z.of_nat (length (rec_msg r))).

Definition rec_wire (r : bgp4mp_rec) : list byte :=
  record_wire (rec_hdr r) (rec_msg r).

(** The values fit their fields. *)
Definition rec_ok (r : bgp4mp_rec) : Prop :=
  let h := r.1 in
  0 <= bh_time h < 2 ^ 32 /\
  bgp4mp_ok (bh_as4 h) (bh_v6 h) (bh_usec h) (bh_sas h) (bh_das h) (bh_ifx h)
            (rec_afi h) (bh_src h) (bh_dst h) /\
  Z.of_nat (length (rec_msg r)) < 2 ^ 32 /\
  match r.2 with
  | BodyState old new _ => 0 <= old < 2 ^ 16 /\ 0 <= new < 2 ^ 16
  | BodyMessage _ _ _ => True
  end.

(** The decoded values. *)
Definition rec_nsec (h : bgp4mp_head) : Z :=
  if bh_et h then u32 (bh_usec h * 1000) else 0.

Definition rec_aid (h : bgp4mp_head) : aid_t :=
  if bh_v6 h then AID_INET6 else AID_INET.

Definition rec_state (h : bgp4mp_head) (old new : Z) : mrt_bgp_state :=
  mk_state (bh_time h) (rec_nsec h) (addr_of (rec_aid h) (bh_src h))
           (addr_of (rec_aid h) (bh_dst h)) (bh_sas h) (bh_das h) old new.

Definition rec_message (h : bgp4mp_head) (addpath : bool) (len : Z)
    (q : option ptr) : mrt_bgp_msg :=
  mk_msg (bh_time h) (rec_nsec h) (addr_of (rec_aid h) (bh_src h))
         (addr_of (rec_aid h) (bh_dst h)) (bh_sas h) (bh_das h)
         (if addpath then 1 else 0) len q.

(** The calls of the callbacks for the records [recs], when the heap is
    [heap] and [malloc] returns [next] next: a state callback gets the
    state, and a message callback the message and the heap of that moment,
    in which the buffer of the message holds the BGP message. *)
Fixpoint stream_events (p : mrt_parser) (heap : gmap nat (list byte))
    (next : ptr) (recs : list bgp4mp_rec) : list event :=
  match recs with
  | [] => []
  | (h, BodyState old new _) :: recs' =>
      (if mp_state p then [EvState (rec_state h old new)] else []) ++
      stream_events p heap next recs'
  | (h, BodyMessage _ addpath []) :: recs' =>
      (if mp_message p then [EvMessage (rec_message h addpath 0 None) heap]
       else []) ++
      stream_events p heap next recs'
  | (h, BodyMessage _ addpath body) :: recs' =>
      (if mp_message p
       then [EvMessage (rec_message h addpath (Z.of_nat (length body))
                                    (Some next))
                       (<[next := body]> heap)]
       else []) ++
      stream_events p heap (S next) recs'
  end.

(** The world after the record [r] was handled in [w]. *)
Definition rec_world (p : mrt_parser) (r : bgp4mp_rec) (w : world) : world :=
  mk_world (w_heap w)
           (match r.2 with
            | BodyMessage _ _ (_ :: _) => S (w_next w)
            | _ => w_next w
            end)
           (w_out w ++ stream_events p (w_heap w) (w_next w) [r])
           (w_file w) (w_reads w).


(** What the decoders of the legacy records may change in the peer
    context: the address and the AS number of its first entry. *)
Definition peer_kept (p p' : mrt_peer) : Prop :=
  p_view p' = p_view p /\ p_bgp_id p' = p_bgp_id p /\
  p_npeers p' = p_npeers p /\
  (tail <$> p_peers p') = (tail <$> p_peers p) /\
  (pe_bgp_id <$> (p_peers p' ≫= head)) = (pe_bgp_id <$> (p_peers p ≫= head)).

(** What the two decoders return: -1 and no RIB, or 0 and a RIB with one
    entry. *)
Definition legacy_result (p : mrt_peer)
    (x : Z * option mrt_peer * option mrt_rib) : Prop :=
  exists p',
    x.1.2 = Some p' /\ peer_kept p p' /\
    ((x.1.1 = -1 /\ x.2 = None) \/
     (x.1.1 = 0 /\
      exists re prefix seqnum plen,
        x.2 = Some (mk_rib (Some [re]) prefix seqnum 1 plen 0))).

(** The buffers an entry points to, in the order in which [mrt_free_rib]
    frees them. *)
Definition entry_ptrs (re : mrt_rib_entry) : list ptr :=
  map ap_attr (re_attrs re) ++ option_list (re_aspath re).

(** The pointers [ptrs] are distinct and allocated, and every allocated
    pointer was handed out by [malloc] already. *)
Definition owned (ptrs : list ptr) (w : world) : Prop :=
  NoDup ptrs /\
  (forall q, q ∈ ptrs -> q ∈ dom (w_heap w)) /\
  (forall q, q ∈ dom (w_heap w) -> (q < w_next w)%nat).

(** From [w] to [w'] no buffer was allocated or freed. *)
Definition same_dom (w w' : world) : Prop :=
  w_next w' = w_next w /\ dom (w_heap w') = dom (w_heap w).

(** What a callback may rely on when it is called with the heap [h]: the
    entries of a RIB are [nentries], each has [nattrs] attributes, and the
    buffers of the attributes and of the AS paths are allocated and no two
    of them are the same; the buffer of a message is allocated and holds
    [msg_len] bytes. *)
Definition rib_live (r : mrt_rib) (h : gmap nat (list byte)) : Prop :=
  exists entries,
    r_entries r = Some entries /\
    Z.to_nat (r_nentries r) = length entries /\
    Forall re_attrs_ok entries /\
    NoDup (flat_map entry_ptrs entries) /\
    forall q, q ∈ flat_map entry_ptrs entries -> q ∈ dom h.

Definition msg_live (m : mrt_bgp_msg) (h : gmap nat (list byte)) : Prop :=
  match m_msg m with
  | None => True
  | Some q => exists bs, h !! q = Some bs /\ Z.of_nat (length bs) = m_msg_len m
  end.

Definition event_live (e : event) : Prop :=
  match e with
  | EvDump r _ h => rib_live r h
  | EvMessage m h => msg_live m h
  | _ => True
  end.

(** From [w] to [w'] the heap kept its form and the callbacks were called
    with live buffers only. *)
Definition live_step (w w' : world) : Prop :=
  owned [] w ->
  owned [] w' /\
  exists evs, w_out w' = w_out w ++ evs /\ Forall event_live evs.

(** The world in which an outcome leaves the process has the property
    [P]. *)
Definition after {A} (o : outcome A) (P : world -> Prop) : Prop :=
  match o with
  | Ret _ w | Exit _ w | Fault _ w => P w
  | OutOfFuel => True
  end.

(** The payload of an MP_REACH_NLRI attribute in the two encodings that
    [mrt_extract_attr] tells apart: the one of RFC 6396, which starts with
    the length of the next hop, and the older one, which has the three
    bytes of AFI and SAFI before it.  For a VPN family the next hop
    field starts with the 8 bytes of a route distinguisher. *)
Definition mp_reach_payload (pre : list byte) (nhlen : byte)
    (rd nh rest : list byte) : list byte :=
  pre ++ [nhlen] ++ rd ++ nh ++ rest.

Definition mp_reach_form (pre : list byte) (nhlen : byte) (attr_len : Z)
    : Prop :=
  (pre = [] /\ byte.unsigned nhlen = attr_len - 1) \/
  (exists l0 l1 l2, pre = [l0; l1; l2] /\ byte.unsigned l0 <> attr_len - 1).

Definition mp_reach_sizes (aid : aid_t) (rd nh : list byte) : Prop :=
  match aid with
  | AID_INET6 => rd = [] /\ length nh = 16%nat
  | AID_VPN_IPv4 => length rd = 8%nat /\ length nh = 4%nat
  | AID_VPN_IPv6 => length rd = 8%nat /\ length nh = 16%nat
  | _ => False
  end.

(** A TABLE_DUMP record on the wire, up to the attribute block. *)
Definition table_dump_wire (view seqnum : Z) (prefix : list byte)
    (plen status : byte) (otm : Z) (peer : list byte) (asn alen : Z)
    : list byte :=
  be_bytes 2 view ++ be_bytes 2 seqnum ++ prefix ++ [plen; status] ++
  be_bytes 4 otm ++ peer ++ be_bytes 2 asn ++ be_bytes 2 alen.

(** ** Path attributes as values *)

(** The attributes that [mrt_extract_attr] tells apart: the origin, the
    AS path as it is stored for a record with 4-byte AS numbers and as
    segments for one with 2-byte AS numbers, the IPv4 next hop, the two
    32-bit values, the next hop of MP_REACH_NLRI, and any other attribute
    with its type. *)
Inductive attr_val : Type :=
| AOrigin (o : byte)
| AAsPath (payload : list byte)
| AAsPath2 (segs : list as_seg)
| ANextHop (nh : list byte)
| AMed (v : Z)
| ALocalPref (v : Z)
| AMpReach (pre : list byte) (nhlen : byte) (rd nh rest : list byte)
| AOther (type : byte) (payload : list byte).

(** An attribute on the wire is a value behind its flags. *)
Definition attr_val_tlv (x : byte * attr_val) : tlv :=
  match x.2 with
  | AOrigin o => (x.1, byte.of_Z MRT_ATTR_ORIGIN, [o])
  | AAsPath payload => (x.1, byte.of_Z MRT_ATTR_ASPATH, payload)
  | AAsPath2 segs => (x.1, byte.of_Z MRT_ATTR_ASPATH, aspath_deflate segs)
  | ANextHop nh => (x.1, byte.of_Z MRT_ATTR_NEXTHOP, nh)
  | AMed v => (x.1, byte.of_Z MRT_ATTR_MED, be_bytes 4 v)
  | ALocalPref v => (x.1, byte.of_Z MRT_ATTR_LOCALPREF, be_bytes 4 v)
  | AMpReach pre nhlen rd nh rest =>
      (x.1, byte.of_Z MRT_ATTR_MP_REACH_NLRI,
       mp_reach_payload pre nhlen rd nh rest)
  | AOther type payload => (x.1, type, payload)
  end.

Definition attr_val_enc (x : byte * attr_val) : list byte :=
  tlv_enc (attr_val_tlv x).

Definition is_other (x : byte * attr_val) : bool :=
  match x.2 with AOther _ _ => true | _ => false end.

Definition count_other (attrs : list (byte * attr_val)) : Z :=
  Z.of_nat (length (List.filter is_other attrs)).

(** The value fits its wire form and the record: the length field can
    count the payload, the AS path has the form of the record's AS
    numbers, and the next hop of MP_REACH_NLRI the size of the family. *)
Definition attr_val_wf (aid : aid_t) (as4 : bool) (x : byte * attr_val)
    : Prop :=
  attr_len_ok x.1 (Z.of_nat (length (attr_val_tlv x).2)) /\
  match x.2 with
  | AOrigin _ => True
  | AAsPath _ => as4 = true
  | AAsPath2 segs =>
      as4 = false /\ Forall seg_wf segs /\ inflated_size segs <= 65535
  | ANextHop nh => length nh = 4%nat
  | AMed v | ALocalPref v => 0 <= v < 2 ^ 32
  | AMpReach pre nhlen rd nh rest =>
      mp_reach_form pre nhlen
        (Z.of_nat (length (mp_reach_payload pre nhlen rd nh rest))) /\
      mp_reach_sizes aid rd nh
  | AOther type _ => unknown_attr as4 type
  end.

(** What an attribute does to the entry and to the world. *)
Definition attr_val_effect (aid : aid_t) (s : mrt_rib_entry * world)
    (x : byte * attr_val) : mrt_rib_entry * world :=
  let re := s.1 in
  let w := s.2 in
  match x.2 with
  | AOrigin o => (re_set_origin (byte.unsigned o) re, w)
  | AAsPath payload =>
      (re_set_aspath (Some (w_next w))
         (re_set_aspath_len (Z.of_nat (length payload)) re),
       alloc_world payload w)
  | AAsPath2 segs =>
      (re_set_aspath (Some (w_next w))
         (re_set_aspath_len (inflated_size segs) re),
       alloc_world (aspath_enc 4 segs) w)
  | ANextHop nh =>
      (if bool_decide (aid = AID_INET)
       then re_set_nexthop (mk_addr AID_INET (set_v4 (re_nexthop re) nh)) re
       else re, w)
  | AMed v => (re_set_med v re, w)
  | ALocalPref v => (re_set_local_pref v re, w)
  | AMpReach _ _ _ nh _ =>
      (re_set_nexthop
         (mk_addr aid (match aid with
                       | AID_VPN_IPv4 => set_v4 (re_nexthop re) nh
                       | _ => nh
                       end)) re, w)
  | AOther _ _ =>
      (re_set_attrs (re_nattrs re + 1)
         (re_attrs re ++
          [mk_attr (w_next w) (Z.of_nat (length (attr_val_enc x)))]) re,
       alloc_world (attr_val_enc x) w)
  end.

Definition attr_vals_effect (aid : aid_t) (s : mrt_rib_entry * world)
    (attrs : list (byte * attr_val)) : mrt_rib_entry * world :=
  fold_left (attr_val_effect aid) attrs s.

(** ** A TABLE_DUMP_V2 RIB record as values *)

(** An entry: peer index, originated time, path id (on the wire in the
    ADDPATH subtypes only) and attributes. *)
Record rib_entry_val : Type := mk_rv {
  rv_peer_idx : Z;
  rv_originated : Z;
  rv_path_id : Z;
  rv_attrs : list (byte * attr_val)
}.

Definition rv_block (e : rib_entry_val) : list byte :=
  flat_map attr_val_enc (rv_attrs e).

Definition rv_enc (add_path : bool) (e : rib_entry_val) : list byte :=
  rib_entry_hdr_wire add_path (rv_peer_idx e) (rv_originated e)
                     (rv_path_id e) (Z.of_nat (length (rv_block e))) ++
  rv_block e.

(** The fields fit, there is at least one attribute, the attributes are
    well-formed for a record with 4-byte AS numbers, and at most 254 of
    them are of a type that [mrt_extract_attr] keeps as it is. *)
Definition rv_wf (aid : aid_t) (e : rib_entry_val) : Prop :=
  0 <= rv_peer_idx e < 2 ^ 16 /\ 0 <= rv_originated e < 2 ^ 32 /\
  0 <= rv_path_id e < 2 ^ 32 /\
  rv_attrs e <> [] /\ Forall (attr_val_wf aid true) (rv_attrs e) /\
  count_other (rv_attrs e) <= 254 /\
  Z.of_nat (length (rv_block e)) < 2 ^ 16.

(** The entries that the record gives, and the world after them: each
    entry starts zeroed, gets its header fields (the path id of the
    record in the ADDPATH subtypes, 0 in the others) and then its
    attributes. *)
Fixpoint rv_decode (aid : aid_t) (add_path : bool) (es : list rib_entry_val)
    (w : world) : list mrt_rib_entry * world :=
  match es with
  | [] => ([], w)
  | e :: es' =>
      let s := attr_vals_effect aid
                 (re_set_entry_hdr (rv_peer_idx e) (rv_originated e)
                    (if add_path then rv_path_id e else 0) re_zero, w)
                 (rv_attrs e) in
      let r := rv_decode aid add_path es' s.2 in
      (s.1 :: r.1, r.2)
  end.

(** The subtypes of the RIB records of one address family. *)
Definition rib_subtype (v6 mc add_path : bool) : Z :=
  match v6, mc, add_path with
  | false, false, false => MRT_DUMP_V2_RIB_IPV4_UNICAST
  | false, true, false => MRT_DUMP_V2_RIB_IPV4_MULTICAST
  | true, false, false => MRT_DUMP_V2_RIB_IPV6_UNICAST
  | true, true, false => MRT_DUMP_V2_RIB_IPV6_MULTICAST
  | false, false, true => MRT_DUMP_V2_RIB_IPV4_UNICAST_ADDPATH
  | false, true, true => MRT_DUMP_V2_RIB_IPV4_MULTICAST_ADDPATH
  | true, false, true => MRT_DUMP_V2_RIB_IPV6_UNICAST_ADDPATH
  | true, true, true => MRT_DUMP_V2_RIB_IPV6_MULTICAST_ADDPATH
  end.

(** The record on the wire: sequence number, prefix, entry count and
    entries. *)
Definition rib_record_wire (add_path : bool) (seq : Z) (pfx : list byte)
    (es : list rib_entry_val) : list byte :=
  be_bytes 4 seq ++ pfx ++ be_bytes 2 (Z.of_nat (length es)) ++
  flat_map (rv_enc add_path) es.

(** ** A TABLE_DUMP_V2 dump as values *)

(** The record of the peer index table. *)
Definition peer_index_hdr (time collector : Z) (view : list byte)
    (peers : list peer_wire) : mrt_hdr :=
  mk_hdr time MSG_TABLE_DUMP_V2 MRT_DUMP_V2_PEER_INDEX_TABLE
         (Z.of_nat (length (peer_index_wire collector view peers))).

Definition peer_table_ok (time collector : Z) (view : list byte)
    (peers : list peer_wire) : Prop :=
  0 <= time < 2 ^ 32 /\ 0 <= collector < 2 ^ 32 /\
  Z.of_nat (length view) < 2 ^ 16 /\ Z.of_nat (length peers) < 2 ^ 16 /\
  Forall peer_wire_wf peers /\
  Z.of_nat (length (peer_index_wire collector view peers)) < 2 ^ 32.

(** A RIB record: the time of its header, the address family, unicast or
    multicast, with or without path ids, the sequence number, the prefix
    on the wire and as the NLRI decoder gives it, and the entries. *)
Record rib_rec : Type := mk_rr {
  rr_time : Z;
  rr_v6 : bool;
  rr_mc : bool;
  rr_ap : bool;
  rr_seq : Z;
  rr_pfx : list byte;
  rr_prefix : bgpd_addr;
  rr_plen : Z;
  rr_entries : list rib_entry_val
}.

Definition rr_msg (r : rib_rec) : list byte :=
  rib_record_wire (rr_ap r) (rr_seq r) (rr_pfx r) (rr_entries r).

Definition rr_hdr (r : rib_rec) : mrt_hdr :=
  mk_hdr (rr_time r) MSG_TABLE_DUMP_V2
         (rib_subtype (rr_v6 r) (rr_mc r) (rr_ap r))
         (Z.of_nat (length (rr_msg r))).

Definition rr_wire (r : rib_rec) : list byte :=
  record_wire (rr_hdr r) (rr_msg r).

(** The fields fit, the entries are well-formed for the family of the
    prefix, and the NLRI decoder of the family reads the prefix off the
    bytes behind the sequence number. *)
Definition rr_ok (nlri : nlri_ops) (r : rib_rec) : Prop :=
  0 <= rr_time r < 2 ^ 32 /\ 0 <= rr_seq r < 2 ^ 32 /\
  Z.of_nat (length (rr_entries r)) < 2 ^ 16 /\
  Z.of_nat (length (rr_msg r)) < 2 ^ 32 /\
  Forall (rv_wf (ba_aid (rr_prefix r))) (rr_entries r) /\
  (if rr_v6 r then nlri_get_prefix6 nlri else nlri_get_prefix nlri)
    (rr_pfx r ++ be_bytes 2 (Z.of_nat (length (rr_entries r))) ++
     flat_map (rv_enc (rr_ap r)) (rr_entries r))
  = Some (rr_prefix r, rr_plen r, Z.of_nat (length (rr_pfx r))).

(** The entries of a record hold the pointers that [malloc] hands out
    while it is decoded, so they are those of [rv_decode] in any world
    whose next pointer is [next]. *)
Definition rr_decode (r : rib_rec) (next : nat)
    : list mrt_rib_entry * world :=
  rv_decode (ba_aid (rr_prefix r)) (rr_ap r) (rr_entries r)
            (mk_world ∅ next [] [] []).

Definition rr_rib (r : rib_rec) (next : nat) : mrt_rib :=
  mk_rib (Some (rr_decode r next).1) (rr_prefix r) (rr_seq r)
         (Z.of_nat (length (rr_entries r))) (rr_plen r)
         (if rr_ap r then 1 else 0).

(** The RIBs of a run of records, the first decoded when the next
    pointer is [next]. *)
Fixpoint dump_ribs (next : nat) (recs : list rib_rec) : list mrt_rib :=
  match recs with
  | [] => []
  | r :: recs' =>
      rr_rib r next :: dump_ribs (w_next (rr_decode r next).2) recs'
  end.

(** From [w] to [w'] the process allocated buffers and did nothing
    else. *)
Definition grows (w w' : world) : Prop :=
  w_out w' = w_out w /\ w_file w' = w_file w /\ w_reads w' = w_reads w /\
  (w_next w <= w_next w')%nat /\
  (forall q, (q < w_next w)%nat -> w_heap w' !! q = w_heap w !! q).

(** ** Inputs of the further examples *)

(** A file of 5 bytes that read(2) delivers in pieces. *)
Definition chunked_world : world :=
  world_of (bytes_of [1; 2; 3; 4; 5]) [RdChunk 2; RdEintr; RdChunk 1].

(** A record of type 99 with 2 bytes of payload, followed by one byte. *)
Definition other_hdr : mrt_hdr := mk_hdr 1 99 0 2.
Definition other_msg : list byte := bytes_of [7; 8].
Definition other_world : world :=
  world_of (record_wire other_hdr other_msg ++ bytes_of [9]) [RdChunk 5].
Definition other_world_after : list read_step -> world :=
  fun reads => at_file (bytes_of [9]) reads other_world.

(** A read that is interrupted and then fails. *)
Definition failing_world : world :=
  world_of (bytes_of [1; 2; 3]) [RdEintr; RdError].

(** An IPv4 address and two more bytes. *)
Definition addr_buf : list byte := bytes_of [10; 0; 0; 1; 9; 9].

(** The path 100 200 with 2-byte AS numbers, and one more byte. *)
Definition small_path_buf : list byte :=
  aspath_deflate small_path ++ [Byte.x00].

(** ORIGIN attributes of length 2 and of length 1, MULTI_EXIT_DISC
    attributes of length 3 and of length 4. *)
Definition origin2_block : list byte := bytes_of [0x40; 1; 2; 0; 0].
Definition origin1_block : list byte := bytes_of [0x40; 1; 1; 2].
Definition med3_block : list byte := bytes_of [0x80; 4; 3; 0; 0; 0].
Definition med4_block : list byte := bytes_of [0x80; 4; 4; 0; 0; 1; 0].

(** An AS_PATH attribute with the path 100 200. *)
Definition aspath_block : list byte :=
  attr_tlv (byte.of_Z 0x40) (byte.of_Z MRT_ATTR_ASPATH) (aspath_deflate small_path).

(** An MP_REACH_NLRI attribute in the form of RFC 6396 with an IPv6 next
    hop. *)
Definition nh6 : list byte :=
  bytes_of [0x20; 1; 0x0d; 0xb8; 0; 0; 0; 0; 0; 0; 0; 0; 0; 0; 0; 1].
Definition mp_reach_block : list byte :=
  attr_tlv (byte.of_Z 0x80) (byte.of_Z MRT_ATTR_MP_REACH_NLRI)
           (mp_reach_payload [] (byte.of_Z 16) [] nh6 []).

(** Two attributes that no case handles. *)
Definition two_tlvs : list tlv :=
  [(byte.of_Z 0x80, byte.of_Z 99, bytes_of [1; 2]);
   (byte.of_Z 0xC0, byte.of_Z 100, [])].
Definition two_tlvs_block : list byte := flat_map tlv_enc two_tlvs.

(** The header of a RIB entry that has no attributes. *)
Definition bare_entry : list byte := rib_entry_hdr_wire false 1 9 0 0.

(** A BGP4MP state change from Idle to Established and a BGP4MP message
    between 10.0.0.1 (AS 1) and 10.0.0.2 (AS 2). *)
Definition state_hdr : mrt_hdr := mk_hdr 5 16 0 20.
Definition state_msg : list byte :=
  bgp4mp_wire false false 0 1 2 0 1 (bytes_of [10; 0; 0; 1])
              (bytes_of [10; 0; 0; 2]) ++
  be_bytes 2 1 ++ be_bytes 2 6.

Definition message_hdr : mrt_hdr := mk_hdr 5 16 1 18.
Definition message_body : list byte := bytes_of [255; 255].
Definition message_msg : list byte :=
  bgp4mp_wire false false 0 1 2 0 1 (bytes_of [10; 0; 0; 1])
              (bytes_of [10; 0; 0; 2]) ++ message_body.
Definition message_decoded : mrt_bgp_msg :=
  mk_msg 5 0 (addr_of AID_INET (bytes_of [10; 0; 0; 1]))
         (addr_of AID_INET (bytes_of [10; 0; 0; 2])) 1 2 0 2 (Some 0%nat).

(** A TABLE_DUMP_V2 RIB_IPV4_UNICAST record for 10.0.0.0/24 with one
    entry, and what [mrt_parse_v2_rib] makes of it. *)
Definition rib_hdr : mrt_hdr := mk_hdr 0 13 2 22.
Definition rib_msg : list byte :=
  bytes_of [0; 0; 0; 1; 24; 10; 0; 0; 0; 1] ++
  rib_entry_hdr_wire false 1 9 0 4 ++ origin1_block.
Definition rib_out : outcome (option mrt_rib) :=
  mrt_parse_v2_rib spec_nlri rib_hdr rib_msg false w0.
Definition rib_decoded : mrt_rib :=
  match rib_out with Ret (Some r) _ => r | _ => rib_zero end.
Definition rib_world : world :=
  match rib_out with Ret _ w => w | _ => w0 end.

(** A TABLE_DUMP record for 10.0.0.0/24 from the peer 192.0.2.1 in
    AS 64512, and what [mrt_parse_dump] makes of it. *)
Definition dump_attrs : list byte := origin1_block.
Definition dump_msg : list byte :=
  table_dump_wire 0 7 (bytes_of [10; 0; 0; 0]) (byte.of_Z 24) (byte.of_Z 1) 9
                  (bytes_of [192; 0; 2; 1]) 64512 4 ++ dump_attrs.
Definition dump_hdr : mrt_hdr := mk_hdr 0 12 1 26.
Definition dump_entry : mrt_rib_entry :=
  re_set_origin 2 (re_set_originated 9 re_zero).
Definition dump_out : Z * option mrt_peer * option mrt_rib :=
  (0,
   Some (mk_peer None
           (Some [mk_pe (addr_of AID_INET (bytes_of [192; 0; 2; 1])) 0 64512])
           0 1),
   Some (mk_rib (Some [dump_entry]) (addr_of AID_INET (bytes_of [10; 0; 0; 0]))
                7 1 24 0)).

(** A parser with the state and the message callback, and a stream of a
    state change and a message between 10.0.0.1 (AS 1) and 10.0.0.2
    (AS 2), cut off in the header of a third record. *)
Definition updates_parser : mrt_parser := mk_parser false true true.
Definition stream_head : bgp4mp_head :=
  mk_bh 5 false false false 0 1 2 0 (bytes_of [10; 0; 0; 1])
        (bytes_of [10; 0; 0; 2]).
Definition stream_recs : list bgp4mp_rec :=
  [(stream_head, BodyState 1 6 []);
   (stream_head, BodyMessage false false (bytes_of [255; 255]))].
Definition stream_world : world :=
  world_of (flat_map rec_wire stream_recs ++ bytes_of [0; 0; 0]) [].


(** A file that holds the RIB record above. *)
Definition rib_file_world : world :=
  world_of (record_wire rib_hdr rib_msg) [].

(** The attributes of a route: origin, the AS path 65000 in 4-byte form,
    a next hop, a MED and a community attribute, which the parser keeps
    as it is; and a RIB_IPV4_UNICAST record for 10.0.0.0/24 with one
    entry that has them. *)
Definition route_attrs : list (byte * attr_val) :=
  [(byte.of_Z 0x40, AOrigin (byte.of_Z 2));
   (byte.of_Z 0x40, AAsPath (bytes_of [2; 1; 0; 0; 253; 232]));
   (byte.of_Z 0x40, ANextHop (bytes_of [10; 0; 0; 254]));
   (byte.of_Z 0x80, AMed 100);
   (byte.of_Z 0xc0, AOther (byte.of_Z 8) (bytes_of [255; 255; 255; 1]))].
Definition route_block : list byte := flat_map attr_val_enc route_attrs.
Definition route_entries : list rib_entry_val := [mk_rv 1 9 0 route_attrs].
Definition route_msg : list byte :=
  rib_record_wire false 7 (bytes_of [24; 10; 0; 0]) route_entries ++ [].
Definition route_hdr : mrt_hdr :=
  mk_hdr 0 13 2 (Z.of_nat (length route_msg)).
Definition route_prefix : bgpd_addr := addr_of AID_INET (bytes_of [10; 0; 0]).

(** A dump: the peer index table of the view "ab" and two RIB records,
    the second with path ids. *)
Definition dump_recs : list rib_rec :=
  [mk_rr 0 false false false 7 (bytes_of [24; 10; 0; 0]) route_prefix 24
         route_entries;
   mk_rr 0 false false true 8 (bytes_of [24; 10; 0; 1])
         (addr_of AID_INET (bytes_of [10; 0; 1])) 24
         [mk_rv 0 9 5 route_attrs; mk_rv 1 9 6 route_attrs]].
Definition dump_world : world :=
  world_of (record_wire (peer_index_hdr 0 0x01020304 (bytes_of [97; 98])
                           peer_table_entries)
              (peer_index_wire 0x01020304 (bytes_of [97; 98])
                 peer_table_entries) ++
            flat_map rr_wire dump_recs ++ []) [].

(** * Proofs *)

(** ** Basic facts *)

Lemma bind_ret {A B} (a : A) (k : A -> M B) w : bind (ret a) k w = k a w.
Proof. reflexivity. Qed.

Lemma bind_eq {A B} (m : M A) (k : A -> M B) w a w' :
  m w = Ret a w' -> bind m k w = k a w'.
Proof. intros H. unfold bind. by rewrite H. Qed.

Ltac step H := rewrite (bind_eq _ _ _ _ _ H).

Lemma be_uint_1 b : be_uint [b] = byte.unsigned b.
Proof. unfold be_uint; simpl. lia. Qed.

Lemma byte_range b : 0 <= byte.unsigned b <= 255.
Proof. pose proof (byte.unsigned_range b). lia. Qed.

Lemma byte_of_small z : 0 <= z <= 255 -> byte.unsigned (byte.of_Z z) = z.
Proof.
  intros. rewrite byte.unsigned_of_Z. unfold byte.wrap.
  apply Z.mod_small. lia.
Qed.

Lemma Zgtb_true a b : b < a -> (a >? b) = true.
Proof. intros. rewrite Z.gtb_ltb. by apply Z.ltb_lt. Qed.

Lemma Zgtb_false a b : a <= b -> (a >? b) = false.
Proof. intros. rewrite Z.gtb_ltb. by apply Z.ltb_ge. Qed.

Lemma Zltb_true a b : a < b -> (a <? b) = true.
Proof. apply Z.ltb_lt. Qed.

Lemma Zltb_false a b : b <= a -> (a <? b) = false.
Proof. apply Z.ltb_ge. Qed.

Lemma at_off_app buf off l1 l2 :
  at_off buf off (l1 ++ l2) ->
  at_off buf off l1 /\ at_off buf (off + Z.of_nat (length l1)) l2.
Proof.
  intros [H0 [post H]]. split; split; try lia.
  - exists (l2 ++ post). by rewrite H, <- app_assoc.
  - exists post.
    replace (Z.to_nat (off + Z.of_nat (length l1)))
      with (Z.to_nat off + length l1)%nat by lia.
    rewrite <- drop_drop, H, <- app_assoc. by rewrite drop_app_length.
Qed.

Lemma at_off_cons buf off b l :
  at_off buf off (b :: l) ->
  buf !! Z.to_nat off = Some b /\ at_off buf (off + 1) l.
Proof.
  intros H. destruct (at_off_app buf off [b] l H) as [[H0 [post H1]] H2].
  split; [|exact H2].
  rewrite <- (Nat.add_0_r (Z.to_nat off)), <- lookup_drop, H1. reflexivity.
Qed.

Lemma at_off_length buf off l :
  at_off buf off l -> l <> [] ->
  off + Z.of_nat (length l) <= Z.of_nat (length buf).
Proof.
  intros [H0 [post H]] Hne.
  assert (0 < length l)%nat by (destruct l; [done | simpl; lia]).
  assert (E : length (drop (Z.to_nat off) buf) = length (l ++ post))
    by (by rewrite H).
  rewrite length_drop, length_app in E. lia.
Qed.

Lemma at_off_intro pre l post : at_off (pre ++ l ++ post) (Z.of_nat (length pre)) l.
Proof.
  split; [lia|]. exists post. rewrite Nat2Z.id. by rewrite drop_app_length.
Qed.

Lemma load_at_off buf off l n w :
  at_off buf off l -> n = Z.of_nat (length l) -> load buf off n w = Ret l w.
Proof.
  intros H ->. pose proof (at_off_length _ _ _ H) as Hl.
  destruct H as [H0 [post H]]. unfold load, in_obj.
  replace (_ || _) with true.
  2:{ symmetry. apply orb_true_iff. destruct l as [|b l]; [by left | right].
      rewrite !andb_true_iff, !Z.leb_le. specialize (Hl ltac:(done)). lia. }
  unfold ret, slice. rewrite H, Nat2Z.id. by rewrite take_app_length.
Qed.

Lemma load8_at_off buf off b l w :
  at_off buf off (b :: l) -> load8 buf off w = Ret (byte.unsigned b) w.
Proof.
  intros H. apply (at_off_app buf off [b] l) in H as [H _].
  unfold load8, bind. rewrite (load_at_off _ _ [b] 1 w H eq_refl).
  unfold ret. by rewrite be_uint_1.
Qed.

(** Any outcome of a load that is a return gives the slice. *)
Lemma load_ret buf off n w l w' :
  load buf off n w = Ret l w' -> w' = w /\ l = slice buf off n /\ in_obj buf off n = true.
Proof.
  unfold load. destruct (in_obj buf off n); [|discriminate].
  unfold ret. intros [= <- <-]. auto.
Qed.

(** ** The heap *)

Lemma with_block_lookup p blk w : w_heap (with_block p blk w) !! p = Some blk.
Proof. unfold with_block, set_heap; simpl. apply lookup_insert_eq. Qed.

Lemma with_block_twice p b1 b2 w :
  with_block p b2 (with_block p b1 w) = with_block p b2 w.
Proof.
  unfold with_block, set_heap; simpl. by rewrite insert_insert_eq.
Qed.

Lemma poke_ok p out x rest b w i :
  w_heap w !! p = Some (out ++ x :: rest) -> i = Z.of_nat (length out) ->
  poke p i b w = Ret tt (with_block p (out ++ b :: rest) w).
Proof.
  intros H ->. unfold poke. rewrite H.
  replace (_ && _) with true.
  2:{ symmetry. rewrite andb_true_iff, Z.leb_le, Z.ltb_lt, length_app. simpl. lia. }
  rewrite Nat2Z.id. rewrite insert_app_r_alt by lia.
  by rewrite Nat.sub_diag.
Qed.

Lemma length_be_bytes n z : length (be_bytes n z) = n.
Proof.
  revert z; induction n as [|n IH]; intros z; simpl; [done|].
  rewrite length_app, IH. simpl. lia.
Qed.

Lemma length_flat_be n asns :
  length (flat_map (be_bytes n) asns) = (n * length asns)%nat.
Proof.
  induction asns as [|a asns IH]; simpl; [lia|].
  rewrite length_app, length_be_bytes, IH. lia.
Qed.

Lemma length_seg_enc n s :
  length (seg_enc n s) = (2 + n * length s.2)%nat.
Proof. unfold seg_enc. simpl. by rewrite length_flat_be. Qed.

Lemma length_enc4 segs :
  Z.of_nat (length (aspath_enc 4 segs)) = inflated_size segs.
Proof.
  induction segs as [|s segs IH]; [done|].
  unfold aspath_enc in *. cbn [flat_map inflated_size fold_right].
  rewrite length_app, Nat2Z.inj_add, IH, length_seg_enc.
  unfold inflated_size. lia.
Qed.

Lemma inflated_size_nonneg segs : 0 <= inflated_size segs.
Proof. rewrite <- length_enc4. lia. Qed.

Lemma u16_small z : 0 <= z < 2 ^ 16 -> u16 z = z.
Proof. intros. unfold u16. by apply Z.mod_small. Qed.

Lemma u16_add_l a b : u16 (u16 a + b) = u16 (a + b).
Proof. unfold u16. by rewrite Zplus_mod_idemp_l. Qed.

Lemma u16_range z : 0 <= u16 z < 2 ^ 16.
Proof. unfold u16. apply Z.mod_pos_bound. lia. Qed.

Lemma inflate_len_ok segs : forall fuel buf seg nlen w,
  Forall seg_wf segs ->
  at_off buf seg (aspath_enc 2 segs) ->
  Z.of_nat (length (aspath_enc 2 segs)) <= 65535 ->
  (length (aspath_enc 2 segs) <= fuel)%nat ->
  0 <= nlen < 2 ^ 16 ->
  inflate_len fuel buf seg (Z.of_nat (length (aspath_enc 2 segs))) nlen w
  = Ret (Some (u16 (nlen + inflated_size segs))) w.
Proof.
  induction segs as [|s segs IH];
    intros fuel buf seg nlen w Hwf Hat Hlen Hfuel Hnlen.
  - destruct fuel; simpl; unfold ret; by rewrite Z.add_0_r, u16_small.
  - apply Forall_cons in Hwf as [[Hn Hasn] Hwf].
    change (aspath_enc 2 (s :: segs)) with (seg_enc 2 s ++ aspath_enc 2 segs) in *.
    rewrite length_app, length_seg_enc in Hlen, Hfuel |- *.
    destruct fuel as [|fuel]; [simpl in Hfuel; lia|].
    apply at_off_app in Hat as [Hs Hrest].
    rewrite length_seg_enc in Hrest.
    pose proof Hs as Hs'. unfold seg_enc in Hs'.
    apply at_off_cons in Hs' as [_ Hs'].
    cbn [inflate_len].
    rewrite Zgtb_true by lia.
    unfold bind at 1. rewrite (load8_at_off _ _ _ _ w Hs').
    rewrite byte_of_small by lia.
    rewrite (u16_small (2 + _)) by lia.
    rewrite Zgtb_false by lia.
    replace (u16 (Z.of_nat (2 + 2 * length s.2 + length (aspath_enc 2 segs))
                  - (2 + 2 * Z.of_nat (length s.2))))
      with (Z.of_nat (length (aspath_enc 2 segs)))
      by (rewrite u16_small; lia).
    replace (seg + (2 + 2 * Z.of_nat (length s.2)))
      with (seg + Z.of_nat (2 + 2 * length s.2)) by lia.
    rewrite IH; try done; try lia; [|apply u16_range].
    f_equal. f_equal. rewrite u16_add_l.
    cbn [inflated_size fold_right]. f_equal. unfold inflated_size. lia.
Qed.

Lemma with_block_id p blk w : w_heap w !! p = Some blk -> with_block p blk w = w.
Proof.
  intros H. destruct w as [h n o f r]. unfold with_block, set_heap; simpl in *.
  f_equal. by apply insert_id.
Qed.

Lemma be_bytes_2 a : be_bytes 2 a = [byte.of_Z (a / 256); byte.of_Z a].
Proof. reflexivity. Qed.

Lemma be_bytes_4_small a :
  0 <= a < 2 ^ 16 ->
  be_bytes 4 a = [Byte.x00; Byte.x00; byte.of_Z (a / 256); byte.of_Z a].
Proof.
  intros H. cbn [be_bytes app].
  assert (E : a / 256 / 256 = 0) by (rewrite Z.div_div by lia; apply Z.div_small; lia).
  rewrite E. reflexivity.
Qed.

Lemma byte_of_unsigned_be b : byte.of_Z (be_uint [b]) = b.
Proof. rewrite be_uint_1. apply byte.of_Z_unsigned. Qed.

Lemma inflate_asns_ok asns : forall buf p seg nseg w out rest,
  at_off buf seg (flat_map (be_bytes 2) asns) ->
  Forall (fun a => 0 <= a < 2 ^ 16) asns ->
  w_heap w !! p = Some (out ++ rest) ->
  nseg = Z.of_nat (length out) ->
  (4 * length asns <= length rest)%nat ->
  inflate_asns (length asns) buf p seg nseg w
  = Ret (seg + 2 * Z.of_nat (length asns), nseg + 4 * Z.of_nat (length asns))
        (with_block p (out ++ flat_map (be_bytes 4) asns
                           ++ drop (4 * length asns) rest) w).
Proof.
  induction asns as [|a asns IH]; intros buf p seg nseg w out rest Hat Hasn Hp Hn Hr.
  - simpl. unfold ret. rewrite !Z.add_0_r. by rewrite with_block_id.
  - apply Forall_cons in Hasn as [Ha Hasn].
    destruct rest as [|r0 [|r1 [|r2 [|r3 rest]]]]; simpl in Hr; try lia.
    cbn [flat_map] in Hat. rewrite be_bytes_2 in Hat.
    cbn [app] in Hat.
    pose proof (fun w => load8_at_off _ _ _ _ w Hat) as L0.
    apply at_off_cons in Hat as [_ Hat].
    pose proof (fun w => load8_at_off _ _ _ _ w Hat) as L1.
    apply at_off_cons in Hat as [_ Hat].
    cbn [length inflate_asns].
    step (poke_ok p out r0 _ Byte.x00 w nseg Hp Hn).
    erewrite bind_eq.
    2:{ apply (poke_ok p (out ++ [Byte.x00]) r1 (r2 :: r3 :: rest)).
        - rewrite with_block_lookup, <- app_assoc. reflexivity.
        - rewrite length_app. simpl. lia. }
    rewrite with_block_twice.
    step (L0 (with_block p ((out ++ [Byte.x00]) ++ Byte.x00 :: r2 :: r3 :: rest) w)).
    erewrite bind_eq.
    2:{ apply (poke_ok p (out ++ [Byte.x00; Byte.x00]) r2 (r3 :: rest)).
        - rewrite with_block_lookup, <- !app_assoc. reflexivity.
        - rewrite length_app. simpl. lia. }
    rewrite with_block_twice.
    step (L1 (with_block p ((out ++ [Byte.x00; Byte.x00]) ++
                byte.of_Z (byte.unsigned (byte.of_Z (a / 256))) :: r3 :: rest) w)).
    erewrite bind_eq.
    2:{ apply (poke_ok p (out ++ [Byte.x00; Byte.x00;
                      byte.of_Z (byte.unsigned (byte.of_Z (a / 256)))]) r3 rest).
        - rewrite with_block_lookup, <- !app_assoc. reflexivity.
        - rewrite length_app. simpl. lia. }
    rewrite with_block_twice.
    rewrite !byte.of_Z_unsigned.
    replace (seg + 1 + 1) with (seg + 2) in Hat by lia.
    rewrite (IH buf p (seg + 2) (nseg + 4) _
               (out ++ be_bytes 4 a) rest Hat Hasn).
    + rewrite with_block_twice. f_equal; [f_equal; lia|].
      f_equal. cbn [flat_map]. rewrite <- !app_assoc. f_equal. f_equal.
      replace (4 * S (length asns))%nat with (4 + 4 * length asns)%nat by lia.
      reflexivity.
    + rewrite with_block_lookup, be_bytes_4_small by done.
      rewrite <- !app_assoc. reflexivity.
    + rewrite length_app, length_be_bytes. lia.
    + lia.
Qed.

Lemma inflate_copy_ok segs : forall fuel buf p seg nseg nlen w out rest,
  Forall seg_wf segs ->
  at_off buf seg (aspath_enc 2 segs) ->
  w_heap w !! p = Some (out ++ rest) ->
  nseg = Z.of_nat (length out) ->
  length rest = length (aspath_enc 4 segs) ->
  nlen = nseg + Z.of_nat (length rest) ->
  (length segs <= fuel)%nat ->
  inflate_copy fuel buf p seg nseg nlen w
  = Ret tt (with_block p (out ++ aspath_enc 4 segs) w).
Proof.
  induction segs as [|s segs IH];
    intros fuel buf p seg nseg nlen w out rest Hwf Hat Hp Hn Hrest Hnlen Hfuel.
  - destruct rest; [|discriminate]. simpl in Hnlen.
    assert (E : (nseg <? nlen) = false) by (apply Zltb_false; lia).
    destruct fuel; simpl; rewrite E; unfold ret; by rewrite with_block_id.
  - apply Forall_cons in Hwf as [[Hlen Hasn] Hwf].
    change (aspath_enc 2 (s :: segs)) with (seg_enc 2 s ++ aspath_enc 2 segs) in *.
    change (aspath_enc 4 (s :: segs)) with (seg_enc 4 s ++ aspath_enc 4 segs) in *.
    rewrite length_app, length_seg_enc in Hrest.
    destruct fuel as [|fuel]; [simpl in Hfuel; lia|].
    destruct rest as [|r0 [|r1 rest]]; simpl in Hrest; try lia.
    apply at_off_app in Hat as [Hs Htl]. rewrite length_seg_enc in Htl.
    unfold seg_enc in Hs.
    pose proof (fun w => load8_at_off _ _ _ _ w Hs) as L0.
    apply at_off_cons in Hs as [_ Hs].
    pose proof (fun w => load8_at_off _ _ _ _ w Hs) as L1.
    apply at_off_cons in Hs as [_ Hs].
    cbn [inflate_copy]. rewrite Zltb_true by (simpl in Hnlen; lia).
    step (L0 w).
    step (poke_ok p out r0 _ (byte.of_Z (byte.unsigned s.1)) w nseg Hp Hn).
    step (L1 (with_block p (out ++ byte.of_Z (byte.unsigned s.1) :: r1 :: rest) w)).
    erewrite bind_eq.
    2:{ apply (poke_ok p (out ++ [byte.of_Z (byte.unsigned s.1)]) r1 rest).
        - rewrite with_block_lookup, <- app_assoc. reflexivity.
        - rewrite length_app. simpl. lia. }
    rewrite with_block_twice, !byte.of_Z_unsigned.
    rewrite byte_of_small by lia. rewrite Nat2Z.id.
    replace (seg + 1 + 1) with (seg + 2) in Hs by lia.
    erewrite bind_eq.
    2:{ apply (inflate_asns_ok s.2 buf p (seg + 2) (nseg + 2) _
                 (out ++ [s.1; byte.of_Z (Z.of_nat (length s.2))]) rest Hs Hasn).
        - rewrite with_block_lookup, <- !app_assoc. reflexivity.
        - rewrite length_app. simpl. lia.
        - lia. }
    rewrite with_block_twice.
    rewrite (IH fuel buf p _ _ nlen _
               ((out ++ [s.1; byte.of_Z (Z.of_nat (length s.2))]) ++
                flat_map (be_bytes 4) s.2) (drop (4 * length s.2) rest)).
    + rewrite with_block_twice. f_equal. f_equal. unfold seg_enc.
      rewrite <- !app_assoc. reflexivity.
    + done.
    + replace (seg + 2 + 2 * Z.of_nat (length s.2))
        with (seg + Z.of_nat (2 + 2 * length s.2)) by lia. done.
    + rewrite with_block_lookup, <- !app_assoc. reflexivity.
    + rewrite !length_app, length_flat_be. simpl. lia.
    + rewrite length_drop. lia.
    + rewrite length_drop. simpl in Hnlen. lia.
    + simpl in Hfuel. lia.
Qed.

Lemma length_segs_le segs n : (length segs <= length (aspath_enc n segs))%nat.
Proof.
  induction segs as [|s segs IH]; simpl; [lia|].
  rewrite length_app. simpl. lia.
Qed.

Lemma malloc_eq n w :
  malloc n w = Ret (w_next w)
                   (mk_world (<[w_next w := replicate (Z.to_nat n) Byte.x00]> (w_heap w))
                             (S (w_next w)) (w_out w) (w_file w) (w_reads w)).
Proof. reflexivity. Qed.

Lemma slice_split buf off n1 n2 :
  0 <= off -> 0 <= n1 -> 0 <= n2 ->
  slice buf off (n1 + n2) = slice buf off n1 ++ slice buf (off + n1) n2.
Proof.
  intros. unfold slice.
  rewrite !Z2Nat.inj_add by lia.
  rewrite <- take_take_drop, drop_drop. reflexivity.
Qed.

Lemma length_slice buf off n :
  0 <= off -> 0 <= n -> off + n <= Z.of_nat (length buf) ->
  length (slice buf off n) = Z.to_nat n.
Proof.
  intros. unfold slice. rewrite length_take, length_drop. lia.
Qed.

Lemma load8_ret buf off w v w' :
  load8 buf off w = Ret v w' ->
  w' = w /\ 0 <= off /\ off + 1 <= Z.of_nat (length buf) /\
  exists b, slice buf off 1 = [b] /\ v = byte.unsigned b.
Proof.
  unfold load8, bind. destruct (load buf off 1 w) as [bs w1| | |] eqn:E; try discriminate.
  apply load_ret in E as (-> & -> & E). unfold ret. intros [= <- <-].
  unfold in_obj in E. simpl in E.
  rewrite !andb_true_iff, !Z.leb_le in E. destruct E as [[E1 _] E2].
  split; [done|]. split; [done|]. split; [done|].
  pose proof (length_slice buf off 1 E1 ltac:(lia) E2) as L.
  destruct (slice buf off 1) as [|b [|? ?]]; try discriminate.
  exists b. split; [done|]. apply be_uint_1.
Qed.

Lemma bytes_as_asns n : forall body,
  length body = (2 * n)%nat ->
  exists asns, length asns = n /\ Forall (fun a => 0 <= a < 2 ^ 16) asns /\
               body = flat_map (be_bytes 2) asns.
Proof.
  induction n as [|n IH]; intros body Hl.
  - destruct body; [|discriminate]. by exists [].
  - destruct body as [|h [|l body]]; simpl in Hl; try lia.
    destruct (IH body ltac:(lia)) as (asns & Hn & Hr & ->).
    pose proof (byte_range h). pose proof (byte_range l).
    exists (byte.unsigned h * 256 + byte.unsigned l :: asns).
    split; [simpl; lia|]. split; [constructor; [lia|done]|].
    cbn [flat_map]. rewrite be_bytes_2. cbn [app]. f_equal; [|f_equal].
    + replace ((byte.unsigned h * 256 + byte.unsigned l) / 256)
        with (byte.unsigned h)
        by (apply Z.div_unique with (r := byte.unsigned l); lia).
      by rewrite byte.of_Z_unsigned.
    + apply byte.unsigned_inj. rewrite byte.unsigned_of_Z. unfold byte.wrap.
      apply Z.mod_unique with (q := byte.unsigned h); lia.
Qed.

Lemma inflate_len_sound fuel : forall buf seg olen nlen w r w',
  inflate_len fuel buf seg olen nlen w = Ret (Some r) w' ->
  0 <= seg -> 0 <= olen <= 65535 -> seg + olen <= Z.of_nat (length buf) ->
  0 <= nlen < 2 ^ 16 ->
  exists segs, Forall seg_wf segs /\ slice buf seg olen = aspath_enc 2 segs /\
               r = u16 (nlen + inflated_size segs) /\ w' = w.
Proof.
  induction fuel as [|fuel IH]; intros buf seg olen nlen w r w' H Hseg Holen Hbuf Hnlen.
  - simpl in H. destruct (olen >? 0) eqn:E; [discriminate|].
    rewrite Z.gtb_ltb in E; apply Z.ltb_ge in E. assert (olen = 0) as -> by lia.
    injection H as <- <-. exists []. split; [constructor|]. split; [done|].
    split; [|done]. simpl. by rewrite Z.add_0_r, u16_small.
  - cbn [inflate_len] in H. destruct (olen >? 0) eqn:E.
    2:{ rewrite Z.gtb_ltb in E; apply Z.ltb_ge in E. assert (olen = 0) as -> by lia.
        injection H as <- <-. exists []. split; [constructor|]. split; [done|].
        split; [|done]. simpl. by rewrite Z.add_0_r, u16_small. }
    rewrite Z.gtb_ltb in E; apply Z.ltb_lt in E.
    unfold bind in H.
    destruct (load8 buf (seg + 1) w) as [seg_len w1| | |] eqn:L; try discriminate.
    apply load8_ret in L as (-> & _ & Hin & (l & Hl & ->)).
    pose proof (byte_range l) as Hlr.
    rewrite (u16_small (2 + _)) in H by lia.
    destruct (2 + 2 * byte.unsigned l >? olen) eqn:E2; [discriminate|].
    rewrite Z.gtb_ltb in E2; apply Z.ltb_ge in E2.
    rewrite (u16_small (olen - _)) in H by lia.
    apply IH in H as (segs & Hwf & Hsl & -> & ->); try lia; [|apply u16_range].
    replace olen with (1 + (1 + (2 * byte.unsigned l + (olen - (2 + 2 * byte.unsigned l)))))
      by lia.
    rewrite !slice_split by lia.
    pose proof (length_slice buf seg 1 ltac:(lia) ltac:(lia) ltac:(lia)) as Lt.
    destruct (slice buf seg 1) as [|t [|? ?]]; try discriminate.
    rewrite Hl.
    pose proof (length_slice buf (seg + 1 + 1) (2 * byte.unsigned l)
                  ltac:(lia) ltac:(lia) ltac:(lia)) as Lb.
    destruct (bytes_as_asns (Z.to_nat (byte.unsigned l)) _ ltac:(rewrite Lb; lia))
      as (asns & Hn & Hr & Hbody).
    exists ((t, asns) :: segs).
    split; [constructor; [split; simpl; [lia|done]|done]|].
    split.
    + change (aspath_enc 2 ((t, asns) :: segs))
        with (seg_enc 2 (t, asns) ++ aspath_enc 2 segs).
      unfold seg_enc. simpl fst. simpl snd. rewrite Hbody, Hn, <- Hsl.
      rewrite Z2Nat.id by lia. rewrite byte.of_Z_unsigned.
      replace (seg + 1 + 1 + 2 * byte.unsigned l)
        with (seg + (2 + 2 * byte.unsigned l)) by lia.
      reflexivity.
    + split; [|done]. rewrite u16_add_l. cbn [inflated_size fold_right].
      simpl snd. rewrite Hn. f_equal. unfold inflated_size. lia.
Qed.

Lemma bind_inv {A B} (m : M A) (k : A -> M B) w b w' :
  bind m k w = Ret b w' -> exists a w1, m w = Ret a w1 /\ k a w1 = Ret b w'.
Proof.
  unfold bind. destruct (m w) as [a w1| | |]; try discriminate. eauto.
Qed.

Lemma ret_inv {A} (a b : A) w w' : ret a w = Ret b w' -> a = b /\ w = w'.
Proof. unfold ret. by intros [= -> ->]. Qed.

Lemma be_uint_2 b1 b2 : be_uint [b1; b2] = byte.unsigned b1 * 256 + byte.unsigned b2.
Proof. unfold be_uint; simpl. lia. Qed.

Lemma load8_range buf off w v w' :
  load8 buf off w = Ret v w' -> w' = w /\ 0 <= v <= 255.
Proof.
  intros H. apply load8_ret in H as (-> & _ & _ & b & _ & ->).
  split; [done|]. apply byte_range.
Qed.

Lemma load16_range buf off w v w' :
  load16 buf off w = Ret v w' -> w' = w /\ 0 <= v <= 65535.
Proof.
  unfold load16. intros H. apply bind_inv in H as (bs & w1 & E & H).
  apply load_ret in E as (-> & -> & E). apply ret_inv in H as [<- <-].
  split; [done|]. unfold in_obj in E. simpl in E.
  rewrite !andb_true_iff, !Z.leb_le in E. destruct E as [[E1 _] E2].
  pose proof (length_slice buf off 2 E1 ltac:(lia) E2) as L.
  destruct (slice buf off 2) as [|b1 [|b2 [|? ?]]]; try discriminate.
  rewrite be_uint_2. pose proof (byte_range b1). pose proof (byte_range b2). lia.
Qed.

Lemma attr_mp_reach_next buf aid re a alen attr_len w re' a' alen' w' :
  attr_mp_reach buf aid re a alen attr_len w = Ret (AttrNext re' a' alen') w' ->
  0 <= attr_len ->
  alen' <= alen /\ a' + alen' = a + alen.
Proof.
  unfold attr_mp_reach. intros H Hl.
  apply bind_inv in H as (first & w1 & _ & H).
  pose proof (u16_range (attr_len - 3)) as Hu.
  destruct (negb (first =? attr_len - 1));
    destruct aid;
    repeat match type of H with
           | (if ?c then _ else _) _ = _ => destruct c
           | bind _ _ _ = _ => apply bind_inv in H as (? & ? & _ & H)
           end;
    apply ret_inv in H as [H _]; try discriminate;
    injection H as <- <- <-; lia.
Qed.

Lemma attr_default_ret buf re attr a attr_len w re' w' :
  attr_default buf re attr a attr_len w = Ret re' w' ->
  re_nattrs re' = u8 (re_nattrs re + 1) /\ re_nattrs re' < UCHAR_MAX /\
  exists ap, re_attrs re' = re_attrs re ++ [ap].
Proof.
  unfold attr_default. intros H.
  destruct (u8 (re_nattrs re + 1) >=? UCHAR_MAX) eqn:E; [discriminate|].
  rewrite Z.geb_leb in E; apply Z.leb_gt in E.
  repeat (apply bind_inv in H as (? & ? & _ & H)).
  apply ret_inv in H as [<- _]. simpl. eauto.
Qed.

Lemma attr_switch_next buf aid as4 re type attr a alen attr_len w re' a' alen' w' :
  attr_switch buf aid as4 re type attr a alen attr_len w
  = Ret (AttrNext re' a' alen') w' ->
  0 <= attr_len ->
  alen' <= alen /\ a' + alen' = a + alen.
Proof.
  unfold attr_switch. intros H Hl.
  repeat match type of H with
         | (if ?c then _ else _) _ = _ => destruct c
         end;
    try (eapply attr_mp_reach_next; [exact H | exact Hl]);
    repeat match type of H with
           | bind _ _ _ = _ => apply bind_inv in H as (? & ? & _ & H)
           | (match ?x with _ => _ end) _ = _ => destruct x as [[? ?]|]
           end;
    apply ret_inv in H as [H _]; try discriminate;
    injection H as <- <- <-; lia.

Qed.

Lemma attr_body_next buf aid as4 re a alen w re' a' alen' w' :
  attr_body buf aid as4 re a alen w = Ret (AttrNext re' a' alen') w' ->
  alen' <= alen - 3 /\ a' + alen' = a + alen.
Proof.
  unfold attr_body. intros H.
  destruct (alen <? 3); [by apply ret_inv in H as [H _]|].
  apply bind_inv in H as (flags & w1 & _ & H).
  apply bind_inv in H as (type & w2 & _ & H).
  destruct (negb _).
  - destruct (alen - 2 <? 2); [by apply ret_inv in H as [H _]|].
    apply bind_inv in H as (attr_len & w3 & E & H).
    apply load16_range in E as [_ E].
    apply attr_switch_next in H; lia.
  - apply bind_inv in H as (attr_len & w3 & E & H).
    apply load8_range in E as [_ E].
    apply attr_switch_next in H; lia.
Qed.

(** The fuel of [attr_loop] does not matter once it covers the span. *)
Lemma attr_loop_fuel f1 : forall f2 buf aid as4 re a alen w,
  alen < 3 * Z.of_nat f1 -> alen < 3 * Z.of_nat f2 ->
  (1 <= f1)%nat -> (1 <= f2)%nat ->
  attr_loop f1 buf aid as4 re a alen w = attr_loop f2 buf aid as4 re a alen w.
Proof.
  induction f1 as [|f1 IH]; intros f2 buf aid as4 re a alen w H1 H2 G1 G2; [lia|].
  destruct f2 as [|f2]; [lia|]. cbn [attr_loop]. unfold bind.
  destruct (attr_body buf aid as4 re a alen w) as [[r re'|re' a' alen'] w'| | |] eqn:E;
    try reflexivity.
  apply attr_body_next in E as [E _].
  destruct (alen' >? 0) eqn:G; [|reflexivity].
  rewrite Z.gtb_ltb in G; apply Z.ltb_lt in G.
  apply IH; lia.
Qed.

(** The do-while loop, one turn unfolded. *)
Lemma mrt_extract_attr_unfold buf re a alen aid as4 w :
  mrt_extract_attr buf re a alen aid as4 w =
  match attr_body buf aid as4 re a alen w with
  | Ret (AttrReturn r re') w' => Ret (r, re') w'
  | Ret (AttrNext re' a' alen') w' =>
      if alen' >? 0 then mrt_extract_attr buf re' a' alen' aid as4 w'
      else Ret (0, re') w'
  | Exit s w' => Exit s w'
  | Fault s w' => Fault s w'
  | OutOfFuel => OutOfFuel
  end.
Proof.
  unfold mrt_extract_attr at 1. cbn [attr_loop]. unfold bind.
  destruct (attr_body buf aid as4 re a alen w) as [[r re'|re' a' alen'] w'| | |] eqn:E;
    try reflexivity.
  apply attr_body_next in E as [E _].
  destruct (alen' >? 0) eqn:G; [|reflexivity].
  rewrite Z.gtb_ltb in G; apply Z.ltb_lt in G.
  unfold mrt_extract_attr. apply attr_loop_fuel; lia.
Qed.

Lemma mrt_extract_attr_reach buf aid as4 s s' :
  attr_reach buf aid as4 s s' ->
  mrt_extract_attr buf s.1.1.1 s.1.1.2 s.1.2 aid as4 s.2
  = mrt_extract_attr buf s'.1.1.1 s'.1.1.2 s'.1.2 aid as4 s'.2.
Proof.
  induction 1 as [s|re a alen w re1 a1 alen1 w1 s Hb Hpos _ IH]; [done|].
  simpl in *. rewrite mrt_extract_attr_unfold, Hb.
  by rewrite Zgtb_true by lia.
Qed.

Lemma mrt_extract_attr_reached buf aid as4 re a alen w re1 a1 alen1 w1 :
  attr_reach buf aid as4 (re, a, alen, w) (re1, a1, alen1, w1) ->
  mrt_extract_attr buf re a alen aid as4 w
  = mrt_extract_attr buf re1 a1 alen1 aid as4 w1.
Proof. intros H. exact (mrt_extract_attr_reach _ _ _ _ _ H). Qed.

Lemma length_attr_hdr flags type attr_len :
  length (attr_hdr flags type attr_len) = if extlen flags then 4%nat else 3%nat.
Proof. unfold attr_hdr. by destruct (extlen flags). Qed.

Lemma be_uint_be_bytes_2 z : 0 <= z <= 65535 -> be_uint (be_bytes 2 z) = z.
Proof.
  intros H. rewrite be_bytes_2, be_uint_2, !byte.unsigned_of_Z. unfold byte.wrap.
  rewrite (Z.mod_small (z / 256)).
  2:{ split; [apply Z.div_pos; lia|]. apply Z.div_lt_upper_bound; lia. }
  change (2 ^ 8) with 256. pose proof (Z.div_mod z 256 ltac:(lia)). lia.
Qed.

Lemma load16_at_off buf off l z w :
  at_off buf off (be_bytes 2 z ++ l) -> 0 <= z <= 65535 ->
  load16 buf off w = Ret z w.
Proof.
  intros H Hz. apply at_off_app in H as [H _].
  unfold load16. rewrite (bind_eq _ _ _ _ _ (load_at_off _ _ _ 2 w H eq_refl)).
  unfold ret. by rewrite be_uint_be_bytes_2.
Qed.

(** With the header of an attribute at [a], one turn of the loop is the
    switch on its type. *)
Lemma attr_body_at buf aid as4 re a alen w flags type attr_len :
  at_off buf a (attr_hdr flags type attr_len) ->
  attr_len_ok flags attr_len ->
  Z.of_nat (length (attr_hdr flags type attr_len)) <= alen ->
  attr_body buf aid as4 re a alen w
  = attr_switch buf aid as4 re (byte.unsigned type) a
      (a + Z.of_nat (length (attr_hdr flags type attr_len)))
      (alen - Z.of_nat (length (attr_hdr flags type attr_len))) attr_len w.
Proof.
  intros Hat Hok Hlen. rewrite length_attr_hdr in *.
  unfold attr_hdr, attr_len_ok in *. unfold attr_body.
  assert (Hx : extlen flags = negb (Z.land (byte.unsigned flags) MRT_ATTR_EXTLEN =? 0))
    by reflexivity.
  destruct (extlen flags).
  - cbn [app] in Hat.
    rewrite Zltb_false by lia.
    step (load8_at_off _ _ _ _ w Hat). apply at_off_cons in Hat as [_ Hat].
    step (load8_at_off _ _ _ _ w Hat). apply at_off_cons in Hat as [_ Hat].
    rewrite <- Hx. rewrite Zltb_false by lia.
    replace (a + 1 + 1) with (a + 2) in Hat by lia.
    rewrite <- (app_nil_r (be_bytes 2 attr_len)) in Hat.
    step (load16_at_off _ _ _ _ w Hat Hok). reflexivity.
  - rewrite Zltb_false by lia.
    step (load8_at_off _ _ _ _ w Hat). apply at_off_cons in Hat as [_ Hat].
    step (load8_at_off _ _ _ _ w Hat). apply at_off_cons in Hat as [_ Hat].
    rewrite <- Hx.
    replace (a + 1 + 1) with (a + 2) in Hat by lia.
    step (load8_at_off _ _ _ _ w Hat). rewrite byte_of_small by lia. reflexivity.
Qed.

Lemma u8_small z : 0 <= z < 2 ^ 8 -> u8 z = z.
Proof. intros. unfold u8. by apply Z.mod_small. Qed.

Lemma attr_default_attrs_ok buf re attr a attr_len w re' w' :
  attr_default buf re attr a attr_len w = Ret re' w' ->
  re_attrs_ok re -> re_attrs_ok re'.
Proof.
  intros H [Hn Hle]. apply attr_default_ret in H as (H1 & H2 & ap & H3).
  unfold re_attrs_ok, UCHAR_MAX in *. rewrite H3, length_app. simpl.
  rewrite u8_small in H1 by lia. lia.
Qed.

Lemma attr_mp_reach_entry buf aid re a alen attr_len w n w' :
  attr_mp_reach buf aid re a alen attr_len w = Ret n w' ->
  re_attrs (attr_next_entry n) = re_attrs re /\
  re_nattrs (attr_next_entry n) = re_nattrs re /\
  re_aspath (attr_next_entry n) = re_aspath re /\ w' = w.
Proof.
  unfold attr_mp_reach. intros H.
  apply bind_inv in H as (first & w1 & E & H).
  apply load8_range in E as [-> _].
  destruct (negb (first =? attr_len - 1));
    destruct aid;
    repeat match type of H with
           | (if ?c then _ else _) _ = _ => destruct c
           | bind _ _ _ = _ =>
               let E := fresh "E" in
               apply bind_inv in H as (? & ? & E & H);
               apply load_ret in E as (-> & _ & _)
           end;
    apply ret_inv in H as [<- <-]; done.
Qed.

Lemma attr_switch_attrs_ok buf aid as4 re type attr a alen attr_len w n w' :
  attr_switch buf aid as4 re type attr a alen attr_len w = Ret n w' ->
  re_attrs_ok re -> re_attrs_ok (attr_next_entry n).
Proof.
  unfold attr_switch. intros H Hok.
  repeat match type of H with
         | (if ?c then _ else _) _ = _ => destruct c
         end;
    try (apply attr_mp_reach_entry in H as (H1 & H2 & _);
         unfold re_attrs_ok; rewrite H1, H2; exact Hok);
    try (apply bind_inv in H as (re1 & w1 & E & H);
         apply attr_default_attrs_ok in E; [|exact Hok];
         apply ret_inv in H as [<- _]; exact E);
    repeat match type of H with
           | bind _ _ _ = _ => apply bind_inv in H as (? & ? & _ & H)
           | (match ?x with _ => _ end) _ = _ => destruct x as [[? ?]|]
           end;
    apply ret_inv in H as [<- _]; exact Hok.
Qed.

Lemma attr_body_attrs_ok buf aid as4 re a alen w n w' :
  attr_body buf aid as4 re a alen w = Ret n w' ->
  re_attrs_ok re -> re_attrs_ok (attr_next_entry n).
Proof.
  unfold attr_body. intros H Hok.
  destruct (alen <? 3); [by apply ret_inv in H as [<- _]|].
  apply bind_inv in H as (flags & w1 & _ & H).
  apply bind_inv in H as (type & w2 & _ & H).
  destruct (negb _).
  - destruct (alen - 2 <? 2); [by apply ret_inv in H as [<- _]|].
    apply bind_inv in H as (attr_len & w3 & _ & H).
    by eapply attr_switch_attrs_ok.
  - apply bind_inv in H as (attr_len & w3 & _ & H).
    by eapply attr_switch_attrs_ok.
Qed.

Lemma attr_loop_attrs_ok fuel : forall buf aid as4 re a alen w r re' w',
  attr_loop fuel buf aid as4 re a alen w = Ret (r, re') w' ->
  re_attrs_ok re -> re_attrs_ok re'.
Proof.
  induction fuel as [|fuel IH]; intros buf aid as4 re a alen w r re' w' H Hok;
    [discriminate|].
  cbn [attr_loop] in H. apply bind_inv in H as (n & w1 & E & H).
  apply attr_body_attrs_ok in E; [|exact Hok].
  destruct n as [r1 re1|re1 a1 alen1]; simpl in E.
  - by apply ret_inv in H as [[= <- <-] _].
  - destruct (alen1 >? 0).
    + by eapply IH.
    + by apply ret_inv in H as [[= <- <-] _].
Qed.

Lemma attr_reach_attrs_ok buf aid as4 s s' :
  attr_reach buf aid as4 s s' -> re_attrs_ok s.1.1.1 -> re_attrs_ok s'.1.1.1.
Proof.
  induction 1 as [s|re a alen w re1 a1 alen1 w1 s Hb Hpos _ IH]; [done|].
  intros Hok. apply IH. simpl in *.
  by apply (attr_body_attrs_ok _ _ _ _ _ _ _ _ _ Hb).
Qed.

Lemma attr_switch_unknown buf aid as4 re type attr a alen attr_len :
  unknown_attr as4 type ->
  attr_switch buf aid as4 re (byte.unsigned type) attr a alen attr_len
  = (let* re' := attr_default buf re attr a attr_len in
     ret (AttrNext re' (a + attr_len) (alen - attr_len))).
Proof.
  intros (H1 & H2 & H3 & H4 & H5 & H6 & H7). unfold attr_switch.
  rewrite (proj2 (Z.eqb_neq _ _) H1), (proj2 (Z.eqb_neq _ _) H2),
    (proj2 (Z.eqb_neq _ _) H3), (proj2 (Z.eqb_neq _ _) H4),
    (proj2 (Z.eqb_neq _ _) H5), (proj2 (Z.eqb_neq _ _) H6).
  destruct (byte.unsigned type =? MRT_ATTR_AS4PATH) eqn:E; [|reflexivity].
  apply Z.eqb_eq in E. by rewrite (H7 E).
Qed.

(** [malloc(n)] followed by [memcpy] of [n] bytes that lie in the buffer. *)
Lemma malloc_memcpy {B} buf off bs n (k : ptr -> M B) w :
  at_off buf off bs -> n = Z.of_nat (length bs) ->
  (let* p := malloc n in
   let* src := load buf off n in
   let* _ := memcpy_to p src in k p) w
  = k (w_next w) (alloc_world bs w).
Proof.
  intros Hat ->. step (malloc_eq (Z.of_nat (length bs)) w).
  erewrite bind_eq by (by apply load_at_off).
  unfold bind at 1, memcpy_to. cbn [w_heap]. rewrite lookup_insert_eq.
  rewrite Nat2Z.id, length_replicate, Nat.leb_refl.
  f_equal. unfold alloc_world, set_heap. cbn.
  rewrite insert_insert_eq. f_equal. f_equal.
  rewrite drop_ge by (rewrite length_replicate; lia). apply app_nil_r.
Qed.

Lemma free_live re w :
  aspath_live re w ->
  free (re_aspath re) w = Ret tt (set_heap (heap_free (re_aspath re)) w).
Proof.
  unfold aspath_live, free. destruct (re_aspath re) as [q|].
  - intros [blk ->]. reflexivity.
  - intros _. by destruct w.
Qed.

Lemma at_off_shift buf off l1 l2 n :
  at_off buf off (l1 ++ l2) -> n = off + Z.of_nat (length l1) -> at_off buf n l2.
Proof. intros H ->. by apply at_off_app in H as [_ H]. Qed.

Lemma be_uint_snoc bs b : be_uint (bs ++ [b]) = be_uint bs * 256 + byte.unsigned b.
Proof. unfold be_uint. by rewrite fold_left_app. Qed.

Lemma be_uint_range bs : 0 <= be_uint bs < 256 ^ Z.of_nat (length bs).
Proof.
  induction bs as [|b bs IH] using rev_ind; [simpl; unfold be_uint; simpl; lia|].
  rewrite be_uint_snoc, length_app, Nat2Z.inj_add, Z.pow_add_r by lia.
  pose proof (byte_range b). simpl. nia.
Qed.

Lemma be_bytes_be_uint bs : be_bytes (length bs) (be_uint bs) = bs.
Proof.
  induction bs as [|b bs IH] using rev_ind; [done|].
  rewrite length_app, Nat.add_comm. cbn [length Nat.add be_bytes].
  rewrite be_uint_snoc. pose proof (byte_range b).
  replace ((be_uint bs * 256 + byte.unsigned b) / 256) with (be_uint bs)
    by (apply Z.div_unique with (r := byte.unsigned b); lia).
  rewrite IH. f_equal. f_equal.
  apply byte.unsigned_inj. rewrite byte.unsigned_of_Z. unfold byte.wrap.
  symmetry. apply Z.mod_unique with (q := be_uint bs); lia.
Qed.

Lemma load_slice buf off n w bs w' :
  load buf off n w = Ret bs w' -> 0 < n ->
  w' = w /\ bs = slice buf off n /\ 0 <= off /\
  off + n <= Z.of_nat (length buf) /\ length bs = Z.to_nat n.
Proof.
  intros H Hn. apply load_ret in H as (-> & -> & E).
  unfold in_obj in E. rewrite orb_true_iff, !andb_true_iff, Z.eqb_eq, !Z.leb_le in E.
  destruct E as [E|[[E1 E2] E3]]; [lia|].
  repeat split; try done. by apply length_slice.
Qed.

Lemma loadN_ret buf off n w v w' :
  (let* bs := load buf off n in ret (be_uint bs)) w = Ret v w' -> 0 < n ->
  w' = w /\ 0 <= off /\ off + n <= Z.of_nat (length buf) /\
  0 <= v < 256 ^ n /\ be_bytes (Z.to_nat n) v = slice buf off n.
Proof.
  intros H Hn. apply bind_inv in H as (bs & w1 & E & H).
  apply ret_inv in H as [<- <-].
  apply load_slice in E as (-> & E & H1 & H2 & H3); [|done].
  repeat split; try done.
  - apply be_uint_range.
  - pose proof (be_uint_range bs). rewrite H3, Z2Nat.id in H by lia. lia.
  - rewrite <- H3, be_bytes_be_uint. done.
Qed.

Lemma extract_addr_inet buf b len w r ad w' :
  mrt_extract_addr buf b len AID_INET w = Ret (r, ad) w' -> r <> -1 ->
  w' = w /\ r = 4 /\ 4 <= len /\ 0 <= b /\ b + 4 <= Z.of_nat (length buf) /\
  ad = mk_addr AID_INET (set_v4 addr_zero (slice buf b 4)) /\
  length (slice buf b 4) = 4%nat.
Proof.
  unfold mrt_extract_addr. intros H Hr.
  destruct (len <? 4) eqn:E; [apply ret_inv in H as [[= <- _] _]; done|].
  apply Z.ltb_ge in E. apply bind_inv in H as (v & w1 & L & H).
  apply load_slice in L as (-> & -> & ? & ? & ?); [|lia].
  apply ret_inv in H as [[= <- <-] <-]. done.
Qed.

Lemma extract_addr_inet6 buf b len w r ad w' :
  mrt_extract_addr buf b len AID_INET6 w = Ret (r, ad) w' -> r <> -1 ->
  w' = w /\ r = 16 /\ 16 <= len /\ 0 <= b /\ b + 16 <= Z.of_nat (length buf) /\
  ad = mk_addr AID_INET6 (slice buf b 16) /\
  length (slice buf b 16) = 16%nat.
Proof.
  unfold mrt_extract_addr. intros H Hr.
  destruct (len <? 16) eqn:E; [apply ret_inv in H as [[= <- _] _]; done|].
  apply Z.ltb_ge in E. apply bind_inv in H as (v & w1 & L & H).
  apply load_slice in L as (-> & -> & ? & ? & ?); [|lia].
  apply ret_inv in H as [[= <- <-] <-]. done.
Qed.

Lemma u32_small z : 0 <= z < 2 ^ 32 -> u32 z = z.
Proof. intros. unfold u32. by apply Z.mod_small. Qed.

Lemma load8_byte buf off w v w' :
  load8 buf off w = Ret v w' ->
  w' = w /\ 0 <= off /\ off + 1 <= Z.of_nat (length buf) /\
  exists t, slice buf off 1 = [t] /\ v = byte.unsigned t.
Proof. apply load8_ret. Qed.

Lemma drop_slice buf off n :
  0 <= off -> 0 <= n ->
  drop (Z.to_nat off) buf = slice buf off n ++ drop (Z.to_nat (off + n)) buf.
Proof.
  intros. unfold slice. rewrite Z2Nat.inj_add by lia.
  rewrite <- drop_drop. by rewrite take_drop.
Qed.

Lemma extract_addr_peer (i : bool) buf b len w r ad w' :
  mrt_extract_addr buf b len (if i then AID_INET6 else AID_INET) w
  = Ret (r, ad) w' ->
  r <> -1 ->
  let sz := if i then 16 else 4 in
  w' = w /\ sz <= len /\ 0 <= b /\ b + sz <= Z.of_nat (length buf) /\
  ad = (if i then mk_addr AID_INET6 (slice buf b sz)
        else mk_addr AID_INET (set_v4 addr_zero (slice buf b sz))) /\
  length (slice buf b sz) = Z.to_nat sz.
Proof.
  destruct i; intros H Hr; simpl.
  - apply extract_addr_inet6 in H as (? & ? & ? & ? & ? & ? & ?); done.
  - apply extract_addr_inet in H as (? & ? & ? & ? & ? & ? & ?); done.
Qed.

Lemma set_v4_addr_zero bs :
  length bs = 4%nat -> set_v4 addr_zero bs = bs ++ replicate 12 Byte.x00.
Proof. intros H. unfold set_v4, addr_zero. cbn [ba_bytes]. by rewrite H. Qed.

Lemma v2_peer_entries_sound turns : forall msg b len peers w res w',
  v2_peer_entries turns msg b len peers w = Ret (Some res) w' ->
  0 <= b -> b + len = Z.of_nat (length msg) -> 0 <= len < 2 ^ 32 ->
  exists entries,
    length entries = turns /\ Forall peer_wire_wf entries /\
    at_off msg b (flat_map peer_wire_enc entries) /\
    res = peers ++ map peer_of_wire entries /\ w' = w.
Proof.
  induction turns as [|turns IH]; intros msg b len peers w res w' H Hb Hlen Hr.
  - apply ret_inv in H as [[= <-] <-]. exists []. simpl.
    repeat split; try done; try lia.
    + by exists (drop (Z.to_nat b) msg).
    + by rewrite app_nil_r.
  - cbn [v2_peer_entries] in H.
    destruct (len <? 1 + 4) eqn:E; [by apply ret_inv in H as [? _]|].
    apply Z.ltb_ge in E.
    apply bind_inv in H as (type & w1 & L1 & H).
    apply load8_byte in L1 as (-> & _ & _ & t & St & ->).
    apply bind_inv in H as (bid & w1 & L2 & H).
    apply loadN_ret in L2 as (-> & _ & _ & Rbid & Sbid); [|lia].
    set (i := negb (Z.land (byte.unsigned t) MRT_DUMP_V2_PEER_BIT_I =? 0)) in *.
    apply bind_inv in H as ([r ad] & w1 & L3 & H).
    destruct (r =? -1) eqn:Er; [by apply ret_inv in H as [? _]|].
    apply Z.eqb_neq in Er.
    rewrite (u32_small (len - 1 - 4)) in L3, H by lia.
    apply (extract_addr_peer i) in L3 as (-> & Hsz & _ & Hin & -> & Sad); [|done].
    set (sz := if i then 16 else 4) in *.
    assert (Hszv : sz = 16 \/ sz = 4) by (unfold sz; destruct i; auto).
    rewrite (u32_small (len - 1 - 4 - sz)) in H by lia.
    set (a := negb (Z.land (byte.unsigned t) MRT_DUMP_V2_PEER_BIT_A =? 0)) in *.
    assert (exists asn n,
      n = (if a then 4 else 2) /\
      0 <= asn < 256 ^ n /\ b + 1 + 4 + sz + n <= Z.of_nat (length msg) /\
      be_bytes (Z.to_nat n) asn = slice msg (b + 1 + 4 + sz) n /\
      v2_peer_entries turns msg (b + 1 + 4 + sz + n)
        (u32 (len - 1 - 4 - sz - n))
        (peers ++ [mk_pe
           (if i then mk_addr AID_INET6 (slice msg (b + 1 + 4) sz)
            else mk_addr AID_INET (set_v4 addr_zero (slice msg (b + 1 + 4) sz)))
           bid asn]) w = Ret (Some res) w') as (asn & n & Hn & Rasn & Hin2 & Sasn & H').
    { destruct a.
      - apply bind_inv in H as (as4 & w1 & L4 & H).
        apply loadN_ret in L4 as (-> & _ & ? & ? & ?); [|lia].
        exists as4, 4. done.
      - apply bind_inv in H as (as2 & w1 & L4 & H).
        apply loadN_ret in L4 as (-> & _ & ? & ? & ?); [|lia].
        exists as2, 2. done. }
    assert (Hnv : n = 4 \/ n = 2) by (rewrite Hn; destruct a; auto).
    rewrite u32_small in H' by lia.
    apply IH in H' as (entries & Hl & Hwf & Hat & -> & ->); try lia.
    set (e := mk_pw t bid (slice msg (b + 1 + 4) sz) asn).
    assert (Ei : pw_bit MRT_DUMP_V2_PEER_BIT_I e = i) by reflexivity.
    assert (Ea : pw_bit MRT_DUMP_V2_PEER_BIT_A e = a) by reflexivity.
    assert (Epe : mk_pe
                    (if i then mk_addr AID_INET6 (slice msg (b + 1 + 4) sz)
                     else mk_addr AID_INET
                            (set_v4 addr_zero (slice msg (b + 1 + 4) sz)))
                    bid asn = peer_of_wire e).
    { unfold peer_of_wire. rewrite Ei. cbn [e pw_addr pw_bgp_id pw_asn].
      unfold sz in *. destruct i; [done|].
      by rewrite set_v4_addr_zero by exact Sad. }
    exists (e :: entries). split; [simpl; lia|]. split; [|split; [|split; [|done]]].
    + constructor; [|done]. unfold peer_wire_wf. rewrite Ei, Ea. simpl.
      split; [change (256 ^ 4) with (2 ^ 32) in Rbid; lia|].
      split; [rewrite Sad; unfold sz; by destruct i|].
      rewrite Hn in Rasn. by destruct a.
    + destruct Hat as [_ [post Hat]]. split; [lia|]. exists post.
      cbn [flat_map]. unfold peer_wire_enc. rewrite Ea. simpl pw_type.
      simpl pw_bgp_id. simpl pw_addr. simpl pw_asn.
      rewrite (drop_slice msg b 1), St by lia.
      rewrite (drop_slice msg (b + 1) 4), <- Sbid by lia.
      rewrite (drop_slice msg (b + 1 + 4) sz) by lia.
      rewrite (drop_slice msg (b + 1 + 4 + sz) n), <- Sasn, Hat by lia.
      rewrite <- !app_assoc.
      replace (Z.to_nat n) with (if a then 4 else 2)%nat
        by (rewrite Hn; by destruct a).
      reflexivity.
    + rewrite <- app_assoc, Epe. reflexivity.
Qed.

Lemma load_ok buf off n w :
  0 <= off -> 0 <= n -> off + n <= Z.of_nat (length buf) ->
  load buf off n w = Ret (slice buf off n) w.
Proof.
  intros. unfold load, in_obj.
  replace (_ || _) with true; [done|].
  symmetry. apply orb_true_iff. right. rewrite !andb_true_iff, !Z.leb_le. lia.
Qed.

Lemma peer_view_alloc msg b cnt w :
  0 <= b -> 0 <= cnt -> b + cnt <= Z.of_nat (length msg) ->
  (if negb (cnt =? 0) then
     let* v := malloc (cnt + 1) in
     let* name := load msg b cnt in
     let* _ := memcpy_to v name in
     let* _ := poke v cnt Byte.x00 in
     ret v
   else
     let* v := malloc 1 in
     let* _ := memcpy_to v [Byte.x00] in
     ret v) w
  = Ret (w_next w) (alloc_world (slice msg b cnt ++ [Byte.x00]) w).
Proof.
  intros Hb Hc Hin.
  pose proof (length_slice msg b cnt Hb Hc Hin) as Hl.
  destruct (cnt =? 0) eqn:E; cbn [negb].
  - apply Z.eqb_eq in E. subst cnt.
    step (malloc_eq 1 w).
    unfold bind, memcpy_to. cbn [w_heap]. rewrite lookup_insert_eq.
    unfold ret, alloc_world, set_heap. cbn. by rewrite insert_insert_eq.
  - apply Z.eqb_neq in E.
    step (malloc_eq (cnt + 1) w).
    erewrite bind_eq by (by apply load_ok).
    unfold bind at 1, memcpy_to. cbn [w_heap]. rewrite lookup_insert_eq.
    rewrite length_replicate, Hl.
    replace (Z.to_nat cnt <=? Z.to_nat (cnt + 1))%nat with true
      by (symmetry; apply Nat.leb_le; lia).
    unfold bind at 1, poke, set_heap. cbn [w_heap]. rewrite lookup_insert_eq.
    replace (Z.to_nat (cnt + 1)) with (S (Z.to_nat cnt)) by lia.
    rewrite drop_replicate. replace (S (Z.to_nat cnt) - Z.to_nat cnt)%nat with 1%nat by lia.
    rewrite length_app, Hl. simpl length.
    replace ((0 <=? cnt) && (cnt <? Z.of_nat (Z.to_nat cnt + 1))) with true
      by (symmetry; rewrite andb_true_iff, Z.leb_le, Z.ltb_lt; lia).
    unfold ret, alloc_world. cbn. f_equal. f_equal.
    rewrite !insert_insert_eq. f_equal.
    rewrite insert_app_r_alt by lia. by rewrite Hl, Nat.sub_diag.
Qed.

(** [mrt_read_buf] hides how read(2) cuts the file into chunks. *)
Lemma read_loop_all reads : forall file len got,
  reads_succeed reads ->
  exists reads',
    read_loop reads file len got
    = Some (got ++ take len file, drop len file, reads') /\
    reads_succeed reads'.
Proof.
  induction reads as [|r reads IH]; intros file len got Hok.
  - exists []. split; [|done]. destruct len; simpl; [|done]. by rewrite app_nil_r.
  - pose proof Hok as Hok'. apply Forall_cons in Hok as [Hr Hok].
    destruct len as [|len].
    { simpl. exists (r :: reads). by rewrite app_nil_r. }
    destruct r as [n| |]; [| |done].
    + cbn [read_loop].
      set (k := Nat.min (Nat.max 1 n) (S len)).
      assert (Hk : (1 <= k <= S len)%nat) by lia.
      destruct (take k file) as [|c chunk] eqn:Et.
      * assert (file = []) as ->.
        { destruct file; [done|]. destruct k; [lia|]. discriminate. }
        exists reads. by rewrite app_nil_r.
      * destruct (IH (drop k file) (S len - length (c :: chunk))%nat
                    (got ++ c :: chunk) Hok) as (reads' & E & Hok2).
        exists reads'. split; [|done]. rewrite E.
        assert (T : take k file ++ take (S len - length (take k file)) (drop k file)
                    = take (S len) file).
        { destruct (decide (k <= length file)%nat) as [Hle|Hgt].
          - rewrite length_take_le by done. rewrite take_take_drop.
            f_equal. lia.
          - rewrite (take_ge file k), (drop_ge file k) by lia.
            rewrite take_nil, app_nil_r. by rewrite take_ge by lia. }
        assert (D : drop (S len - length (take k file)) (drop k file)
                    = drop (S len) file).
        { destruct (decide (k <= length file)%nat) as [Hle|Hgt].
          - rewrite length_take_le by done. rewrite drop_drop. f_equal. lia.
          - rewrite (drop_ge file k), (drop_ge file (S len)) by lia.
            by rewrite drop_nil. }
        rewrite Et in T, D. rewrite D, <- T, <- app_assoc. reflexivity.
    + cbn [read_loop]. apply IH. done.
Qed.

Lemma mrt_read_buf_all len w :
  reads_succeed (w_reads w) ->
  exists reads',
    mrt_read_buf len w
    = Ret (take (Z.to_nat len) (w_file w))
          (mk_world (w_heap w) (w_next w) (w_out w)
                    (drop (Z.to_nat len) (w_file w)) reads') /\
    reads_succeed reads'.
Proof.
  intros Hok. unfold mrt_read_buf.
  destruct (read_loop_all _ (w_file w) (Z.to_nat len) [] Hok) as (reads' & E & H).
  exists reads'. by rewrite E.
Qed.

Lemma mrt_read_msg_truncated w :
  reads_succeed (w_reads w) -> record_truncated (w_file w) ->
  exists w', mrt_read_msg w = Ret None w' /\
             w_heap w' = w_heap w /\ w_out w' = w_out w.
Proof.
  intros Hok Htr. unfold mrt_read_msg.
  destruct (mrt_read_buf_all 12 w Hok) as (reads1 & E1 & Hok1).
  step E1. change (Z.to_nat 12) with 12%nat.
  destruct (Z.of_nat (length (take 12 (w_file w))) =? 12) eqn:E; cbn [negb].
  2:{ unfold ret. eauto. }
  apply Z.eqb_eq in E. rewrite length_take in E.
  destruct Htr as [Htr|Htr]; [lia|].
  set (w1 := mk_world _ _ _ _ _) in *.
  destruct (mrt_read_buf_all (h_length (hdr_of_bytes (take 12 (w_file w)))) w1 Hok1)
    as (reads2 & E2 & Hok2).
  step E2.
  replace (_ =? _) with false; [unfold ret; cbn [negb]; eauto|].
  symmetry. apply Z.eqb_neq. rewrite length_take. unfold w1. cbn [w_file].
  rewrite length_drop. lia.
Qed.

Lemma mrt_extract_attr_attrs_ok buf re a alen aid as4 w r re' w' :
  mrt_extract_attr buf re a alen aid as4 w = Ret (r, re') w' ->
  re_attrs_ok re -> re_attrs_ok re'.
Proof. apply attr_loop_attrs_ok. Qed.

Lemma re_zero_attrs_ok : re_attrs_ok re_zero.
Proof. split; simpl; lia. Qed.

Lemma v2_rib_entries_ok turns :
  forall msg b len add_path aid path_id entries w res w',
  v2_rib_entries turns msg b len add_path aid path_id entries w
  = Ret (Some res) w' ->
  Forall re_attrs_ok entries -> Forall re_attrs_ok res.
Proof.
  induction turns as [|turns IH];
    intros msg b len add_path aid path_id entries w res w' H Hok.
  - by apply ret_inv in H as [[= <-] _].
  - cbn [v2_rib_entries] in H.
    destruct (len <? _); [by apply ret_inv in H as [? _]|].
    apply bind_inv in H as (pix & w1 & _ & H).
    apply bind_inv in H as (otm & w2 & _ & H).
    assert (G : forall b len path_id w,
      (let* alen := load16 msg b in
       if u32 (len - 2) <? alen then ret None
       else
         let* (r, re) := mrt_extract_attr msg
                           (re_set_entry_hdr pix otm path_id re_zero)
                           (b + 2) alen aid true in
         if r =? -1 then ret None
         else v2_rib_entries turns msg (b + 2 + alen) (u32 (u32 (len - 2) - alen))
                add_path aid path_id (entries ++ [re])) w = Ret (Some res) w' ->
      Forall re_attrs_ok res).
    { clear H. intros b' len' pid w0 H.
      apply bind_inv in H as (alen & w3 & _ & H).
      destruct (_ <? alen); [by apply ret_inv in H as [? _]|].
      apply bind_inv in H as ([r re] & w4 & E & H).
      destruct (r =? -1); [by apply ret_inv in H as [? _]|].
      apply mrt_extract_attr_attrs_ok in E; [|apply re_zero_attrs_ok].
      eapply IH; [exact H|]. apply Forall_app. split; [done|]. by constructor. }
    destruct (negb _).
    + destruct (_ <? 4 + 2); [by apply ret_inv in H as [? _]|].
      apply bind_inv in H as (pid & w3 & _ & H). eapply G; exact H.
    + eapply G; exact H.
Qed.

Lemma attrs_ok_capped entries :
  Forall re_attrs_ok entries ->
  Forall (fun re => Z.of_nat (length (re_attrs re)) <= 254) entries.
Proof. intros H. eapply Forall_impl; [exact H|]. intros re [H1 H2]. lia. Qed.

Lemma mrt_parse_v2_rib_capped nlri hdr msg verbose w r w' :
  mrt_parse_v2_rib nlri hdr msg verbose w = Ret (Some r) w' ->
  rib_entries_capped r.
Proof.
  unfold mrt_parse_v2_rib. intros H.
  destruct (_ <? 4 + 1); [by apply ret_inv in H as [? _]|].
  apply bind_inv in H as (snum & w1 & _ & H).
  set (add_path := if bool_decide _ then 1 else 0) in H.
  assert (G : forall b len aid w,
    (let* (r, prefix, prefixlen) := mrt_extract_prefix nlri msg b len aid verbose in
     if r =? -1 then ret None
     else
       if u32 (len - r) <? 2 then ret None
       else
         let* cnt := load16 msg (b + r) in
         let* entries := v2_rib_entries (Z.to_nat cnt) msg (b + r + 2)
                           (u32 (u32 (len - r) - 2)) add_path (ba_aid prefix) 0 [] in
         match entries with
         | None => ret None
         | Some entries =>
             ret (Some (mk_rib (Some entries) prefix snum cnt prefixlen add_path))
         end) w = Ret (Some r) w' ->
    rib_entries_capped r).
  { clear H. intros b len aid w0 H.
    apply bind_inv in H as ([[r0 prefix] prefixlen] & w2 & _ & H).
    destruct (r0 =? -1); [by apply ret_inv in H as [? _]|].
    destruct (_ <? 2); [by apply ret_inv in H as [? _]|].
    apply bind_inv in H as (cnt & w3 & _ & H).
    apply bind_inv in H as (entries & w4 & E & H).
    destruct entries as [entries|]; [|by apply ret_inv in H as [? _]].
    apply ret_inv in H as [[= <-] _].
    apply v2_rib_entries_ok in E; [|constructor].
    exists entries. split; [done|]. by apply attrs_ok_capped. }
  repeat match type of H with
         | (if ?c then _ else _) _ = _ => destruct c
         end;
    try discriminate;
    try (by apply ret_inv in H as [? _]);
    try (eapply G; exact H).
  apply bind_inv in H as (afi & w2 & _ & H).
  apply bind_inv in H as (safi & w3 & _ & H).
  apply bind_inv in H as (aid & w4 & _ & H).
  destruct (bool_decide (aid = AID_UNSPEC)); [by apply ret_inv in H as [? _]|].
  eapply G; exact H.
Qed.

Lemma dump_fail_none p re w x w' :
  dump_fail p re w = Ret x w' -> x.2 = None.
Proof.
  unfold dump_fail. intros H. apply bind_inv in H as (? & ? & _ & H).
  by apply ret_inv in H as [<- _].
Qed.

Ltac dump_inv H :=
  repeat match type of H with
         | dump_fail _ _ _ = Ret _ _ =>
             apply dump_fail_none in H; simpl in H; discriminate
         | (if ?c then _ else _) _ = Ret _ _ => destruct c
         | (match ?x with _ => _ end) _ = Ret _ _ => destruct x as [[? ?]|]
         | bind (mrt_extract_attr _ _ _ _ _ _) _ _ = Ret _ _ =>
             let E := fresh "Eattr" in
             apply bind_inv in H as ([? ?] & ? & E & H)
         | bind _ _ _ = Ret _ _ => apply bind_inv in H as (? & ? & _ & H)
         | (let '(_, _) := ?x in _) _ = Ret _ _ => destruct x
         end.

Lemma mrt_parse_dump_capped hdr msg pp w x pctx r w' :
  mrt_parse_dump hdr msg pp w = Ret (x, pctx, Some r) w' ->
  rib_entries_capped r.
Proof.
  unfold mrt_parse_dump. intros H.
  dump_inv H; apply ret_inv in H as [[= _ _ <-] _];
    apply mrt_extract_attr_attrs_ok in Eattr; try apply re_zero_attrs_ok;
    (eexists; split; [reflexivity|]; apply attrs_ok_capped; by constructor).
Qed.

Lemma mrt_parse_dump_mp_capped nlri hdr msg pp verbose w x pctx r w' :
  mrt_parse_dump_mp nlri hdr msg pp verbose w = Ret (x, pctx, Some r) w' ->
  rib_entries_capped r.
Proof.
  unfold mrt_parse_dump_mp. intros H.
  destruct (h_type hdr =? MSG_PROTOCOL_BGP4MP_ET);
  dump_inv H; apply ret_inv in H as [[= _ _ <-] _];
    apply mrt_extract_attr_attrs_ok in Eattr; try apply re_zero_attrs_ok;
    (eexists; split; [reflexivity|]; apply attrs_ok_capped; by constructor).
Qed.

(** ** Every function of the parser ends *)

Lemma runs_ret {A} (a : A) (Q : A -> Prop) : Q a -> runs (ret a) Q.
Proof. intros H w. simpl. auto. Qed.

Lemma runs_bind {A B} (m : M A) (k : A -> M B) (P : A -> Prop) (Q : B -> Prop) :
  runs m P -> (forall a, P a -> runs (k a) Q) -> runs (bind m k) Q.
Proof.
  intros Hm Hk w. unfold bind. specialize (Hm w).
  destruct (m w) as [a w1|s w1|s w1|]; try done.
  destruct Hm as (Ha & Hf & Hr). specialize (Hk a Ha w1).
  destruct (k a w1) as [b w2|s w2|s w2|]; try done.
  - destruct Hk as (? & ? & ?). repeat split; congruence.
  - destruct Hk. split; congruence.
  - destruct Hk. split; congruence.
Qed.

Lemma runs_weaken {A} (m : M A) (P Q : A -> Prop) :
  runs m P -> (forall a, P a -> Q a) -> runs m Q.
Proof.
  intros Hm H w. specialize (Hm w). destruct (m w); try done.
  destruct Hm as (? & ? & ?). auto.
Qed.

Lemma runs_err {A} s (Q : A -> Prop) : runs (err s) Q.
Proof. intros w. simpl. auto. Qed.

Lemma runs_fault {A} s (Q : A -> Prop) : runs (fault s) Q.
Proof. intros w. simpl. auto. Qed.

Lemma runs_load buf off n : runs (load buf off n) (fun _ => True).
Proof. intros w. unfold load. destruct (in_obj buf off n); simpl; auto. Qed.

Lemma runs_load8 buf off : runs (load8 buf off) (fun v => 0 <= v <= 255).
Proof.
  intros w. destruct (load8 buf off w) as [v w'| | |] eqn:E.
  - apply load8_range in E as [-> ?]. auto.
  - unfold load8, bind, load in E. destruct (in_obj _ _ _); discriminate.
  - unfold load8, bind, load, fault in E. destruct (in_obj _ _ _); [discriminate|].
    by injection E as _ <-.
  - unfold load8, bind, load in E. destruct (in_obj _ _ _); discriminate.
Qed.

Lemma runs_load16 buf off : runs (load16 buf off) (fun v => 0 <= v <= 65535).
Proof.
  intros w. destruct (load16 buf off w) as [v w'| | |] eqn:E.
  - apply load16_range in E as [-> ?]. auto.
  - unfold load16, bind, load in E. destruct (in_obj _ _ _); discriminate.
  - unfold load16, bind, load, fault in E. destruct (in_obj _ _ _); [discriminate|].
    by injection E as _ <-.
  - unfold load16, bind, load in E. destruct (in_obj _ _ _); discriminate.
Qed.

Lemma runs_load32 buf off : runs (load32 buf off) (fun _ => True).
Proof.
  unfold load32. eapply runs_bind; [apply runs_load|]. intros. by apply runs_ret.
Qed.

Lemma runs_malloc n : runs (malloc n) (fun _ => True).
Proof. intros w. simpl. auto. Qed.

Lemma runs_free p : runs (free p) (fun _ => True).
Proof.
  intros w. unfold free. destruct p as [q|]; [|simpl; auto].
  destruct (w_heap w !! q); simpl; auto.
Qed.

Lemma runs_memcpy_to p src : runs (memcpy_to p src) (fun _ => True).
Proof.
  intros w. unfold memcpy_to. destruct (w_heap w !! p); [|simpl; auto].
  destruct (_ <=? _)%nat; simpl; auto.
Qed.

Lemma runs_poke p i b : runs (poke p i b) (fun _ => True).
Proof.
  intros w. unfold poke. destruct (w_heap w !! p); [|simpl; auto].
  destruct (_ && _); simpl; auto.
Qed.

Lemma runs_emit e : runs (emit e) (fun _ => True).
Proof. intros w. simpl. auto. Qed.

Lemma runs_printf verbose fmt args : runs (printf verbose fmt args) (fun _ => True).
Proof. unfold printf. destruct verbose; [apply runs_emit|by apply runs_ret]. Qed.

Lemma runs_heap_now : runs heap_now (fun _ => True).
Proof. intros w. simpl. auto. Qed.

Lemma runs_true {A} (m : M A) (Q : A -> Prop) : runs m Q -> runs m (fun _ => True).
Proof. intros H. eapply runs_weaken; [exact H|done]. Qed.

Create HintDb runs discriminated.
#[export] Hint Resolve runs_load runs_load8 runs_load16 runs_load32 runs_malloc runs_free
  runs_memcpy_to runs_poke runs_emit runs_printf runs_heap_now : runs.

(** Solves [runs m (fun _ => True)] by the structure of [m]. *)
Ltac runs_step :=
  first
    [ apply runs_ret; exact I
    | apply runs_err
    | apply runs_fault
    | solve [eapply runs_true; eauto with runs]
    | eapply (runs_bind _ _ (fun _ => True)); [ | intros ? _]
    | match goal with
      | |- runs (if ?c then _ else _) _ => destruct c
      | |- runs (match ?x with _ => _ end) _ => destruct x
      | |- runs (let '(_, _) := ?x in _) _ => destruct x
      end ].

Ltac runs_auto := cbv zeta; repeat runs_step.

Lemma runs_mrt_extract_addr buf b len aid :
  runs (mrt_extract_addr buf b len aid) (fun _ => True).
Proof. unfold mrt_extract_addr. runs_auto. Qed.

Lemma runs_mrt_afi2aid afi safi verbose :
  runs (mrt_afi2aid afi safi verbose) (fun _ => True).
Proof. unfold mrt_afi2aid. runs_auto. Qed.

Lemma runs_mrt_extract_prefix nlri buf m len aid verbose :
  runs (mrt_extract_prefix nlri buf m len aid verbose) (fun _ => True).
Proof. unfold mrt_extract_prefix. runs_auto. Qed.

#[export] Hint Resolve runs_mrt_extract_addr runs_mrt_afi2aid
  runs_mrt_extract_prefix : runs.

Lemma runs_inflate_len fuel : forall buf seg olen nlen,
  olen <= Z.of_nat fuel ->
  runs (inflate_len fuel buf seg olen nlen) (fun _ => True).
Proof.
  induction fuel as [|fuel IH]; intros buf seg olen nlen Hf.
  - simpl. rewrite Zgtb_false by lia. by apply runs_ret.
  - cbn [inflate_len]. destruct (olen >? 0) eqn:E; [|by apply runs_ret].
    rewrite Z.gtb_ltb in E. apply Z.ltb_lt in E.
    eapply runs_bind; [apply runs_load8|]. intros seg_len Hs.
    cbv beta in Hs. cbv beta zeta.
    rewrite (u16_small (2 + _)) by lia.
    destruct (_ >? olen) eqn:E2; [by apply runs_ret|].
    rewrite Z.gtb_ltb in E2. apply Z.ltb_ge in E2.
    apply IH.
    assert (u16 (olen - (2 + 2 * seg_len)) <= olen - (2 + 2 * seg_len))
      by (apply Z.mod_le; lia).
    lia.
Qed.

Lemma runs_inflate_asns n : forall buf ndata seg nseg,
  runs (inflate_asns n buf ndata seg nseg)
       (fun r => r.2 = nseg + 4 * Z.of_nat n).
Proof.
  induction n as [|n IH]; intros buf ndata seg nseg.
  - apply runs_ret. simpl. lia.
  - cbn [inflate_asns].
    eapply runs_bind; [apply runs_poke|intros _ _].
    eapply runs_bind; [apply runs_poke|intros _ _].
    eapply runs_bind; [apply runs_load8|intros hi _].
    eapply runs_bind; [apply runs_poke|intros _ _].
    eapply runs_bind; [apply runs_load8|intros lo _].
    eapply runs_bind; [apply runs_poke|intros _ _].
    eapply runs_weaken; [apply IH|]. intros r ->. lia.
Qed.

Lemma runs_inflate_copy fuel : forall buf ndata seg nseg nlen,
  nlen - nseg <= Z.of_nat fuel ->
  runs (inflate_copy fuel buf ndata seg nseg nlen) (fun _ => True).
Proof.
  induction fuel as [|fuel IH]; intros buf ndata seg nseg nlen Hf.
  - simpl. rewrite Zltb_false by lia. by apply runs_ret.
  - cbn [inflate_copy]. destruct (nseg <? nlen) eqn:E; [|by apply runs_ret].
    eapply runs_bind; [apply runs_load8|intros t _].
    eapply runs_bind; [apply runs_poke|intros _ _].
    eapply runs_bind; [apply runs_load8|intros seg_len Hs].
    eapply runs_bind; [apply runs_poke|intros _ _].
    eapply runs_bind; [apply runs_inflate_asns|]. intros [seg' nseg'] Hr.
    simpl in Hr. apply IH. lia.
Qed.

Lemma runs_mrt_aspath_inflate buf data len :
  runs (mrt_aspath_inflate buf data len) (fun _ => True).
Proof.
  unfold mrt_aspath_inflate.
  eapply runs_bind; [apply runs_inflate_len; lia|]. intros [nlen|] _.
  - eapply runs_bind; [apply runs_malloc|intros ndata _].
    eapply runs_bind; [apply runs_inflate_copy; lia|intros _ _].
    by apply runs_ret.
  - by apply runs_ret.
Qed.

#[export] Hint Resolve runs_mrt_aspath_inflate : runs.

Lemma runs_attr_default buf re attr a attr_len :
  runs (attr_default buf re attr a attr_len) (fun _ => True).
Proof. unfold attr_default. runs_auto. Qed.

Lemma runs_attr_mp_reach buf aid re a alen attr_len :
  runs (attr_mp_reach buf aid re a alen attr_len) (fun _ => True).
Proof. unfold attr_mp_reach. runs_auto. Qed.

#[export] Hint Resolve runs_attr_default runs_attr_mp_reach : runs.

Lemma runs_attr_switch buf aid as4 re type attr a alen attr_len :
  runs (attr_switch buf aid as4 re type attr a alen attr_len) (fun _ => True).
Proof. unfold attr_switch. runs_auto. Qed.

#[export] Hint Resolve runs_attr_switch : runs.

Lemma runs_post {A} (m : M A) (P Q : A -> Prop) :
  runs m P -> (forall w a w', m w = Ret a w' -> Q a) -> runs m Q.
Proof.
  intros Hm H w. specialize (Hm w). specialize (H w).
  destruct (m w) as [a w'| | |]; try done.
  destruct Hm as (_ & ? & ?). split; [by eapply H|done].
Qed.

Lemma runs_attr_body buf aid as4 re a alen :
  runs (attr_body buf aid as4 re a alen)
       (fun n => match n with
                 | AttrNext _ _ alen' => alen' <= alen - 3
                 | AttrReturn _ _ => True
                 end).
Proof.
  apply (runs_post _ (fun _ => True)); [unfold attr_body; runs_auto|].
  intros w [r re'|re' a' alen'] w' E; [done|].
  by apply attr_body_next in E as [E _].
Qed.

Lemma runs_attr_loop fuel : forall buf aid as4 re a alen,
  alen < 3 * Z.of_nat fuel -> (1 <= fuel)%nat ->
  runs (attr_loop fuel buf aid as4 re a alen) (fun _ => True).
Proof.
  induction fuel as [|fuel IH]; intros buf aid as4 re a alen Hf H1; [lia|].
  cbn [attr_loop]. eapply runs_bind; [apply runs_attr_body|].
  intros [r re'|re' a' alen'] Hn; [by apply runs_ret|].
  destruct (alen' >? 0) eqn:E; [|by apply runs_ret].
  rewrite Z.gtb_ltb in E. apply Z.ltb_lt in E. apply IH; lia.
Qed.

Lemma runs_mrt_extract_attr buf re a alen aid as4 :
  runs (mrt_extract_attr buf re a alen aid as4) (fun _ => True).
Proof. unfold mrt_extract_attr. apply runs_attr_loop; lia. Qed.

#[export] Hint Resolve runs_mrt_extract_attr : runs.

Lemma runs_mrt_free_peers p : runs (mrt_free_peers p) (fun _ => True).
Proof. unfold mrt_free_peers. runs_auto. Qed.

Lemma runs_free_attrs l : runs (free_attrs l) (fun _ => True).
Proof. induction l as [|ap l IH]; simpl; runs_auto. Qed.

#[export] Hint Resolve runs_mrt_free_peers runs_free_attrs : runs.

Lemma runs_free_entries l : runs (free_entries l) (fun _ => True).
Proof. induction l as [|re l IH]; simpl; runs_auto. Qed.

#[export] Hint Resolve runs_free_entries : runs.

Lemma runs_mrt_free_rib r : runs (mrt_free_rib r) (fun _ => True).
Proof. unfold mrt_free_rib. runs_auto. Qed.

#[export] Hint Resolve runs_mrt_free_rib : runs.

Lemma runs_v2_peer_entries turns : forall msg b len peers,
  runs (v2_peer_entries turns msg b len peers) (fun _ => True).
Proof.
  induction turns as [|turns IH]; intros msg b len peers;
    cbn [v2_peer_entries]; runs_auto.
Qed.

#[export] Hint Resolve runs_v2_peer_entries : runs.

Lemma runs_mrt_parse_v2_peer hdr msg :
  runs (mrt_parse_v2_peer hdr msg) (fun _ => True).
Proof. unfold mrt_parse_v2_peer, v2_peer_fail. runs_auto. Qed.

Lemma runs_v2_rib_entries turns : forall msg b len add_path aid path_id entries,
  runs (v2_rib_entries turns msg b len add_path aid path_id entries)
       (fun _ => True).
Proof.
  induction turns as [|turns IH]; intros msg b len add_path aid path_id entries;
    cbn [v2_rib_entries]; runs_auto.
Qed.

#[export] Hint Resolve runs_v2_rib_entries : runs.

Lemma runs_mrt_parse_v2_rib nlri hdr msg verbose :
  runs (mrt_parse_v2_rib nlri hdr msg verbose) (fun _ => True).
Proof. unfold mrt_parse_v2_rib. runs_auto. Qed.

Lemma runs_peers_update f p : runs (peers_update f p) (fun _ => True).
Proof. unfold peers_update. runs_auto. Qed.

Lemma runs_dump_fail p re : runs (dump_fail p re) (fun _ => True).
Proof. unfold dump_fail. runs_auto. Qed.

#[export] Hint Resolve runs_peers_update runs_dump_fail : runs.

Lemma runs_mrt_parse_dump hdr msg pp :
  runs (mrt_parse_dump hdr msg pp) (fun _ => True).
Proof. unfold mrt_parse_dump. runs_auto. Qed.

Lemma runs_mrt_parse_dump_mp nlri hdr msg pp verbose :
  runs (mrt_parse_dump_mp nlri hdr msg pp verbose) (fun _ => True).
Proof. unfold mrt_parse_dump_mp. runs_auto. Qed.

Lemma runs_bgp4mp_common hdr msg as4 :
  runs (bgp4mp_common hdr msg as4) (fun _ => True).
Proof. unfold bgp4mp_common. runs_auto. Qed.

#[export] Hint Resolve runs_bgp4mp_common : runs.

Lemma runs_mrt_parse_state hdr msg verbose :
  runs (mrt_parse_state hdr msg verbose) (fun _ => True).
Proof. unfold mrt_parse_state. runs_auto. Qed.

Lemma runs_mrt_parse_msg hdr msg verbose :
  runs (mrt_parse_msg hdr msg verbose) (fun _ => True).
Proof. unfold mrt_parse_msg. runs_auto. Qed.

#[export] Hint Resolve runs_mrt_parse_v2_peer runs_mrt_parse_v2_rib
  runs_mrt_parse_dump runs_mrt_parse_dump_mp runs_mrt_parse_state
  runs_mrt_parse_msg : runs.

Lemma runs_deliver_rib p r pctx : runs (deliver_rib p r pctx) (fun _ => True).
Proof. unfold deliver_rib. runs_auto. Qed.

#[export] Hint Resolve runs_deliver_rib : runs.

Lemma runs_mrt_dispatch nlri p verbose h msg pctx :
  runs (mrt_dispatch nlri p verbose h msg pctx) (fun _ => True).
Proof. unfold mrt_dispatch. runs_auto. Qed.

(** ** The read loop and the main loop *)

(** What [read_loop] returns was taken from the front of the file. *)
Lemma read_loop_length reads : forall file len got got' file' reads',
  read_loop reads file len got = Some (got', file', reads') ->
  (length got' + length file' = length got + length file)%nat.
Proof.
  induction reads as [|r reads IH]; intros file len got got' file' reads' E.
  - destruct len; simpl in E; injection E as <- <- <-; [done|].
    rewrite length_app.
    pose proof (take_drop (S len) file) as H.
    apply (f_equal length) in H. rewrite length_app in H. lia.
  - destruct len as [|len]; [simpl in E; by injection E as <- <- <-|].
    destruct r as [n| |]; cbn [read_loop] in E; [| |done].
    + set (k := Nat.min (Nat.max 1 n) (S len)) in E.
      destruct (take k file) as [|c chunk] eqn:Et.
      * by injection E as <- <- <-.
      * apply IH in E. rewrite length_app in E.
        pose proof (take_drop k file) as H.
        apply (f_equal length) in H. rewrite length_app, Et in H. lia.
    + by apply IH in E.
Qed.

(** [mrt_read_msg] ends, and a record it returns took its header, at
    least, from the file. *)
Lemma mrt_read_msg_progress w :
  match mrt_read_msg w with
  | Ret (Some _) w' => (12 + length (w_file w') <= length (w_file w))%nat
  | Ret None _ | Exit _ _ => True
  | Fault _ _ | OutOfFuel => False
  end.
Proof.
  unfold mrt_read_msg, bind, mrt_read_buf.
  destruct (read_loop (w_reads w) (w_file w) (Z.to_nat 12) [])
    as [[[hb file1] reads1]|] eqn:E1; [|done].
  apply read_loop_length in E1. cbn [length] in E1.
  destruct (Z.of_nat (length hb) =? 12) eqn:El; cbn [negb ret]; [|done].
  apply Z.eqb_eq in El. cbn [w_reads w_file].
  destruct (read_loop reads1 file1 _ []) as [[[buf file2] reads2]|] eqn:E2;
    [|done].
  apply read_loop_length in E2. cbn [length] in E2.
  destruct (negb _); cbn [ret]; [done|]. cbn [w_file]. lia.
Qed.

(** The main loop ends when its fuel exceeds the number of bytes left in
    the file. *)
Lemma mrt_parse_loop_ends fuel nlri p verbose : forall pctx w,
  (length (w_file w) < fuel)%nat ->
  mrt_parse_loop fuel nlri p verbose pctx w <> OutOfFuel.
Proof.
  induction fuel as [|fuel IH]; intros pctx w Hf; [lia|].
  cbn [mrt_parse_loop]. unfold bind at 1.
  pose proof (mrt_read_msg_progress w) as Hr.
  destruct (mrt_read_msg w) as [[[h msg]|] w1|s w1|s w1|]; try done.
  - unfold bind.
    pose proof (runs_mrt_dispatch nlri p verbose h msg pctx w1) as Hd.
    destruct (mrt_dispatch nlri p verbose h msg pctx w1)
      as [pctx' w2|s w2|s w2|]; try done.
    destruct Hd as (_ & Hfile & _). apply IH. rewrite Hfile. lia.
  - destruct pctx as [c|]; [|done].
    pose proof (runs_mrt_free_peers c w1) as Hd.
    destruct (mrt_free_peers c w1); done.
Qed.

(** [mrt_parse] ends on every file, whatever the reads do: with a normal
    return, with [err], or at a read outside a buffer. *)
Lemma mrt_parse_ends nlri p verbose w :
  mrt_parse nlri p verbose w <> OutOfFuel.
Proof. unfold mrt_parse. apply mrt_parse_loop_ends. lia. Qed.

(** * The claims *)

(** ** C1: reads stay inside the record buffer (refuted)

    C1 says that for every input stream the parser never reads outside
    the payload buffer of the current record, and names three reads.  The
    code does not check the remaining length before any of the three:
    on each of the records below, whose payload ends just before the
    field, [mrt_parse] reads past the end of the buffer.  The first is the
    old_state read of [mrt_parse_state], the second the peer AS read of
    [mrt_parse_v2_peer], the third the attribute length read of
    [mrt_parse_dump_mp] (the only one that needs a prefix decoder). *)
Theorem unchecked_reads_leave_the_buffer :
  (forall nlri p verbose,
      mrt_parse nlri p verbose (world_of state_record_short [])
      = Fault "read outside the buffer" (world_of [] [])) /\
  (forall nlri verbose,
      mrt_parse nlri dump_only verbose (world_of peer_record_short [])
      = Fault "read outside the buffer"
          (mk_world {[ 0%nat := [Byte.x00] ]} 1 [] [] [])) /\
  (forall verbose,
      mrt_parse spec_nlri dump_only verbose (world_of entry_record_short [])
      = Fault "read outside the buffer" (world_of [] [])).
Proof.
  split; [|split]; intros; vm_compute; reflexivity.
Qed.

(** ** C2: a length that exceeds the span fails the extraction (refuted)

    C2 says that an attribute whose declared length exceeds the bytes left
    in the span makes [mrt_extract_attr] return -1.  The code never compares
    [attr_len] with [alen]: for the 5-byte block [overlong_block], whose
    attribute declares 10 bytes where 2 are left, it returns 0 and stores
    a 13-byte copy that takes its last 8 bytes from behind the span. *)
Theorem overlong_attribute_accepted :
  forall aid as4,
    mrt_extract_attr (overlong_block ++ overlong_after) re_zero 0 5 aid as4 w0
    = Ret (0, re_set_attrs 1 [mk_attr 0%nat 13] re_zero)
          (alloc_world (overlong_block ++ overlong_after) w0).
Proof. intros aid as4. destruct aid, as4; vm_compute; reflexivity. Qed.

(** The same block inside a record: the RIB record is decoded and handed
    to the dump callback, its first entry with the 13-byte attribute. *)
Lemma overlong_attribute_delivered verbose :
  exists r h w',
    mrt_parse spec_nlri dump_only verbose (world_of overlong_record [])
    = Ret tt w' /\
    w_out w' = [EvDump r None h] /\
    (map (fun re => map ap_attr_len (re_attrs re)) <$> r_entries r)
    = Some [[13]; []] /\
    h !! 0%nat = Some (overlong_block ++ overlong_after).
Proof.
  eexists _, _, _. split; [vm_compute; reflexivity|].
  split; [reflexivity|]. split; vm_compute; reflexivity.
Qed.

(** ** C3: the length checks of MP_REACH_NLRI (refuted)

    C3 says that after the 3 legacy bytes are skipped the extraction fails
    unless the payload has at least 17 bytes for IPv6.  The code subtracts
    3 from the 16-bit [attr_len] without a check: for the attribute
    [short_mp_reach], which declares 2 bytes of payload, the length wraps
    to 65535, the test passes, and the 16 bytes read as next hop lie behind
    the attribute; the extraction returns 0. *)
Theorem short_mp_reach_accepted :
  forall as4,
    mrt_extract_attr (short_mp_reach ++ short_mp_after) re_zero 0 5
                     AID_INET6 as4 w0
    = Ret (0, re_set_nexthop
                (mk_addr AID_INET6
                   (bytes_of [101; 102; 103; 104; 105; 106; 107; 108; 109;
                              110; 111; 112; 113; 114; 115; 116]))
                re_zero) w0.
Proof. intros as4. destruct as4; vm_compute; reflexivity. Qed.

(** ** C4: AS4_PATH (confirmed)

    C4: when the loop of [mrt_extract_attr] reaches an AS4_PATH attribute
    (type 17) whose bytes are in the record buffer, then
    - with [as4] false, the buffer [re->aspath] points to is freed and
      [re->aspath] becomes a new buffer that holds the payload, byte for
      byte, with [aspath_len] the payload length;
    - with [as4] true, the whole attribute (flags, type, length field,
      payload) is appended to [re->attrs] as for an unknown attribute,
      which ends the process when the entry holds 254 of them already.
    In both cases the loop goes on behind the attribute. *)
Theorem as4path_handling buf aid as4 re a alen w re1 a1 alen1 w1 flags payload :
  let type := byte.of_Z MRT_ATTR_AS4PATH in
  let hlen := Z.of_nat (length (attr_hdr flags type (Z.of_nat (length payload)))) in
  let tlen := Z.of_nat (length (attr_tlv flags type payload)) in
  attr_reach buf aid as4 (re, a, alen, w) (re1, a1, alen1, w1) ->
  at_off buf a1 (attr_tlv flags type payload) ->
  attr_len_ok flags (Z.of_nat (length payload)) ->
  hlen <= alen1 ->
  (as4 = false ->
   aspath_live re1 w1 ->
   let re2 := re_set_aspath (Some (w_next w1))
                (re_set_aspath_len (Z.of_nat (length payload)) re1) in
   let w2 := alloc_world payload (set_heap (heap_free (re_aspath re1)) w1) in
   attr_body buf aid as4 re1 a1 alen1 w1
   = Ret (AttrNext re2 (a1 + tlen) (alen1 - tlen)) w2 /\
   w_heap w2 !! w_next w1 = Some payload /\
   mrt_extract_attr buf re a alen aid as4 w
   = (if alen1 - tlen >? 0
      then mrt_extract_attr buf re2 (a1 + tlen) (alen1 - tlen) aid as4 w2
      else Ret (0, re2) w2)) /\
  (as4 = true ->
   re_attrs_ok re1 ->
   if Z.of_nat (length (re_attrs re1)) <? 254 then
     let re2 := re_set_attrs (re_nattrs re1 + 1)
                  (re_attrs re1 ++ [mk_attr (w_next w1) tlen]) re1 in
     let w2 := alloc_world (attr_tlv flags type payload) w1 in
     attr_body buf aid as4 re1 a1 alen1 w1
     = Ret (AttrNext re2 (a1 + tlen) (alen1 - tlen)) w2 /\
     w_heap w2 !! w_next w1 = Some (attr_tlv flags type payload) /\
     mrt_extract_attr buf re a alen aid as4 w
     = (if alen1 - tlen >? 0
        then mrt_extract_attr buf re2 (a1 + tlen) (alen1 - tlen) aid as4 w2
        else Ret (0, re2) w2)
   else
     mrt_extract_attr buf re a alen aid as4 w = Exit "too many attributes" w1).
Proof.
  intros type hlen tlen Hreach Hat Hlok Hlen.
  assert (Htl : tlen = hlen + Z.of_nat (length payload))
    by (unfold tlen, hlen, attr_tlv; rewrite length_app; lia).
  pose proof Hat as Hat'. unfold attr_tlv in Hat'.
  apply at_off_app in Hat' as [Hh Hp]. fold hlen in Hp.
  pose proof (fun re => attr_body_at buf aid as4 re a1 alen1 w1 _ _ _ Hh Hlok Hlen) as Hb.
  fold hlen in Hb.
  rewrite (mrt_extract_attr_reached _ _ _ _ _ _ _ _ _ _ _ Hreach).
  split.
  - intros -> Hlive re2 w2.
    assert (E : attr_body buf aid false re1 a1 alen1 w1
                = Ret (AttrNext re2 (a1 + tlen) (alen1 - tlen)) w2).
    { rewrite Hb. change (byte.unsigned type) with 17.
      unfold attr_switch.
      cbn [Z.eqb Pos.eqb MRT_ATTR_ORIGIN MRT_ATTR_ASPATH MRT_ATTR_NEXTHOP
           MRT_ATTR_MED MRT_ATTR_LOCALPREF MRT_ATTR_MP_REACH_NLRI
           MRT_ATTR_AS4PATH andb negb].
      step (free_live re1 w1 Hlive).
      rewrite (malloc_memcpy buf (a1 + hlen) payload) by done.
      unfold ret. f_equal. f_equal; lia. }
    split; [exact E|]. split.
    + unfold w2, alloc_world. cbn. apply lookup_insert_eq.
    + rewrite mrt_extract_attr_unfold, E. reflexivity.
  - intros -> Hok. pose proof Hok as [Hc Hle].
    destruct (Z.of_nat (length (re_attrs re1)) <? 254) eqn:Hcap.
    + apply Z.ltb_lt in Hcap. intros re2 w2.
      assert (E : attr_body buf aid true re1 a1 alen1 w1
                  = Ret (AttrNext re2 (a1 + tlen) (alen1 - tlen)) w2).
      { rewrite Hb. change (byte.unsigned type) with 17.
        unfold attr_switch.
        cbn [Z.eqb Pos.eqb MRT_ATTR_ORIGIN MRT_ATTR_ASPATH MRT_ATTR_NEXTHOP
             MRT_ATTR_MED MRT_ATTR_LOCALPREF MRT_ATTR_MP_REACH_NLRI
             MRT_ATTR_AS4PATH andb negb].
        unfold bind at 1, attr_default.
        rewrite u8_small by (change (2 ^ 8) with 256; lia).
        assert (G : (re_nattrs re1 + 1 >=? UCHAR_MAX) = false)
          by (rewrite Z.geb_leb; apply Z.leb_gt; unfold UCHAR_MAX; lia).
        rewrite G.
        rewrite (malloc_memcpy buf a1 (attr_tlv flags type payload)) by (done || lia).
        unfold ret. f_equal. f_equal; try lia.
        unfold re2. do 4 f_equal. lia. }
      split; [exact E|]. split.
      * unfold w2, alloc_world. cbn. apply lookup_insert_eq.
      * rewrite mrt_extract_attr_unfold, E. reflexivity.
    + apply Z.ltb_ge in Hcap.
      rewrite mrt_extract_attr_unfold, Hb. change (byte.unsigned type) with 17.
      unfold attr_switch.
      cbn [Z.eqb Pos.eqb MRT_ATTR_ORIGIN MRT_ATTR_ASPATH MRT_ATTR_NEXTHOP
           MRT_ATTR_MED MRT_ATTR_LOCALPREF MRT_ATTR_MP_REACH_NLRI
           MRT_ATTR_AS4PATH andb negb].
      unfold bind, attr_default.
      replace (re_nattrs re1) with 254 by lia. reflexivity.
Qed.

Lemma as4path_handling_witness :
  attr_body as4_block AID_INET false as4_re1 9 13 as4_w1
  = Ret (AttrNext (re_set_aspath (Some 1%nat) as4_re1) 22 0)
        as4_w2 /\
  mrt_extract_attr as4_block re_zero 0 22 AID_INET false w0
  = Ret (0, re_set_aspath (Some 1%nat) as4_re1) as4_w2 /\
  w_heap as4_w2 !! 0%nat = None /\
  w_heap as4_w2 !! 1%nat = Some as4_payload.
Proof.
  assert (Hreach : attr_reach as4_block AID_INET false
                     (re_zero, 0, 22, w0) (as4_re1, 9, 13, as4_w1)).
  { eapply reach_turn; [vm_compute; reflexivity|lia|apply reach_here]. }
  assert (Hat : at_off as4_block 9
                  (attr_tlv (byte.of_Z 0xC0) (byte.of_Z MRT_ATTR_AS4PATH)
                            as4_payload)).
  { split; [lia|]. exists []. vm_compute. reflexivity. }
  assert (Hok : attr_len_ok (byte.of_Z 0xC0) (Z.of_nat (length as4_payload))).
  { vm_compute. split; discriminate. }
  assert (Hlive : aspath_live as4_re1 as4_w1).
  { vm_compute. eexists. reflexivity. }
  destruct (as4path_handling as4_block AID_INET false re_zero 0 22 w0
              as4_re1 9 13 as4_w1 (byte.of_Z 0xC0) as4_payload
              Hreach Hat Hok ltac:(vm_compute; discriminate)) as [H _].
  destruct (H eq_refl Hlive) as (E & _ & F).
  split; [exact E|]. split; [exact F|].
  split; vm_compute; reflexivity.
Defined.

(** ** C5: inflation inverts deflation (corrected)

    C5 as amended: for every AS path whose segments have at most 255 AS
    numbers, all below 2^16, and whose form with 4-byte AS numbers has at
    most 65535 bytes, [mrt_aspath_inflate] applied to the form with 2-byte
    AS numbers returns a new buffer that holds the form with 4-byte AS
    numbers, and stores its length in [*newlen]. *)
Theorem aspath_inflate_deflate segs buf data w :
  Forall seg_wf segs ->
  at_off buf data (aspath_deflate segs) ->
  Z.of_nat (length (aspath_enc 4 segs)) <= 65535 ->
  mrt_aspath_inflate buf data (Z.of_nat (length (aspath_deflate segs))) w
  = Ret (Some (w_next w, Z.of_nat (length (aspath_enc 4 segs))))
        (mk_world (<[w_next w := aspath_enc 4 segs]> (w_heap w))
                  (S (w_next w)) (w_out w) (w_file w) (w_reads w)).
Proof.
  intros Hwf Hat Hlen. unfold mrt_aspath_inflate, aspath_deflate in *.
  assert (H2 : Z.of_nat (length (aspath_enc 2 segs)) <= 65535).
  { clear Hat. etransitivity; [|exact Hlen]. apply inj_le. clear Hlen.
    induction segs as [|s segs IH]; [done|].
    apply Forall_cons in Hwf as [_ Hwf].
    change (aspath_enc 2 (s :: segs)) with (seg_enc 2 s ++ aspath_enc 2 segs).
    change (aspath_enc 4 (s :: segs)) with (seg_enc 4 s ++ aspath_enc 4 segs).
    rewrite !length_app, !length_seg_enc. specialize (IH Hwf). lia. }
  erewrite bind_eq.
  2:{ apply inflate_len_ok; try done; lia. }
  rewrite Z.add_0_l, length_enc4 in *.
  rewrite u16_small by (pose proof (inflated_size_nonneg segs); lia).
  step (malloc_eq (inflated_size segs) w).
  erewrite bind_eq.
  2:{ apply (inflate_copy_ok segs _ buf (w_next w) data 0 (inflated_size segs) _
               [] (replicate (Z.to_nat (inflated_size segs)) Byte.x00) Hwf Hat).
      - simpl. apply lookup_insert_eq.
      - done.
      - rewrite length_replicate, <- length_enc4. lia.
      - rewrite length_replicate. pose proof (inflated_size_nonneg segs). lia.
      - rewrite <- length_enc4, Nat2Z.id. apply length_segs_le. }
  unfold ret, with_block, set_heap. simpl. by rewrite insert_insert_eq.
Qed.

Lemma aspath_inflate_deflate_witness :
  mrt_aspath_inflate (aspath_deflate small_path) 0 6 w0
  = Ret (Some (0%nat, 10)) (alloc_world (aspath_enc 4 small_path) w0).
Proof.
  apply (aspath_inflate_deflate small_path (aspath_deflate small_path) 0 w0).
  - repeat constructor; simpl; lia.
  - split; [lia|]. exists []. vm_compute. reflexivity.
  - vm_compute. discriminate.
Defined.

(** C5 as stated fails without the bound: the 4-byte form of [long_path]
    has 66430 bytes, the 16-bit length wraps to 894, and the copy loop
    writes its first segment of 1022 bytes past the 894 allocated. *)
Lemma aspath_inflate_long_path :
  Forall seg_wf long_path /\
  Z.of_nat (length (aspath_deflate long_path)) = 33280 /\
  Z.of_nat (length (aspath_enc 4 long_path)) = 66430 /\
  exists w',
    mrt_aspath_inflate (aspath_deflate long_path) 0 33280 w0
    = Fault "write outside the allocation" w' /\
    length <$> (w_heap w' !! 0%nat) = Some 894%nat.
Proof.
  split.
  { apply Forall_replicate. split; [apply Nat.leb_le; reflexivity|].
    apply Forall_replicate. lia. }
  split; [by vm_compute|]. split; [by vm_compute|].
  eexists. split; [vm_compute; reflexivity|]. vm_compute. reflexivity.
Qed.

(** ** C6: the peer index table (confirmed)

    C6: when [mrt_parse_v2_peer] returns a peer context for a record whose
    buffer has the length of its header, the record is the wire form of a
    collector id, a view name and N peer entries (followed by bytes that
    are ignored), and the context has [npeers] = N and the N entries in
    the order of the record, each with the bgp id of the wire, the address
    that type bit I selects (the 16 bytes of an IPv6 address, or the 4
    bytes of an IPv4 address with the rest of the address union zero) and
    the 4- or 2-byte AS number that type bit A selects; [view] points to
    the bytes of the view name followed by a NUL, which for an empty name
    is the empty string. *)
Theorem v2_peer_table_decoded h msg w p w' :
  h_length h = Z.of_nat (length msg) ->
  Z.of_nat (length msg) < 2 ^ 32 ->
  mrt_parse_v2_peer h msg w = Ret (Some p) w' ->
  exists view entries rest,
    msg = peer_index_wire (p_bgp_id p) view entries ++ rest /\
    Z.of_nat (length view) <= 65535 /\
    Z.of_nat (length entries) <= 65535 /\
    Forall peer_wire_wf entries /\
    p_npeers p = Z.of_nat (length entries) /\
    p_peers p = Some (map peer_of_wire entries) /\
    exists v, p_view p = Some v /\ w_heap w' !! v = Some (view ++ [Byte.x00]).
Proof.
  intros Hlen Hmax H. unfold mrt_parse_v2_peer in H. rewrite Hlen in H.
  destruct (_ <? 8) eqn:E; [by apply ret_inv in H as [? _]|].
  apply Z.ltb_ge in E.
  apply bind_inv in H as (bid & w1 & L1 & H).
  apply loadN_ret in L1 as (-> & _ & _ & Rbid & Sbid); [|lia].
  apply bind_inv in H as (cnt & w1 & L2 & H).
  apply loadN_ret in L2 as (-> & _ & _ & Rcnt & Scnt); [|lia].
  change (256 ^ 2) with 65536 in Rcnt.
  rewrite (u32_small (_ - 4)) in H by lia.
  rewrite (u32_small (_ - 4 - 2)) in H by lia.
  destruct (cnt >? _) eqn:E2.
  { unfold v2_peer_fail in H. apply bind_inv in H as (? & ? & _ & H).
    by apply ret_inv in H as [? _]. }
  rewrite Z.gtb_ltb in E2. apply Z.ltb_ge in E2.
  apply bind_inv in H as (v & w1 & L3 & H).
  rewrite peer_view_alloc in L3 by lia. injection L3 as <- <-.
  rewrite u32_small in H by lia.
  destruct (_ <? 2) eqn:E3.
  { unfold v2_peer_fail in H. apply bind_inv in H as (? & ? & _ & H).
    by apply ret_inv in H as [? _]. }
  apply Z.ltb_ge in E3.
  apply bind_inv in H as (cnt2 & w1 & L4 & H).
  apply loadN_ret in L4 as (-> & _ & _ & Rcnt2 & Scnt2); [|lia].
  apply bind_inv in H as (peers & w1 & L5 & H).
  destruct peers as [peers|].
  2:{ unfold v2_peer_fail in H. apply bind_inv in H as (? & ? & _ & H).
      by apply ret_inv in H as [? _]. }
  apply ret_inv in H as [[= <-] <-].
  rewrite u32_small in L5 by lia.
  apply v2_peer_entries_sound in L5 as (entries & Hn & Hwf & Hat & -> & ->);
    try lia.
  pose proof (length_slice msg (4 + 2) cnt ltac:(lia) ltac:(lia) ltac:(lia)) as Hv.
  destruct Hat as [_ [rest Hat]].
  exists (slice msg (4 + 2) cnt), entries, rest.
  change (256 ^ 2) with 65536 in Rcnt2.
  split; [|split; [|split; [lia|split; [done|split; [|split; [done|]]]]]].
  - unfold peer_index_wire. cbn [p_bgp_id].
    rewrite Hv, Hn, !Z2Nat.id by lia.
    change (4 + 2) with 6 in *.
    rewrite <- (drop_0 msg) at 1. change 0%nat with (Z.to_nat 0).
    rewrite (drop_slice msg 0 4), <- Sbid by lia. change (0 + 4) with 4.
    rewrite (drop_slice msg 4 2), <- Scnt by lia. change (4 + 2) with 6.
    rewrite (drop_slice msg 6 cnt) by lia.
    rewrite (drop_slice msg (6 + cnt) 2), <- Scnt2 by lia.
    rewrite Hat, <- !app_assoc. reflexivity.
  - rewrite Hv. lia.
  - cbn [p_npeers]. lia.
  - exists (w_next w). split; [done|]. unfold alloc_world. cbn.
    apply lookup_insert_eq.
Qed.

Lemma v2_peer_table_decoded_witness :
  exists view entries rest,
    peer_table_msg = peer_index_wire 0x01020304 view entries ++ rest /\
    Z.of_nat (length view) <= 65535 /\
    Z.of_nat (length entries) <= 65535 /\
    Forall peer_wire_wf entries /\
    2 = Z.of_nat (length entries) /\
    Some [mk_pe (mk_addr AID_INET6
                   (bytes_of [0x20; 1; 0x0d; 0xb8; 0; 0; 0; 0;
                              0; 0; 0; 0; 0; 0; 0; 1]))
                0x0A000001 4200000000;
          mk_pe (mk_addr AID_INET
                   (bytes_of [192; 0; 2; 1; 0; 0; 0; 0;
                              0; 0; 0; 0; 0; 0; 0; 0]))
                0x0A000002 64512]
    = Some (map peer_of_wire entries) /\
    exists v, Some 0%nat = Some v /\
              w_heap (alloc_world (bytes_of [97; 98; 0]) w0) !! v
              = Some (view ++ [Byte.x00]).
Proof.
  apply (v2_peer_table_decoded peer_table_hdr peer_table_msg w0 peer_table_ctx
           (alloc_world (bytes_of [97; 98; 0]) w0)).
  - reflexivity.
  - reflexivity.
  - vm_compute. reflexivity.
Defined.

(** ** C7: a truncated record ends the stream (confirmed)

    C7: when no read fails and what is left of the file is less than the
    12 bytes of a header, or a header and less payload than its length
    field says, the loop of [mrt_parse] ends without an error and without
    a call of a callback or a diagnostic, whatever was parsed before; in
    particular [mrt_parse] on a file of less than 12 bytes calls nothing. *)
Theorem truncated_stream_ends_cleanly nlri p verbose pctx w :
  reads_succeed (w_reads w) ->
  record_truncated (w_file w) ->
  peers_live pctx w ->
  (forall fuel, exists w',
      mrt_parse_loop (S fuel) nlri p verbose pctx w = Ret tt w' /\
      w_out w' = w_out w) /\
  (pctx = None -> exists w',
      mrt_parse nlri p verbose w = Ret tt w' /\ w_out w' = w_out w).
Proof.
  intros Hok Htr Hlive.
  assert (G : forall fuel, exists w',
             mrt_parse_loop (S fuel) nlri p verbose pctx w = Ret tt w' /\
             w_out w' = w_out w).
  { intros fuel. cbn [mrt_parse_loop].
    destruct (mrt_read_msg_truncated w Hok Htr) as (w1 & E & Hh & Ho).
    step E. destruct pctx as [c|]; [|unfold ret; eauto].
    unfold mrt_free_peers, free. unfold peers_live in Hlive.
    destruct (p_view c) as [v|]; [|eauto].
    rewrite Hh. destruct Hlive as [blk ->]. eexists. split; [done|].
    by destruct w1. }
  split; [exact G|]. intros ->. unfold mrt_parse. apply G.
Qed.

Lemma truncated_stream_ends_cleanly_witness :
  exists w',
    mrt_parse spec_nlri dump_only true
              (world_of (bytes_of [0; 0; 0; 1; 0]) [RdChunk 2; RdEintr])
    = Ret tt w' /\
    w_out w' = [].
Proof.
  refine (proj2 (truncated_stream_ends_cleanly spec_nlri dump_only true None
                   (world_of (bytes_of [0; 0; 0; 1; 0]) [RdChunk 2; RdEintr])
                   _ _ I) eq_refl).
  - repeat constructor; discriminate.
  - left. simpl. lia.
Defined.

(** ** C8: at most 254 unknown attributes (confirmed)

    C8: an entry that [mrt_extract_attr] returns holds at most 254 unknown
    attributes, and [nattrs] is their number; when the loop reaches an
    attribute that no case handles while the entry holds 254, the process
    exits with "too many attributes".  So every entry of a RIB that
    [mrt_parse_v2_rib], [mrt_parse_dump] or [mrt_parse_dump_mp] returns
    holds at most 254. *)
Theorem extra_attrs_capped :
  (forall buf aid as4 re a alen w r re' w',
      re_attrs_ok re ->
      mrt_extract_attr buf re a alen aid as4 w = Ret (r, re') w' ->
      Z.of_nat (length (re_attrs re')) <= 254 /\
      re_nattrs re' = Z.of_nat (length (re_attrs re'))) /\
  (forall buf aid as4 re a alen w re1 a1 alen1 w1 flags type attr_len,
      re_attrs_ok re ->
      attr_reach buf aid as4 (re, a, alen, w) (re1, a1, alen1, w1) ->
      at_off buf a1 (attr_hdr flags type attr_len) ->
      attr_len_ok flags attr_len ->
      Z.of_nat (length (attr_hdr flags type attr_len)) <= alen1 ->
      unknown_attr as4 type ->
      length (re_attrs re1) = 254%nat ->
      mrt_extract_attr buf re a alen aid as4 w
      = Exit "too many attributes" w1) /\
  (forall nlri hdr msg verbose w r w',
      mrt_parse_v2_rib nlri hdr msg verbose w = Ret (Some r) w' ->
      rib_entries_capped r) /\
  (forall hdr msg pp w x pctx r w',
      mrt_parse_dump hdr msg pp w = Ret (x, pctx, Some r) w' ->
      rib_entries_capped r) /\
  (forall nlri hdr msg pp verbose w x pctx r w',
      mrt_parse_dump_mp nlri hdr msg pp verbose w = Ret (x, pctx, Some r) w' ->
      rib_entries_capped r).
Proof.
  split; [|split; [|split; [|split]]].
  - intros buf aid as4 re a alen w r re' w' Hok H.
    apply attr_loop_attrs_ok in H; [|exact Hok].
    destruct H as [H1 H2]. lia.
  - intros buf aid as4 re a alen w re1 a1 alen1 w1 flags type attr_len
      Hok Hreach Hat Hlok Hlen Hun Hn.
    rewrite (mrt_extract_attr_reached _ _ _ _ _ _ _ _ _ _ _ Hreach).
    apply attr_reach_attrs_ok in Hreach; [|exact Hok]. simpl in Hreach.
    destruct Hreach as [Hc _].
    rewrite mrt_extract_attr_unfold, (attr_body_at _ _ _ _ _ _ _ _ _ _ Hat Hlok Hlen).
    rewrite attr_switch_unknown by done.
    unfold bind, attr_default. rewrite Hc, Hn. reflexivity.
  - intros nlri hdr msg verbose w r w'. apply mrt_parse_v2_rib_capped.
  - intros hdr msg pp w x pctx r w'. apply mrt_parse_dump_capped.
  - intros nlri hdr msg pp verbose w x pctx r w'. apply mrt_parse_dump_mp_capped.
Qed.

Lemma extra_attrs_capped_witness :
  mrt_extract_attr (bytes_of [0x80; 99; 0]) full_entry 0 3 AID_INET true w0
  = Exit "too many attributes" w0.
Proof.
  apply (proj1 (proj2 extra_attrs_capped) (bytes_of [0x80; 99; 0]) AID_INET true
           full_entry 0 3 w0 full_entry 0 3 w0
           (byte.of_Z 0x80) (byte.of_Z 99) 0).
  - split; vm_compute; [reflexivity | discriminate].
  - apply reach_here.
  - split; [lia|]. exists []. reflexivity.
  - vm_compute. split; discriminate.
  - vm_compute. discriminate.
  - vm_compute. repeat split; intros; try discriminate; reflexivity.
  - reflexivity.
Defined.

(** The cap on whole blocks: 254 unknown attributes are stored, the 255th
    ends the process. *)
Lemma many_attrs_exit :
  (exists re' w',
      mrt_extract_attr (take 762 many_attrs) re_zero 0 762 AID_INET true w0
      = Ret (0, re') w' /\ length (re_attrs re') = 254%nat) /\
  (exists w',
      mrt_extract_attr many_attrs re_zero 0 765 AID_INET true w0
      = Exit "too many attributes" w').
Proof.
  split.
  - eexists _, _. split; [vm_compute; reflexivity|]. vm_compute. reflexivity.
  - eexists. vm_compute. reflexivity.
Qed.

(** ** C9: the reported length is a 16-bit sum (confirmed)

    C9: when [mrt_aspath_inflate] returns a buffer for [len] bytes that lie
    in the record buffer, these bytes are a sequence of segments with
    2-byte AS numbers, and the value stored in [*newlen] is the sum of
    2 + 4 * seg_len over the segments modulo 2^16; so it is smaller than
    the size of the inflated path when that exceeds 65535. *)
Theorem aspath_inflate_newlen buf data len w p newlen w' :
  0 <= data -> 0 <= len <= 65535 -> data + len <= Z.of_nat (length buf) ->
  mrt_aspath_inflate buf data len w = Ret (Some (p, newlen)) w' ->
  exists segs,
    Forall seg_wf segs /\ slice buf data len = aspath_deflate segs /\
    newlen = inflated_size segs mod 2 ^ 16 /\
    (65535 < inflated_size segs -> newlen < inflated_size segs).
Proof.
  intros Hd Hl Hb H. unfold mrt_aspath_inflate, bind in H.
  destruct (inflate_len (Z.to_nat len) buf data len 0 w) as [[nlen|] w1| | |] eqn:E;
    try discriminate.
  apply inflate_len_sound in E as (segs & Hwf & Hsl & -> & ->); try lia.
  destruct (malloc _ w) as [nd w2| | |]; try discriminate.
  destruct (inflate_copy _ _ _ _ _ _ _) as [[] w3| | |]; try discriminate.
  unfold ret in H. injection H as <- <- <-.
  exists segs. split; [done|]. split; [done|]. split; [done|].
  intros Hbig. pose proof (u16_range (0 + inflated_size segs)). lia.
Qed.

Lemma aspath_inflate_newlen_witness :
  exists segs,
    Forall seg_wf segs /\
    slice (aspath_deflate small_path) 0 6 = aspath_deflate segs /\
    10 = inflated_size segs mod 2 ^ 16 /\
    (65535 < inflated_size segs -> 10 < inflated_size segs).
Proof.
  apply (aspath_inflate_newlen (aspath_deflate small_path) 0 6 w0 0%nat 10
           (alloc_world (aspath_enc 4 small_path) w0)).
  - lia.
  - lia.
  - vm_compute. discriminate.
  - vm_compute. reflexivity.
Defined.

(** A path that is accepted with a wrapped length: the 4-byte form of
    [wrap_path] has 65536 bytes, and the length reported is 0. *)
Lemma aspath_inflate_wrap_path :
  Z.of_nat (length (aspath_deflate wrap_path)) = 32834 /\
  inflated_size wrap_path = 65536 /\
  mrt_aspath_inflate (aspath_deflate wrap_path) 0 32834 w0
  = Ret (Some (0%nat, 0)) (alloc_world [] w0).
Proof.
  split; [by vm_compute|]. split; [by vm_compute|].
  vm_compute. reflexivity.
Qed.

(** ** C10: the length of NEXT_HOP is checked first (confirmed)

    C10: when the loop of [mrt_extract_attr] reaches a NEXT_HOP attribute
    (type 3) whose declared length is not 4, the call returns -1, for
    every address family; a NEXT_HOP of length 4 in a record that is not
    IPv4 is stepped over and leaves the entry as it is. *)
Theorem nexthop_length_checked buf aid as4 re a alen w re1 a1 alen1 w1 flags attr_len :
  attr_reach buf aid as4 (re, a, alen, w) (re1, a1, alen1, w1) ->
  at_off buf a1 (attr_hdr flags (byte.of_Z MRT_ATTR_NEXTHOP) attr_len) ->
  attr_len_ok flags attr_len ->
  Z.of_nat (length (attr_hdr flags (byte.of_Z MRT_ATTR_NEXTHOP) attr_len)) <= alen1 ->
  (attr_len <> 4 ->
   mrt_extract_attr buf re a alen aid as4 w = Ret (-1, re1) w1) /\
  (attr_len = 4 -> aid <> AID_INET ->
   attr_body buf aid as4 re1 a1 alen1 w1
   = Ret (AttrNext re1
            (a1 + Z.of_nat (length (attr_hdr flags (byte.of_Z MRT_ATTR_NEXTHOP) 4)) + 4)
            (alen1 - Z.of_nat (length (attr_hdr flags (byte.of_Z MRT_ATTR_NEXTHOP) 4)) - 4))
         w1).
Proof.
  intros Hreach Hat Hok Hlen.
  pose proof (attr_body_at buf aid as4 re1 a1 alen1 w1 _ _ _ Hat Hok Hlen) as Hb.
  change (byte.unsigned (byte.of_Z MRT_ATTR_NEXTHOP)) with 3 in Hb.
  unfold attr_switch in Hb. cbn [Z.eqb MRT_ATTR_ORIGIN MRT_ATTR_ASPATH
    MRT_ATTR_NEXTHOP Pos.eqb] in Hb.
  split.
  - intros Hne.
    rewrite (mrt_extract_attr_reached _ _ _ _ _ _ _ _ _ _ _ Hreach).
    rewrite mrt_extract_attr_unfold, Hb.
    assert (E : (attr_len =? 4) = false) by (by apply Z.eqb_neq).
    rewrite E. reflexivity.
  - intros -> Haid. rewrite Hb.
    cbn [Z.eqb Pos.eqb negb]. rewrite bool_decide_eq_false_2 by done.
    reflexivity.
Qed.

Lemma nexthop_length_checked_witness :
  mrt_extract_attr nexthop5_block re_zero 0 8 AID_INET6 true w0
  = Ret (-1, re_zero) w0 /\
  attr_body nexthop4_block AID_INET6 true re_zero 0 7 w0
  = Ret (AttrNext re_zero 7 0) w0.
Proof.
  split.
  - apply (proj1 (nexthop_length_checked nexthop5_block AID_INET6 true
                    re_zero 0 8 w0 re_zero 0 8 w0 (byte.of_Z 0x40) 5
                    (reach_here _ _ _ _)
                    (conj (Z.le_refl 0) (ex_intro _ (bytes_of [10; 0; 0; 1; 0]) eq_refl))
                    ltac:(vm_compute; split; discriminate)
                    ltac:(vm_compute; discriminate))).
    lia.
  - apply (proj2 (nexthop_length_checked nexthop4_block AID_INET6 true
                    re_zero 0 7 w0 re_zero 0 7 w0 (byte.of_Z 0x40) 4
                    (reach_here _ _ _ _)
                    (conj (Z.le_refl 0) (ex_intro _ (bytes_of [10; 0; 0; 1]) eq_refl))
                    ltac:(vm_compute; split; discriminate)
                    ltac:(vm_compute; discriminate))).
    + reflexivity.
    + discriminate.
Defined.

(** * Further properties of the parser *)

(** ** Framing *)

Lemma be_uint_be_bytes n : forall z,
  0 <= z < 256 ^ Z.of_nat n -> be_uint (be_bytes n z) = z.
Proof.
  induction n as [|n IH]; intros z Hz.
  - simpl in *. unfold be_uint. simpl. lia.
  - cbn [be_bytes]. rewrite be_uint_snoc.
    rewrite Nat2Z.inj_succ, Z.pow_succ_r in Hz by lia.
    rewrite IH.
    2:{ split; [apply Z.div_pos; lia|]. apply Z.div_lt_upper_bound; lia. }
    rewrite byte.unsigned_of_Z. unfold byte.wrap.
    change (2 ^ 8) with 256. pose proof (Z.div_mod z 256 ltac:(lia)). lia.
Qed.

Lemma length_hdr_wire ts type st len : length (hdr_wire ts type st len) = 12%nat.
Proof. unfold hdr_wire. rewrite !length_app, !length_be_bytes. done. Qed.

Lemma hdr_of_bytes_wire h :
  hdr_ok h ->
  hdr_of_bytes (hdr_wire (h_timestamp h) (h_type h) (h_subtype h) (h_length h))
  = h.
Proof.
  intros (Ht & Hty & Hs & Hl). destruct h as [ts ty st len].
  cbn [h_timestamp h_type h_subtype h_length] in *.
  unfold hdr_of_bytes, hdr_wire.
  assert (E1 : forall a b : list byte, length a = 4%nat -> slice (a ++ b) 0 4 = a).
  { intros a b Ha. unfold slice. change (Z.to_nat 0) with 0%nat.
    change (Z.to_nat 4) with 4%nat. rewrite drop_0, take_app_length'; done. }
  assert (E2 : forall a b c : list byte, length a = 4%nat -> length b = 2%nat ->
               slice (a ++ b ++ c) 4 2 = b).
  { intros a b c Ha Hb. unfold slice. change (Z.to_nat 4) with 4%nat.
    rewrite drop_app_length' by done.
    change (Z.to_nat 2) with 2%nat. rewrite take_app_length'; done. }
  assert (E3 : forall a b c d : list byte,
               length a = 4%nat -> length b = 2%nat -> length c = 2%nat ->
               slice (a ++ b ++ c ++ d) 6 2 = c).
  { intros a b c d Ha Hb Hc. unfold slice. change (Z.to_nat 6) with (4 + 2)%nat.
    rewrite <- drop_drop, drop_app_length', drop_app_length' by done.
    change (Z.to_nat 2) with 2%nat. rewrite take_app_length'; done. }
  assert (E4 : forall a b c d : list byte,
               length a = 4%nat -> length b = 2%nat -> length c = 2%nat ->
               length d = 4%nat ->
               slice (a ++ b ++ c ++ d) 8 4 = d).
  { intros a b c d Ha Hb Hc Hd. unfold slice.
    change (Z.to_nat 8) with (4 + (2 + 2))%nat.
    rewrite <- !drop_drop, !drop_app_length' by done.
    change (Z.to_nat 4) with 4%nat. rewrite take_ge; [done|lia]. }
  rewrite E1, E2, E3, E4 by apply length_be_bytes.
  rewrite !be_uint_be_bytes; [done|..]; simpl; lia.
Qed.

(** A whole record at the front of the file is read as it is. *)
Lemma mrt_read_msg_record h msg rest w :
  reads_succeed (w_reads w) ->
  hdr_ok h -> h_length h = Z.of_nat (length msg) ->
  w_file w = record_wire h msg ++ rest ->
  exists reads',
    reads_succeed reads' /\
    mrt_read_msg w = Ret (Some (h, msg)) (at_file rest reads' w).
Proof.
  intros Hok Hh Hlen Hfile. unfold mrt_read_msg.
  destruct (mrt_read_buf_all 12 w Hok) as (reads1 & E1 & Hok1).
  step E1. change (Z.to_nat 12) with 12%nat.
  unfold record_wire in Hfile. rewrite Hfile, <- app_assoc.
  rewrite take_app_length', drop_app_length' by (by rewrite length_hdr_wire).
  rewrite length_hdr_wire. change (negb (Z.of_nat 12 =? 12)) with false. cbv iota.
  rewrite hdr_of_bytes_wire by done.
  set (w1 := mk_world _ _ _ _ _).
  destruct (mrt_read_buf_all (h_length h) w1 Hok1) as (reads2 & E2 & Hok2).
  step E2. unfold w1. cbn [w_file w_heap w_next w_out].
  rewrite Hlen, Nat2Z.id, take_app_length, drop_app_length, Z.eqb_refl.
  exists reads2. split; [done|]. reflexivity.
Qed.

(** The fuel of the main loop does not matter once it exceeds the bytes
    left in the file. *)
Lemma mrt_parse_loop_fuel nlri p verbose f1 : forall f2 pctx w,
  (length (w_file w) < f1)%nat -> (length (w_file w) < f2)%nat ->
  mrt_parse_loop f1 nlri p verbose pctx w
  = mrt_parse_loop f2 nlri p verbose pctx w.
Proof.
  induction f1 as [|f1 IH]; intros f2 pctx w H1 H2; [lia|].
  destruct f2 as [|f2]; [lia|].
  cbn [mrt_parse_loop]. unfold bind at 1 3.
  pose proof (mrt_read_msg_progress w) as Hr.
  destruct (mrt_read_msg w) as [[[h msg]|] w1|s w1|s w1|]; try done.
  unfold bind.
  pose proof (runs_mrt_dispatch nlri p verbose h msg pctx w1) as Hd.
  destruct (mrt_dispatch nlri p verbose h msg pctx w1)
    as [pctx' w2|s w2|s w2|]; try done.
  destruct Hd as (_ & Hfile & _). apply IH; rewrite Hfile; lia.
Qed.

(** X1: when no call of read(2) fails, [mrt_read_buf] returns the first [len]
    bytes of what is left of the file, or all of it when less is left,
    however the kernel cuts the reads and however often a signal interrupts
    them; the descriptor is left behind the bytes returned and nothing else
    of the world changes. *)
Theorem mrt_read_buf_front len w :
  reads_succeed (w_reads w) ->
  exists reads',
    reads_succeed reads' /\
    mrt_read_buf len w
    = Ret (take (Z.to_nat len) (w_file w))
          (at_file (drop (Z.to_nat len) (w_file w)) reads' w).
Proof.
  intros Hok. destruct (mrt_read_buf_all len w Hok) as (reads' & E & H).
  exists reads'. split; [done|]. exact E.
Qed.

Lemma mrt_read_buf_front_witness :
  exists reads',
    reads_succeed reads' /\
    mrt_read_buf 4 chunked_world
    = Ret (bytes_of [1; 2; 3; 4]) (at_file (bytes_of [5]) reads' chunked_world).
Proof.
  apply (mrt_read_buf_front 4 chunked_world).
  repeat constructor; discriminate.
Defined.


(** X2: when no read fails and the file starts with a record, that is the 12
    bytes of a header whose length field counts the payload [msg] that
    follows, [mrt_read_msg] returns that header and that payload and leaves
    the descriptor at the first byte behind the record. *)
Theorem mrt_read_msg_round_trip h msg rest w :
  reads_succeed (w_reads w) ->
  hdr_ok h -> h_length h = Z.of_nat (length msg) ->
  w_file w = record_wire h msg ++ rest ->
  exists reads',
    reads_succeed reads' /\
    mrt_read_msg w = Ret (Some (h, msg)) (at_file rest reads' w).
Proof. apply mrt_read_msg_record. Qed.

Lemma mrt_read_msg_round_trip_witness :
  exists reads',
    reads_succeed reads' /\
    mrt_read_msg other_world
    = Ret (Some (other_hdr, other_msg)) (other_world_after reads').
Proof.
  apply (mrt_read_msg_round_trip other_hdr other_msg (bytes_of [9]) other_world).
  - repeat constructor; discriminate.
  - unfold hdr_ok. simpl. lia.
  - reflexivity.
  - reflexivity.
Defined.


Lemma mrt_parse_from_record nlri p verbose pctx h msg rest w :
  reads_succeed (w_reads w) ->
  hdr_ok h -> h_length h = Z.of_nat (length msg) ->
  w_file w = record_wire h msg ++ rest ->
  exists reads',
    reads_succeed reads' /\
    mrt_parse_from nlri p verbose pctx w
    = (let* pctx' := mrt_dispatch nlri p verbose h msg pctx in
       mrt_parse_from nlri p verbose pctx') (at_file rest reads' w).
Proof.
  intros Hok Hh Hlen Hfile.
  destruct (mrt_read_msg_record h msg rest w Hok Hh Hlen Hfile)
    as (reads' & Hok' & E).
  exists reads'. split; [done|].
  unfold mrt_parse_from at 1. cbn [mrt_parse_loop]. step E.
  unfold bind.
  pose proof (runs_mrt_dispatch nlri p verbose h msg pctx (at_file rest reads' w))
    as Hd.
  destruct (mrt_dispatch nlri p verbose h msg pctx (at_file rest reads' w))
    as [pctx' w2|s w2|s w2|]; try done.
  destruct Hd as (_ & Hf & _). cbn [at_file w_file] in Hf.
  unfold mrt_parse_from. apply mrt_parse_loop_fuel.
  - rewrite Hf, Hfile. unfold record_wire.
    rewrite !length_app, length_hdr_wire. lia.
  - lia.
Qed.

(** X3: when no read fails, on a file that starts with a record the loop of
    [mrt_parse] does what the type of the record asks for and then goes on
    with the rest of the file and the peer context that the record left:
    the records are handled one by one, in the order of the file. *)
Theorem mrt_parse_in_order nlri p verbose pctx h msg rest w :
  reads_succeed (w_reads w) ->
  hdr_ok h -> h_length h = Z.of_nat (length msg) ->
  w_file w = record_wire h msg ++ rest ->
  exists reads',
    reads_succeed reads' /\
    mrt_parse_from nlri p verbose pctx w
    = (let* pctx' := mrt_dispatch nlri p verbose h msg pctx in
       mrt_parse_from nlri p verbose pctx') (at_file rest reads' w).
Proof. apply mrt_parse_from_record. Qed.

Lemma mrt_parse_in_order_witness :
  exists reads',
    reads_succeed reads' /\
    mrt_parse_from spec_nlri dump_only true None other_world
    = (let* pctx' := mrt_dispatch spec_nlri dump_only true other_hdr other_msg
                                  None in
       mrt_parse_from spec_nlri dump_only true pctx') (other_world_after reads').
Proof.
  apply (mrt_parse_in_order spec_nlri dump_only true None other_hdr other_msg
           (bytes_of [9]) other_world).
  - repeat constructor; discriminate.
  - unfold hdr_ok. simpl. lia.
  - reflexivity.
  - reflexivity.
Defined.

Lemma mrt_dispatch_skip nlri p h msg pctx :
  skipped_type p (h_type h) ->
  mrt_dispatch nlri p false h msg pctx = ret pctx.
Proof.
  intros (H1 & H2 & H3). unfold mrt_dispatch, printf.
  destruct (h_type h =? MSG_TABLE_DUMP) eqn:E1.
  { apply Z.eqb_eq in E1. destruct (mp_dump p); [by destruct H3|].
    cbn [negb]. destruct (_ || _); reflexivity. }
  destruct (h_type h =? MSG_TABLE_DUMP_V2) eqn:E2.
  { apply Z.eqb_eq in E2. destruct (mp_dump p); [by destruct H3|].
    cbn [negb].
    destruct (_ =? MRT_DUMP_V2_PEER_INDEX_TABLE); [done|].
    destruct (bool_decide _); reflexivity. }
  apply Z.eqb_neq in H1, H2. rewrite H1, H2. cbn [orb].
  destruct (msg_deprecated _); [reflexivity|].
  destruct (msg_unsupported _); reflexivity.
Qed.

(** X4: when no read fails, a record of a type that the parser does not decode
    (not BGP4MP or BGP4MP_ET, and not a table dump when the dump callback
    is set) is stepped over: when not verbose, [mrt_parse] does on the file
    what it does on the rest of the file behind the record. *)
Theorem mrt_parse_skips_record nlri p h msg rest w :
  reads_succeed (w_reads w) ->
  hdr_ok h -> h_length h = Z.of_nat (length msg) ->
  w_file w = record_wire h msg ++ rest ->
  skipped_type p (h_type h) ->
  exists reads',
    reads_succeed reads' /\
    mrt_parse nlri p false w = mrt_parse nlri p false (at_file rest reads' w).
Proof.
  intros Hok Hh Hlen Hfile Hskip.
  destruct (mrt_parse_from_record nlri p false None h msg rest w Hok Hh Hlen Hfile)
    as (reads' & Hok' & E).
  exists reads'. split; [done|].
  change (mrt_parse nlri p false w) with (mrt_parse_from nlri p false None w).
  rewrite E, mrt_dispatch_skip by done. reflexivity.
Qed.

Lemma mrt_parse_skips_record_witness :
  exists reads',
    reads_succeed reads' /\
    mrt_parse spec_nlri dump_only false other_world
    = mrt_parse spec_nlri dump_only false (other_world_after reads').
Proof.
  apply (mrt_parse_skips_record spec_nlri dump_only other_hdr other_msg
           (bytes_of [9]) other_world).
  - repeat constructor; discriminate.
  - unfold hdr_ok. simpl. lia.
  - reflexivity.
  - reflexivity.
  - unfold skipped_type. simpl. repeat split; discriminate.
Defined.

(** ** Relations that the whole parser keeps *)

Create HintDb keeps discriminated.

Section Keeps.
Variable R : world -> world -> Prop.
Variable p : mrt_parser.
Variable verbose : bool.
Hypothesis R_refl : forall w, R w w.
Hypothesis R_trans : forall w1 w2 w3, R w1 w2 -> R w2 w3 -> R w1 w3.
Hypothesis R_malloc : forall n, keeps R (malloc n).
Hypothesis R_free : forall q, keeps R (free q).
Hypothesis R_memcpy_to : forall q src, keeps R (memcpy_to q src).
Hypothesis R_poke : forall q i b, keeps R (poke q i b).
Hypothesis R_emit : forall e,
  event_allowed p verbose e = true -> keeps R (emit e).
Hypothesis R_read : forall len, keeps R (mrt_read_buf len).

Lemma keeps_ret {A} (a : A) : keeps R (ret a).
Proof. intros w. apply R_refl. Qed.

Lemma keeps_err {A} s : keeps R (@err A s).
Proof. intros w. apply R_refl. Qed.

Lemma keeps_fault {A} s : keeps R (@fault A s).
Proof. intros w. apply R_refl. Qed.

Lemma keeps_out_of_fuel {A} : keeps R (@out_of_fuel A).
Proof. intros w. exact I. Qed.

Lemma keeps_bind {A B} (m : M A) (k : A -> M B) :
  keeps R m -> (forall a, keeps R (k a)) -> keeps R (bind m k).
Proof.
  intros Hm Hk w. unfold bind. specialize (Hm w).
  destruct (m w) as [a w1|s w1|s w1|]; try done.
  specialize (Hk a w1). destruct (k a w1); try done; by eapply R_trans.
Qed.

Lemma keeps_load buf off n : keeps R (load buf off n).
Proof. intros w. unfold load. destruct (in_obj _ _ _); apply R_refl. Qed.

Lemma keeps_heap_now : keeps R heap_now.
Proof. intros w. apply R_refl. Qed.

Lemma keeps_printf fmt args : keeps R (printf verbose fmt args).
Proof.
  unfold printf.
  pose proof (R_emit (EvPrintf fmt args)) as H. cbn [event_allowed] in H.
  destruct verbose; [by apply H|apply keeps_ret].
Qed.

Local Hint Resolve keeps_load keeps_heap_now keeps_printf R_malloc R_free
  R_memcpy_to R_poke R_read : keeps.

Local Ltac keeps_step :=
  first
    [ apply keeps_ret
    | apply keeps_err
    | apply keeps_fault
    | apply keeps_out_of_fuel
    | solve [eauto with keeps]
    | apply keeps_bind; [ | intros ?]
    | match goal with
      | |- keeps _ (if ?c then _ else _) => destruct c eqn:?
      | |- keeps _ (match ?x with _ => _ end) => destruct x eqn:?
      | |- keeps _ (let '(_, _) := ?x in _) => destruct x eqn:?
      end ].

Local Ltac keeps_auto := cbv zeta; repeat keeps_step.

Lemma keeps_load8 buf off : keeps R (load8 buf off).
Proof. unfold load8. keeps_auto. Qed.
Lemma keeps_load16 buf off : keeps R (load16 buf off).
Proof. unfold load16. keeps_auto. Qed.
Lemma keeps_load32 buf off : keeps R (load32 buf off).
Proof. unfold load32. keeps_auto. Qed.
Local Hint Resolve keeps_load8 keeps_load16 keeps_load32 : keeps.

Lemma keeps_mrt_extract_addr buf b len aid :
  keeps R (mrt_extract_addr buf b len aid).
Proof. unfold mrt_extract_addr. keeps_auto. Qed.

Lemma keeps_mrt_afi2aid afi safi : keeps R (mrt_afi2aid afi safi verbose).
Proof. unfold mrt_afi2aid. keeps_auto. Qed.

Lemma keeps_mrt_extract_prefix nlri buf m len aid :
  keeps R (mrt_extract_prefix nlri buf m len aid verbose).
Proof. unfold mrt_extract_prefix. keeps_auto. Qed.
Local Hint Resolve keeps_mrt_extract_addr keeps_mrt_afi2aid
  keeps_mrt_extract_prefix : keeps.

Lemma keeps_inflate_len fuel : forall buf seg olen nlen,
  keeps R (inflate_len fuel buf seg olen nlen).
Proof.
  induction fuel as [|fuel IH]; intros; cbn [inflate_len]; keeps_auto.
Qed.

Lemma keeps_inflate_asns n : forall buf ndata seg nseg,
  keeps R (inflate_asns n buf ndata seg nseg).
Proof. induction n as [|n IH]; intros; cbn [inflate_asns]; keeps_auto. Qed.
Local Hint Resolve keeps_inflate_len keeps_inflate_asns : keeps.

Lemma keeps_inflate_copy fuel : forall buf ndata seg nseg nlen,
  keeps R (inflate_copy fuel buf ndata seg nseg nlen).
Proof.
  induction fuel as [|fuel IH]; intros; cbn [inflate_copy]; keeps_auto.
Qed.
Local Hint Resolve keeps_inflate_copy : keeps.

Lemma keeps_mrt_aspath_inflate buf data len :
  keeps R (mrt_aspath_inflate buf data len).
Proof. unfold mrt_aspath_inflate. keeps_auto. Qed.
Local Hint Resolve keeps_mrt_aspath_inflate : keeps.

Lemma keeps_attr_default buf re attr a attr_len :
  keeps R (attr_default buf re attr a attr_len).
Proof. unfold attr_default. keeps_auto. Qed.

Lemma keeps_attr_mp_reach buf aid re a alen attr_len :
  keeps R (attr_mp_reach buf aid re a alen attr_len).
Proof. unfold attr_mp_reach. keeps_auto. Qed.
Local Hint Resolve keeps_attr_default keeps_attr_mp_reach : keeps.

Lemma keeps_attr_switch buf aid as4 re type attr a alen attr_len :
  keeps R (attr_switch buf aid as4 re type attr a alen attr_len).
Proof. unfold attr_switch. keeps_auto. Qed.
Local Hint Resolve keeps_attr_switch : keeps.

Lemma keeps_attr_body buf aid as4 re a alen :
  keeps R (attr_body buf aid as4 re a alen).
Proof. unfold attr_body. keeps_auto. Qed.
Local Hint Resolve keeps_attr_body : keeps.

Lemma keeps_attr_loop fuel : forall buf aid as4 re a alen,
  keeps R (attr_loop fuel buf aid as4 re a alen).
Proof. induction fuel as [|fuel IH]; intros; cbn [attr_loop]; keeps_auto. Qed.

Lemma keeps_mrt_extract_attr buf re a alen aid as4 :
  keeps R (mrt_extract_attr buf re a alen aid as4).
Proof. apply keeps_attr_loop. Qed.
Local Hint Resolve keeps_mrt_extract_attr : keeps.

Lemma keeps_mrt_free_peers c : keeps R (mrt_free_peers c).
Proof. unfold mrt_free_peers. keeps_auto. Qed.

Lemma keeps_free_attrs l : keeps R (free_attrs l).
Proof. induction l as [|ap l IH]; cbn [free_attrs]; keeps_auto. Qed.
Local Hint Resolve keeps_mrt_free_peers keeps_free_attrs : keeps.

Lemma keeps_free_entries l : keeps R (free_entries l).
Proof. induction l as [|re l IH]; cbn [free_entries]; keeps_auto. Qed.
Local Hint Resolve keeps_free_entries : keeps.

Lemma keeps_mrt_free_rib r : keeps R (mrt_free_rib r).
Proof. unfold mrt_free_rib. keeps_auto. Qed.
Local Hint Resolve keeps_mrt_free_rib : keeps.

Lemma keeps_v2_peer_entries turns : forall msg b len peers,
  keeps R (v2_peer_entries turns msg b len peers).
Proof.
  induction turns as [|turns IH]; intros; cbn [v2_peer_entries]; keeps_auto.
Qed.
Local Hint Resolve keeps_v2_peer_entries : keeps.

Lemma keeps_mrt_parse_v2_peer hdr msg : keeps R (mrt_parse_v2_peer hdr msg).
Proof. unfold mrt_parse_v2_peer, v2_peer_fail. keeps_auto. Qed.

Lemma keeps_v2_rib_entries turns :
  forall msg b len add_path aid path_id entries,
  keeps R (v2_rib_entries turns msg b len add_path aid path_id entries).
Proof.
  induction turns as [|turns IH]; intros; cbn [v2_rib_entries]; keeps_auto.
Qed.
Local Hint Resolve keeps_v2_rib_entries : keeps.

Lemma keeps_mrt_parse_v2_rib nlri hdr msg :
  keeps R (mrt_parse_v2_rib nlri hdr msg verbose).
Proof. unfold mrt_parse_v2_rib. keeps_auto. Qed.

Lemma keeps_peers_update f c : keeps R (peers_update f c).
Proof. unfold peers_update. keeps_auto. Qed.

Lemma keeps_dump_fail c re : keeps R (dump_fail c re).
Proof. unfold dump_fail. keeps_auto. Qed.
Local Hint Resolve keeps_peers_update keeps_dump_fail : keeps.

Lemma keeps_mrt_parse_dump hdr msg pp : keeps R (mrt_parse_dump hdr msg pp).
Proof. unfold mrt_parse_dump. keeps_auto. Qed.

Lemma keeps_mrt_parse_dump_mp nlri hdr msg pp :
  keeps R (mrt_parse_dump_mp nlri hdr msg pp verbose).
Proof. unfold mrt_parse_dump_mp. keeps_auto. Qed.

Lemma keeps_bgp4mp_common hdr msg as4 : keeps R (bgp4mp_common hdr msg as4).
Proof. unfold bgp4mp_common. keeps_auto. Qed.
Local Hint Resolve keeps_bgp4mp_common : keeps.

Lemma keeps_mrt_parse_state hdr msg :
  keeps R (mrt_parse_state hdr msg verbose).
Proof. unfold mrt_parse_state. keeps_auto. Qed.

Lemma keeps_mrt_parse_msg hdr msg : keeps R (mrt_parse_msg hdr msg verbose).
Proof. unfold mrt_parse_msg. keeps_auto. Qed.
Local Hint Resolve keeps_mrt_parse_v2_peer keeps_mrt_parse_v2_rib
  keeps_mrt_parse_dump keeps_mrt_parse_dump_mp keeps_mrt_parse_state
  keeps_mrt_parse_msg : keeps.

Lemma keeps_deliver_rib r pctx : keeps R (deliver_rib p r pctx).
Proof.
  unfold deliver_rib. keeps_auto.
Qed.
Local Hint Resolve keeps_deliver_rib : keeps.

Lemma keeps_mrt_dispatch nlri h msg pctx :
  keeps R (mrt_dispatch nlri p verbose h msg pctx).
Proof.
  unfold mrt_dispatch. keeps_auto.
Qed.

Lemma keeps_mrt_read_msg : keeps R mrt_read_msg.
Proof. unfold mrt_read_msg. keeps_auto. Qed.
Local Hint Resolve keeps_mrt_dispatch keeps_mrt_read_msg : keeps.

Lemma keeps_mrt_parse_loop nlri fuel : forall pctx,
  keeps R (mrt_parse_loop fuel nlri p verbose pctx).
Proof.
  induction fuel as [|fuel IH]; intros; cbn [mrt_parse_loop]; keeps_auto.
Qed.

Lemma keeps_mrt_parse nlri : keeps R (mrt_parse nlri p verbose).
Proof. intros w. unfold mrt_parse. apply keeps_mrt_parse_loop. Qed.
End Keeps.

(** ** The parser does only what it may *)

Lemma outputs_refl p verbose w : outputs p verbose w w.
Proof. exists []. by rewrite app_nil_r. Qed.

Lemma outputs_trans p verbose w1 w2 w3 :
  outputs p verbose w1 w2 -> outputs p verbose w2 w3 -> outputs p verbose w1 w3.
Proof.
  intros (e1 & H1 & F1) (e2 & H2 & F2). exists (e1 ++ e2).
  split; [by rewrite H2, H1, app_assoc|]. by apply Forall_app.
Qed.

Lemma outputs_same p verbose w w' : w_out w' = w_out w -> outputs p verbose w w'.
Proof. intros H. exists []. by rewrite app_nil_r. Qed.

Lemma mrt_parse_outputs nlri p verbose :
  keeps (outputs p verbose) (mrt_parse nlri p verbose).
Proof.
  apply keeps_mrt_parse.
  - apply outputs_refl.
  - apply outputs_trans.
  - intros n w. by apply outputs_same.
  - intros q w. unfold free. destruct q as [q|]; [|apply outputs_refl].
    destruct (w_heap w !! q); [by apply outputs_same|apply outputs_refl].
  - intros q src w. unfold memcpy_to.
    destruct (w_heap w !! q); [|apply outputs_refl].
    destruct (_ <=? _)%nat; [by apply outputs_same|apply outputs_refl].
  - intros q i b w. unfold poke.
    destruct (w_heap w !! q); [|apply outputs_refl].
    destruct (_ && _); [by apply outputs_same|apply outputs_refl].
  - intros e He w. exists [e]. split; [done|]. by constructor.
  - intros len w. unfold mrt_read_buf.
    destruct (read_loop _ _ _ _) as [[[got file] reads]|];
      [by apply outputs_same|apply outputs_refl].
Qed.

(** X5: [mrt_parse] ends on every file and with every behaviour of read(2), and
    whatever the file holds it only adds to what the process has done: it
    calls the dump, state and message callbacks only when they are set in
    the parser it was given, and prints only when verbose. *)
Theorem mrt_parse_does_what_it_may nlri p verbose w :
  exists w',
    final_world (mrt_parse nlri p verbose w) = Some w' /\ outputs p verbose w w'.
Proof.
  pose proof (mrt_parse_outputs nlri p verbose w) as H.
  pose proof (mrt_parse_ends nlri p verbose w) as He.
  destruct (mrt_parse nlri p verbose w) as [a w'|s w'|s w'|]; try done;
    exists w'; done.
Qed.

(** ** mrt_extract_addr and mrt_aspath_inflate inside their bytes *)

Lemma set_v4_zero bs :
  length bs = 4%nat -> set_v4 addr_zero bs = bs ++ replicate (16 - length bs) Byte.x00.
Proof. intros H. unfold set_v4, addr_zero. cbn [ba_bytes]. by rewrite H. Qed.

Lemma mrt_extract_addr_ok buf b len aid w :
  0 <= b -> b + len <= Z.of_nat (length buf) ->
  aid <> AID_UNSPEC -> addr_size aid <= len ->
  mrt_extract_addr buf b len aid w
  = Ret (addr_size aid,
         addr_of aid (slice buf (b + addr_size aid - addr_width aid)
                            (addr_width aid))) w.
Proof.
  intros Hb Hl Ha Hs. unfold mrt_extract_addr, addr_of.
  destruct aid; [done|..]; cbn [addr_size addr_width] in *;
    rewrite Zltb_false by lia.
  - replace (b + 4 - 4) with b by lia.
    erewrite bind_eq; [|apply load_ok; lia]. unfold ret.
    rewrite set_v4_zero; [done|]. by rewrite length_slice by lia.
  - replace (b + 16 - 16) with b by lia.
    erewrite bind_eq; [|apply load_ok; lia]. unfold ret.
    rewrite length_slice by lia.
    change (16 - Z.to_nat 16)%nat with 0%nat. cbn [replicate].
    by rewrite app_nil_r.
  - replace (b + (8 + 4) - 4) with (b + 8) by lia.
    erewrite bind_eq; [|apply load_ok; lia]. unfold ret.
    rewrite set_v4_zero; [done|]. by rewrite length_slice by lia.
  - replace (b + (8 + 16) - 16) with (b + 8) by lia.
    erewrite bind_eq; [|apply load_ok; lia]. unfold ret.
    rewrite length_slice by lia.
    change (16 - Z.to_nat 16)%nat with 0%nat. cbn [replicate].
    by rewrite app_nil_r.
Qed.

Lemma mrt_extract_addr_short buf b len aid w :
  aid = AID_UNSPEC \/ len < addr_size aid ->
  mrt_extract_addr buf b len aid w = Ret (-1, addr_zero) w.
Proof.
  intros H. unfold mrt_extract_addr.
  destruct aid; [done|..]; cbn [addr_size] in H;
    destruct H as [H|H]; try discriminate; by rewrite Zltb_true by lia.
Qed.

(** X6: when the [len] bytes from [b] lie in the buffer, [mrt_extract_addr] does
    not fault and changes nothing; it returns -1 and a zeroed address when
    the family is unknown or [len] is less than the size the family needs,
    and else that size, which is at most [len], and the address taken from
    the last bytes of it (for a VPN family the 8 bytes of the route
    distinguisher come first and are skipped). *)
Theorem mrt_extract_addr_in_bounds buf b len aid w :
  0 <= b -> 0 <= len -> b + len <= Z.of_nat (length buf) ->
  exists r ad,
    mrt_extract_addr buf b len aid w = Ret (r, ad) w /\
    ((r = -1 /\ ad = addr_zero /\ (aid = AID_UNSPEC \/ len < addr_size aid)) \/
     (r = addr_size aid /\ 0 < r <= len /\
      ad = addr_of aid (slice buf (b + r - addr_width aid) (addr_width aid)))).
Proof.
  intros Hb Hl Hin.
  destruct (decide (aid = AID_UNSPEC \/ len < addr_size aid)) as [H|H].
  - eexists _, _. split; [by apply mrt_extract_addr_short|]. left. done.
  - assert (aid <> AID_UNSPEC /\ addr_size aid <= len) as [H1 H2].
    { split; [tauto|]. destruct (decide (len < addr_size aid)); [tauto|lia]. }
    eexists _, _. split; [by apply mrt_extract_addr_ok|]. right.
    split; [done|]. split; [|done]. destruct aid; cbn in *; try done; lia.
Qed.

Lemma mrt_extract_addr_in_bounds_witness :
  exists r ad,
    mrt_extract_addr addr_buf 0 6 AID_INET w0 = Ret (r, ad) w0 /\
    ((r = -1 /\ ad = addr_zero /\ (AID_INET = AID_UNSPEC \/ 6 < 4)) \/
     (r = 4 /\ 0 < r <= 6 /\
      ad = addr_of AID_INET (slice addr_buf (0 + r - 4) 4))).
Proof.
  apply (mrt_extract_addr_in_bounds addr_buf 0 6 AID_INET w0); simpl; lia.
Defined.

Lemma inflate_len_ret fuel : forall buf seg olen nlen w,
  0 <= seg -> 0 <= olen <= 65535 ->
  (olen = 0 \/ seg + olen < Z.of_nat (length buf)) ->
  olen <= Z.of_nat fuel ->
  exists r, inflate_len fuel buf seg olen nlen w = Ret r w.
Proof.
  induction fuel as [|fuel IH]; intros buf seg olen nlen w Hs Ho Hb Hf.
  - simpl. rewrite Zgtb_false by lia. unfold ret. eauto.
  - cbn [inflate_len]. destruct (olen >? 0) eqn:E; [|unfold ret; eauto].
    rewrite Z.gtb_ltb in E. apply Z.ltb_lt in E.
    destruct Hb as [Hb|Hb]; [lia|].
    assert (L : load8 buf (seg + 1) w
                = Ret (be_uint (slice buf (seg + 1) 1)) w).
    { unfold load8. erewrite bind_eq; [|apply load_ok; lia]. done. }
    step L.
    pose proof (be_uint_range (slice buf (seg + 1) 1)) as Hr.
    rewrite length_slice in Hr by lia. change (256 ^ _) with 256 in Hr.
    set (v := be_uint _) in *. cbv zeta.
    rewrite (u16_small (2 + 2 * v)) by lia.
    destruct (_ >? olen) eqn:E2; [unfold ret; eauto|].
    rewrite Z.gtb_ltb in E2. apply Z.ltb_ge in E2.
    rewrite (u16_small (olen - _)) by lia.
    apply IH; lia.
Qed.

Lemma inflated_size_le segs :
  inflated_size segs <= 2 * Z.of_nat (length (aspath_enc 2 segs)).
Proof.
  induction segs as [|s segs IH]; [done|].
  change (aspath_enc 2 (s :: segs)) with (seg_enc 2 s ++ aspath_enc 2 segs).
  rewrite length_app, length_seg_enc. cbn [inflated_size fold_right].
  change (fold_right _ 0 segs) with (inflated_size segs). lia.
Qed.

Lemma mrt_aspath_inflate_enc segs buf data w :
  Forall seg_wf segs ->
  at_off buf data (aspath_enc 2 segs) ->
  inflated_size segs <= 65535 ->
  Z.of_nat (length (aspath_enc 2 segs)) <= 65535 ->
  mrt_aspath_inflate buf data (Z.of_nat (length (aspath_enc 2 segs))) w
  = Ret (Some (w_next w, inflated_size segs))
        (alloc_world (aspath_enc 4 segs) w).
Proof.
  intros Hwf Hat Hlen H2. unfold mrt_aspath_inflate.
  erewrite bind_eq.
  2:{ apply inflate_len_ok; try done; lia. }
  rewrite Z.add_0_l.
  rewrite u16_small by (pose proof (inflated_size_nonneg segs); lia).
  step (malloc_eq (inflated_size segs) w).
  erewrite bind_eq.
  2:{ apply (inflate_copy_ok segs _ buf (w_next w) data 0 (inflated_size segs) _
               [] (replicate (Z.to_nat (inflated_size segs)) Byte.x00) Hwf Hat).
      - simpl. apply lookup_insert_eq.
      - done.
      - rewrite length_replicate, <- length_enc4. lia.
      - rewrite length_replicate. pose proof (inflated_size_nonneg segs). lia.
      - rewrite <- length_enc4, Nat2Z.id. apply length_segs_le. }
  unfold ret, with_block, set_heap, alloc_world. simpl.
  by rewrite insert_insert_eq.
Qed.

Lemma slice_at_off buf off n :
  0 <= off -> 0 <= n -> at_off buf off (slice buf off n).
Proof.
  intros Ho Hn. split; [done|]. eexists. by apply drop_slice.
Qed.

(** X7: for an AS path of less than 32768 bytes that ends before the last byte
    of the buffer, [mrt_aspath_inflate] does not fault; it returns NULL and
    leaves the world as it is, or the bytes are the 2-byte encoding of
    well-formed segments and it returns a fresh buffer that holds their
    4-byte encoding, and its size. *)
Theorem mrt_aspath_inflate_short_path buf data len w :
  0 <= data -> 0 <= len < 32768 -> data + len < Z.of_nat (length buf) ->
  mrt_aspath_inflate buf data len w = Ret None w \/
  exists segs,
    Forall seg_wf segs /\ slice buf data len = aspath_deflate segs /\
    mrt_aspath_inflate buf data len w
    = Ret (Some (w_next w, inflated_size segs))
          (alloc_world (aspath_enc 4 segs) w).
Proof.
  intros Hd Hl Hb.
  destruct (inflate_len_ret (Z.to_nat len) buf data len 0 w) as [r E];
    try lia.
  destruct r as [nlen|].
  2:{ left. unfold mrt_aspath_inflate. by step E. }
  right. pose proof E as E'.
  apply inflate_len_sound in E' as (segs & Hwf & Hsl & _ & _); try lia.
  exists segs. split; [done|]. split; [done|].
  assert (Hn : Z.of_nat (length (aspath_enc 2 segs)) = len).
  { rewrite <- Hsl, length_slice by lia. lia. }
  pose proof (inflated_size_le segs) as Hi.
  rewrite <- Hn. apply mrt_aspath_inflate_enc; try done; try lia.
  rewrite <- Hsl. apply slice_at_off; lia.
Qed.

Lemma mrt_aspath_inflate_short_path_witness :
  mrt_aspath_inflate small_path_buf 0 6 w0 = Ret None w0 \/
  exists segs,
    Forall seg_wf segs /\ slice small_path_buf 0 6 = aspath_deflate segs /\
    mrt_aspath_inflate small_path_buf 0 6 w0
    = Ret (Some (0%nat, inflated_size segs)) (alloc_world (aspath_enc 4 segs) w0).
Proof.
  apply (mrt_aspath_inflate_short_path small_path_buf 0 6 w0); simpl; lia.
Defined.

(** ** The attributes of fixed size, AS_PATH, and the unknown ones *)

Ltac switch_goal :=
  unfold attr_switch;
  cbn [Z.eqb Pos.eqb MRT_ATTR_ORIGIN MRT_ATTR_ASPATH MRT_ATTR_NEXTHOP
       MRT_ATTR_MED MRT_ATTR_LOCALPREF MRT_ATTR_MP_REACH_NLRI
       MRT_ATTR_AS4PATH andb negb].

Ltac switch_in H :=
  unfold attr_switch in H;
  cbn [Z.eqb Pos.eqb MRT_ATTR_ORIGIN MRT_ATTR_ASPATH MRT_ATTR_NEXTHOP
       MRT_ATTR_MED MRT_ATTR_LOCALPREF MRT_ATTR_MP_REACH_NLRI
       MRT_ATTR_AS4PATH andb negb] in H.

Lemma load32_at_off buf off l z w :
  at_off buf off (be_bytes 4 z ++ l) -> 0 <= z < 2 ^ 32 ->
  load32 buf off w = Ret z w.
Proof.
  intros H Hz. apply at_off_app in H as [H _].
  unfold load32. erewrite bind_eq; [|by apply load_at_off].
  unfold ret. f_equal. apply (be_uint_be_bytes 4). simpl. lia.
Qed.

(** X8: when [mrt_extract_attr] reaches an ORIGIN attribute whose header lies
    in the block, a length other than 1 makes it return -1, and with the
    length 1 the byte of the payload, when the buffer holds it, becomes the
    origin of the entry and the decoding goes on behind it. *)
Theorem origin_length_checked buf aid as4 re a alen w re1 a1 alen1 w1 flags attr_len :
  let hlen := Z.of_nat (length (attr_hdr flags (byte.of_Z MRT_ATTR_ORIGIN) attr_len)) in
  attr_reach buf aid as4 (re, a, alen, w) (re1, a1, alen1, w1) ->
  at_off buf a1 (attr_hdr flags (byte.of_Z MRT_ATTR_ORIGIN) attr_len) ->
  attr_len_ok flags attr_len ->
  hlen <= alen1 ->
  (attr_len <> 1 ->
   mrt_extract_attr buf re a alen aid as4 w = Ret (-1, re1) w1) /\
  (forall o, attr_len = 1 -> at_off buf (a1 + hlen) [o] ->
   attr_body buf aid as4 re1 a1 alen1 w1
   = Ret (AttrNext (re_set_origin (byte.unsigned o) re1)
            (a1 + hlen + 1) (alen1 - hlen - 1)) w1).
Proof.
  intros hlen Hreach Hat Hok Hlen.
  pose proof (attr_body_at buf aid as4 re1 a1 alen1 w1 _ _ _ Hat Hok Hlen) as Hb.
  change (byte.unsigned (byte.of_Z MRT_ATTR_ORIGIN)) with 1 in Hb.
  fold hlen in Hb. switch_in Hb.
  split.
  - intros Hne.
    rewrite (mrt_extract_attr_reached _ _ _ _ _ _ _ _ _ _ _ Hreach).
    rewrite mrt_extract_attr_unfold, Hb.
    assert (E : (attr_len =? 1) = false) by (by apply Z.eqb_neq).
    rewrite E. reflexivity.
  - intros o -> Ho. rewrite Hb. cbn [Z.eqb Pos.eqb negb].
    rewrite (bind_eq _ _ _ _ _ (load8_at_off _ _ _ _ w1 Ho)). reflexivity.
Qed.

Lemma origin_length_checked_witness :
  mrt_extract_attr origin2_block re_zero 0 5 AID_INET true w0
  = Ret (-1, re_zero) w0 /\
  attr_body origin1_block AID_INET true re_zero 0 4 w0
  = Ret (AttrNext (re_set_origin 2 re_zero) 4 0) w0.
Proof.
  split.
  - apply (proj1 (origin_length_checked origin2_block AID_INET true
                    re_zero 0 5 w0 re_zero 0 5 w0 (byte.of_Z 0x40) 2
                    (reach_here _ _ _ _)
                    (conj (Z.le_refl 0) (ex_intro _ (bytes_of [0; 0]) eq_refl))
                    ltac:(vm_compute; split; discriminate)
                    ltac:(vm_compute; discriminate))).
    lia.
  - apply (proj2 (origin_length_checked origin1_block AID_INET true
                    re_zero 0 4 w0 re_zero 0 4 w0 (byte.of_Z 0x40) 1
                    (reach_here _ _ _ _)
                    (conj (Z.le_refl 0) (ex_intro _ (bytes_of [2]) eq_refl))
                    ltac:(vm_compute; split; discriminate)
                    ltac:(vm_compute; discriminate)) (byte.of_Z 2)).
    + reflexivity.
    + split; [vm_compute; discriminate|]. exists []. reflexivity.
Defined.


(** X9: when [mrt_extract_attr] reaches a MULTI_EXIT_DISC or a LOCAL_PREF
    attribute whose header lies in the block, a length other than 4 makes
    it return -1, and with the length 4 the big-endian value of the payload,
    when the buffer holds it, becomes the med, or the local preference, of
    the entry and the decoding goes on behind it. *)
Theorem med_local_pref_length_checked (lp : bool)
    buf aid as4 re a alen w re1 a1 alen1 w1 flags attr_len :
  let type := byte.of_Z (if lp then MRT_ATTR_LOCALPREF else MRT_ATTR_MED) in
  let hlen := Z.of_nat (length (attr_hdr flags type attr_len)) in
  attr_reach buf aid as4 (re, a, alen, w) (re1, a1, alen1, w1) ->
  at_off buf a1 (attr_hdr flags type attr_len) ->
  attr_len_ok flags attr_len ->
  hlen <= alen1 ->
  (attr_len <> 4 ->
   mrt_extract_attr buf re a alen aid as4 w = Ret (-1, re1) w1) /\
  (forall v, attr_len = 4 -> 0 <= v < 2 ^ 32 ->
   at_off buf (a1 + hlen) (be_bytes 4 v) ->
   attr_body buf aid as4 re1 a1 alen1 w1
   = Ret (AttrNext
            (if lp then re_set_local_pref v re1 else re_set_med v re1)
            (a1 + hlen + 4) (alen1 - hlen - 4)) w1).
Proof.
  intros type hlen Hreach Hat Hok Hlen.
  pose proof (attr_body_at buf aid as4 re1 a1 alen1 w1 _ _ _ Hat Hok Hlen) as Hb.
  fold hlen in Hb.
  assert (Ht : byte.unsigned type = if lp then 5 else 4) by (by destruct lp).
  rewrite Ht in Hb.
  split.
  - intros Hne.
    rewrite (mrt_extract_attr_reached _ _ _ _ _ _ _ _ _ _ _ Hreach).
    rewrite mrt_extract_attr_unfold, Hb.
    assert (E : (attr_len =? 4) = false) by (by apply Z.eqb_neq).
    destruct lp; switch_goal; rewrite E; reflexivity.
  - intros v -> Hv Hp. rewrite Hb.
    assert (L : load32 buf (a1 + hlen) w1 = Ret v w1).
    { apply (load32_at_off _ _ []); [by rewrite app_nil_r|done]. }
    destruct lp; switch_goal; step L; reflexivity.
Qed.

Lemma med_local_pref_length_checked_witness :
  mrt_extract_attr med3_block re_zero 0 6 AID_INET true w0
  = Ret (-1, re_zero) w0 /\
  attr_body med4_block AID_INET true re_zero 0 7 w0
  = Ret (AttrNext (re_set_med 256 re_zero) 7 0) w0.
Proof.
  split.
  - apply (proj1 (med_local_pref_length_checked false med3_block AID_INET true
                    re_zero 0 6 w0 re_zero 0 6 w0 (byte.of_Z 0x80) 3
                    (reach_here _ _ _ _)
                    (conj (Z.le_refl 0) (ex_intro _ (bytes_of [0; 0; 0]) eq_refl))
                    ltac:(vm_compute; split; discriminate)
                    ltac:(vm_compute; discriminate))).
    lia.
  - apply (proj2 (med_local_pref_length_checked false med4_block AID_INET true
                    re_zero 0 7 w0 re_zero 0 7 w0 (byte.of_Z 0x80) 4
                    (reach_here _ _ _ _)
                    (conj (Z.le_refl 0) (ex_intro _ (bytes_of [0; 0; 1; 0]) eq_refl))
                    ltac:(vm_compute; split; discriminate)
                    ltac:(vm_compute; discriminate)) 256).
    + reflexivity.
    + lia.
    + split; [vm_compute; discriminate|]. exists []. reflexivity.
Defined.


(** X10: when [mrt_extract_attr] reaches an AS_PATH attribute that lies in the
    buffer, then with 4-byte AS numbers in the record the payload is copied
    as it is into a fresh buffer, and with 2-byte AS numbers a payload that
    is the 2-byte encoding of well-formed segments whose 4-byte encoding
    has at most 65535 bytes is stored in that 4-byte encoding; the entry
    gets the pointer and the length of what was stored, and the decoding
    goes on behind the attribute. *)
Theorem aspath_attribute buf aid as4 re a alen w re1 a1 alen1 w1 flags payload :
  let type := byte.of_Z MRT_ATTR_ASPATH in
  let hlen := Z.of_nat (length (attr_hdr flags type (Z.of_nat (length payload)))) in
  let tlen := Z.of_nat (length (attr_tlv flags type payload)) in
  attr_reach buf aid as4 (re, a, alen, w) (re1, a1, alen1, w1) ->
  at_off buf a1 (attr_tlv flags type payload) ->
  attr_len_ok flags (Z.of_nat (length payload)) ->
  hlen <= alen1 ->
  (as4 = true ->
   attr_body buf aid as4 re1 a1 alen1 w1
   = Ret (AttrNext
            (re_set_aspath (Some (w_next w1))
               (re_set_aspath_len (Z.of_nat (length payload)) re1))
            (a1 + tlen) (alen1 - tlen))
         (alloc_world payload w1)) /\
  (as4 = false ->
   forall segs,
     Forall seg_wf segs -> payload = aspath_deflate segs ->
     inflated_size segs <= 65535 ->
     attr_body buf aid as4 re1 a1 alen1 w1
     = Ret (AttrNext
              (re_set_aspath (Some (w_next w1))
                 (re_set_aspath_len (inflated_size segs) re1))
              (a1 + tlen) (alen1 - tlen))
           (alloc_world (aspath_enc 4 segs) w1)).
Proof.
  intros type hlen tlen Hreach Hat Hok Hlen.
  pose proof Hat as Hat'. unfold attr_tlv in Hat'.
  apply at_off_app in Hat' as [Hh Hp]. fold hlen in Hp.
  pose proof (attr_body_at buf aid as4 re1 a1 alen1 w1 _ _ _ Hh Hok Hlen) as Hb.
  fold hlen in Hb. change (byte.unsigned type) with 2 in Hb.
  assert (Ht : tlen = hlen + Z.of_nat (length payload)).
  { unfold tlen, hlen, attr_tlv. rewrite length_app. lia. }
  split.
  - intros ->. rewrite Hb. switch_goal.
    rewrite (malloc_memcpy buf (a1 + hlen) payload) by done.
    unfold ret. f_equal. f_equal; lia.
  - intros -> segs Hwf -> Hsz. rewrite Hb. switch_goal.
    unfold aspath_deflate in *.
    assert (H2 : Z.of_nat (length (aspath_enc 2 segs)) <= 65535).
    { destruct Hok as [_ Hok]. destruct (extlen flags); lia. }
    erewrite bind_eq; [|by apply mrt_aspath_inflate_enc].
    unfold ret. f_equal. f_equal; lia.
Qed.

Lemma aspath_attribute_witness :
  attr_body aspath_block AID_INET true re_zero 0 9 w0
  = Ret (AttrNext (re_set_aspath (Some 0%nat) (re_set_aspath_len 6 re_zero))
                  9 0)
        (alloc_world (aspath_deflate small_path) w0) /\
  attr_body aspath_block AID_INET false re_zero 0 9 w0
  = Ret (AttrNext (re_set_aspath (Some 0%nat) (re_set_aspath_len 10 re_zero))
                  9 0)
        (alloc_world (aspath_enc 4 small_path) w0).
Proof.
  assert (Hat : at_off aspath_block 0
                  (attr_tlv (byte.of_Z 0x40) (byte.of_Z MRT_ATTR_ASPATH)
                            (aspath_deflate small_path))).
  { split; [lia|]. exists []. reflexivity. }
  assert (Hok : attr_len_ok (byte.of_Z 0x40)
                  (Z.of_nat (length (aspath_deflate small_path)))).
  { vm_compute. split; discriminate. }
  split.
  - apply (proj1 (aspath_attribute aspath_block AID_INET true re_zero 0 9 w0
                    re_zero 0 9 w0 (byte.of_Z 0x40) (aspath_deflate small_path)
                    (reach_here _ _ _ _) Hat Hok
                    ltac:(vm_compute; discriminate))).
    reflexivity.
  - apply (proj2 (aspath_attribute aspath_block AID_INET false re_zero 0 9 w0
                    re_zero 0 9 w0 (byte.of_Z 0x40) (aspath_deflate small_path)
                    (reach_here _ _ _ _) Hat Hok
                    ltac:(vm_compute; discriminate)) eq_refl small_path).
    + repeat constructor; simpl; lia.
    + reflexivity.
    + vm_compute. discriminate.
Defined.

Lemma length_tlv_enc t :
  3 <= Z.of_nat (length (tlv_enc t)).
Proof.
  unfold tlv_enc, attr_tlv. rewrite length_app, length_attr_hdr.
  destruct (extlen _); lia.
Qed.

Lemma re_set_attrs_twice n l n' l' re :
  re_set_attrs n l (re_set_attrs n' l' re) = re_set_attrs n l re.
Proof. reflexivity. Qed.

Lemma attr_body_unknown buf aid as4 re a alen w t :
  tlv_unknown as4 t ->
  re_attrs_ok re -> Z.of_nat (length (re_attrs re)) < 254 ->
  at_off buf a (tlv_enc t) ->
  Z.of_nat (length (tlv_enc t)) <= alen ->
  attr_body buf aid as4 re a alen w
  = Ret (AttrNext
           (re_set_attrs (re_nattrs re + 1)
              (re_attrs re ++ [mk_attr (w_next w) (Z.of_nat (length (tlv_enc t)))])
              re)
           (a + Z.of_nat (length (tlv_enc t)))
           (alen - Z.of_nat (length (tlv_enc t))))
        (alloc_world (tlv_enc t) w).
Proof.
  intros [Hu Hok] [Hc Hle] Hcap Hat Hlen.
  destruct t as [[flags type] payload]. unfold tlv_enc in *. cbn [fst snd] in *.
  pose proof Hat as Hat'. unfold attr_tlv in Hat'.
  apply at_off_app in Hat' as [Hh _].
  assert (Hl : Z.of_nat (length (attr_tlv flags type payload))
               = Z.of_nat (length (attr_hdr flags type (Z.of_nat (length payload))))
                 + Z.of_nat (length payload)).
  { unfold attr_tlv. rewrite length_app. lia. }
  rewrite (attr_body_at buf aid as4 re a alen w _ _ _ Hh Hok) by lia.
  rewrite attr_switch_unknown by done.
  unfold bind at 1, attr_default.
  rewrite u8_small by (change (2 ^ 8) with 256; lia).
  assert (G : (re_nattrs re + 1 >=? UCHAR_MAX) = false)
    by (rewrite Z.geb_leb; apply Z.leb_gt; unfold UCHAR_MAX; lia).
  rewrite G.
  rewrite (malloc_memcpy buf a (attr_tlv flags type payload)) by (done || lia).
  unfold ret. f_equal. f_equal; try lia. do 4 f_equal. lia.
Qed.

(** X11: for an entry whose [nattrs] counts its array, a block that is made of
    one or more attributes that no case of the switch handles, and with
    which the entry has at most 254, is decoded with the result 0: each of
    them is copied whole, with its header, into a buffer of its own, and
    the array of the entry gets one element for each, in the order of the
    block, with the pointer and the length of the copy. *)
Theorem unknown_attrs_kept tlvs buf re a aid as4 w :
  tlvs <> [] ->
  Forall (tlv_unknown as4) tlvs ->
  re_attrs_ok re ->
  Z.of_nat (length (re_attrs re)) + Z.of_nat (length tlvs) <= 254 ->
  at_off buf a (flat_map tlv_enc tlvs) ->
  mrt_extract_attr buf re a (Z.of_nat (length (flat_map tlv_enc tlvs))) aid as4 w
  = Ret (0, re_set_attrs (re_nattrs re + Z.of_nat (length tlvs))
              (re_attrs re ++ attrs_from (w_next w) (map tlv_enc tlvs)) re)
        (alloc_all (map tlv_enc tlvs) w).
Proof.
  revert buf re a aid as4 w.
  induction tlvs as [|t tlvs IH]; intros buf re a aid as4 w Hne Hall Hok Hcap Hat;
    [done|].
  apply Forall_cons in Hall as [Ht Hall].
  cbn [flat_map] in *. apply at_off_app in Hat as [Hat1 Hat2].
  rewrite length_app, Nat2Z.inj_add. cbn [length] in Hcap.
  rewrite mrt_extract_attr_unfold.
  rewrite (attr_body_unknown _ _ _ _ _ _ _ t) by (done || lia).
  replace (Z.of_nat (length (tlv_enc t)) + Z.of_nat (length (flat_map tlv_enc tlvs))
           - Z.of_nat (length (tlv_enc t)))
    with (Z.of_nat (length (flat_map tlv_enc tlvs))) by lia.
  destruct tlvs as [|t2 tlvs].
  - cbn [flat_map length Z.of_nat Z.gtb Z.compare map attrs_from alloc_all
         fold_left].
    reflexivity.
  - rewrite Zgtb_true.
    2:{ cbn [flat_map]. rewrite length_app. pose proof (length_tlv_enc t2). lia. }
    rewrite IH; try done.
    + cbn [map attrs_from alloc_all fold_left length].
      rewrite re_set_attrs_twice. f_equal. f_equal.
      cbn [re_set_attrs re_nattrs re_attrs]. rewrite <- app_assoc.
      f_equal. lia.
    + destruct Hok as [Hc Hle]. split; cbn; [rewrite length_app; simpl|]; lia.
    + cbn [re_set_attrs re_attrs]. rewrite length_app. cbn [length] in *. lia.
Qed.

Lemma unknown_attrs_kept_witness :
  mrt_extract_attr two_tlvs_block re_zero 0 8 AID_INET true w0
  = Ret (0, re_set_attrs 2 [mk_attr 0%nat 5; mk_attr 1%nat 3] re_zero)
        (alloc_all (map tlv_enc two_tlvs) w0).
Proof.
  apply (unknown_attrs_kept two_tlvs two_tlvs_block re_zero 0 AID_INET true w0).
  - discriminate.
  - repeat constructor; vm_compute; congruence.
  - split; simpl; lia.
  - simpl. lia.
  - split; [lia|]. exists []. by rewrite app_nil_r.
Defined.

Lemma mrt_extract_attr_short buf re a alen aid as4 w :
  alen < 3 -> mrt_extract_attr buf re a alen aid as4 w = Ret (-1, re) w.
Proof.
  intros H. rewrite mrt_extract_attr_unfold. unfold attr_body.
  by rewrite Zltb_true by lia.
Qed.

(** X12: [mrt_extract_attr] returns -1 for a block of less than 3 bytes, the
    empty block among them, and changes nothing; so the loop of
    [mrt_parse_v2_rib] gives the record up at an entry whose attribute
    length is less than 3, whatever came before it and whatever the path id is. *)
Theorem short_block_rejected buf re a alen aid as4 w :
  alen < 3 ->
  mrt_extract_attr buf re a alen aid as4 w = Ret (-1, re) w /\
  forall turns b len add_path pix otm pid path_id entries,
    0 <= pix < 2 ^ 16 -> 0 <= otm < 2 ^ 32 -> 0 <= pid < 2 ^ 32 ->
    0 <= alen ->
    at_off buf b (rib_entry_hdr_wire add_path pix otm pid alen) ->
    v2_rib_entries (S turns) buf b len (if add_path then 1 else 0) aid
                   path_id entries w
    = Ret None w.
Proof.
  intros Hs. split; [by apply mrt_extract_attr_short|].
  intros turns b len add_path pix otm pid path_id entries Hpix Hotm Hpid Ha Hat.
  cbn [v2_rib_entries].
  destruct (len <? 2 * 2 + 4) eqn:E1; [done|]. apply Z.ltb_ge in E1.
  unfold rib_entry_hdr_wire in Hat.
  pose proof Hat as Hat1.
  rewrite (bind_eq _ _ _ _ _ (load16_at_off _ _ _ _ w Hat1 ltac:(lia))).
  apply at_off_app in Hat as [_ Hat]. rewrite length_be_bytes in Hat.
  pose proof Hat as Hat2.
  rewrite (bind_eq _ _ _ _ _ (load32_at_off _ _ _ _ w Hat2 ltac:(lia))).
  apply at_off_app in Hat as [_ Hat]. rewrite length_be_bytes in Hat.
  cbv zeta.
  assert (A : forall b' len' pid',
             at_off buf b' (be_bytes 2 alen) ->
             (let* alen0 := load16 buf b' in
              if u32 (len' - 2) <? alen0 then ret None
              else
                let* (r, re0) := mrt_extract_attr buf
                                   (re_set_entry_hdr pix otm pid' re_zero)
                                   (b' + 2) alen0 aid true in
                if r =? -1 then ret None
                else v2_rib_entries turns buf (b' + 2 + alen0)
                       (u32 (u32 (len' - 2) - alen0))
                       (if add_path then 1 else 0) aid pid' (entries ++ [re0])) w
             = Ret None w).
  { intros b' len' pid' Hb'.
    rewrite (bind_eq _ _ _ _ _ (load16_at_off _ _ [] _ w
               ltac:(by rewrite app_nil_r) ltac:(lia))).
    destruct (_ <? alen); [done|].
    rewrite (bind_eq _ _ _ _ _ (mrt_extract_attr_short _ _ _ _ _ _ _ Hs)).
    reflexivity. }
  destruct add_path; cbn [negb Z.eqb].
  - destruct (_ <? 4 + 2); [done|].
    pose proof Hat as Hat3.
    rewrite (bind_eq _ _ _ _ _ (load32_at_off _ _ _ _ w Hat3 ltac:(lia))).
    apply at_off_app in Hat as [_ Hat]. rewrite length_be_bytes in Hat.
    change (Z.of_nat 2) with 2 in Hat. change (Z.of_nat 4) with 4 in Hat.
    by apply A.
  - cbn [app] in Hat.
    change (Z.of_nat 2) with 2 in Hat. change (Z.of_nat 4) with 4 in Hat.
    by apply A.
Qed.

Lemma short_block_rejected_witness :
  mrt_extract_attr bare_entry re_zero 8 0 AID_INET true w0
  = Ret (-1, re_zero) w0 /\
  v2_rib_entries 1 bare_entry 0 8 0 AID_INET 0 [] w0 = Ret None w0.
Proof.
  destruct (short_block_rejected bare_entry re_zero 8 0 AID_INET true w0
              ltac:(lia)) as [H1 H2].
  split; [exact H1|].
  apply (H2 0%nat 0 8 false 1 9 0 0 []); try lia.
  split; [lia|]. exists []. reflexivity.
Defined.

(** ** BGP4MP state changes and messages *)

Lemma load16_at buf off off' z l w :
  at_off buf off (be_bytes 2 z ++ l) -> 0 <= z < 2 ^ 16 -> off' = off ->
  load16 buf off' w = Ret z w.
Proof. intros H Hz ->. eapply load16_at_off; [exact H|lia]. Qed.

Lemma load32_at buf off off' z l w :
  at_off buf off (be_bytes 4 z ++ l) -> 0 <= z < 2 ^ 32 -> off' = off ->
  load32 buf off' w = Ret z w.
Proof. intros H Hz ->. by eapply load32_at_off. Qed.

Lemma at_off_whole l : at_off l 0 l.
Proof. split; [done|]. exists []. by rewrite app_nil_r. Qed.

Lemma at_off_slice buf off l :
  at_off buf off l -> slice buf off (Z.of_nat (length l)) = l.
Proof.
  intros [H0 [post H]]. unfold slice. rewrite H, Nat2Z.id.
  by rewrite take_app_length.
Qed.

Lemma at_off_bound buf off l :
  at_off buf off l -> l <> [] -> off + Z.of_nat (length l) <= Z.of_nat (length buf).
Proof. apply at_off_length. Qed.

(** An address of the family at [off], with at least its bytes left. *)
Lemma extract_addr_at (v6 : bool) buf off off' len ad l w :
  at_off buf off (ad ++ l) ->
  length ad = (if v6 then 16 else 4)%nat ->
  off' = off -> Z.of_nat (length ad) <= len ->
  mrt_extract_addr buf off' len (if v6 then AID_INET6 else AID_INET) w
  = Ret (Z.of_nat (length ad),
         addr_of (if v6 then AID_INET6 else AID_INET) ad) w.
Proof.
  intros H Hl -> Hlen. apply at_off_app in H as [H _].
  pose proof (at_off_slice _ _ _ H) as Hs.
  assert (Hne : ad <> []) by (destruct ad, v6; done).
  pose proof (at_off_length _ _ _ H Hne) as Hb.
  destruct H as [H0 _].
  unfold mrt_extract_addr, addr_of.
  destruct v6.
  - rewrite Hl in *. change (Z.of_nat 16) with 16 in *.
    rewrite Zltb_false by lia.
    erewrite bind_eq; [|apply load_ok; lia]. rewrite Hs. unfold ret.
    cbn [Nat.sub replicate]. by rewrite app_nil_r.
  - pose proof (set_v4_zero ad Hl) as Hz.
    rewrite Hl in *. change (Z.of_nat 4) with 4 in *.
    rewrite Zltb_false by lia.
    erewrite bind_eq; [|apply load_ok; lia]. rewrite Hs. unfold ret.
    by rewrite Hz.
Qed.

Lemma mrt_afi2aid_family (v6 : bool) verbose w :
  mrt_afi2aid (if v6 then MRT_DUMP_AFI_IPv6 else MRT_DUMP_AFI_IP) (-1) verbose w
  = Ret (if v6 then AID_INET6 else AID_INET) w.
Proof. by destruct v6. Qed.

(** The common fields of a well-formed record. *)
Lemma bgp4mp_common_wire (et as4 v6 : bool) hdr msg usec sas das ifx afi src dst rest w :
  bgp4mp_ok as4 v6 usec sas das ifx afi src dst ->
  h_type hdr = (if et then MSG_PROTOCOL_BGP4MP_ET else MSG_PROTOCOL_BGP4MP) ->
  h_length hdr = Z.of_nat (length msg) -> Z.of_nat (length msg) < 2 ^ 32 ->
  msg = bgp4mp_wire et as4 usec sas das ifx afi src dst ++ rest ->
  let b := (if et then 4 else 0) + (if as4 then 12 else 8) in
  bgp4mp_common hdr msg as4 w
  = Ret (Some (b, Z.of_nat (length msg) - b,
               if et then u32 (usec * 1000) else 0, sas, das, afi)) w /\
  at_off msg b (src ++ dst ++ rest).
Proof.
  intros (Hu & Hs & Hd & Hi & Hafi & Hsl & Hdl) Hty Hlen Hmax Hmsg b.
  assert (Hat : at_off msg 0 (bgp4mp_wire et as4 usec sas das ifx afi src dst ++ rest)).
  { rewrite Hmsg. apply at_off_whole. }
  assert (Hn : Z.of_nat (length msg)
               = (if et then 4 else 0) + (if as4 then 12 else 8)
                 + Z.of_nat (length src) + Z.of_nat (length dst)
                 + Z.of_nat (length rest)).
  { rewrite Hmsg. unfold bgp4mp_wire.
    rewrite !length_app, !length_be_bytes. destruct et, as4; simpl length; lia. }
  assert (Hafi' : 0 <= afi < 2 ^ 16) by (rewrite Hafi; destruct v6; done).
  unfold bgp4mp_wire in Hat. rewrite <- !app_assoc in Hat.
  unfold bgp4mp_common. rewrite Hty, Hlen.
  destruct et; cbn [Z.eqb Pos.eqb MSG_PROTOCOL_BGP4MP_ET MSG_PROTOCOL_BGP4MP].
  - erewrite bind_eq; [|erewrite bind_eq; [reflexivity|]; by eapply load32_at].
    apply at_off_app in Hat as [_ Hat]. rewrite length_be_bytes in Hat.
    destruct as4.
    + rewrite u32_small by lia. rewrite Zltb_false by lia.
      erewrite bind_eq; [|eapply load32_at; [exact Hat|lia|lia]].
      apply at_off_app in Hat as [_ Hat]. rewrite length_be_bytes in Hat.
      erewrite bind_eq; [|eapply load32_at; [exact Hat|lia|lia]].
      apply at_off_app in Hat as [_ Hat]. rewrite length_be_bytes in Hat.
      apply at_off_app in Hat as [_ Hat]. rewrite length_be_bytes in Hat.
      erewrite bind_eq; [|eapply load16_at; [exact Hat|lia|lia]].
      apply at_off_app in Hat as [_ Hat]. rewrite length_be_bytes in Hat.
      rewrite u32_small by lia. split.
      * unfold ret, b. do 2 f_equal;
          try (repeat match goal with |- (_, _) = (_, _) => f_equal end; lia).
      * apply (at_off_shift msg _ [] _ _ Hat). unfold b. cbn [length]. lia.
    + rewrite u32_small by lia. rewrite Zltb_false by lia.
      erewrite bind_eq; [|eapply load16_at; [exact Hat|lia|lia]].
      apply at_off_app in Hat as [_ Hat]. rewrite length_be_bytes in Hat.
      erewrite bind_eq; [|eapply load16_at; [exact Hat|lia|lia]].
      apply at_off_app in Hat as [_ Hat]. rewrite length_be_bytes in Hat.
      apply at_off_app in Hat as [_ Hat]. rewrite length_be_bytes in Hat.
      erewrite bind_eq; [|eapply load16_at; [exact Hat|lia|lia]].
      apply at_off_app in Hat as [_ Hat]. rewrite length_be_bytes in Hat.
      rewrite u32_small by lia. split.
      * unfold ret, b. do 2 f_equal;
          try (repeat match goal with |- (_, _) = (_, _) => f_equal end; lia).
      * apply (at_off_shift msg _ [] _ _ Hat). unfold b. cbn [length]. lia.
  - rewrite bind_ret. cbn [app] in Hat.
    destruct as4.
    + rewrite Zltb_false by lia.
      erewrite bind_eq; [|eapply load32_at; [exact Hat|lia|lia]].
      apply at_off_app in Hat as [_ Hat]. rewrite length_be_bytes in Hat.
      erewrite bind_eq; [|eapply load32_at; [exact Hat|lia|lia]].
      apply at_off_app in Hat as [_ Hat]. rewrite length_be_bytes in Hat.
      apply at_off_app in Hat as [_ Hat]. rewrite length_be_bytes in Hat.
      erewrite bind_eq; [|eapply load16_at; [exact Hat|lia|lia]].
      apply at_off_app in Hat as [_ Hat]. rewrite length_be_bytes in Hat.
      rewrite u32_small by lia. split.
      * unfold ret, b. do 2 f_equal;
          try (repeat match goal with |- (_, _) = (_, _) => f_equal end; lia).
      * apply (at_off_shift msg _ [] _ _ Hat). unfold b. cbn [length]. lia.
    + rewrite Zltb_false by lia.
      erewrite bind_eq; [|eapply load16_at; [exact Hat|lia|lia]].
      apply at_off_app in Hat as [_ Hat]. rewrite length_be_bytes in Hat.
      erewrite bind_eq; [|eapply load16_at; [exact Hat|lia|lia]].
      apply at_off_app in Hat as [_ Hat]. rewrite length_be_bytes in Hat.
      apply at_off_app in Hat as [_ Hat]. rewrite length_be_bytes in Hat.
      erewrite bind_eq; [|eapply load16_at; [exact Hat|lia|lia]].
      apply at_off_app in Hat as [_ Hat]. rewrite length_be_bytes in Hat.
      rewrite u32_small by lia. split.
      * unfold ret, b. do 2 f_equal;
          try (repeat match goal with |- (_, _) = (_, _) => f_equal end; lia).
      * apply (at_off_shift msg _ [] _ _ Hat). unfold b. cbn [length]. lia.
Qed.

Lemma message_subtype_sets as4 loc addpath :
  let st := bgp4mp_message_subtype as4 loc addpath in
  bool_decide (st ∈ [BGP4MP_MESSAGE_ADDPATH; BGP4MP_MESSAGE_LOCAL_ADDPATH;
                     BGP4MP_MESSAGE; BGP4MP_MESSAGE_LOCAL]) = negb as4 /\
  bool_decide (st ∈ [BGP4MP_MESSAGE_AS4_ADDPATH;
                     BGP4MP_MESSAGE_AS4_LOCAL_ADDPATH;
                     BGP4MP_MESSAGE_AS4; BGP4MP_MESSAGE_AS4_LOCAL]) = as4 /\
  bool_decide (st ∈ [BGP4MP_MESSAGE_ADDPATH; BGP4MP_MESSAGE_LOCAL_ADDPATH;
                     BGP4MP_MESSAGE_AS4_ADDPATH;
                     BGP4MP_MESSAGE_AS4_LOCAL_ADDPATH]) = addpath.
Proof. destruct as4, loc, addpath; vm_compute; auto. Qed.

(** What both decoders do behind the common fields: the family and the
    two addresses. *)
Lemma bgp4mp_addrs (v6 : bool) {A} msg b len src dst rest verbose afi w
    (k : bgpd_addr -> bgpd_addr -> Z -> Z -> M (option A)) :
  afi = (if v6 then MRT_DUMP_AFI_IPv6 else MRT_DUMP_AFI_IP) ->
  length src = (if v6 then 16 else 4)%nat ->
  length dst = (if v6 then 16 else 4)%nat ->
  at_off msg b (src ++ dst ++ rest) ->
  len = Z.of_nat (length (src ++ dst ++ rest)) -> len < 2 ^ 32 ->
  let aid := if v6 then AID_INET6 else AID_INET in
  (let* aid := mrt_afi2aid afi (-1) verbose in
   if bool_decide (aid = AID_UNSPEC) then ret None
   else
     let* (r, src) := mrt_extract_addr msg b len aid in
     if r =? -1 then ret None
     else
       let b := b + r in
       let len := u32 (len - r) in
       let* (r, dst) := mrt_extract_addr msg b len aid in
       if r =? -1 then ret None
       else k src dst (b + r) (u32 (len - r))) w
  = k (addr_of aid src) (addr_of aid dst)
      (b + Z.of_nat (length src) + Z.of_nat (length dst))
      (Z.of_nat (length rest)) w.
Proof.
  intros -> Hsl Hdl Hat Hlen Hmax aid.
  rewrite !length_app in Hlen.
  step (mrt_afi2aid_family v6 verbose w).
  rewrite bool_decide_eq_false_2 by (by destruct v6).
  erewrite bind_eq; [|eapply (extract_addr_at v6); [exact Hat|done|done|lia]].
  assert (E1 : (Z.of_nat (length src) =? -1) = false) by (apply Z.eqb_neq; lia).
  cbv beta iota zeta. rewrite E1.
  apply at_off_app in Hat as [_ Hat].
  rewrite u32_small by lia.
  erewrite bind_eq; [|eapply (extract_addr_at v6); [exact Hat|done|done|lia]].
  assert (E2 : (Z.of_nat (length dst) =? -1) = false) by (apply Z.eqb_neq; lia).
  cbv beta iota zeta. rewrite E2. rewrite u32_small by lia.
  fold aid. f_equal. lia.
Qed.

Lemma mrt_parse_state_wire (et as4 v6 : bool)
    hdr msg usec sas das ifx afi src dst old new rest verbose w :
  bgp4mp_ok as4 v6 usec sas das ifx afi src dst ->
  0 <= old < 2 ^ 16 -> 0 <= new < 2 ^ 16 ->
  h_type hdr = (if et then MSG_PROTOCOL_BGP4MP_ET else MSG_PROTOCOL_BGP4MP) ->
  h_subtype hdr
  = (if as4 then BGP4MP_STATE_CHANGE_AS4 else BGP4MP_STATE_CHANGE) ->
  h_length hdr = Z.of_nat (length msg) -> Z.of_nat (length msg) < 2 ^ 32 ->
  msg = bgp4mp_wire et as4 usec sas das ifx afi src dst ++
        be_bytes 2 old ++ be_bytes 2 new ++ rest ->
  let aid := if v6 then AID_INET6 else AID_INET in
  mrt_parse_state hdr msg verbose w
  = Ret (Some (mk_state (h_timestamp hdr) (if et then u32 (usec * 1000) else 0)
                        (addr_of aid src) (addr_of aid dst) sas das old new)) w.
Proof.
  intros Hok Hold Hnew Hty Hst Hlen Hmax Hmsg aid.
  destruct (bgp4mp_common_wire et as4 v6 hdr msg usec sas das ifx afi src dst
              _ w Hok Hty Hlen Hmax Hmsg) as [Hc Hat].
  destruct Hok as (_ & _ & _ & _ & Hafi & Hsl & Hdl).
  unfold mrt_parse_state. rewrite Hst.
  assert (E : ((if as4 then BGP4MP_STATE_CHANGE_AS4 else BGP4MP_STATE_CHANGE)
               =? BGP4MP_STATE_CHANGE_AS4) = as4) by (by destruct as4).
  rewrite E.
  replace (negb _) with false by (by destruct as4).
  step Hc.
  set (b := (if et then 4 else 0) + (if as4 then 12 else 8)) in *.
  assert (Hn : Z.of_nat (length msg) - b
               = Z.of_nat (length (src ++ dst ++ be_bytes 2 old ++
                                   be_bytes 2 new ++ rest))).
  { rewrite Hmsg. unfold bgp4mp_wire, b.
    rewrite !length_app, !length_be_bytes. destruct et, as4; simpl length; lia. }
  cbv beta iota.
  etransitivity; [exact (bgp4mp_addrs v6 msg b _ src dst _ verbose afi w
             (fun src dst b _ =>
                let* old_state := load16 msg b in
                let* new_state := load16 msg (b + 2) in
                ret (Some (mk_state (h_timestamp hdr)
                             (if et then u32 (usec * 1000) else 0)
                             src dst sas das old_state new_state)))
             Hafi Hsl Hdl Hat Hn ltac:(unfold b; destruct et, as4; lia))|].
  cbv beta.
  do 2 (apply at_off_app in Hat as [_ Hat]).
  erewrite bind_eq; [|eapply load16_at; [exact Hat|lia|lia]].
  apply at_off_app in Hat as [_ Hat]. rewrite length_be_bytes in Hat.
  erewrite bind_eq; [|eapply load16_at; [exact Hat|lia|lia]].
  reflexivity.
Qed.

(** X13: a BGP4MP or BGP4MP_ET state change record in wire form, with 2-byte or
    4-byte AS numbers and IPv4 or IPv6 addresses, is decoded by
    [mrt_parse_state] into the state with the time of the header (and the
    microseconds of an _ET record as nanoseconds), the two addresses, the
    two AS numbers and the old and the new state; the world stays as it
    is. *)
Theorem mrt_parse_state_decoded (et as4 v6 : bool)
    hdr msg usec sas das ifx afi src dst old new rest verbose w :
  bgp4mp_ok as4 v6 usec sas das ifx afi src dst ->
  0 <= old < 2 ^ 16 -> 0 <= new < 2 ^ 16 ->
  h_type hdr = (if et then MSG_PROTOCOL_BGP4MP_ET else MSG_PROTOCOL_BGP4MP) ->
  h_subtype hdr
  = (if as4 then BGP4MP_STATE_CHANGE_AS4 else BGP4MP_STATE_CHANGE) ->
  h_length hdr = Z.of_nat (length msg) -> Z.of_nat (length msg) < 2 ^ 32 ->
  msg = bgp4mp_wire et as4 usec sas das ifx afi src dst ++
        be_bytes 2 old ++ be_bytes 2 new ++ rest ->
  let aid := if v6 then AID_INET6 else AID_INET in
  mrt_parse_state hdr msg verbose w
  = Ret (Some (mk_state (h_timestamp hdr) (if et then u32 (usec * 1000) else 0)
                        (addr_of aid src) (addr_of aid dst) sas das old new)) w.
Proof. apply mrt_parse_state_wire. Qed.

Lemma mrt_parse_state_decoded_witness :
  mrt_parse_state state_hdr state_msg true w0
  = Ret (Some (mk_state 5 0 (addr_of AID_INET (bytes_of [10; 0; 0; 1]))
                        (addr_of AID_INET (bytes_of [10; 0; 0; 2])) 1 2 1 6))
        w0.
Proof.
  apply (mrt_parse_state_decoded false false false state_hdr state_msg
           0 1 2 0 1 (bytes_of [10; 0; 0; 1]) (bytes_of [10; 0; 0; 2])
           1 6 [] true w0).
  - unfold bgp4mp_ok. simpl. repeat split; lia.
  - lia.
  - lia.
  - reflexivity.
  - reflexivity.
  - reflexivity.
  - simpl. lia.
  - reflexivity.
Defined.

Lemma mrt_parse_msg_wire (et as4 v6 loc addpath : bool)
    hdr msg usec sas das ifx afi src dst body verbose w :
  bgp4mp_ok as4 v6 usec sas das ifx afi src dst ->
  h_type hdr = (if et then MSG_PROTOCOL_BGP4MP_ET else MSG_PROTOCOL_BGP4MP) ->
  h_subtype hdr = bgp4mp_message_subtype as4 loc addpath ->
  h_length hdr = Z.of_nat (length msg) -> Z.of_nat (length msg) < 2 ^ 32 ->
  msg = bgp4mp_wire et as4 usec sas das ifx afi src dst ++ body ->
  let aid := if v6 then AID_INET6 else AID_INET in
  let m p := mk_msg (h_timestamp hdr) (if et then u32 (usec * 1000) else 0)
               (addr_of aid src) (addr_of aid dst) sas das
               (if addpath then 1 else 0) (Z.of_nat (length body)) p in
  mrt_parse_msg hdr msg verbose w
  = match body with
    | [] => Ret (Some (m None)) w
    | _ => Ret (Some (m (Some (w_next w)))) (alloc_world body w)
    end.
Proof.
  intros Hok Hty Hst Hlen Hmax Hmsg aid m.
  destruct (bgp4mp_common_wire et as4 v6 hdr msg usec sas das ifx afi src dst
              _ w Hok Hty Hlen Hmax Hmsg) as [Hc Hat].
  destruct Hok as (_ & _ & _ & _ & Hafi & Hsl & Hdl).
  destruct (message_subtype_sets as4 loc addpath) as (S2 & S4 & Sa).
  unfold mrt_parse_msg. rewrite Hst. cbv zeta in S2, S4, Sa.
  rewrite S2, S4, Sa.
  replace (negb (negb as4 || as4)) with false by (by destruct as4).
  step Hc.
  set (b := (if et then 4 else 0) + (if as4 then 12 else 8)) in *.
  assert (Hn : Z.of_nat (length msg) - b
               = Z.of_nat (length (src ++ dst ++ body))).
  { rewrite Hmsg. unfold bgp4mp_wire, b.
    rewrite !length_app, !length_be_bytes. destruct et, as4; simpl length; lia. }
  cbv beta iota.
  etransitivity; [exact (bgp4mp_addrs v6 msg b _ src dst _ verbose afi w
             (fun src dst b len =>
                if len >? 0 then
                  let* q := malloc len in
                  let* bs := load msg b len in
                  let* _ := memcpy_to q bs in
                  ret (Some (mk_msg (h_timestamp hdr)
                               (if et then u32 (usec * 1000) else 0)
                               src dst sas das (if addpath then 1 else 0)
                               len (Some q)))
                else
                  ret (Some (mk_msg (h_timestamp hdr)
                               (if et then u32 (usec * 1000) else 0)
                               src dst sas das (if addpath then 1 else 0)
                               0 None)))
             Hafi Hsl Hdl Hat Hn ltac:(unfold b; destruct et, as4; lia))|].
  cbv beta.
  do 2 (apply at_off_app in Hat as [_ Hat]).
  destruct body as [|x body]; [reflexivity|].
  rewrite Zgtb_true by (cbn [length]; lia).
  rewrite (malloc_memcpy msg _ (x :: body)) by done.
  reflexivity.
Qed.

(** X14: a BGP4MP or BGP4MP_ET message record in wire form, of any of the eight
    message subtypes, is decoded by [mrt_parse_msg] into the message with
    the time, the addresses and the AS numbers of the record and the
    ADD-PATH flag of the subtype; the bytes behind the BGP4MP header are
    copied into a fresh buffer, and when there are none the message has no
    buffer and the length 0. *)
Theorem mrt_parse_msg_decoded (et as4 v6 loc addpath : bool)
    hdr msg usec sas das ifx afi src dst body verbose w :
  bgp4mp_ok as4 v6 usec sas das ifx afi src dst ->
  h_type hdr = (if et then MSG_PROTOCOL_BGP4MP_ET else MSG_PROTOCOL_BGP4MP) ->
  h_subtype hdr = bgp4mp_message_subtype as4 loc addpath ->
  h_length hdr = Z.of_nat (length msg) -> Z.of_nat (length msg) < 2 ^ 32 ->
  msg = bgp4mp_wire et as4 usec sas das ifx afi src dst ++ body ->
  let aid := if v6 then AID_INET6 else AID_INET in
  let m p := mk_msg (h_timestamp hdr) (if et then u32 (usec * 1000) else 0)
               (addr_of aid src) (addr_of aid dst) sas das
               (if addpath then 1 else 0) (Z.of_nat (length body)) p in
  mrt_parse_msg hdr msg verbose w
  = match body with
    | [] => Ret (Some (m None)) w
    | _ => Ret (Some (m (Some (w_next w)))) (alloc_world body w)
    end.
Proof. apply mrt_parse_msg_wire. Qed.

Lemma mrt_parse_msg_decoded_witness :
  mrt_parse_msg message_hdr message_msg true w0
  = Ret (Some message_decoded) (alloc_world message_body w0).
Proof.
  apply (mrt_parse_msg_decoded false false false false false message_hdr
           message_msg 0 1 2 0 1 (bytes_of [10; 0; 0; 1])
           (bytes_of [10; 0; 0; 2]) message_body true w0).
  - unfold bgp4mp_ok. simpl. repeat split; lia.
  - reflexivity.
  - reflexivity.
  - reflexivity.
  - simpl. lia.
  - reflexivity.
Defined.

(** ** What the decoders leave on the heap *)

Lemma same_heap_refl w : same_heap w w.
Proof. done. Qed.

Lemma same_heap_trans w1 w2 w3 :
  same_heap w1 w2 -> same_heap w2 w3 -> same_heap w1 w3.
Proof. intros [? ?] [? ?]. split; congruence. Qed.

Lemma same_heap_emit e : keeps same_heap (emit e).
Proof. intros w. done. Qed.

Lemma keeps_ret_inv {A} R (m : M A) w a w' :
  m w = Ret a w' -> keeps R m -> R w w'.
Proof. intros H K. specialize (K w). by rewrite H in K. Qed.

Lemma same_world_v2_peer_entries turns msg b len peers w r w' :
  v2_peer_entries turns msg b len peers w = Ret r w' -> w' = w.
Proof.
  intros H.
  pose proof (keeps_v2_peer_entries (fun w w' => w' = w)
                ltac:(done) ltac:(congruence) turns msg b len peers w) as K.
  by rewrite H in K.
Qed.

Lemma free_fresh blk w :
  next_fresh w ->
  free (Some (w_next w))
       (mk_world (<[w_next w := blk]> (w_heap w)) (S (w_next w)) (w_out w)
                 (w_file w) (w_reads w))
  = Ret tt (mk_world (w_heap w) (S (w_next w)) (w_out w) (w_file w) (w_reads w)).
Proof.
  intros Hf. unfold free. cbn [w_heap]. rewrite lookup_insert_eq.
  unfold set_heap. cbn. by rewrite delete_insert_id.
Qed.

Lemma memcpy_to_ret q src w u w' :
  memcpy_to q src w = Ret u w' ->
  exists blk, w' = set_heap <[q := blk]> w.
Proof.
  unfold memcpy_to. destruct (w_heap w !! q); [|done].
  destruct (_ <=? _)%nat; [|done]. intros [= _ <-]. eauto.
Qed.

Lemma poke_ret q i b w u w' :
  poke q i b w = Ret u w' -> exists blk, w' = set_heap <[q := blk]> w.
Proof.
  unfold poke. destruct (w_heap w !! q); [|done].
  destruct (_ && _); [|done]. intros [= _ <-]. eauto.
Qed.

Lemma set_heap_fresh_block q blk blk' w :
  q = w_next w ->
  set_heap <[q := blk']> (fresh_block blk w) = fresh_block blk' w.
Proof.
  intros ->. unfold set_heap, fresh_block. cbn. by rewrite insert_insert_eq.
Qed.

Lemma free_fresh_block blk w :
  next_fresh w ->
  exists w', free (Some (w_next w)) (fresh_block blk w) = Ret tt w' /\
             w_heap w' = w_heap w.
Proof.
  intros Hf. unfold free, fresh_block. cbn [w_heap]. rewrite lookup_insert_eq.
  eexists. split; [done|]. cbn. by rewrite delete_insert_id.
Qed.

Lemma peer_view_ret msg b cnt w v w' :
  (if negb (cnt =? 0) then
     let* v := malloc (cnt + 1) in
     let* name := load msg b cnt in
     let* _ := memcpy_to v name in
     let* _ := poke v cnt Byte.x00 in
     ret v
   else
     let* v := malloc 1 in
     let* _ := memcpy_to v [Byte.x00] in
     ret v) w = Ret v w' ->
  v = w_next w /\ exists blk, w' = fresh_block blk w.
Proof.
  destruct (negb _); intros H.
  - rewrite (bind_eq _ _ _ _ _ (malloc_eq _ w)) in H.
    apply bind_inv in H as (name & w1 & E1 & H).
    apply load_ret in E1 as (-> & _ & _).
    apply bind_inv in H as (u1 & w2 & E2 & H).
    apply memcpy_to_ret in E2 as (blk1 & ->).
    apply bind_inv in H as (u2 & w3 & E3 & H).
    apply poke_ret in E3 as (blk2 & ->).
    apply ret_inv in H as [<- <-]. split; [done|]. exists blk2.
    fold (fresh_block (replicate (Z.to_nat (cnt + 1)) Byte.x00) w).
    by rewrite !set_heap_fresh_block.
  - rewrite (bind_eq _ _ _ _ _ (malloc_eq _ w)) in H.
    apply bind_inv in H as (u1 & w2 & E2 & H).
    apply memcpy_to_ret in E2 as (blk1 & ->).
    apply ret_inv in H as [<- <-]. split; [done|]. exists blk1.
    fold (fresh_block (replicate (Z.to_nat 1) Byte.x00) w).
    by rewrite !set_heap_fresh_block.
Qed.

(** X15: when the pointer that malloc returns next is not in use, then on every
    input [mrt_parse_v2_peer] leaves the heap as it found it when it
    returns NULL; when it returns a peer context, the view of the context
    is a new live buffer and [mrt_free_peers] gives the heap back as it
    was. *)
Theorem mrt_parse_v2_peer_heap hdr msg w r w1 :
  next_fresh w ->
  mrt_parse_v2_peer hdr msg w = Ret r w1 ->
  match r with
  | None => w_heap w1 = w_heap w
  | Some p =>
      p_view p = Some (w_next w) /\ is_Some (w_heap w1 !! w_next w) /\
      exists w2, mrt_free_peers p w1 = Ret tt w2 /\ w_heap w2 = w_heap w
  end.
Proof.
  intros Hf H. unfold mrt_parse_v2_peer in H.
  destruct (_ <? 8); [by apply ret_inv in H as [<- <-]|].
  apply bind_inv in H as (bid & w' & L1 & H).
  apply loadN_ret in L1 as (-> & _); [|lia].
  apply bind_inv in H as (cnt & w' & L2 & H).
  apply loadN_ret in L2 as (-> & _); [|lia].
  destruct (cnt >? _).
  { unfold v2_peer_fail, mrt_free_peers in H. cbn in H.
    by apply ret_inv in H as [<- <-]. }
  apply bind_inv in H as (v & w' & Ev & H).
  apply peer_view_ret in Ev as (-> & blk & ->).
  destruct (free_fresh_block blk w Hf) as (wf & Efree & Hheap).
  assert (Hfail : forall r w1,
             v2_peer_fail (Some (w_next w)) (fresh_block blk w) = Ret r w1 ->
             r = None /\ w_heap w1 = w_heap w).
  { intros r' w1' H'. unfold v2_peer_fail, mrt_free_peers in H'.
    cbn [p_view] in H'. rewrite (bind_eq _ _ _ _ _ Efree) in H'.
    by apply ret_inv in H' as [<- <-]. }
  destruct (_ <? 2); [by apply Hfail in H as [-> ?]|].
  apply bind_inv in H as (cnt2 & w' & L3 & H).
  apply loadN_ret in L3 as (-> & _); [|lia].
  apply bind_inv in H as (peers & w' & Ep & H).
  apply same_world_v2_peer_entries in Ep as ->.
  destruct peers as [peers|]; [|by apply Hfail in H as [-> ?]].
  apply ret_inv in H as [<- <-]. cbn [p_view].
  split; [done|]. split.
  - unfold fresh_block. cbn. rewrite lookup_insert_eq. eauto.
  - exists wf. split; [exact Efree|done].
Qed.

Lemma mrt_parse_v2_peer_heap_witness :
  p_view peer_table_ctx = Some 0%nat /\
  is_Some (w_heap (alloc_world (bytes_of [97; 98; 0]) w0) !! 0%nat) /\
  exists w2,
    mrt_free_peers peer_table_ctx (alloc_world (bytes_of [97; 98; 0]) w0)
    = Ret tt w2 /\
    w_heap w2 = ∅.
Proof.
  apply (mrt_parse_v2_peer_heap peer_table_hdr peer_table_msg w0
           (Some peer_table_ctx) (alloc_world (bytes_of [97; 98; 0]) w0)).
  - reflexivity.
  - vm_compute. reflexivity.
Defined.

Lemma mrt_parse_msg_fresh hdr msg verbose w r w1 :
  next_fresh w ->
  mrt_parse_msg hdr msg verbose w = Ret r w1 ->
  match r with
  | None => w_heap w1 = w_heap w
  | Some m =>
      (m_msg m = None \/
       m_msg m = Some (w_next w) /\
       exists bs, w_heap w1 !! w_next w = Some bs /\
                  Z.of_nat (length bs) = m_msg_len m) /\
      exists w2, mrt_free_bgp_msg m w1 = Ret tt w2 /\ w_heap w2 = w_heap w
  end.
Proof.
  intros Hf H. unfold mrt_parse_msg in H. cbv zeta in H.
  destruct (negb _).
  { apply bind_inv in H as (? & ? & _ & H). discriminate. }
  apply bind_inv in H as (c & w' & Ec & H).
  assert (same_heap w w') as [Kh Kn].
  { eapply keeps_ret_inv; [exact Ec|].
    apply keeps_bgp4mp_common; [apply same_heap_refl|apply same_heap_trans]. }
  destruct c as [[[[[[b len] nsec] sas] das] afi]|];
    [|by apply ret_inv in H as [<- <-]].
  apply bind_inv in H as (aid & w2 & Ea & H).
  assert (same_heap w' w2) as [Kh2 Kn2].
  { eapply keeps_ret_inv; [exact Ea|].
    apply (keeps_mrt_afi2aid same_heap (mk_parser true true true));
      [apply same_heap_refl|apply same_heap_trans|].
    intros e _. apply same_heap_emit. }
  destruct (bool_decide (aid = AID_UNSPEC));
    [apply ret_inv in H as [<- <-]; congruence|].
  apply bind_inv in H as ([r1 src] & w3 & E1 & H).
  assert (same_heap w2 w3) as [Kh3 Kn3].
  { eapply keeps_ret_inv; [exact E1|].
    apply keeps_mrt_extract_addr; [apply same_heap_refl|apply same_heap_trans]. }
  destruct (r1 =? -1); [apply ret_inv in H as [<- <-]; congruence|].
  apply bind_inv in H as ([r2 dst] & w4 & E2 & H).
  assert (same_heap w3 w4) as [Kh4 Kn4].
  { eapply keeps_ret_inv; [exact E2|].
    apply keeps_mrt_extract_addr; [apply same_heap_refl|apply same_heap_trans]. }
  destruct (r2 =? -1); [apply ret_inv in H as [<- <-]; congruence|].
  assert (Hh : w_heap w4 = w_heap w) by congruence.
  assert (Hn : w_next w4 = w_next w) by congruence.
  assert (Hf4 : next_fresh w4) by (unfold next_fresh; by rewrite Hh, Hn).
  cbv beta iota zeta in H.
  destruct (_ >? 0) eqn:Elen.
  - rewrite (bind_eq _ _ _ _ _ (malloc_eq _ w4)) in H.
    apply bind_inv in H as (bs & w5 & E5 & H).
    apply load_slice in E5 as (-> & -> & _ & _ & Hbs).
    2:{ rewrite Z.gtb_ltb in Elen. by apply Z.ltb_lt in Elen. }
    fold (fresh_block (replicate (Z.to_nat (u32 (u32 (len - r1) - r2))) Byte.x00) w4) in H.
    apply bind_inv in H as (u & w6 & E6 & H).
    pose proof E6 as E6'.
    unfold memcpy_to, fresh_block in E6'. cbn [w_heap] in E6'.
    rewrite lookup_insert_eq in E6'.
    rewrite length_replicate, Hbs, Nat.leb_refl in E6'.
    rewrite drop_ge, app_nil_r in E6' by (rewrite length_replicate; lia).
    injection E6' as E6'. subst w6.
    apply ret_inv in H as [<- <-]. cbn [m_msg m_msg_len].
    split.
    + right. rewrite Hn. split; [done|]. eexists.
      unfold set_heap. cbn. rewrite insert_insert_eq, lookup_insert_eq.
      split; [done|]. rewrite Hbs. rewrite Z.gtb_ltb in Elen.
      apply Z.ltb_lt in Elen. lia.
    + unfold mrt_free_bgp_msg. cbn [m_msg].
      unfold set_heap. cbn. rewrite insert_insert_eq.
      destruct (free_fresh_block
                  (slice msg (b + r1 + r2) (u32 (u32 (len - r1) - r2))) w4 Hf4)
        as (wf & Efree & Hheap).
      exists wf. split; [exact Efree|congruence].
  - apply ret_inv in H as [<- <-]. cbn [m_msg]. split; [by left|].
    exists w4. split; [done|]. exact Hh.
Qed.

(** X16: when the pointer that malloc returns next is not in use, then on every
    input [mrt_parse_msg] leaves the heap as it found it when it returns
    NULL; a message that it returns has no buffer, or a new live buffer of
    [msg_len] bytes, and [mrt_free_bgp_msg] gives the heap back as it
    was. *)
Theorem mrt_parse_msg_heap hdr msg verbose w r w1 :
  next_fresh w ->
  mrt_parse_msg hdr msg verbose w = Ret r w1 ->
  match r with
  | None => w_heap w1 = w_heap w
  | Some m =>
      (m_msg m = None \/
       m_msg m = Some (w_next w) /\
       exists bs, w_heap w1 !! w_next w = Some bs /\
                  Z.of_nat (length bs) = m_msg_len m) /\
      exists w2, mrt_free_bgp_msg m w1 = Ret tt w2 /\ w_heap w2 = w_heap w
  end.
Proof. apply mrt_parse_msg_fresh. Qed.

Lemma mrt_parse_msg_heap_witness :
  (m_msg message_decoded = None \/
   m_msg message_decoded = Some 0%nat /\
   exists bs, w_heap (alloc_world message_body w0) !! 0%nat = Some bs /\
              Z.of_nat (length bs) = 2) /\
  exists w2,
    mrt_free_bgp_msg message_decoded (alloc_world message_body w0) = Ret tt w2 /\
    w_heap w2 = ∅.
Proof.
  apply (mrt_parse_msg_heap message_hdr message_msg true w0
           (Some message_decoded) (alloc_world message_body w0)).
  - reflexivity.
  - vm_compute. reflexivity.
Defined.

(** ** The entries of a TABLE_DUMP_V2 RIB record *)

Lemma attr_default_hdr buf re attr a attr_len w re' w' :
  attr_default buf re attr a attr_len w = Ret re' w' ->
  entry_hdr re' = entry_hdr re.
Proof.
  unfold attr_default. intros H. cbv zeta in H.
  destruct (_ >=? _); [discriminate|].
  do 3 (apply bind_inv in H as (? & ? & _ & H)).
  by apply ret_inv in H as [<- _].
Qed.

Lemma attr_mp_reach_hdr buf aid re a alen attr_len w n w' :
  attr_mp_reach buf aid re a alen attr_len w = Ret n w' ->
  entry_hdr (attr_next_entry n) = entry_hdr re.
Proof.
  unfold attr_mp_reach. intros H.
  apply bind_inv in H as (first & w1 & _ & H).
  destruct (negb (first =? attr_len - 1));
    destruct aid;
    repeat match type of H with
           | (if ?c then _ else _) _ = _ => destruct c
           | bind _ _ _ = _ => apply bind_inv in H as (? & ? & _ & H)
           end;
    apply ret_inv in H as [<- <-]; done.
Qed.

Lemma attr_switch_hdr buf aid as4 re type attr a alen attr_len w n w' :
  attr_switch buf aid as4 re type attr a alen attr_len w = Ret n w' ->
  entry_hdr (attr_next_entry n) = entry_hdr re.
Proof.
  unfold attr_switch. intros H.
  repeat match type of H with
         | (if ?c then _ else _) _ = _ => destruct c
         end;
    try (by apply attr_mp_reach_hdr in H);
    try (apply bind_inv in H as (re1 & w1 & E & H);
         apply attr_default_hdr in E;
         apply ret_inv in H as [<- _]; exact E);
    repeat match type of H with
           | bind _ _ _ = _ => apply bind_inv in H as (? & ? & _ & H)
           | (match ?x with _ => _ end) _ = _ => destruct x as [[? ?]|]
           end;
    apply ret_inv in H as [<- _]; done.
Qed.

Lemma attr_body_hdr buf aid as4 re a alen w n w' :
  attr_body buf aid as4 re a alen w = Ret n w' ->
  entry_hdr (attr_next_entry n) = entry_hdr re.
Proof.
  unfold attr_body. intros H.
  destruct (alen <? 3); [by apply ret_inv in H as [<- _]|].
  apply bind_inv in H as (flags & w1 & _ & H).
  apply bind_inv in H as (type & w2 & _ & H).
  destruct (negb _).
  - destruct (alen - 2 <? 2); [by apply ret_inv in H as [<- _]|].
    apply bind_inv in H as (attr_len & w3 & _ & H).
    by eapply attr_switch_hdr.
  - apply bind_inv in H as (attr_len & w3 & _ & H).
    by eapply attr_switch_hdr.
Qed.

Lemma attr_loop_hdr fuel : forall buf aid as4 re a alen w r re' w',
  attr_loop fuel buf aid as4 re a alen w = Ret (r, re') w' ->
  entry_hdr re' = entry_hdr re.
Proof.
  induction fuel as [|fuel IH]; intros buf aid as4 re a alen w r re' w' H;
    [discriminate|].
  cbn [attr_loop] in H. apply bind_inv in H as (n & w1 & E & H).
  apply attr_body_hdr in E.
  destruct n as [r1 re1|re1 a1 alen1]; simpl in E.
  - by apply ret_inv in H as [[= <- <-] _].
  - destruct (alen1 >? 0).
    + rewrite <- E. by eapply IH.
    + by apply ret_inv in H as [[= <- <-] _].
Qed.

Lemma mrt_extract_attr_hdr buf re a alen aid as4 w r re' w' :
  mrt_extract_attr buf re a alen aid as4 w = Ret (r, re') w' ->
  entry_hdr re' = entry_hdr re.
Proof. apply attr_loop_hdr. Qed.

(** [mrt_extract_attr] reads the first three bytes of the block. *)
Lemma mrt_extract_attr_reads buf re a alen aid as4 w r re' w' :
  mrt_extract_attr buf re a alen aid as4 w = Ret (r, re') w' -> r <> -1 ->
  3 <= alen /\ 0 <= a.
Proof.
  intros H Hr. rewrite mrt_extract_attr_unfold in H. unfold attr_body in H.
  destruct (alen <? 3) eqn:E.
  { unfold ret in H. injection H as <- _ _. done. }
  apply Z.ltb_ge in E. split; [done|].
  unfold bind at 1 in H.
  destruct (load8 buf a w) as [v w1| | |] eqn:L; try discriminate.
  by apply load8_byte in L as (_ & ? & _).
Qed.

Lemma v2_rib_entries_sound turns :
  forall msg b len (ap : bool) aid pid0 entries w res w',
  v2_rib_entries turns msg b len (if ap then 1 else 0) aid pid0 entries w
  = Ret (Some res) w' ->
  0 <= b -> b + len <= Z.of_nat (length msg) -> 0 <= len < 2 ^ 32 ->
  exists es new,
    length es = turns /\ Forall rib_entry_wf es /\
    at_off msg b (flat_map (rib_entry_enc ap) es) /\
    res = entries ++ new /\
    map entry_hdr new
    = map (fun e => (rw_peer_idx e, rw_originated e,
                     if ap then rw_path_id e else pid0)) es.
Proof.
  induction turns as [|turns IH];
    intros msg b len ap aid pid0 entries w res w' H Hb Hlen Hr.
  - apply ret_inv in H as [[= <-] <-]. exists [], []. simpl.
    repeat split; try done; try lia.
    + by exists (drop (Z.to_nat b) msg).
    + by rewrite app_nil_r.
  - cbn [v2_rib_entries] in H.
    destruct (len <? 2 * 2 + 4) eqn:E; [by apply ret_inv in H as [? _]|].
    apply Z.ltb_ge in E.
    apply bind_inv in H as (pix & w1 & L1 & H).
    apply loadN_ret in L1 as (-> & _ & _ & Rpix & Spix); [|lia].
    apply bind_inv in H as (otm & w1 & L2 & H).
    apply loadN_ret in L2 as (-> & _ & _ & Rotm & Sotm); [|lia].
    cbv zeta in H. rewrite (u32_small (len - 2 - 4)) in H by lia.
    (* the path id, and where the attribute length stands *)
    assert (exists pid n,
      n = (if ap then 4 else 0) /\ 0 <= pid < 2 ^ 32 /\
      (if ap then be_bytes 4 pid = slice msg (b + 2 + 4) 4 else pid = 0) /\
      8 + n <= len /\
      (let* alen := load16 msg (b + 2 + 4 + n) in
       if u32 (len - 2 - 4 - n - 2) <? alen then ret None
       else
         let* (r, re) := mrt_extract_attr msg
                           (re_set_entry_hdr pix otm (if ap then pid else pid0)
                                             re_zero)
                           (b + 2 + 4 + n + 2) alen aid true in
         if r =? -1 then ret None
         else v2_rib_entries turns msg (b + 2 + 4 + n + 2 + alen)
                (u32 (u32 (len - 2 - 4 - n - 2) - alen))
                (if ap then 1 else 0) aid (if ap then pid else pid0)
                (entries ++ [re])) w = Ret (Some res) w')
      as (pid & n & Hn & Rpid & Spid & Hlen2 & H').
    { destruct ap; cbn [negb Z.eqb] in H.
      - destruct (_ <? 4 + 2) eqn:E2; [by apply ret_inv in H as [? _]|].
        apply Z.ltb_ge in E2.
        apply bind_inv in H as (pid & w1 & L3 & H).
        apply loadN_ret in L3 as (-> & _ & _ & Rpid & Spid); [|lia].
        exists pid, 4. rewrite (u32_small (len - 2 - 4 - 4)) in H by lia.
        split; [done|]. split; [done|]. split; [done|]. split; [lia|].
        exact H.
      - exists 0, 0. split; [done|]. split; [done|]. split; [done|].
        split; [lia|]. rewrite !Z.add_0_r, !Z.sub_0_r. exact H. }
    clear H. assert (Hnv : n = 4 \/ n = 0) by (rewrite Hn; destruct ap; auto).
    apply bind_inv in H' as (alen & w1 & L4 & H).
    apply loadN_ret in L4 as (-> & _ & _ & Ralen & Salen); [|lia].
    change (256 ^ 2) with (2 ^ 16) in *. change (256 ^ 4) with (2 ^ 32) in *.
    rewrite (u32_small (len - 2 - 4 - n - 2)) in H by lia.
    destruct (_ <? alen) eqn:E3; [by apply ret_inv in H as [? _]|].
    apply Z.ltb_ge in E3.
    apply bind_inv in H as ([r re] & w1 & Ex & H).
    destruct (r =? -1) eqn:Er; [by apply ret_inv in H as [? _]|].
    apply Z.eqb_neq in Er.
    apply mrt_extract_attr_hdr in Ex.
    rewrite (u32_small (len - 2 - 4 - n - 2 - alen)) in H by lia.
    apply IH in H as (es & new & Hl & Hwf & Hat & -> & Hnew); try lia.
    set (e := mk_rw pix otm pid (slice msg (b + 2 + 4 + n + 2) alen)).
    assert (Hla : length (slice msg (b + 2 + 4 + n + 2) alen) = Z.to_nat alen)
      by (apply length_slice; lia).
    exists (e :: es), (re :: new).
    split; [simpl; lia|]. split; [|split; [|split]].
    + constructor; [|done]. unfold rib_entry_wf, e.
      cbn [rw_peer_idx rw_originated rw_path_id rw_attrs]. rewrite Hla. lia.
    + destruct Hat as [_ [post Hat]]. split; [lia|]. exists post.
      cbn [flat_map]. unfold rib_entry_enc at 1, rib_entry_hdr_wire, e.
      cbn [rw_peer_idx rw_originated rw_path_id rw_attrs].
      rewrite Hla, Z2Nat.id by lia.
      change (Z.to_nat 2) with 2%nat in *. change (Z.to_nat 4) with 4%nat in *.
      rewrite (drop_slice msg b 2), <- Spix by lia.
      rewrite (drop_slice msg (b + 2) 4), <- Sotm by lia.
      rewrite <- !app_assoc. do 2 f_equal.
      destruct ap.
      * subst n. rewrite (drop_slice msg (b + 2 + 4) 4), <- Spid by lia.
        rewrite (drop_slice msg (b + 2 + 4 + 4) 2), <- Salen by lia.
        rewrite (drop_slice msg (b + 2 + 4 + 4 + 2) alen), Hat by lia.
        by rewrite <- ?app_assoc.
      * subst n. rewrite Z.add_0_r in *.
        rewrite (drop_slice msg (b + 2 + 4) 2), <- Salen by lia.
        rewrite (drop_slice msg (b + 2 + 4 + 2) alen), Hat by lia.
        by rewrite <- ?app_assoc.
    + by rewrite <- app_assoc.
    + cbn [map]. rewrite Ex, Hnew. unfold entry_hdr at 1. cbn.
      by destruct ap.
Qed.

Lemma mrt_extract_prefix_used nlri buf m len aid verbose w r prefix plen w' :
  nlri_in_bounds nlri ->
  mrt_extract_prefix nlri buf m len aid verbose w = Ret (r, prefix, plen) w' ->
  r <> -1 -> 0 <= len ->
  0 <= r <= len.
Proof.
  intros Hn H Hr Hl. unfold mrt_extract_prefix in H.
  apply bind_inv in H as (ibuf & w1 & L & H).
  apply load_ret in L as (-> & -> & _).
  assert (Hlen : Z.of_nat (length (slice buf m len)) <= len).
  { unfold slice. rewrite length_take. lia. }
  assert (G : forall get,
             get ∈ [nlri_get_prefix nlri; nlri_get_prefix6 nlri;
                    nlri_get_vpn4 nlri; nlri_get_vpn6 nlri] ->
             match get (slice buf m len) with
             | Some (prefix, prefixlen, consumed) =>
                 ret (consumed, prefix, prefixlen)
             | None =>
                 let* _ := printf verbose "failed to parse prefix of AID %d"
                             [aid_code aid] in
                 ret (-1, addr_zero, 0)
             end w = Ret (r, prefix, plen) w' ->
             0 <= r <= len).
  { intros get Hin G. specialize (Hn get Hin (slice buf m len)).
    destruct (get (slice buf m len)) as [[[p1 l1] c1]|].
    - apply ret_inv in G as [[= <- <- <-] _].
      specialize (Hn _ _ _ eq_refl). lia.
    - apply bind_inv in G as (? & ? & _ & G).
      apply ret_inv in G as [[= <- _ _] _]. done. }
  destruct aid.
  - apply bind_inv in H as (? & ? & _ & H).
    apply ret_inv in H as [[= <- _ _] _]. done.
  - apply (G (nlri_get_prefix nlri)); [repeat constructor|exact H].
  - apply (G (nlri_get_prefix6 nlri)); [repeat constructor|exact H].
  - apply (G (nlri_get_vpn4 nlri)); [repeat constructor|exact H].
  - apply (G (nlri_get_vpn6 nlri)); [repeat constructor|exact H].
Qed.

Lemma v2_rib_with_prefix nlri msg verbose snum (ap : bool) b len aid w r w' :
  nlri_in_bounds nlri ->
  0 <= b -> 0 <= len < 2 ^ 32 -> b + len <= Z.of_nat (length msg) ->
  (let* (used, prefix, prefixlen) :=
     mrt_extract_prefix nlri msg b len aid verbose in
   if used =? -1 then ret None
   else
     if u32 (len - used) <? 2 then ret None
     else
       let* cnt := load16 msg (b + used) in
       let* entries := v2_rib_entries (Z.to_nat cnt) msg (b + used + 2)
                         (u32 (u32 (len - used) - 2)) (if ap then 1 else 0)
                         (ba_aid prefix) 0 [] in
       match entries with
       | None => ret None
       | Some entries =>
           ret (Some (mk_rib (Some entries) prefix snum cnt prefixlen
                             (if ap then 1 else 0)))
       end) w = Ret (Some r) w' ->
  exists off es entries,
    at_off msg off (be_bytes 2 (Z.of_nat (length es)) ++
                    flat_map (rib_entry_enc ap) es) /\
    Forall rib_entry_wf es /\
    r_seqnum r = snum /\
    r_add_path r = (if ap then 1 else 0) /\
    r_nentries r = Z.of_nat (length es) /\
    r_entries r = Some entries /\
    map entry_hdr entries
    = map (fun e => (rw_peer_idx e, rw_originated e,
                     if ap then rw_path_id e else 0)) es.
Proof.
  intros Hn Hb Hlen Hin H.
  apply bind_inv in H as ([[used prefix] plen] & w1 & Ep & H).
  destruct (used =? -1) eqn:Eu; [by apply ret_inv in H as [? _]|].
  apply Z.eqb_neq in Eu.
  apply mrt_extract_prefix_used in Ep as Hu; [|done|done|lia].
  rewrite (u32_small (len - used)) in H by lia.
  destruct (_ <? 2) eqn:E2; [by apply ret_inv in H as [? _]|].
  apply Z.ltb_ge in E2.
  apply bind_inv in H as (cnt & w2 & L & H).
  apply loadN_ret in L as (-> & _ & _ & Rcnt & Scnt); [|lia].
  change (256 ^ 2) with (2 ^ 16) in Rcnt.
  apply bind_inv in H as (entries & w3 & Ee & H).
  destruct entries as [entries|]; [|by apply ret_inv in H as [? _]].
  apply ret_inv in H as [[= <-] _].
  rewrite u32_small in Ee by lia.
  apply v2_rib_entries_sound in Ee as (es & new & Hl & Hwf & Hat & -> & Hnew);
    try lia.
  exists (b + used), es, new. cbn [r_seqnum r_add_path r_nentries r_entries].
  split; [|split; [done|split; [done|split; [done|split;
                     [rewrite Hl; lia|split; [done|]]]]]].
  - destruct Hat as [_ [post Hat]]. split; [lia|]. exists post.
    rewrite (drop_slice msg (b + used) 2), <- Scnt, Hat by lia.
    rewrite Hl, Z2Nat.id by lia. by rewrite <- app_assoc.
  - exact Hnew.
Qed.

(** X17: with NLRI decoders that report as consumed no more than the bytes they
    are given: when [mrt_parse_v2_rib] returns a RIB for a record whose
    buffer has the length of its header, the sequence number of the RIB is
    the first 4 bytes of the record, and somewhere in the record lie a
    2-byte count and as many entries in wire form; the RIB has that count,
    the ADD-PATH flag of the subtype, and one decoded entry for each entry
    of the record, in the same order, with its peer index, its originated
    time and, in the ADDPATH subtypes, its path id (0 in the others). *)
Theorem mrt_parse_v2_rib_entries nlri hdr msg verbose w r w' :
  nlri_in_bounds nlri ->
  h_length hdr = Z.of_nat (length msg) -> Z.of_nat (length msg) < 2 ^ 32 ->
  mrt_parse_v2_rib nlri hdr msg verbose w = Ret (Some r) w' ->
  let ap := rib_addpath_subtype (h_subtype hdr) in
  exists off es entries,
    at_off msg off (be_bytes 2 (Z.of_nat (length es)) ++
                    flat_map (rib_entry_enc ap) es) /\
    Forall rib_entry_wf es /\
    r_seqnum r = be_uint (slice msg 0 4) /\
    r_add_path r = (if ap then 1 else 0) /\
    r_nentries r = Z.of_nat (length es) /\
    r_entries r = Some entries /\
    map entry_hdr entries
    = map (fun e => (rw_peer_idx e, rw_originated e,
                     if ap then rw_path_id e else 0)) es.
Proof.
  intros Hn Hlen Hmax H ap. unfold mrt_parse_v2_rib in H.
  rewrite Hlen in H. cbv zeta in H.
  destruct (_ <? 4 + 1) eqn:E; [by apply ret_inv in H as [? _]|].
  apply Z.ltb_ge in E.
  apply bind_inv in H as (snum & w1 & L & H).
  apply bind_inv in L as (bs & w2 & L & L').
  apply load_ret in L as (-> & -> & _). apply ret_inv in L' as [<- <-].
  rewrite (u32_small (_ - 4)) in H by lia.
  fold (rib_addpath_subtype (h_subtype hdr)) in H. fold ap in H.
  destruct (bool_decide (h_subtype hdr ∈ [MRT_DUMP_V2_RIB_IPV4_UNICAST_ADDPATH; _; _; _])).
  { eapply v2_rib_with_prefix; [exact Hn| | | |exact H]; lia. }
  destruct (bool_decide (h_subtype hdr ∈ [MRT_DUMP_V2_RIB_IPV6_UNICAST_ADDPATH; _; _; _])).
  { eapply v2_rib_with_prefix; [exact Hn| | | |exact H]; lia. }
  destruct (bool_decide (h_subtype hdr ∈ [MRT_DUMP_V2_RIB_GENERIC_ADDPATH; _]));
    [|discriminate].
  destruct (_ <? 3) eqn:E3; [by apply ret_inv in H as [? _]|].
  apply Z.ltb_ge in E3.
  apply bind_inv in H as (afi & w2 & _ & H).
  apply bind_inv in H as (safi & w3 & _ & H).
  apply bind_inv in H as (aid & w4 & _ & H).
  destruct (bool_decide (aid = AID_UNSPEC)); [by apply ret_inv in H as [? _]|].
  rewrite (u32_small (_ - 4 - 3)) in H by lia.
  eapply v2_rib_with_prefix; [exact Hn| | | |exact H]; lia.
Qed.

Lemma spec_nlri_get_used aid width ibuf prefix plen used :
  spec_nlri_get aid width ibuf = Some (prefix, plen, used) ->
  0 <= used <= Z.of_nat (length ibuf).
Proof.
  destruct ibuf as [|b rest]; [discriminate|]. cbn [spec_nlri_get].
  destruct (_ || _) eqn:E; [discriminate|]. intros [= _ _ <-].
  apply orb_false_iff in E as [_ E]. apply Nat.ltb_ge in E.
  cbn [length]. lia.
Qed.

Lemma spec_nlri_in_bounds : nlri_in_bounds spec_nlri.
Proof.
  intros get Hg ibuf prefix plen used H.
  cbn [spec_nlri nlri_get_prefix nlri_get_prefix6 nlri_get_vpn4 nlri_get_vpn6]
    in Hg.
  repeat (apply elem_of_cons in Hg as [->|Hg];
          [by eapply spec_nlri_get_used|]).
  by apply elem_of_nil in Hg.
Qed.

Lemma mrt_parse_v2_rib_entries_witness :
  exists off es entries,
    at_off rib_msg off (be_bytes 2 (Z.of_nat (length es)) ++
                        flat_map (rib_entry_enc false) es) /\
    Forall rib_entry_wf es /\
    r_seqnum rib_decoded = be_uint (slice rib_msg 0 4) /\
    r_add_path rib_decoded = 0 /\
    r_nentries rib_decoded = Z.of_nat (length es) /\
    r_entries rib_decoded = Some entries /\
    map entry_hdr entries
    = map (fun e => (rw_peer_idx e, rw_originated e, 0)) es.
Proof.
  apply (mrt_parse_v2_rib_entries spec_nlri rib_hdr rib_msg false w0
           rib_decoded rib_world spec_nlri_in_bounds).
  - reflexivity.
  - vm_compute. reflexivity.
  - vm_compute. reflexivity.
Defined.

(** ** The peer context of the legacy records *)

Lemma peer_kept_refl p : peer_kept p p.
Proof. done. Qed.

Lemma peer_kept_trans p1 p2 p3 :
  peer_kept p1 p2 -> peer_kept p2 p3 -> peer_kept p1 p3.
Proof.
  intros (? & ? & ? & ? & ?) (? & ? & ? & ? & ?).
  repeat split; congruence.
Qed.

Lemma peers_update_kept f p w p' w' :
  (forall pe, pe_bgp_id (f pe) = pe_bgp_id pe) ->
  peers_update f p w = Ret p' w' -> peer_kept p p'.
Proof.
  intros Hf H. unfold peers_update in H.
  destruct (p_peers p) as [[|pe rest]|] eqn:E; try discriminate.
  apply ret_inv in H as [<- _]. unfold peer_kept. cbn. rewrite E. cbn.
  by rewrite Hf.
Qed.

Lemma dump_fail_result p0 p re w x w' :
  peer_kept p0 p -> dump_fail p re w = Ret x w' -> legacy_result p0 x.
Proof.
  intros Hk H. unfold dump_fail in H.
  apply bind_inv in H as (? & ? & _ & H). apply ret_inv in H as [<- _].
  exists p. split; [done|]. split; [done|]. by left.
Qed.

Ltac legacy_inv H p0 :=
  repeat match type of H with
         | (if ?c then _ else _) _ = _ => destruct c
         | (match ?x with _ => _ end) _ = _ => destruct x as [[? ?]|]
         | (let '(_, _) := ?x in _) _ = _ => destruct x
         | dump_fail _ _ _ = _ =>
             eapply (dump_fail_result p0) in H;
             [exact H|eauto using peer_kept_refl, peer_kept_trans]
         | bind (peers_update _ _) _ _ = _ =>
             let E := fresh "E" in
             apply bind_inv in H as (? & ? & E & H);
             apply peers_update_kept in E; [|done]
         | bind _ _ _ = _ => apply bind_inv in H as (? & ? & _ & H)
         end.

(** X18: whatever the record holds, when [mrt_parse_dump] or
    [mrt_parse_dump_mp] returns, it returns -1 and no RIB, or 0 and a RIB
    with exactly one entry; the peer context it hands back is the one it
    was given (a new one with a single zeroed entry when it was given
    none), changed at most in the address and the AS number of its first
    entry. *)
Theorem legacy_dump_peer_context nlri hdr msg pp verbose w x w' :
  mrt_parse_dump hdr msg pp w = Ret x w' \/
  mrt_parse_dump_mp nlri hdr msg pp verbose w = Ret x w' ->
  legacy_result (peer_singleton pp) x.
Proof.
  set (p0 := peer_singleton pp).
  assert (Hok : forall p re prefix seqnum plen w1,
             peer_kept p0 p ->
             ret (0, Some p, Some (mk_rib (Some [re]) prefix seqnum 1 plen 0)) w1
             = Ret x w' -> legacy_result p0 x).
  { intros p re prefix seqnum plen w1 Hk H. apply ret_inv in H as [<- _].
    exists p. split; [done|]. split; [done|]. right. split; [done|]. eauto. }
  intros [H|H].
  - unfold mrt_parse_dump in H. fold p0 in H. cbv zeta in H.
    legacy_inv H p0;
      try (eapply Hok; [|exact H]; eauto using peer_kept_refl, peer_kept_trans).
  - unfold mrt_parse_dump_mp in H. fold p0 in H. cbv zeta in H.
    legacy_inv H p0;
      try (eapply Hok; [|exact H]; eauto using peer_kept_refl, peer_kept_trans).
Qed.

Lemma legacy_dump_peer_context_witness :
  legacy_result (peer_singleton None) dump_out.
Proof.
  apply (legacy_dump_peer_context spec_nlri dump_hdr dump_msg None false w0
           dump_out w0).
  left. vm_compute. reflexivity.
Defined.

(** ** Freeing a decoded RIB *)

Lemma same_dom_refl w : same_dom w w.
Proof. done. Qed.

Lemma same_dom_trans w1 w2 w3 :
  same_dom w1 w2 -> same_dom w2 w3 -> same_dom w1 w3.
Proof. intros [? ?] [? ?]. split; congruence. Qed.

Lemma same_dom_memcpy_to q src : keeps same_dom (memcpy_to q src).
Proof.
  intros w. unfold memcpy_to. destruct (w_heap w !! q) eqn:E; [|done].
  destruct (_ <=? _)%nat; [|done]. split; [done|]. cbn.
  rewrite dom_insert_L. apply elem_of_dom_2 in E. set_solver.
Qed.

Lemma same_dom_poke q i b : keeps same_dom (poke q i b).
Proof.
  intros w. unfold poke. destruct (w_heap w !! q) eqn:E; [|done].
  destruct (_ && _); [|done]. split; [done|]. cbn.
  rewrite dom_insert_L. apply elem_of_dom_2 in E. set_solver.
Qed.

Lemma same_dom_load buf off n w bs w' :
  load buf off n w = Ret bs w' -> w' = w.
Proof. intros H. by apply load_ret in H as (-> & _). Qed.

(** [malloc] then stores into the world: one more buffer. *)
Lemma malloc_dom n w :
  exists w1,
    malloc n w = Ret (w_next w) w1 /\ w_next w1 = S (w_next w) /\
    dom (w_heap w1) = {[w_next w]} ∪ dom (w_heap w).
Proof.
  eexists. split; [apply malloc_eq|]. split; [done|]. cbn.
  by rewrite dom_insert_L.
Qed.

Lemma owned_alloc ptrs w w1 :
  owned ptrs w ->
  w_next w1 = S (w_next w) ->
  dom (w_heap w1) = {[w_next w]} ∪ dom (w_heap w) ->
  owned (ptrs ++ [w_next w]) w1.
Proof.
  intros (Hnd & Hlive & Hwf) Hn Hd. split; [|split].
  - apply NoDup_app. split; [done|]. split; [|apply NoDup_singleton].
    intros q Hq Hq'. apply list_elem_of_singleton in Hq' as ->.
    apply Hlive, Hwf in Hq. lia.
  - intros q Hq. rewrite Hd. apply elem_of_app in Hq as [Hq|Hq].
    + apply Hlive in Hq. set_solver.
    + apply list_elem_of_singleton in Hq as ->. set_solver.
  - intros q Hq. rewrite Hd in Hq. rewrite Hn.
    apply elem_of_union in Hq as [Hq|Hq].
    + apply elem_of_singleton in Hq as ->. lia.
    + apply Hwf in Hq. lia.
Qed.

Lemma owned_same_dom ptrs w w' :
  owned ptrs w -> same_dom w w' -> owned ptrs w'.
Proof.
  intros (Hnd & Hlive & Hwf) [Hn Hd]. split; [done|].
  split; intros q; rewrite Hd, ?Hn; auto.
Qed.

Lemma owned_perm ptrs ptrs' w :
  ptrs ≡ₚ ptrs' -> owned ptrs w -> owned ptrs' w.
Proof.
  intros Hp (Hnd & Hlive & Hwf). split; [by rewrite <- Hp|].
  split; [|done]. intros q Hq. apply Hlive. by rewrite Hp.
Qed.

Lemma owned_sub ptrs ptrs' w :
  ptrs' `sublist_of` ptrs -> owned ptrs w -> owned ptrs' w.
Proof.
  intros Hs (Hnd & Hlive & Hwf). split; [by eapply sublist_NoDup|].
  split; [|done]. intros q Hq. apply Hlive. by eapply elem_of_sublist.
Qed.

(** [free] of an owned pointer. *)
Lemma owned_free q ptrs w :
  owned (q :: ptrs) w ->
  exists w', free (Some q) w = Ret tt w' /\ owned ptrs w' /\
             w_next w' = w_next w.
Proof.
  intros (Hnd & Hlive & Hwf). apply NoDup_cons in Hnd as [Hq Hnd].
  assert (Hl : q ∈ dom (w_heap w)) by (apply Hlive; set_solver).
  apply elem_of_dom in Hl as [blk Hl]. unfold free. rewrite Hl.
  eexists. split; [done|]. split; [|done]. split; [done|]. cbn.
  rewrite dom_delete_L. split.
  - intros q' Hq'. apply elem_of_difference. split; [apply Hlive; set_solver|].
    intros ->%elem_of_singleton. done.
  - intros q' Hq'. apply Hwf. set_solver.
Qed.

Lemma same_world_inflate_len fuel buf seg olen nlen w r w' :
  inflate_len fuel buf seg olen nlen w = Ret r w' -> w' = w.
Proof.
  intros H. eapply (keeps_ret_inv (fun w w' => w' = w)); [exact H|].
  apply keeps_inflate_len; [done|congruence].
Qed.

Lemma mrt_aspath_inflate_dom buf data len w r w' :
  mrt_aspath_inflate buf data len w = Ret r w' ->
  match r with
  | None => w' = w
  | Some (q, _) =>
      q = w_next w /\ w_next w' = S (w_next w) /\
      dom (w_heap w') = {[w_next w]} ∪ dom (w_heap w)
  end.
Proof.
  unfold mrt_aspath_inflate. intros H.
  apply bind_inv in H as (r1 & w1 & E1 & H).
  apply same_world_inflate_len in E1 as ->.
  destruct r1 as [nlen|]; [|by apply ret_inv in H as [<- <-]].
  destruct (malloc_dom nlen w) as (w1 & Em & Hn & Hd).
  rewrite (bind_eq _ _ _ _ _ Em) in H.
  apply bind_inv in H as (u & w2 & E2 & H).
  apply ret_inv in H as [<- <-].
  assert (same_dom w1 w2) as [Hn2 Hd2].
  { eapply keeps_ret_inv; [exact E2|].
    apply keeps_inflate_copy;
      [apply same_dom_refl|apply same_dom_trans|apply same_dom_poke]. }
  split; [done|]. split; congruence.
Qed.

(** [malloc], and [memcpy] into the new buffer. *)
Lemma alloc_copy_dom {B} n buf off (k : ptr -> M B) w x w' :
  (let* q := malloc n in
   let* bs := load buf off n in
   let* _ := memcpy_to q bs in k q) w = Ret x w' ->
  exists w1,
    w_next w1 = S (w_next w) /\
    dom (w_heap w1) = {[w_next w]} ∪ dom (w_heap w) /\
    k (w_next w) w1 = Ret x w'.
Proof.
  intros H. destruct (malloc_dom n w) as (w1 & Em & Hn & Hd).
  rewrite (bind_eq _ _ _ _ _ Em) in H.
  apply bind_inv in H as (bs & w2 & E2 & H). apply same_dom_load in E2 as ->.
  apply bind_inv in H as (u & w3 & E3 & H).
  assert (same_dom w1 w3) as [Hn3 Hd3].
  { eapply keeps_ret_inv; [exact E3|]. apply same_dom_memcpy_to. }
  exists w3. split; [congruence|]. split; [congruence|done].
Qed.

Lemma perm_snoc_mid (l1 l2 l3 : list ptr) q :
  l1 ++ (l2 ++ [q]) ++ l3 ≡ₚ (l1 ++ l2 ++ l3) ++ [q].
Proof.
  rewrite <- !app_assoc. do 2 f_equiv. apply Permutation_app_comm.
Qed.

Lemma attr_default_owned others buf re attr a attr_len w re' w' :
  owned (others ++ entry_ptrs re) w ->
  attr_default buf re attr a attr_len w = Ret re' w' ->
  owned (others ++ entry_ptrs re') w'.
Proof.
  intros Ho H. unfold attr_default in H. cbv zeta in H.
  destruct (_ >=? _); [discriminate|].
  apply alloc_copy_dom in H as (w1 & Hn & Hd & H).
  apply ret_inv in H as [<- <-].
  unfold entry_ptrs in *. cbn [re_set_attrs re_attrs re_aspath].
  rewrite map_app. cbn [map ap_attr].
  eapply owned_perm; [symmetry; apply perm_snoc_mid|].
  by apply owned_alloc.
Qed.

(** The entry gets a new AS path buffer; the old one is forgotten. *)
Lemma owned_new_aspath others re w w1 l :
  owned (others ++ entry_ptrs re) w ->
  w_next w1 = S (w_next w) ->
  dom (w_heap w1) = {[w_next w]} ∪ dom (w_heap w) ->
  owned (others ++ entry_ptrs
           (re_set_aspath (Some (w_next w)) (re_set_aspath_len l re))) w1.
Proof.
  intros Ho Hn Hd. unfold entry_ptrs in *.
  cbn [re_set_aspath re_set_aspath_len re_attrs re_aspath option_list
       option_rect].
  rewrite app_assoc. apply owned_alloc; [|done|done].
  eapply owned_sub; [|exact Ho]. rewrite app_assoc.
  apply sublist_inserts_r. done.
Qed.

Lemma attr_switch_owned others buf aid as4 re type attr a alen attr_len w n w' :
  owned (others ++ entry_ptrs re) w ->
  attr_switch buf aid as4 re type attr a alen attr_len w = Ret n w' ->
  owned (others ++ entry_ptrs (attr_next_entry n)) w'.
Proof.
  intros Ho H. unfold attr_switch in H. cbv zeta in H.
  destruct (type =? MRT_ATTR_ORIGIN).
  { destruct (negb _); [by apply ret_inv in H as [<- <-]|].
    apply bind_inv in H as (o & w1 & E & H). apply load8_range in E as [-> _].
    by apply ret_inv in H as [<- <-]. }
  destruct (type =? MRT_ATTR_ASPATH).
  { destruct as4.
    - apply alloc_copy_dom in H as (w1 & Hn & Hd & H).
      apply ret_inv in H as [<- <-]. by apply owned_new_aspath.
    - apply bind_inv in H as (r & w1 & E & H).
      apply mrt_aspath_inflate_dom in E.
      destruct r as [[q newlen]|].
      + destruct E as (-> & Hn & Hd). apply ret_inv in H as [<- <-].
        by apply owned_new_aspath.
      + subst w1. apply ret_inv in H as [<- <-].
        eapply owned_sub; [|exact Ho]. unfold entry_ptrs.
        cbn [attr_next_entry re_set_aspath re_attrs re_aspath option_list
             option_rect].
        apply sublist_app; [done|]. apply sublist_app; [done|].
        apply sublist_nil_l. }
  destruct (type =? MRT_ATTR_NEXTHOP).
  { destruct (negb _); [by apply ret_inv in H as [<- <-]|].
    destruct (negb _); [by apply ret_inv in H as [<- <-]|].
    apply bind_inv in H as (o & w1 & E & H). apply same_dom_load in E as ->.
    by apply ret_inv in H as [<- <-]. }
  destruct (type =? MRT_ATTR_MED).
  { destruct (negb _); [by apply ret_inv in H as [<- <-]|].
    apply bind_inv in H as (o & w1 & E & H).
    apply bind_inv in E as (bs & w2 & E & E'). apply same_dom_load in E as ->.
    apply ret_inv in E' as [_ <-].
    by apply ret_inv in H as [<- <-]. }
  destruct (type =? MRT_ATTR_LOCALPREF).
  { destruct (negb _); [by apply ret_inv in H as [<- <-]|].
    apply bind_inv in H as (o & w1 & E & H).
    apply bind_inv in E as (bs & w2 & E & E'). apply same_dom_load in E as ->.
    apply ret_inv in E' as [_ <-].
    by apply ret_inv in H as [<- <-]. }
  destruct (type =? MRT_ATTR_MP_REACH_NLRI).
  { apply attr_mp_reach_entry in H as (H1 & _ & H2 & ->).
    unfold entry_ptrs. by rewrite H1, H2. }
  destruct (_ && _).
  { apply bind_inv in H as (u & w1 & Ef & H).
    assert (owned (others ++ entry_ptrs (re_set_aspath None re)) w1 /\
            w_next w1 = w_next w) as [Ho1 Hn1].
    { unfold entry_ptrs in *. cbn [re_set_aspath re_attrs re_aspath].
      destruct (re_aspath re) as [q|].
      - cbn [option_list option_rect] in *.
        assert (Hp : others ++ map ap_attr (re_attrs re) ++ [q]
                     ≡ₚ q :: (others ++ map ap_attr (re_attrs re) ++ [])).
        { rewrite app_nil_r, app_assoc. symmetry. apply Permutation_cons_append. }
        destruct (owned_free q _ w (owned_perm _ _ _ Hp Ho)) as (wf & E & Hof & Hnf).
        rewrite E in Ef. injection Ef as _ Ew. subst w1.
        split; [exact Hof|exact Hnf].
      - cbn in Ef. injection Ef as _ Ew. subst w1. split; [exact Ho|done]. }
    apply alloc_copy_dom in H as (w2 & Hn & Hd & H).
    apply ret_inv in H as [<- <-].
    exact (owned_new_aspath others (re_set_aspath None re) w1 w2 attr_len
             Ho1 Hn Hd). }
  apply bind_inv in H as (re1 & w1 & E & H).
  apply ret_inv in H as [<- <-]. by eapply attr_default_owned.
Qed.

Lemma attr_body_owned others buf aid as4 re a alen w n w' :
  owned (others ++ entry_ptrs re) w ->
  attr_body buf aid as4 re a alen w = Ret n w' ->
  owned (others ++ entry_ptrs (attr_next_entry n)) w'.
Proof.
  unfold attr_body. intros Ho H.
  destruct (alen <? 3); [by apply ret_inv in H as [<- <-]|].
  apply bind_inv in H as (flags & w1 & E1 & H).
  apply load8_range in E1 as [-> _].
  apply bind_inv in H as (type & w2 & E2 & H).
  apply load8_range in E2 as [-> _].
  destruct (negb _).
  - destruct (alen - 2 <? 2); [by apply ret_inv in H as [<- <-]|].
    apply bind_inv in H as (attr_len & w3 & E3 & H).
    apply load16_range in E3 as [-> _].
    by eapply attr_switch_owned.
  - apply bind_inv in H as (attr_len & w3 & E3 & H).
    apply load8_range in E3 as [-> _].
    by eapply attr_switch_owned.
Qed.

Lemma attr_loop_owned others fuel : forall buf aid as4 re a alen w r re' w',
  owned (others ++ entry_ptrs re) w ->
  attr_loop fuel buf aid as4 re a alen w = Ret (r, re') w' ->
  owned (others ++ entry_ptrs re') w'.
Proof.
  induction fuel as [|fuel IH]; intros buf aid as4 re a alen w r re' w' Ho H;
    [discriminate|].
  cbn [attr_loop] in H. apply bind_inv in H as (n & w1 & E & H).
  eapply attr_body_owned in E; [|exact Ho].
  destruct n as [r1 re1|re1 a1 alen1]; cbn [attr_next_entry] in E.
  - by apply ret_inv in H as [[= <- <-] <-].
  - destruct (alen1 >? 0).
    + by eapply IH.
    + by apply ret_inv in H as [[= <- <-] <-].
Qed.

Lemma free_attrs_owned l : forall rest w,
  owned (map ap_attr l ++ rest) w ->
  exists w', free_attrs l w = Ret tt w' /\ owned rest w'.
Proof.
  induction l as [|ap l IH]; intros rest w Ho; [by exists w|].
  cbn [free_attrs map app] in *.
  destruct (owned_free _ _ _ Ho) as (w1 & E & Ho1 & _).
  step E. by apply IH.
Qed.

Lemma free_entries_owned es : forall rest w,
  Forall re_attrs_ok es ->
  owned (flat_map entry_ptrs es ++ rest) w ->
  exists w', free_entries es w = Ret tt w' /\ owned rest w'.
Proof.
  induction es as [|re es IH]; intros rest w Hok Ho; [by exists w|].
  apply Forall_cons in Hok as [[Hn _] Hok].
  cbn [free_entries flat_map] in *. unfold entry_ptrs at 1 in Ho.
  rewrite <- !app_assoc in Ho.
  rewrite Hn, Nat2Z.id, take_ge by lia.
  destruct (free_attrs_owned _ _ _ Ho) as (w1 & E1 & Ho1).
  step E1.
  destruct (re_aspath re) as [q|]; cbn [option_list option_rect app] in Ho1.
  - destruct (owned_free _ _ _ Ho1) as (w2 & E2 & Ho2 & _).
    step E2. by apply IH.
  - assert (E2 : free None w1 = Ret tt w1) by reflexivity.
    step E2. by apply IH.
Qed.

Lemma same_dom_emit e : keeps same_dom (emit e).
Proof. intros w. done. Qed.

Lemma same_dom_mrt_afi2aid afi safi verbose :
  keeps same_dom (mrt_afi2aid afi safi verbose).
Proof.
  apply (keeps_mrt_afi2aid same_dom (mk_parser true true true));
    [apply same_dom_refl|apply same_dom_trans|].
  intros e _. apply same_dom_emit.
Qed.

Lemma same_dom_mrt_extract_prefix nlri buf m len aid verbose :
  keeps same_dom (mrt_extract_prefix nlri buf m len aid verbose).
Proof.
  apply (keeps_mrt_extract_prefix same_dom (mk_parser true true true));
    [apply same_dom_refl|apply same_dom_trans|].
  intros e _. apply same_dom_emit.
Qed.

Lemma same_dom_mrt_extract_addr buf b len aid :
  keeps same_dom (mrt_extract_addr buf b len aid).
Proof.
  apply keeps_mrt_extract_addr; [apply same_dom_refl|apply same_dom_trans].
Qed.

Lemma same_dom_load8 buf off : keeps same_dom (load8 buf off).
Proof. apply keeps_load8; [apply same_dom_refl|apply same_dom_trans]. Qed.

Lemma same_dom_load16 buf off : keeps same_dom (load16 buf off).
Proof. apply keeps_load16; [apply same_dom_refl|apply same_dom_trans]. Qed.

Lemma same_dom_load32 buf off : keeps same_dom (load32 buf off).
Proof. apply keeps_load32; [apply same_dom_refl|apply same_dom_trans]. Qed.

Lemma same_dom_peers_update f p : keeps same_dom (peers_update f p).
Proof. apply keeps_peers_update. apply same_dom_refl. Qed.

Create HintDb same_dom discriminated.
#[export] Hint Resolve same_dom_mrt_afi2aid same_dom_mrt_extract_prefix
  same_dom_mrt_extract_addr same_dom_load8 same_dom_load16 same_dom_load32
  same_dom_peers_update : same_dom.

(** A step that allocates and frees nothing keeps what is owned. *)
Lemma owned_step {A} ptrs (m : M A) w a w' :
  m w = Ret a w' -> owned ptrs w -> keeps same_dom m -> owned ptrs w'.
Proof.
  intros E Ho K. eapply owned_same_dom; [exact Ho|].
  by eapply keeps_ret_inv.
Qed.

Lemma v2_rib_entries_owned others turns :
  forall msg b len add_path aid path_id entries w res w',
  owned (others ++ flat_map entry_ptrs entries) w ->
  v2_rib_entries turns msg b len add_path aid path_id entries w
  = Ret (Some res) w' ->
  owned (others ++ flat_map entry_ptrs res) w' /\
  length res = (length entries + turns)%nat.
Proof.
  induction turns as [|turns IH];
    intros msg b len add_path aid path_id entries w res w' Ho H.
  - apply ret_inv in H as [[= <-] <-]. split; [done|lia].
  - cbn [v2_rib_entries] in H. cbv zeta in H.
    destruct (len <? 2 * 2 + 4); [by apply ret_inv in H as [? _]|].
    apply bind_inv in H as (pix & w1 & L1 & H).
    apply load16_range in L1 as [-> _].
    apply bind_inv in H as (otm & w1 & L2 & H).
    apply loadN_ret in L2 as (-> & _); [|lia].
    assert (G : forall b len path_id,
               (let* alen := load16 msg b in
                if u32 (len - 2) <? alen then ret None
                else
                  let* (r, re) := mrt_extract_attr msg
                                    (re_set_entry_hdr pix otm path_id re_zero)
                                    (b + 2) alen aid true in
                  if r =? -1 then ret None
                  else v2_rib_entries turns msg (b + 2 + alen)
                         (u32 (u32 (len - 2) - alen)) add_path aid path_id
                         (entries ++ [re])) w = Ret (Some res) w' ->
               owned (others ++ flat_map entry_ptrs res) w' /\
               length res = (length entries + S turns)%nat).
    { clear H. intros b' len' pid H.
      apply bind_inv in H as (alen & w1 & L3 & H).
      apply load16_range in L3 as [-> _].
      destruct (_ <? alen); [by apply ret_inv in H as [? _]|].
      apply bind_inv in H as ([r re] & w1 & Ex & H).
      destruct (r =? -1); [by apply ret_inv in H as [? _]|].
      apply (attr_loop_owned (others ++ flat_map entry_ptrs entries)) in Ex.
      2:{ by rewrite app_nil_r. }
      apply IH in H as [H1 H2].
      - split; [done|]. rewrite H2, length_app. simpl. lia.
      - rewrite flat_map_app. cbn [flat_map].
        by rewrite app_nil_r, app_assoc. }
    destruct (negb _).
    + destruct (_ <? 4 + 2); [by apply ret_inv in H as [? _]|].
      apply bind_inv in H as (pid & w1 & L3 & H).
      apply loadN_ret in L3 as (-> & _); [|lia].
      by apply G in H.
    + by apply G in H.
Qed.

Lemma v2_rib_owned_with_prefix others nlri msg verbose snum add_path b len aid
    w r w' :
  owned others w ->
  (let* (used, prefix, prefixlen) :=
     mrt_extract_prefix nlri msg b len aid verbose in
   if used =? -1 then ret None
   else
     if u32 (len - used) <? 2 then ret None
     else
       let* cnt := load16 msg (b + used) in
       let* entries := v2_rib_entries (Z.to_nat cnt) msg (b + used + 2)
                         (u32 (u32 (len - used) - 2)) add_path
                         (ba_aid prefix) 0 [] in
       match entries with
       | None => ret None
       | Some entries =>
           ret (Some (mk_rib (Some entries) prefix snum cnt prefixlen
                             add_path))
       end) w = Ret (Some r) w' ->
  exists entries,
    r_entries r = Some entries /\
    Z.to_nat (r_nentries r) = length entries /\
    Forall re_attrs_ok entries /\
    owned (others ++ flat_map entry_ptrs entries) w'.
Proof.
  intros Ho H.
  apply bind_inv in H as ([[used prefix] plen] & w1 & Ep & H).
  eapply owned_step in Ep; [|exact Ho|auto with same_dom].
  destruct (used =? -1); [by apply ret_inv in H as [? _]|].
  destruct (_ <? 2); [by apply ret_inv in H as [? _]|].
  apply bind_inv in H as (cnt & w2 & L & H).
  apply load16_range in L as [-> _].
  apply bind_inv in H as (entries & w3 & Ee & H).
  destruct entries as [entries|]; [|by apply ret_inv in H as [? _]].
  apply ret_inv in H as [[= <-] <-].
  pose proof (v2_rib_entries_ok _ _ _ _ _ _ _ _ _ _ _ Ee (Forall_nil_2 _)) as Hok.
  apply (v2_rib_entries_owned others) in Ee as [H1 H2];
    [|by rewrite app_nil_r].
  exists entries. cbn. done.
Qed.

Lemma mrt_parse_v2_rib_owned others nlri hdr msg verbose w r w' :
  owned others w ->
  mrt_parse_v2_rib nlri hdr msg verbose w = Ret (Some r) w' ->
  exists entries,
    r_entries r = Some entries /\
    Z.to_nat (r_nentries r) = length entries /\
    Forall re_attrs_ok entries /\
    owned (others ++ flat_map entry_ptrs entries) w'.
Proof.
  intros Ho H. unfold mrt_parse_v2_rib in H. cbv zeta in H.
  destruct (_ <? 4 + 1); [by apply ret_inv in H as [? _]|].
  apply bind_inv in H as (snum & w1 & L & H).
  apply loadN_ret in L as (-> & _); [|lia].
  destruct (bool_decide (h_subtype hdr ∈ [MRT_DUMP_V2_RIB_IPV4_UNICAST_ADDPATH; _; _; _])).
  { by eapply v2_rib_owned_with_prefix. }
  destruct (bool_decide (h_subtype hdr ∈ [MRT_DUMP_V2_RIB_IPV6_UNICAST_ADDPATH; _; _; _])).
  { by eapply v2_rib_owned_with_prefix. }
  destruct (bool_decide (h_subtype hdr ∈ [MRT_DUMP_V2_RIB_GENERIC_ADDPATH; _]));
    [|discriminate].
  destruct (_ <? 3); [by apply ret_inv in H as [? _]|].
  apply bind_inv in H as (afi & w2 & E1 & H).
  apply load16_range in E1 as [-> _].
  apply bind_inv in H as (safi & w3 & E2 & H).
  apply load8_range in E2 as [-> _].
  apply bind_inv in H as (aid & w4 & E3 & H).
  eapply owned_step in E3; [|exact Ho|auto with same_dom].
  destruct (bool_decide (aid = AID_UNSPEC)); [by apply ret_inv in H as [? _]|].
  by eapply v2_rib_owned_with_prefix.
Qed.

(** The inversion of the two decoders of legacy records, with what is
    owned carried along. *)
Ltac owned_inv H Ho :=
  repeat match type of H with
         | dump_fail _ _ _ = Ret _ _ =>
             apply dump_fail_none in H; simpl in H; discriminate
         | (if ?c then _ else _) _ = Ret _ _ => destruct c
         | (match ?x with _ => _ end) _ = Ret _ _ => destruct x as [[? ?]|]
         | bind (mrt_extract_attr _ _ _ _ _ _) _ _ = Ret _ _ =>
             let E := fresh "Eattr" in
             apply bind_inv in H as ([? ?] & ? & E & H);
             pose proof E as Eok;
             apply (attr_loop_owned []) in E; [|exact Ho]
         | bind _ _ _ = Ret _ _ =>
             let E := fresh "E" in
             apply bind_inv in H as (? & ? & E & H);
             eapply owned_step in E; [|exact Ho|auto with same_dom];
             clear Ho; rename E into Ho
         | (let '(_, _) := ?x in _) _ = Ret _ _ => destruct x
         end.

Lemma legacy_rib_owned nlri hdr msg pp verbose w x pctx r w' :
  owned [] w ->
  mrt_parse_dump hdr msg pp w = Ret (x, pctx, Some r) w' \/
  mrt_parse_dump_mp nlri hdr msg pp verbose w = Ret (x, pctx, Some r) w' ->
  exists re,
    r_entries r = Some [re] /\ r_nentries r = 1 /\ re_attrs_ok re /\
    owned (entry_ptrs re) w'.
Proof.
  intros Ho [H|H].
  - unfold mrt_parse_dump in H. cbv zeta in H.
    owned_inv H Ho; apply ret_inv in H as [[= _ _ <-] <-];
      apply mrt_extract_attr_attrs_ok in Eok; try apply re_zero_attrs_ok;
      eexists; (split; [reflexivity|]; split; [reflexivity|]; split;
                [exact Eok|exact Eattr]).
  - unfold mrt_parse_dump_mp in H. cbv zeta in H.
    destruct (h_type hdr =? MSG_PROTOCOL_BGP4MP_ET);
    owned_inv H Ho; apply ret_inv in H as [[= _ _ <-] <-];
      apply mrt_extract_attr_attrs_ok in Eok; try apply re_zero_attrs_ok;
      eexists; (split; [reflexivity|]; split; [reflexivity|]; split;
                [exact Eok|exact Eattr]).
Qed.

(** X19: on a heap whose buffers all lie below the pointer that malloc returns
    next, a RIB that [mrt_parse_v2_rib], [mrt_parse_dump] or
    [mrt_parse_dump_mp] returns is freed by [mrt_free_rib] without a fault:
    the pointers that its entries hold are live and distinct, so that no
    buffer is freed twice and none that is not allocated; the heap is then
    of that form again. *)
Theorem decoded_rib_is_freed nlri hdr msg pp verbose w r w1 :
  owned [] w ->
  mrt_parse_v2_rib nlri hdr msg verbose w = Ret (Some r) w1 \/
  (exists x pctx, mrt_parse_dump hdr msg pp w = Ret (x, pctx, Some r) w1) \/
  (exists x pctx,
      mrt_parse_dump_mp nlri hdr msg pp verbose w = Ret (x, pctx, Some r) w1) ->
  exists w2, mrt_free_rib r w1 = Ret tt w2 /\ owned [] w2.
Proof.
  intros Ho [H|H].
  - apply (mrt_parse_v2_rib_owned []) in H as (entries & He & Hn & Hok & Hown);
      [|done].
    unfold mrt_free_rib. rewrite He, Hn, take_ge by lia.
    apply free_entries_owned; [done|]. by rewrite app_nil_r.
  - assert (exists x pctx,
               mrt_parse_dump hdr msg pp w = Ret (x, pctx, Some r) w1 \/
               mrt_parse_dump_mp nlri hdr msg pp verbose w
               = Ret (x, pctx, Some r) w1) as (x & pctx & H').
    { destruct H as [(x & pctx & H)|(x & pctx & H)]; eauto. }
    apply legacy_rib_owned in H' as (re & He & Hn & Hok & Hown); [|done].
    unfold mrt_free_rib. rewrite He, Hn. change (Z.to_nat 1) with 1%nat.
    cbn [take].
    apply free_entries_owned; [by constructor|].
    cbn [flat_map]. by rewrite !app_nil_r.
Qed.

Lemma owned_w0 : owned [] w0.
Proof.
  split; [constructor|]. split.
  - intros q Hq. by apply elem_of_nil in Hq.
  - intros q Hq. cbn in Hq. by apply elem_of_empty in Hq.
Qed.

Lemma decoded_rib_is_freed_witness :
  exists w2, mrt_free_rib rib_decoded rib_world = Ret tt w2 /\ owned [] w2.
Proof.
  apply (decoded_rib_is_freed spec_nlri rib_hdr rib_msg None false w0
           rib_decoded rib_world owned_w0).
  left. vm_compute. reflexivity.
Defined.

(** ** A peer index table in wire form is decoded *)

Lemma load8_at buf off off' b l w :
  at_off buf off (b :: l) -> off' = off ->
  load8 buf off' w = Ret (byte.unsigned b) w.
Proof. intros H ->. by eapply load8_at_off. Qed.

Lemma length_peer_wire_enc e :
  peer_wire_wf e ->
  Z.of_nat (length (peer_wire_enc e))
  = 1 + 4 + (if pw_bit MRT_DUMP_V2_PEER_BIT_I e then 16 else 4)
    + (if pw_bit MRT_DUMP_V2_PEER_BIT_A e then 4 else 2).
Proof.
  intros (_ & Hl & _). unfold peer_wire_enc.
  rewrite !length_app, !length_be_bytes, Hl. cbn [length].
  destruct (pw_bit MRT_DUMP_V2_PEER_BIT_I e), (pw_bit MRT_DUMP_V2_PEER_BIT_A e);
    lia.
Qed.

Lemma v2_peer_entries_wire entries : forall msg b len peers rest w,
  Forall peer_wire_wf entries ->
  at_off msg b (flat_map peer_wire_enc entries ++ rest) ->
  len = Z.of_nat (length (flat_map peer_wire_enc entries ++ rest)) ->
  len < 2 ^ 32 ->
  v2_peer_entries (length entries) msg b len peers w
  = Ret (Some (peers ++ map peer_of_wire entries)) w.
Proof.
  induction entries as [|e entries IH]; intros msg b len peers rest w Hwf Hat Hlen Hmax.
  - cbn. by rewrite app_nil_r.
  - apply Forall_cons in Hwf as [He Hwf].
    pose proof (length_peer_wire_enc e He) as Hsz.
    destruct He as (Hbid & Hal & Hasn).
    cbn [length v2_peer_entries flat_map] in *.
    rewrite <- app_assoc in Hat, Hlen. rewrite length_app in Hlen.
    set (tl := flat_map peer_wire_enc entries ++ rest) in *.
    assert (Hi : 4 <= (if pw_bit MRT_DUMP_V2_PEER_BIT_I e then 16 else 4) <= 16)
      by (destruct (pw_bit _ e); lia).
    assert (Ha : 2 <= (if pw_bit MRT_DUMP_V2_PEER_BIT_A e then 4 else 2) <= 4)
      by (destruct (pw_bit MRT_DUMP_V2_PEER_BIT_A e); lia).
    rewrite Zltb_false by lia.
    unfold peer_wire_enc in Hat. rewrite <- !app_assoc in Hat.
    cbn [app] in Hat.
    erewrite bind_eq; [|eapply load8_at; [exact Hat|lia]].
    apply at_off_cons in Hat as [_ Hat].
    erewrite bind_eq; [|eapply load32_at; [exact Hat|lia|lia]].
    apply at_off_app in Hat as [_ Hat]. rewrite length_be_bytes in Hat.
    cbv zeta. fold (pw_bit MRT_DUMP_V2_PEER_BIT_I e).
    fold (pw_bit MRT_DUMP_V2_PEER_BIT_A e).
    rewrite (u32_small (len - 1 - 4)) by lia.
    erewrite bind_eq.
    2:{ eapply (extract_addr_at (pw_bit MRT_DUMP_V2_PEER_BIT_I e));
          [exact Hat|exact Hal|lia|].
        rewrite Hal. destruct (pw_bit MRT_DUMP_V2_PEER_BIT_I e); lia. }
    cbv beta iota.
    assert (E1 : (Z.of_nat (length (pw_addr e)) =? -1) = false)
      by (apply Z.eqb_neq; lia).
    rewrite E1.
    apply at_off_app in Hat as [_ Hat].
    assert (Hla : Z.of_nat (length (pw_addr e))
                  = if pw_bit MRT_DUMP_V2_PEER_BIT_I e then 16 else 4)
      by (rewrite Hal; by destruct (pw_bit MRT_DUMP_V2_PEER_BIT_I e)).
    rewrite (u32_small (len - 1 - 4 - _)) by lia.
    assert (Hpe : mk_pe (addr_of (if pw_bit MRT_DUMP_V2_PEER_BIT_I e
                                  then AID_INET6 else AID_INET) (pw_addr e))
                        (pw_bgp_id e) (pw_asn e) = peer_of_wire e).
    { unfold peer_of_wire, addr_of.
      destruct (pw_bit MRT_DUMP_V2_PEER_BIT_I e); rewrite Hal.
      - cbn [Nat.sub replicate]. by rewrite app_nil_r.
      - done. }
    unfold tl in *. clear tl.
    destruct (pw_bit MRT_DUMP_V2_PEER_BIT_A e) eqn:EA; cbn [negb].
    + erewrite bind_eq; [|eapply load32_at; [exact Hat|lia|lia]].
      apply at_off_app in Hat as [_ Hat]. rewrite length_be_bytes in Hat.
      rewrite Hpe, u32_small by lia.
      erewrite (IH msg _ _ _ rest); [by rewrite <- app_assoc|done| |lia|lia].
      apply (at_off_shift msg _ [] _ _ Hat). cbn [length]. lia.
    + erewrite bind_eq; [|eapply load16_at; [exact Hat|lia|lia]].
      apply at_off_app in Hat as [_ Hat]. rewrite length_be_bytes in Hat.
      rewrite Hpe, u32_small by lia.
      erewrite (IH msg _ _ _ rest); [by rewrite <- app_assoc|done| |lia|lia].
      apply (at_off_shift msg _ [] _ _ Hat). cbn [length]. lia.
Qed.

Lemma mrt_parse_v2_peer_wire hdr collector view entries rest msg w :
  0 <= collector < 2 ^ 32 ->
  Z.of_nat (length view) < 2 ^ 16 -> Z.of_nat (length entries) < 2 ^ 16 ->
  Forall peer_wire_wf entries ->
  msg = peer_index_wire collector view entries ++ rest ->
  h_length hdr = Z.of_nat (length msg) -> Z.of_nat (length msg) < 2 ^ 32 ->
  mrt_parse_v2_peer hdr msg w
  = Ret (Some (mk_peer (Some (w_next w)) (Some (map peer_of_wire entries))
                       collector (Z.of_nat (length entries))))
        (alloc_world (view ++ [Byte.x00]) w).
Proof.
  intros Hc Hv He Hwf Hmsg Hlen Hmax.
  assert (Hat : at_off msg 0 (peer_index_wire collector view entries ++ rest)).
  { rewrite Hmsg. apply at_off_whole. }
  assert (Hn : Z.of_nat (length msg)
               = 4 + 2 + Z.of_nat (length view) + 2
                 + Z.of_nat (length (flat_map peer_wire_enc entries ++ rest))).
  { rewrite Hmsg. unfold peer_index_wire.
    rewrite !length_app, !length_be_bytes. lia. }
  unfold peer_index_wire in Hat. rewrite <- !app_assoc in Hat.
  unfold mrt_parse_v2_peer. rewrite Hlen. cbv zeta.
  rewrite Zltb_false by lia.
  erewrite bind_eq; [|eapply load32_at; [exact Hat|lia|lia]].
  apply at_off_app in Hat as [_ Hat]. rewrite length_be_bytes in Hat.
  erewrite bind_eq; [|eapply load16_at; [exact Hat|lia|lia]].
  apply at_off_app in Hat as [_ Hat]. rewrite length_be_bytes in Hat.
  rewrite (u32_small (_ - 4)) by lia. rewrite (u32_small (_ - 4 - 2)) by lia.
  rewrite Zgtb_false by lia.
  pose proof Hat as Hview. apply at_off_app in Hview as [Hview _].
  pose proof (at_off_slice _ _ _ Hview) as Hsl.
  erewrite bind_eq.
  2:{ apply peer_view_alloc; [lia|lia|].
      destruct view as [|x view]; [cbn [length]; lia|].
      pose proof (at_off_length _ _ _ Hview ltac:(done)). lia. }
  change (slice msg (4 + 2) (Z.of_nat (length view)))
    with (slice msg (0 + Z.of_nat 4 + Z.of_nat 2) (Z.of_nat (length view))).
  rewrite Hsl.
  apply at_off_app in Hat as [_ Hat].
  rewrite u32_small by lia. rewrite Zltb_false by lia.
  erewrite bind_eq; [|eapply load16_at; [exact Hat|lia|lia]].
  apply at_off_app in Hat as [_ Hat]. rewrite length_be_bytes in Hat.
  rewrite Nat2Z.id.
  erewrite bind_eq.
  2:{ eapply (v2_peer_entries_wire entries msg _ _ [] rest); [done| | |].
      - apply (at_off_shift msg _ [] _ _ Hat). cbn [length]. lia.
      - rewrite u32_small by lia. lia.
      - rewrite u32_small by lia. lia. }
  reflexivity.
Qed.

(** X20: a peer index table in wire form (the collector id, the view name, and
    N entries with a 4-byte or 16-byte address and a 2-byte or 4-byte AS
    number as their type bits say, followed by any bytes) is decoded by
    [mrt_parse_v2_peer] into the context with the collector id, the count
    N and the N entries in the order of the record; the view name is
    copied, with a closing NUL, into a fresh buffer. *)
Theorem v2_peer_table_wire_decoded hdr collector view entries rest msg w :
  0 <= collector < 2 ^ 32 ->
  Z.of_nat (length view) < 2 ^ 16 -> Z.of_nat (length entries) < 2 ^ 16 ->
  Forall peer_wire_wf entries ->
  msg = peer_index_wire collector view entries ++ rest ->
  h_length hdr = Z.of_nat (length msg) -> Z.of_nat (length msg) < 2 ^ 32 ->
  mrt_parse_v2_peer hdr msg w
  = Ret (Some (mk_peer (Some (w_next w)) (Some (map peer_of_wire entries))
                       collector (Z.of_nat (length entries))))
        (alloc_world (view ++ [Byte.x00]) w).
Proof. apply mrt_parse_v2_peer_wire. Qed.

Lemma v2_peer_table_wire_decoded_witness :
  mrt_parse_v2_peer peer_table_hdr peer_table_msg w0
  = Ret (Some peer_table_ctx) (alloc_world (bytes_of [97; 98; 0]) w0).
Proof.
  apply (v2_peer_table_wire_decoded peer_table_hdr 0x01020304
           (bytes_of [97; 98]) peer_table_entries [] peer_table_msg w0).
  - lia.
  - simpl. lia.
  - simpl. lia.
  - repeat constructor; simpl; lia.
  - unfold peer_table_msg. by rewrite app_nil_r.
  - reflexivity.
  - simpl. lia.
Defined.

(** ** The next hop of MP_REACH_NLRI *)

Lemma load_at buf off off' l l' n w :
  at_off buf off (l ++ l') -> off' = off -> n = Z.of_nat (length l) ->
  load buf off' n w = Ret l w.
Proof.
  intros H -> ->. apply at_off_app in H as [H _]. by apply load_at_off.
Qed.

Lemma attr_body_mp_reach_wire buf aid as4 re a alen w flags pre nhlen rd nh rest :
  let type := byte.of_Z MRT_ATTR_MP_REACH_NLRI in
  let payload := mp_reach_payload pre nhlen rd nh rest in
  let tlen := Z.of_nat (length (attr_tlv flags type payload)) in
  at_off buf a (attr_tlv flags type payload) ->
  attr_len_ok flags (Z.of_nat (length payload)) ->
  tlen <= alen ->
  mp_reach_form pre nhlen (Z.of_nat (length payload)) ->
  mp_reach_sizes aid rd nh ->
  attr_body buf aid as4 re a alen w
  = Ret (AttrNext
           (re_set_nexthop
              (mk_addr aid (match aid with
                            | AID_VPN_IPv4 => set_v4 (re_nexthop re) nh
                            | _ => nh
                            end)) re)
           (a + tlen) (alen - tlen)) w.
Proof.
  intros type payload tlen Hat Hok Hlen Hform Hsz.
  pose proof Hat as Hat'. unfold attr_tlv in Hat'.
  apply at_off_app in Hat' as [Hh Hp].
  set (hlen := Z.of_nat (length (attr_hdr flags type (Z.of_nat (length payload))))) in *.
  assert (Ht : tlen = hlen + Z.of_nat (length payload)).
  { unfold tlen, hlen, attr_tlv. rewrite length_app. lia. }
  assert (Hl16 : Z.of_nat (length payload) < 2 ^ 16).
  { destruct Hok as [_ Hok]. destruct (extlen flags); lia. }
  rewrite (attr_body_at buf aid as4 re a alen w _ _ _ Hh Hok) by (fold hlen; lia).
  fold hlen. change (byte.unsigned type) with 14.
  unfold attr_switch. cbn [Z.eqb Pos.eqb MRT_ATTR_ORIGIN MRT_ATTR_ASPATH
    MRT_ATTR_NEXTHOP MRT_ATTR_MED MRT_ATTR_LOCALPREF MRT_ATTR_MP_REACH_NLRI].
  unfold attr_mp_reach.
  assert (Hpl : Z.of_nat (length payload)
                = Z.of_nat (length pre) + 1 + Z.of_nat (length rd)
                  + Z.of_nat (length nh) + Z.of_nat (length rest)).
  { unfold payload, mp_reach_payload. rewrite !length_app. cbn [length]. lia. }
  unfold payload, mp_reach_payload in Hp.
  (* where the length of the next hop stands, and what the code makes of
     the first byte *)
  assert (exists first,
             load8 buf (a + hlen) w = Ret first w /\
             (first =? Z.of_nat (length payload) - 1)
             = bool_decide (pre = [])) as (first & L & Efirst).
  { destruct Hform as [[-> Hn]|(l0 & l1 & l2 & -> & Hn)].
    - exists (byte.unsigned nhlen). split; [by eapply load8_at|].
      rewrite bool_decide_eq_true_2 by done. by apply Z.eqb_eq.
    - exists (byte.unsigned l0). split; [by eapply load8_at|].
      rewrite bool_decide_eq_false_2 by done. by apply Z.eqb_neq. }
  step L. rewrite Efirst.
  assert (Hpre : Z.of_nat (length pre) = if bool_decide (pre = []) then 0 else 3).
  { destruct Hform as [[-> _]|(l0 & l1 & l2 & -> & _)]; done. }
  apply at_off_app in Hp as [_ Hp]. apply at_off_cons in Hp as [_ Hp].
  assert (Hnh : at_off buf (a + hlen + Z.of_nat (length pre) + 1
                            + Z.of_nat (length rd)) (nh ++ rest)).
  { apply at_off_app in Hp as [_ Hp]. eapply (at_off_shift _ _ [] _ _ Hp).
    cbn [length]. lia. }
  assert (Hadj : (if negb (bool_decide (pre = []))
                  then (a + hlen + 3, alen - hlen - 3,
                        u16 (Z.of_nat (length payload) - 3))
                  else (a + hlen, alen - hlen, Z.of_nat (length payload)))
                 = (a + hlen + Z.of_nat (length pre),
                    alen - hlen - Z.of_nat (length pre),
                    Z.of_nat (length payload) - Z.of_nat (length pre))).
  { destruct (bool_decide (pre = [])); cbn [negb]; rewrite !Hpre.
    - by rewrite !Z.add_0_r, !Z.sub_0_r.
    - rewrite u16_small by lia. reflexivity. }
  rewrite Hadj. clear Hadj.
  destruct aid; try done; destruct Hsz as [Hrd Hnl].
  - subst rd. cbn [length] in *.
    rewrite Zltb_false by lia.
    erewrite bind_eq; [|eapply load_at; [exact Hnh|lia|lia]].
    unfold ret. do 2 f_equal; lia.
  - rewrite Zltb_false by lia.
    erewrite bind_eq; [|eapply load_at; [exact Hnh|lia|lia]].
    unfold ret. do 2 f_equal; lia.
  - rewrite Zltb_false by lia.
    erewrite bind_eq; [|eapply load_at; [exact Hnh|lia|lia]].
    unfold ret. do 2 f_equal; lia.
Qed.

(** X21: for an MP_REACH_NLRI attribute that lies within the block, in the
    encoding of RFC 6396 or in the older one with AFI and SAFI in front,
    and whose next hop field has the size of the family of the record
    (IPv6, or a VPN family with its route distinguisher), one turn of the
    loop of [mrt_extract_attr] stores the next hop of the attribute in the
    entry, without the route distinguisher (for VPN-IPv4 in the first 4
    bytes of the address that the entry had), and goes on behind the
    attribute; nothing is allocated. *)
Theorem mp_reach_next_hop buf aid as4 re a alen w flags pre nhlen rd nh rest :
  let type := byte.of_Z MRT_ATTR_MP_REACH_NLRI in
  let payload := mp_reach_payload pre nhlen rd nh rest in
  let tlen := Z.of_nat (length (attr_tlv flags type payload)) in
  at_off buf a (attr_tlv flags type payload) ->
  attr_len_ok flags (Z.of_nat (length payload)) ->
  tlen <= alen ->
  mp_reach_form pre nhlen (Z.of_nat (length payload)) ->
  mp_reach_sizes aid rd nh ->
  attr_body buf aid as4 re a alen w
  = Ret (AttrNext
           (re_set_nexthop
              (mk_addr aid (match aid with
                            | AID_VPN_IPv4 => set_v4 (re_nexthop re) nh
                            | _ => nh
                            end)) re)
           (a + tlen) (alen - tlen)) w.
Proof. apply attr_body_mp_reach_wire. Qed.

Lemma mp_reach_next_hop_witness :
  attr_body mp_reach_block AID_INET6 true re_zero 0 20 w0
  = Ret (AttrNext (re_set_nexthop (mk_addr AID_INET6 nh6) re_zero) 20 0) w0.
Proof.
  apply (mp_reach_next_hop mp_reach_block AID_INET6 true re_zero 0 20 w0
           (byte.of_Z 0x80) [] (byte.of_Z 16) [] nh6 []).
  - split; [lia|]. exists []. reflexivity.
  - vm_compute. split; discriminate.
  - vm_compute. discriminate.
  - left. split; reflexivity.
  - split; reflexivity.
Defined.

(** ** A TABLE_DUMP record in wire form *)

(** X22: a TABLE_DUMP record in wire form, for IPv4 or IPv6, whose attribute
    block [mrt_extract_attr] decodes with 0 into the entry [re], is decoded
    by [mrt_parse_dump] with 0 into a RIB with the sequence number, the
    prefix and the prefix length of the record and the one entry [re],
    which has the originated time of the record; the first entry that
    the peer context has gets the address and the AS number of the peer. *)
Theorem mrt_parse_dump_decoded (v6 : bool) hdr msg pp pe0 prest
    view seqnum prefix plen status otm peer asn attrs rest w re w' :
  let aid := if v6 then AID_INET6 else AID_INET in
  let p0 := peer_singleton pp in
  let boff := Z.of_nat (length (table_dump_wire view seqnum prefix plen status
                                   otm peer asn (Z.of_nat (length attrs)))) in
  h_subtype hdr = (if v6 then MRT_DUMP_AFI_IPv6 else MRT_DUMP_AFI_IP) ->
  h_length hdr = Z.of_nat (length msg) -> Z.of_nat (length msg) < 2 ^ 32 ->
  msg = table_dump_wire view seqnum prefix plen status otm peer asn
          (Z.of_nat (length attrs)) ++ attrs ++ rest ->
  0 <= view < 2 ^ 16 -> 0 <= seqnum < 2 ^ 16 -> 0 <= otm < 2 ^ 32 ->
  0 <= asn < 2 ^ 16 -> Z.of_nat (length attrs) < 2 ^ 16 ->
  length prefix = (if v6 then 16 else 4)%nat ->
  length peer = (if v6 then 16 else 4)%nat ->
  p_peers p0 = Some (pe0 :: prest) ->
  mrt_extract_attr msg (re_set_originated otm re_zero) boff
                   (Z.of_nat (length attrs)) aid false w
  = Ret (0, re) w' ->
  mrt_parse_dump hdr msg pp w
  = Ret (0,
         Some (mk_peer (p_view p0)
                 (Some (mk_pe (addr_of aid peer) (pe_bgp_id pe0) asn :: prest))
                 (p_bgp_id p0) (p_npeers p0)),
         Some (mk_rib (Some [re]) (addr_of aid prefix) seqnum 1
                      (byte.unsigned plen) 0)) w'.
Proof.
  intros aid p0 boff Hst Hlen Hmax Hmsg Hview Hseq Hotm Hasn Hal Hpl Hpe Hp0 Hx.
  assert (Hat : at_off msg 0
                  (table_dump_wire view seqnum prefix plen status otm peer asn
                     (Z.of_nat (length attrs)) ++ attrs ++ rest)).
  { rewrite Hmsg. apply at_off_whole. }
  assert (Hsz : Z.of_nat (length prefix) = (if v6 then 16 else 4) /\
                Z.of_nat (length peer) = (if v6 then 16 else 4)).
  { rewrite Hpl, Hpe. by destruct v6. }
  destruct Hsz as [Hzp Hze].
  assert (Hbp : 4 <= Z.of_nat (length prefix) <= 16) by (destruct v6; lia).
  assert (Hbe : 4 <= Z.of_nat (length peer) <= 16) by (destruct v6; lia).
  assert (Hb : boff = 2 + 2 + Z.of_nat (length prefix) + 2 + 4
                      + Z.of_nat (length peer) + 2 + 2).
  { unfold boff, table_dump_wire. rewrite !length_app, !length_be_bytes.
    cbn [length]. lia. }
  assert (Hn : Z.of_nat (length msg)
               = boff + Z.of_nat (length attrs) + Z.of_nat (length rest)).
  { rewrite Hmsg at 1. rewrite !length_app. fold boff. lia. }
  unfold table_dump_wire in Hat. rewrite <- !app_assoc in Hat.
  unfold mrt_parse_dump. fold p0. rewrite Hlen, Hst. cbv zeta.
  rewrite Zltb_false by (destruct v6; lia).
  apply at_off_app in Hat as [_ Hat]. rewrite length_be_bytes in Hat.
  erewrite bind_eq; [|eapply load16_at; [exact Hat|lia|lia]].
  apply at_off_app in Hat as [_ Hat]. rewrite length_be_bytes in Hat.
  rewrite (u32_small (Z.of_nat (length msg) - 2)) by (destruct v6; lia).
  rewrite (u32_small (Z.of_nat (length msg) - 2 - 2)) by (destruct v6; lia).
  assert (Esub : (if (if v6 then MRT_DUMP_AFI_IPv6 else MRT_DUMP_AFI_IP)
                     =? MRT_DUMP_AFI_IP
                  then Some (AID_INET, 4)
                  else if (if v6 then MRT_DUMP_AFI_IPv6 else MRT_DUMP_AFI_IP)
                          =? MRT_DUMP_AFI_IPv6
                       then Some (AID_INET6, 16) else None)
                 = Some (aid, Z.of_nat (length prefix))).
  { unfold aid. rewrite Hzp. by destruct v6. }
  rewrite Esub. clear Esub.
  erewrite bind_eq.
  2:{ eapply (extract_addr_at v6); [exact Hat|done|lia|lia]. }
  cbv beta iota.
  assert (E1 : (Z.of_nat (length prefix) =? -1) = false)
    by (apply Z.eqb_neq; lia).
  rewrite E1.
  apply at_off_app in Hat as [_ Hat].
  rewrite (u32_small (_ - 2 - 2 - _)) by lia.
  rewrite Zltb_false by lia.
  change ([plen; status] ++ ?l) with (plen :: status :: l) in Hat.
  erewrite bind_eq; [|eapply load8_at; [exact Hat|lia]].
  apply at_off_cons in Hat as [_ Hat]. apply at_off_cons in Hat as [_ Hat].
  erewrite bind_eq; [|eapply load32_at; [exact Hat|lia|lia]].
  apply at_off_app in Hat as [_ Hat]. rewrite length_be_bytes in Hat.
  rewrite (u32_small (_ - 1 - 1 - 4)) by lia.
  erewrite bind_eq.
  2:{ eapply (extract_addr_at v6); [exact Hat|done|lia|lia]. }
  cbv beta iota. fold aid.
  unfold peers_update at 1. rewrite Hp0. rewrite bind_ret.
  assert (E2 : (Z.of_nat (length peer) =? -1) = false)
    by (apply Z.eqb_neq; lia).
  assert (Heq : Z.of_nat (length peer) = Z.of_nat (length prefix)) by congruence.
  rewrite E2.
  apply at_off_app in Hat as [_ Hat].
  erewrite bind_eq; [|eapply load16_at; [exact Hat|lia|lia]].
  unfold peers_update. cbn [p_peers]. rewrite bind_ret.
  apply at_off_app in Hat as [_ Hat]. rewrite length_be_bytes in Hat.
  erewrite bind_eq; [|eapply load16_at; [exact Hat|lia|lia]].
  rewrite (u32_small (_ - 1 - 1 - 4 - _)) by lia.
  rewrite (u32_small (_ - 1 - 1 - 4 - _ - 2)) by lia.
  rewrite (u32_small (_ - 1 - 1 - 4 - _ - 2 - 2)) by lia.
  rewrite Zltb_false by lia.
  erewrite bind_eq.
  2:{ rewrite <- Hx. f_equal. rewrite Hb. lia. }
  cbv beta iota. cbn [Z.eqb]. reflexivity.
Qed.

Lemma mrt_parse_dump_decoded_witness :
  mrt_parse_dump dump_hdr dump_msg None w0 = Ret dump_out w0.
Proof.
  apply (mrt_parse_dump_decoded false dump_hdr dump_msg None pe_zero []
           0 7 (bytes_of [10; 0; 0; 0]) (byte.of_Z 24) (byte.of_Z 1) 9
           (bytes_of [192; 0; 2; 1]) 64512 dump_attrs [] w0 dump_entry w0).
  - reflexivity.
  - reflexivity.
  - vm_compute. reflexivity.
  - unfold dump_msg. by rewrite app_nil_r.
  - lia.
  - lia.
  - lia.
  - lia.
  - vm_compute. reflexivity.
  - reflexivity.
  - reflexivity.
  - reflexivity.
  - vm_compute. reflexivity.
Defined.

(** ** A read error *)

(** X23: when the first call of read(2) that is not interrupted fails,
    [mrt_parse] ends the process with err(1, "read") before it has called
    a callback, printed or allocated anything. *)
Theorem read_error_exits (k : nat) reads nlri p verbose w :
  w_reads w = replicate k RdEintr ++ RdError :: reads ->
  mrt_parse nlri p verbose w = Exit "read" w.
Proof.
  intros Hr. unfold mrt_parse. cbn [mrt_parse_loop].
  unfold bind at 1, mrt_read_msg. unfold bind at 1, mrt_read_buf.
  rewrite Hr. change (Z.to_nat 12) with 12%nat.
  assert (E : forall file got,
             read_loop (replicate k RdEintr ++ RdError :: reads) file 12 got
             = None).
  { clear Hr. intros file got. induction k as [|k IH]; [done|]. exact IH. }
  by rewrite E.
Qed.

Lemma read_error_exits_witness :
  mrt_parse spec_nlri dump_only true failing_world = Exit "read" failing_world.
Proof.
  apply (read_error_exits 1 [] spec_nlri dump_only true failing_world).
  reflexivity.
Defined.

(** ** A stream of BGP4MP records *)

Lemma mrt_read_msg_end w :
  reads_succeed (w_reads w) -> record_truncated (w_file w) ->
  exists file' reads', mrt_read_msg w = Ret None (at_file file' reads' w).
Proof.
  intros Hok Htr. unfold mrt_read_msg.
  destruct (mrt_read_buf_all 12 w Hok) as (reads1 & E1 & Hok1).
  step E1. change (Z.to_nat 12) with 12%nat.
  destruct (Z.of_nat (length (take 12 (w_file w))) =? 12) eqn:E; cbn [negb].
  2:{ unfold ret. by eexists _, _. }
  apply Z.eqb_eq in E. rewrite length_take in E.
  destruct Htr as [Htr|Htr]; [lia|].
  set (w1 := mk_world _ _ _ _ _) in *.
  destruct (mrt_read_buf_all (h_length (hdr_of_bytes (take 12 (w_file w)))) w1 Hok1)
    as (reads2 & E2 & Hok2).
  step E2.
  destruct (_ =? _) eqn:E3; cbn [negb].
  - apply Z.eqb_eq in E3. rewrite length_take in E3. unfold w1 in E3.
    cbn [w_file] in E3. rewrite length_drop in E3. lia.
  - unfold ret. by eexists _, _.
Qed.

Lemma rec_hdr_ok r : rec_ok r -> hdr_ok (rec_hdr r).
Proof.
  destruct r as [h body]. intros (Ht & _ & Hl & _).
  unfold hdr_ok, rec_hdr. cbn [fst snd h_timestamp h_type h_subtype h_length].
  split; [exact Ht|]. split; [by destruct (bh_et h)|].
  split; [|lia].
  destruct body as [old new rest|loc addpath body].
  - by destruct (bh_as4 h).
  - by destruct (bh_as4 h), loc, addpath.
Qed.

Lemma owned_next_fresh w : owned [] w -> next_fresh w.
Proof.
  intros (_ & _ & H). unfold next_fresh.
  destruct (w_heap w !! w_next w) eqn:E; [|done].
  assert (Hd : w_next w ∈ dom (w_heap w)) by (apply elem_of_dom; eauto).
  apply H in Hd. lia.
Qed.

Lemma mrt_dispatch_bgp4mp nlri p verbose r pctx w :
  rec_ok r -> next_fresh w ->
  mrt_dispatch nlri p verbose (rec_hdr r) (rec_msg r) pctx w
  = Ret pctx (rec_world p r w).
Proof.
  destruct r as [h body]. intros (Ht & Hok & Hl & Hb) Hf.
  unfold mrt_dispatch. cbv zeta.
  cbn [rec_hdr fst snd h_type h_subtype].
  replace ((if bh_et h then MSG_PROTOCOL_BGP4MP_ET else MSG_PROTOCOL_BGP4MP)
           =? MSG_TABLE_DUMP) with false by (by destruct (bh_et h)).
  replace ((if bh_et h then MSG_PROTOCOL_BGP4MP_ET else MSG_PROTOCOL_BGP4MP)
           =? MSG_TABLE_DUMP_V2) with false by (by destruct (bh_et h)).
  replace (((if bh_et h then MSG_PROTOCOL_BGP4MP_ET else MSG_PROTOCOL_BGP4MP)
            =? MSG_PROTOCOL_BGP4MP_ET)
           || ((if bh_et h then MSG_PROTOCOL_BGP4MP_ET else MSG_PROTOCOL_BGP4MP)
               =? MSG_PROTOCOL_BGP4MP)) with true by (by destruct (bh_et h)).
  destruct body as [old new rest|loc addpath body].
  - replace (((if bh_as4 h then BGP4MP_STATE_CHANGE_AS4 else BGP4MP_STATE_CHANGE)
              =? BGP4MP_STATE_CHANGE)
             || ((if bh_as4 h then BGP4MP_STATE_CHANGE_AS4
                  else BGP4MP_STATE_CHANGE) =? BGP4MP_STATE_CHANGE_AS4))
      with true by (by destruct (bh_as4 h)).
    cbn [snd] in Hb. destruct Hb as [Hold Hnew].
    erewrite bind_eq.
    2:{ apply (mrt_parse_state_wire (bh_et h) (bh_as4 h) (bh_v6 h) _ _
                 (bh_usec h) (bh_sas h) (bh_das h) (bh_ifx h) (rec_afi h)
                 (bh_src h) (bh_dst h) old new rest);
        [exact Hok|exact Hold|exact Hnew|reflexivity|reflexivity|reflexivity
        |exact Hl|reflexivity]. }
    unfold rec_world. cbn [snd fst stream_events h_timestamp].
    rewrite app_nil_r. fold (rec_nsec h). fold (rec_aid h).
    fold (rec_state h old new).
    destruct (mp_state p).
    + reflexivity.
    + rewrite app_nil_r. by destruct w.
  - replace ((bgp4mp_message_subtype (bh_as4 h) loc addpath
              =? BGP4MP_STATE_CHANGE)
             || (bgp4mp_message_subtype (bh_as4 h) loc addpath
                 =? BGP4MP_STATE_CHANGE_AS4))
      with false by (by destruct (bh_as4 h), loc, addpath).
    replace (bool_decide (bgp4mp_message_subtype (bh_as4 h) loc addpath ∈ _))
      with true by (by destruct (bh_as4 h), loc, addpath).
    pose proof (mrt_parse_msg_wire (bh_et h) (bh_as4 h) (bh_v6 h) loc addpath
                  (rec_hdr (h, BodyMessage loc addpath body))
                  (rec_msg (h, BodyMessage loc addpath body))
                  (bh_usec h) (bh_sas h) (bh_das h) (bh_ifx h) (rec_afi h)
                  (bh_src h) (bh_dst h) body verbose w Hok eq_refl eq_refl
                  eq_refl Hl eq_refl) as E.
    cbv zeta in E. cbn [rec_hdr fst snd h_timestamp] in E.
    fold (rec_nsec h) in E. fold (rec_aid h) in E.
    unfold rec_world. cbn [snd fst stream_events].
    destruct body as [|x body].
    + step E. cbn [m_msg length]. change (Z.of_nat 0) with 0.
      fold (rec_message h addpath 0 None). rewrite app_nil_r.
      destruct (mp_message p).
      * reflexivity.
      * rewrite app_nil_r. by destruct w.
    + step E. cbn [m_msg]. rewrite app_nil_r.
      fold (rec_message h addpath (Z.of_nat (length (x :: body)))
                        (Some (w_next w))).
      assert (Ed : delete (w_next w) (<[w_next w := x :: body]> (w_heap w))
                   = w_heap w) by (by apply delete_insert_id).
      destruct (mp_message p).
      * unfold bind, heap_now, emit, free, alloc_world, set_heap.
        cbn [w_heap w_next w_out w_file w_reads].
        rewrite lookup_insert_eq. unfold ret. f_equal. f_equal. exact Ed.
      * unfold bind, ret, free, alloc_world, set_heap.
        cbn [w_heap w_next w_out w_file w_reads].
        rewrite lookup_insert_eq, app_nil_r. f_equal. f_equal. exact Ed.
Qed.

Lemma stream_events_cons p heap next r recs :
  stream_events p heap next (r :: recs)
  = stream_events p heap next [r] ++
    stream_events p heap
      (match r.2 with
       | BodyMessage _ _ (_ :: _) => S next
       | _ => next
       end) recs.
Proof.
  destruct r as [h [old new rest|loc addpath [|x body]]];
    cbn [stream_events snd]; by rewrite app_nil_r.
Qed.

(** X24: when no read fails, on a file made of BGP4MP and BGP4MP_ET state
    changes and messages in wire form, which may end in a truncated record,
    [mrt_parse] returns, and what it did is one call for each record, in
    the order of the file: of the state callback, if set, with the decoded
    state, or of the message callback, if set, with the decoded message,
    whose buffer holds the BGP message at the time of the call; at the end
    the heap is as it was at the start. *)
Theorem bgp4mp_stream_delivered nlri p verbose recs tail w :
  reads_succeed (w_reads w) -> owned [] w ->
  Forall rec_ok recs ->
  w_file w = flat_map rec_wire recs ++ tail ->
  record_truncated tail ->
  exists w',
    mrt_parse nlri p verbose w = Ret tt w' /\
    w_out w' = w_out w ++ stream_events p (w_heap w) (w_next w) recs /\
    w_heap w' = w_heap w.
Proof.
  change (mrt_parse nlri p verbose)
    with (mrt_parse_from nlri p verbose None).
  revert tail w.
  induction recs as [|r recs IH]; intros tail w Hrd Hown Hok Hfile Htail.
  - cbn [flat_map app] in Hfile. rewrite <- Hfile in Htail.
    destruct (mrt_read_msg_end w Hrd Htail) as (file' & reads' & E).
    unfold mrt_parse_from. cbn [mrt_parse_loop]. step E.
    eexists. split; [reflexivity|]. cbn [stream_events at_file w_out w_heap].
    by rewrite app_nil_r.
  - apply Forall_cons in Hok as [Hr Hok].
    cbn [flat_map] in Hfile. rewrite <- app_assoc in Hfile.
    destruct (mrt_parse_from_record nlri p verbose None (rec_hdr r) (rec_msg r)
                _ w Hrd (rec_hdr_ok r Hr) eq_refl Hfile)
      as (reads' & Hrd' & E).
    rewrite E. clear E.
    set (w1 := at_file _ reads' w).
    assert (Hown1 : owned [] w1) by exact Hown.
    rewrite (bind_eq _ _ _ _ _
               (mrt_dispatch_bgp4mp nlri p verbose r None w1 Hr
                  (owned_next_fresh w1 Hown1))).
    destruct (IH tail (rec_world p r w1)) as (w' & E & Hout & Hheap).
    + exact Hrd'.
    + destruct Hown as (Hnd & Hin & Hlt). split; [exact Hnd|].
      split; [exact Hin|]. intros q Hq.
      unfold rec_world, w1 in *. cbn [w_heap w_next at_file] in *.
      apply Hlt in Hq. destruct r as [h [?|? ? [|? ?]]]; cbn [snd]; lia.
    + exact Hok.
    + reflexivity.
    + exact Htail.
    + exists w'. split; [exact E|]. split; [|exact Hheap].
      rewrite Hout. unfold rec_world, w1.
      cbn [w_out w_heap w_next at_file].
      by rewrite (stream_events_cons _ _ _ r recs), app_assoc.
Qed.

Lemma owned_world_of file reads : owned [] (world_of file reads).
Proof.
  split; [constructor|]. split.
  - intros q Hq. by apply elem_of_nil in Hq.
  - intros q Hq. cbn in Hq. by apply elem_of_empty in Hq.
Qed.

Lemma bgp4mp_stream_delivered_witness :
  exists w',
    mrt_parse spec_nlri updates_parser false stream_world = Ret tt w' /\
    w_out w'
    = w_out stream_world ++
      stream_events updates_parser (w_heap stream_world) (w_next stream_world)
                    stream_recs /\
    w_heap w' = w_heap stream_world.
Proof.
  apply (bgp4mp_stream_delivered spec_nlri updates_parser false stream_recs
           (bytes_of [0; 0; 0]) stream_world).
  - constructor.
  - apply owned_world_of.
  - repeat constructor; try (vm_compute; congruence).
  - reflexivity.
  - left. simpl. lia.
Defined.

(** ** A BGP4MP_ENTRY record in wire form *)

Lemma mrt_extract_prefix_at (v6 : bool) nlri buf off off' len ibuf
    prefix plen used verbose w :
  at_off buf off ibuf -> off' = off -> len = Z.of_nat (length ibuf) ->
  (if v6 then nlri_get_prefix6 nlri else nlri_get_prefix nlri) ibuf
  = Some (prefix, plen, used) ->
  mrt_extract_prefix nlri buf off' len (if v6 then AID_INET6 else AID_INET)
                     verbose w
  = Ret (used, prefix, plen) w.
Proof.
  intros Hat -> -> H. unfold mrt_extract_prefix.
  erewrite bind_eq.
  2:{ eapply (load_at buf off off ibuf []); [by rewrite app_nil_r|done|done]. }
  destruct v6; by rewrite H.
Qed.



(** ** The callbacks get live buffers *)

Lemma keeps_after {A} R (m : M A) : keeps R m <-> forall w, after (m w) (R w).
Proof. unfold keeps, after. split; intros H w; specialize (H w); by destruct (m w). Qed.

Lemma after_weaken {A} (o : outcome A) (P Q : world -> Prop) :
  after o P -> (forall w, P w -> Q w) -> after o Q.
Proof. destruct o; cbn; auto. Qed.

Lemma after_bind {A B} (m : M A) (k : A -> M B) w (P : world -> Prop) :
  after (m w) (fun w1 => forall a, m w = Ret a w1 -> after (k a w1) P) ->
  after (m w) P ->
  after (bind m k w) P.
Proof. unfold bind. destruct (m w) as [a w1| | |]; cbn; auto. Qed.

Lemma live_step_refl w : live_step w w.
Proof. intros H. split; [done|]. exists []. by rewrite app_nil_r. Qed.

Lemma live_step_trans w1 w2 w3 :
  live_step w1 w2 -> live_step w2 w3 -> live_step w1 w3.
Proof.
  intros H1 H2 Ho. destruct (H1 Ho) as (Ho2 & e1 & E1 & F1).
  destruct (H2 Ho2) as (Ho3 & e2 & E2 & F2). split; [done|].
  exists (e1 ++ e2). split; [by rewrite E2, E1, app_assoc|].
  by apply Forall_app.
Qed.

Lemma live_step_quiet w w' :
  (forall q, q ∈ dom (w_heap w') ->
             q ∈ dom (w_heap w) \/ (w_next w <= q < w_next w')%nat) ->
  (w_next w <= w_next w')%nat ->
  w_out w' = w_out w ->
  live_step w w'.
Proof.
  intros Hd Hn Ho (Hnd & _ & Hlt). split.
  - split; [done|]. split; [intros q Hq; by apply elem_of_nil in Hq|].
    intros q Hq. destruct (Hd q Hq) as [H|H]; [apply Hlt in H|]; lia.
  - exists []. by rewrite app_nil_r.
Qed.

Lemma live_malloc n : keeps live_step (malloc n).
Proof.
  intros w. cbn. apply live_step_quiet; cbn; [|lia|done].
  intros q Hq. apply elem_of_dom in Hq.
  destruct (decide (q = w_next w)) as [->|Hne]; [right; lia|].
  rewrite lookup_insert_ne in Hq by done. left. by apply elem_of_dom.
Qed.

Lemma live_free q : keeps live_step (free q).
Proof.
  intros w. unfold free. destruct q as [q|]; [|apply live_step_refl].
  destruct (w_heap w !! q) eqn:E; [|apply live_step_refl].
  apply live_step_quiet; cbn; [|lia|done].
  intros q' Hq. left. rewrite dom_delete in Hq. set_solver.
Qed.

Lemma live_memcpy_to q src : keeps live_step (memcpy_to q src).
Proof.
  intros w. unfold memcpy_to.
  destruct (w_heap w !! q) eqn:E; [|apply live_step_refl].
  destruct (_ <=? _)%nat; [|apply live_step_refl].
  apply live_step_quiet; cbn; [|lia|done].
  intros q' Hq. left. rewrite dom_insert in Hq.
  apply elem_of_union in Hq as [Hq|Hq]; [|done].
  apply elem_of_singleton in Hq as ->. apply elem_of_dom. eauto.
Qed.

Lemma live_poke q i b : keeps live_step (poke q i b).
Proof.
  intros w. unfold poke.
  destruct (w_heap w !! q) eqn:E; [|apply live_step_refl].
  destruct (_ && _); [|apply live_step_refl].
  apply live_step_quiet; cbn; [|lia|done].
  intros q' Hq. left. rewrite dom_insert in Hq.
  apply elem_of_union in Hq as [Hq|Hq]; [|done].
  apply elem_of_singleton in Hq as ->. apply elem_of_dom. eauto.
Qed.

Lemma live_emit e : event_live e -> keeps live_step (emit e).
Proof.
  intros He w Ho. split; [exact Ho|]. exists [e]. split; [done|].
  by constructor.
Qed.

Lemma live_print verbose e :
  event_allowed (mk_parser false false false) verbose e = true ->
  keeps live_step (emit e).
Proof. intros H. apply live_emit. by destruct e. Qed.

Lemma live_read len : keeps live_step (mrt_read_buf len).
Proof.
  intros w. unfold mrt_read_buf.
  destruct (read_loop _ _ _ _) as [[[got file] reads]|];
    [|apply live_step_refl].
  apply live_step_quiet; cbn; [auto|lia|done].
Qed.

Lemma after_bind_live {A B} (m : M A) (k : A -> M B) w :
  after (m w) (live_step w) ->
  (forall a w1, m w = Ret a w1 -> owned [] w -> owned [] w1 ->
                after (k a w1) (live_step w1)) ->
  after (bind m k w) (live_step w).
Proof.
  intros H1 H2. unfold bind.
  destruct (m w) as [a w1|s w1|s w1|] eqn:E; cbn in H1 |- *; try done.
  destruct (k a w1) as [b w2|s w2|s w2|] eqn:Ek; cbn; try done;
    intros Ho; destruct (H1 Ho) as (Ho1 & _);
    specialize (H2 a w1 eq_refl Ho Ho1); rewrite Ek in H2; cbn in H2;
    exact (live_step_trans w w1 w2 H1 H2 Ho).
Qed.

Lemma live_ret {A} (a : A) : keeps live_step (ret a).
Proof. apply keeps_ret, live_step_refl. Qed.

Lemma live_bind {A B} (m : M A) (k : A -> M B) :
  keeps live_step m -> (forall a, keeps live_step (k a)) ->
  keeps live_step (bind m k).
Proof. apply keeps_bind, live_step_trans. Qed.

Lemma live_printf verbose fmt args : keeps live_step (printf verbose fmt args).
Proof.
  unfold printf. destruct verbose; [|apply live_ret]. by apply live_emit.
Qed.

Lemma live_mrt_free_rib r : keeps live_step (mrt_free_rib r).
Proof.
  apply keeps_mrt_free_rib;
    [apply live_step_refl|apply live_step_trans|apply live_free].
Qed.

Lemma owned_rib_live entries r w :
  r_entries r = Some entries ->
  Z.to_nat (r_nentries r) = length entries ->
  Forall re_attrs_ok entries ->
  owned (flat_map entry_ptrs entries) w ->
  rib_live r (w_heap w).
Proof.
  intros He Hn Hok (Hnd & Hin & _). exists entries. by repeat split.
Qed.

Lemma live_deliver_rib p rib pctx w :
  rib_live rib (w_heap w) -> after (deliver_rib p rib pctx w) (live_step w).
Proof.
  intros Hl. unfold deliver_rib. apply after_bind_live.
  - destruct (mp_dump p); [|apply live_step_refl].
    cbn. by apply (live_emit (EvDump rib pctx (w_heap w))).
  - intros _ w1 _ _ _. apply keeps_after, live_mrt_free_rib.
Qed.

Lemma live_rib_branch p (rib : option mrt_rib) (pctx : option mrt_peer) w :
  match rib with Some r => rib_live r (w_heap w) | None => True end ->
  after (match rib with
         | Some rib => let* _ := deliver_rib p rib pctx in ret pctx
         | None => ret pctx
         end w) (live_step w).
Proof.
  intros Hl. destruct rib as [rib|]; [|apply live_step_refl].
  apply after_bind_live; [by apply live_deliver_rib|].
  intros _ w1 _ _ _. apply live_step_refl.
Qed.

Lemma live_v2_rib nlri p verbose h msg (pctx : option mrt_peer) :
  keeps live_step
    (let* r := mrt_parse_v2_rib nlri h msg verbose in
     match r with
     | Some rib => let* _ := deliver_rib p rib pctx in ret pctx
     | None => ret pctx
     end).
Proof.
  apply keeps_after. intros w. apply after_bind_live.
  - apply keeps_after.
    apply (keeps_mrt_parse_v2_rib live_step (mk_parser false false false)
             verbose live_step_refl live_step_trans live_malloc live_free
             live_memcpy_to live_poke (live_print verbose)).
  - intros r w1 E Ho Ho1. apply live_rib_branch.
    destruct r as [r|]; [|done].
    destruct (mrt_parse_v2_rib_owned [] _ _ _ _ _ _ _ Ho E)
      as (entries & He & Hn & Hok & Hown).
    by eapply owned_rib_live.
Qed.

Lemma live_legacy nlri p verbose h msg pctx
    (m : M (Z * option mrt_peer * option mrt_rib)) :
  m = mrt_parse_dump h msg pctx \/
  m = mrt_parse_dump_mp nlri h msg pctx verbose ->
  keeps live_step
    (let* (r, pctx, rib) := m in
     match rib with
     | Some rib => let* _ := deliver_rib p rib pctx in ret pctx
     | None => ret pctx
     end).
Proof.
  intros Hm. apply keeps_after. intros w. apply after_bind_live.
  - apply keeps_after. destruct Hm as [->| ->].
    + apply (keeps_mrt_parse_dump live_step live_step_refl live_step_trans
               live_malloc live_free live_memcpy_to live_poke).
    + apply (keeps_mrt_parse_dump_mp live_step (mk_parser false false false)
               verbose live_step_refl live_step_trans live_malloc live_free
               live_memcpy_to live_poke (live_print verbose)).
  - intros [[x pctx'] rib] w1 E Ho Ho1. apply live_rib_branch.
    destruct rib as [r|]; [|done].
    destruct (legacy_rib_owned nlri h msg pctx verbose w x pctx' r w1 Ho)
      as (re & He & Hn & Hok & Hown).
    { destruct Hm as [->| ->]; [by left|by right]. }
    apply (owned_rib_live [re]); [done|by rewrite Hn|by constructor|].
    cbn [flat_map]. by rewrite app_nil_r.
Qed.

Lemma live_state p verbose h msg (pctx : option mrt_peer) :
  keeps live_step
    (let* s := mrt_parse_state h msg verbose in
     match s with
     | Some s =>
         let* _ := (if mp_state p then emit (EvState s) else ret tt) in
         ret pctx
     | None => ret pctx
     end).
Proof.
  apply live_bind.
  - apply (keeps_mrt_parse_state live_step (mk_parser false false false)
             verbose live_step_refl live_step_trans (live_print verbose)).
  - intros [s|]; [|apply live_ret]. apply live_bind; [|intros; apply live_ret].
    destruct (mp_state p); [by apply live_emit|apply live_ret].
Qed.

Lemma live_message p verbose h msg (pctx : option mrt_peer) :
  keeps live_step
    (let* m := mrt_parse_msg h msg verbose in
     match m with
     | Some m =>
         let* _ := (if mp_message p
                    then let* hp := heap_now in emit (EvMessage m hp)
                    else ret tt) in
         let* _ := free (m_msg m) in
         ret pctx
     | None => ret pctx
     end).
Proof.
  apply keeps_after. intros w. apply after_bind_live.
  - apply keeps_after.
    apply (keeps_mrt_parse_msg live_step (mk_parser false false false)
             verbose live_step_refl live_step_trans live_malloc
             live_memcpy_to (live_print verbose)).
  - intros [m|] w1 E Ho Ho1; [|apply live_step_refl].
    pose proof (mrt_parse_msg_fresh h msg verbose w (Some m) w1
                  (owned_next_fresh w Ho) E) as [Hm _].
    assert (Hl : msg_live m (w_heap w1)).
    { unfold msg_live. destruct Hm as [->|[-> Hm]]; done. }
    apply after_bind_live.
    + destruct (mp_message p); [|apply live_step_refl].
      cbn. by apply (live_emit (EvMessage m (w_heap w1))).
    + intros _ w2 _ _ _. apply keeps_after.
      apply live_bind; [apply live_free|intros; apply live_ret].
Qed.

Lemma live_peer_index h msg (pctx : option mrt_peer) :
  keeps live_step
    (let* _ := (match pctx with
                | Some c => mrt_free_peers c
                | None => ret tt
                end) in
     mrt_parse_v2_peer h msg).
Proof.
  apply live_bind.
  - destruct pctx; [|apply live_ret].
    apply keeps_mrt_free_peers, live_free.
  - intros _.
    apply (keeps_mrt_parse_v2_peer live_step live_step_refl live_step_trans
             live_malloc live_free live_memcpy_to live_poke).
Qed.

Lemma live_skip verbose fmt n (pctx : option mrt_peer) :
  keeps live_step (let* _ := printf verbose fmt [n] in ret pctx).
Proof. apply live_bind; [apply live_printf|intros; apply live_ret]. Qed.

Lemma live_mrt_dispatch nlri p verbose h msg pctx :
  keeps live_step (mrt_dispatch nlri p verbose h msg pctx).
Proof.
  unfold mrt_dispatch. cbv zeta.
  repeat match goal with
         | |- keeps _ (if ?b then _ else _) => destruct b
         end;
    first [apply live_ret | apply live_skip | apply live_v2_rib
          | apply live_state | apply live_message | apply live_peer_index
          | apply (live_legacy nlri p verbose h msg pctx
                     (mrt_parse_dump h msg pctx)); by left
          | apply (live_legacy nlri p verbose h msg pctx
                     (mrt_parse_dump_mp nlri h msg pctx verbose)); by right].
Qed.

Lemma live_mrt_parse_loop nlri p verbose fuel : forall pctx,
  keeps live_step (mrt_parse_loop fuel nlri p verbose pctx).
Proof.
  induction fuel as [|fuel IH]; intros pctx; cbn [mrt_parse_loop].
  - intros w. exact I.
  - apply live_bind.
    + apply (keeps_mrt_read_msg live_step live_step_refl live_step_trans
               live_read).
    + intros [[h msg]|].
      * apply live_bind; [apply live_mrt_dispatch|intros; apply IH].
      * destruct pctx; [|apply live_ret].
        apply keeps_mrt_free_peers, live_free.
Qed.

(** X26: whatever the file holds and whatever read(2) does, on a heap whose
    buffers all lie below the pointer that malloc returns next, [mrt_parse]
    ends, and every call of the dump callback gets a RIB that has
    [nentries] entries, each with [nattrs] attributes, whose attribute and
    AS path buffers are allocated and are all different, and every call of
    the message callback gets a message whose buffer, if it has one, is
    allocated and holds [msg_len] bytes. *)
Theorem callbacks_get_live_buffers nlri p verbose w :
  owned [] w ->
  exists w' evs,
    final_world (mrt_parse nlri p verbose w) = Some w' /\
    w_out w' = w_out w ++ evs /\ Forall event_live evs.
Proof.
  intros Ho.
  pose proof (live_mrt_parse_loop nlri p verbose (S (length (w_file w))) None w)
    as H.
  pose proof (mrt_parse_ends nlri p verbose w) as He.
  unfold mrt_parse in *.
  destruct (mrt_parse_loop _ _ _ _ _ _) as [a w'|s w'|s w'|]; try done;
    destruct (H Ho) as (_ & evs & E & F); by exists w', evs.
Qed.

Lemma callbacks_get_live_buffers_witness :
  exists w' evs,
    final_world (mrt_parse spec_nlri dump_only false rib_file_world) = Some w' /\
    w_out w' = w_out rib_file_world ++ evs /\ Forall event_live evs.
Proof.
  apply (callbacks_get_live_buffers spec_nlri dump_only false rib_file_world).
  apply owned_world_of.
Defined.

(** ** A block of well-formed attributes *)

Lemma length_attr_val_enc x : 3 <= Z.of_nat (length (attr_val_enc x)).
Proof. apply length_tlv_enc. Qed.

Lemma attr_body_val buf aid as4 re a alen w x :
  attr_val_wf aid as4 x -> re_attrs_ok re ->
  (is_other x = true -> Z.of_nat (length (re_attrs re)) < 254) ->
  at_off buf a (attr_val_enc x) ->
  Z.of_nat (length (attr_val_enc x)) <= alen ->
  attr_body buf aid as4 re a alen w
  = Ret (AttrNext (attr_val_effect aid (re, w) x).1
                  (a + Z.of_nat (length (attr_val_enc x)))
                  (alen - Z.of_nat (length (attr_val_enc x))))
        (attr_val_effect aid (re, w) x).2.
Proof.
  destruct x as [flags v]. intros [Hok Hwf] Hre Hcap Hat Hlen.
  unfold attr_val_enc, tlv_enc, attr_val_effect in *.
  destruct v as [o|payload|segs|nh|v|v|pre nhlen rd nh rest|type payload];
    cbn [attr_val_tlv fst snd is_other] in *.
  8:{ apply (attr_body_unknown buf aid as4 re a alen w (flags, type, payload));
        [by split|done|by apply Hcap|done|done]. }
  7:{ destruct Hwf as [Hform Hsz].
      by apply attr_body_mp_reach_wire. }
  all: pose proof Hat as Hat'; unfold attr_tlv in Hat';
    apply at_off_app in Hat' as [Hh Hp].
  all: unfold attr_tlv in Hlen |- *; rewrite length_app in Hlen |- *.
  all: rewrite (attr_body_at buf aid as4 re a alen w _ _ _ Hh Hok) by lia.
  all: set (hl := Z.of_nat (length (attr_hdr _ _ _))) in *.
  - change (byte.unsigned (byte.of_Z MRT_ATTR_ORIGIN)) with 1. switch_goal.
    change (Z.of_nat (length [o])) with 1. cbn [Z.eqb Pos.eqb negb].
    rewrite (bind_eq _ _ _ _ _ (load8_at_off _ _ _ _ w Hp)).
    unfold ret. f_equal.
    f_equal; subst hl; rewrite !length_attr_hdr; destruct (extlen flags);
      cbn [length]; lia.
  - change (byte.unsigned (byte.of_Z MRT_ATTR_ASPATH)) with 2. switch_goal.
    rewrite Hwf.
    rewrite (malloc_memcpy buf _ payload) by done.
    unfold ret. f_equal. f_equal; subst hl; lia.
  - change (byte.unsigned (byte.of_Z MRT_ATTR_ASPATH)) with 2. switch_goal.
    destruct Hwf as (-> & Hsegs & Hsz). unfold aspath_deflate in *.
    assert (H2 : Z.of_nat (length (aspath_enc 2 segs)) <= 65535).
    { destruct Hok as [_ Hok]. destruct (extlen flags); lia. }
    erewrite bind_eq; [|by apply mrt_aspath_inflate_enc].
    unfold ret. f_equal. f_equal; subst hl; lia.
  - change (byte.unsigned (byte.of_Z MRT_ATTR_NEXTHOP)) with 3. switch_goal.
    assert (E : (Z.of_nat (length nh) =? 4) = true)
      by (apply Z.eqb_eq; lia).
    rewrite E. cbn [negb].
    destruct (bool_decide (aid = AID_INET)); cbn [negb].
    + erewrite bind_eq; [|apply load_at_off; [exact Hp|lia]].
      unfold ret. f_equal. f_equal; subst hl; lia.
    + unfold ret. f_equal. f_equal; subst hl; lia.
  - change (byte.unsigned (byte.of_Z MRT_ATTR_MED)) with 4. switch_goal.
    assert (E : (Z.of_nat (length (be_bytes 4 v)) =? 4) = true)
      by (by rewrite length_be_bytes).
    rewrite E. cbn [negb].
    erewrite bind_eq;
      [|apply (load32_at_off _ _ []); [by rewrite app_nil_r|done]].
    unfold ret. f_equal. f_equal; subst hl; lia.
  - change (byte.unsigned (byte.of_Z MRT_ATTR_LOCALPREF)) with 5. switch_goal.
    assert (E : (Z.of_nat (length (be_bytes 4 v)) =? 4) = true)
      by (by rewrite length_be_bytes).
    rewrite E. cbn [negb].
    erewrite bind_eq;
      [|apply (load32_at_off _ _ []); [by rewrite app_nil_r|done]].
    unfold ret. f_equal. f_equal; subst hl; lia.
Qed.

Lemma count_other_cons x attrs :
  count_other (x :: attrs)
  = (if is_other x then 1 else 0) + count_other attrs.
Proof.
  unfold count_other. cbn [List.filter].
  destruct (is_other x); cbn [length]; lia.
Qed.

Lemma count_other_nonneg attrs : 0 <= count_other attrs.
Proof. unfold count_other. lia. Qed.

Lemma attr_val_effect_attrs aid re w x :
  re_attrs_ok re ->
  (is_other x = true -> Z.of_nat (length (re_attrs re)) < 254) ->
  re_attrs_ok (attr_val_effect aid (re, w) x).1 /\
  Z.of_nat (length (re_attrs (attr_val_effect aid (re, w) x).1))
  = Z.of_nat (length (re_attrs re)) + (if is_other x then 1 else 0).
Proof.
  intros [Hc Hle] Hcap. destruct x as [flags v]. unfold attr_val_effect, is_other.
  destruct v; cbn [fst snd] in *;
    try match goal with
        | |- context [bool_decide ?P] => destruct (bool_decide P)
        end;
    unfold re_attrs_ok;
    cbn [re_attrs re_nattrs re_set_origin re_set_aspath re_set_aspath_len
         re_set_nexthop re_set_med re_set_local_pref re_set_attrs];
    try (repeat split; lia).
  specialize (Hcap eq_refl). rewrite length_app. cbn [length].
  repeat split; lia.
Qed.

Lemma mrt_extract_attr_vals attrs buf re a aid as4 w :
  attrs <> [] ->
  Forall (attr_val_wf aid as4) attrs ->
  re_attrs_ok re ->
  Z.of_nat (length (re_attrs re)) + count_other attrs <= 254 ->
  at_off buf a (flat_map attr_val_enc attrs) ->
  mrt_extract_attr buf re a
    (Z.of_nat (length (flat_map attr_val_enc attrs))) aid as4 w
  = Ret (0, (attr_vals_effect aid (re, w) attrs).1)
        (attr_vals_effect aid (re, w) attrs).2.
Proof.
  revert buf re a w.
  induction attrs as [|x attrs IH]; intros buf re a w Hne Hall Hok Hcap Hat;
    [done|].
  apply Forall_cons in Hall as [Hx Hall].
  rewrite count_other_cons in Hcap. pose proof (count_other_nonneg attrs) as H0.
  cbn [flat_map] in *. apply at_off_app in Hat as [Hat1 Hat2].
  rewrite length_app, Nat2Z.inj_add.
  rewrite mrt_extract_attr_unfold.
  assert (Hc : is_other x = true -> Z.of_nat (length (re_attrs re)) < 254).
  { intros E. rewrite E in Hcap. lia. }
  rewrite (attr_body_val buf aid as4 re a _ w x Hx Hok Hc Hat1) by lia.
  destruct (attr_val_effect_attrs aid re w x Hok Hc) as [Hok' Hlen'].
  replace (Z.of_nat (length (attr_val_enc x))
           + Z.of_nat (length (flat_map attr_val_enc attrs))
           - Z.of_nat (length (attr_val_enc x)))
    with (Z.of_nat (length (flat_map attr_val_enc attrs))) by lia.
  unfold attr_vals_effect. cbn [fold_left].
  destruct (attr_val_effect aid (re, w) x) as [re' w'] eqn:E.
  cbn [fst snd] in *.
  destruct attrs as [|x2 attrs]; [reflexivity|].
  rewrite Zgtb_true.
  2:{ cbn [flat_map]. rewrite length_app.
      pose proof (length_attr_val_enc x2). lia. }
  apply IH; try done. lia.
Qed.

(** X27: a block that is made of one or more well-formed attributes (origin, AS
    path in the form of the AS numbers of the record, IPv4 next hop, MED,
    local preference, MP_REACH_NLRI with a next hop of the family of the
    record, and attributes of types that the switch does not handle, of
    which the entry gets at most 254) is decoded by [mrt_extract_attr]
    with the result 0; the entry and the heap are what the attributes make
    of them one after the other, in the order of the block: a field is set
    from the payload, the AS path is stored with 4-byte AS numbers in a
    fresh buffer, an attribute of another type is copied whole into a
    fresh buffer and appended to the array. *)
Theorem attr_block_decoded attrs buf re a aid as4 w :
  attrs <> [] ->
  Forall (attr_val_wf aid as4) attrs ->
  re_attrs_ok re ->
  Z.of_nat (length (re_attrs re)) + count_other attrs <= 254 ->
  at_off buf a (flat_map attr_val_enc attrs) ->
  mrt_extract_attr buf re a
    (Z.of_nat (length (flat_map attr_val_enc attrs))) aid as4 w
  = Ret (0, (attr_vals_effect aid (re, w) attrs).1)
        (attr_vals_effect aid (re, w) attrs).2.
Proof. apply mrt_extract_attr_vals. Qed.

Lemma attr_block_decoded_witness :
  mrt_extract_attr route_block re_zero 0 (Z.of_nat (length route_block))
                   AID_INET true w0
  = Ret (0, (attr_vals_effect AID_INET (re_zero, w0) route_attrs).1)
        (attr_vals_effect AID_INET (re_zero, w0) route_attrs).2.
Proof.
  apply (attr_block_decoded route_attrs route_block re_zero 0 AID_INET true w0).
  - discriminate.
  - repeat constructor; try (vm_compute; congruence).
  - apply re_zero_attrs_ok.
  - vm_compute. discriminate.
  - apply at_off_whole.
Defined.

(** ** A TABLE_DUMP_V2 RIB record in wire form *)

Lemma length_rv_enc ap e :
  Z.of_nat (length (rv_enc ap e))
  = 8 + (if ap then 4 else 0) + Z.of_nat (length (rv_block e)).
Proof.
  unfold rv_enc, rib_entry_hdr_wire.
  rewrite !length_app, !length_be_bytes.
  destruct ap; rewrite ?length_be_bytes; cbn [length]; lia.
Qed.

Lemma rv_block_min aid e : rv_wf aid e -> 3 <= Z.of_nat (length (rv_block e)).
Proof.
  intros (_ & _ & _ & Hne & _). unfold rv_block.
  destruct (rv_attrs e) as [|x l]; [done|]. cbn [flat_map].
  rewrite length_app. pose proof (length_attr_val_enc x). lia.
Qed.

Lemma v2_rib_entries_vals aid (ap : bool) es :
  forall msg b len pid0 entries rest w,
  Forall (rv_wf aid) es -> (ap = false -> pid0 = 0) ->
  at_off msg b (flat_map (rv_enc ap) es ++ rest) ->
  len = Z.of_nat (length (flat_map (rv_enc ap) es ++ rest)) -> len < 2 ^ 32 ->
  v2_rib_entries (length es) msg b len (if ap then 1 else 0) aid pid0 entries w
  = Ret (Some (entries ++ (rv_decode aid ap es w).1)) (rv_decode aid ap es w).2.
Proof.
  induction es as [|e es IH];
    intros msg b len pid0 entries rest w Hwf Hpid Hat Hlen Hmax.
  { cbn. by rewrite app_nil_r. }
  apply Forall_cons in Hwf as [He Hwf].
  pose proof (rv_block_min aid e He) as Hmin.
  destruct He as (Hpix & Hotm & Hp & Hne & Hattrs & Hcap & Hb16).
  cbn [flat_map] in Hat, Hlen. rewrite <- app_assoc in Hat, Hlen.
  set (tail := flat_map (rv_enc ap) es ++ rest) in *.
  assert (Hl : len = 8 + (if ap then 4 else 0) + Z.of_nat (length (rv_block e))
                     + Z.of_nat (length tail)).
  { rewrite Hlen, length_app, Nat2Z.inj_add, length_rv_enc. lia. }
  clear Hlen.
  assert (Hap : 0 <= (if ap then 4 else 0) <= 4) by (destruct ap; lia).
  unfold rv_enc, rib_entry_hdr_wire in Hat. rewrite <- !app_assoc in Hat.
  cbn [length v2_rib_entries rv_decode].
  rewrite Zltb_false by (destruct ap; lia).
  erewrite bind_eq; [|eapply load16_at; [exact Hat|lia|lia]].
  apply at_off_app in Hat as [_ Hat]. rewrite length_be_bytes in Hat.
  erewrite bind_eq; [|eapply load32_at; [exact Hat|lia|lia]].
  apply at_off_app in Hat as [_ Hat]. rewrite length_be_bytes in Hat.
  cbv zeta. rewrite (u32_small (len - 2 - 4)) by (destruct ap; lia).
  (* the attributes, behind the path id if there is one *)
  assert (A : forall b' len' pid,
             at_off msg b' (be_bytes 2 (Z.of_nat (length (rv_block e))) ++
                            rv_block e ++ tail) ->
             len' = 2 + Z.of_nat (length (rv_block e))
                    + Z.of_nat (length tail) ->
             pid = (if ap then rv_path_id e else 0) ->
             (let* alen := load16 msg b' in
              if u32 (len' - 2) <? alen then ret None
              else
                let* (r, re) :=
                  mrt_extract_attr msg
                    (re_set_entry_hdr (rv_peer_idx e) (rv_originated e) pid
                                      re_zero)
                    (b' + 2) alen aid true in
                if r =? -1 then ret None
                else v2_rib_entries (length es) msg (b' + 2 + alen)
                       (u32 (u32 (len' - 2) - alen)) (if ap then 1 else 0)
                       aid pid (entries ++ [re])) w
             = Ret (Some (entries ++
                          (attr_vals_effect aid
                             (re_set_entry_hdr (rv_peer_idx e) (rv_originated e)
                                (if ap then rv_path_id e else 0) re_zero, w)
                             (rv_attrs e)).1 ::
                          (rv_decode aid ap es
                             (attr_vals_effect aid
                                (re_set_entry_hdr (rv_peer_idx e)
                                   (rv_originated e)
                                   (if ap then rv_path_id e else 0) re_zero, w)
                                (rv_attrs e)).2).1))
                   (rv_decode aid ap es
                      (attr_vals_effect aid
                         (re_set_entry_hdr (rv_peer_idx e) (rv_originated e)
                            (if ap then rv_path_id e else 0) re_zero, w)
                         (rv_attrs e)).2).2).
  { intros b' len' pid Hat' -> ->.
    erewrite bind_eq; [|eapply load16_at; [exact Hat'|lia|lia]].
    apply at_off_app in Hat' as [_ Hat']. rewrite length_be_bytes in Hat'.
    rewrite (u32_small (2 + _ + _ - 2)) by lia.
    rewrite Zltb_false by lia.
    pose proof Hat' as Hblock. apply at_off_app in Hblock as [Hblock Htail].
    erewrite bind_eq.
    2:{ by apply mrt_extract_attr_vals. }
    cbv beta iota. cbn [Z.eqb].
    rewrite u32_small by lia.
    assert (Htail' : at_off msg (b' + 2 + Z.of_nat (length (rv_block e)))
                       (flat_map (rv_enc ap) es ++ rest)).
    { eapply (at_off_shift _ _ [] _ _ Htail). cbn [length].
      change (Z.of_nat 2) with 2. lia. }
    assert (Hpid' : ap = false -> (if ap then rv_path_id e else 0) = 0)
      by (by intros ->).
    rewrite (IH msg _ _ _ _ rest _ Hwf Hpid' Htail') by (fold tail; lia).
    by rewrite <- app_assoc. }
  destruct ap; cbn [negb Z.eqb].
  - rewrite Zltb_false by lia.
    erewrite bind_eq; [|eapply load32_at; [exact Hat|lia|lia]].
    apply at_off_app in Hat as [_ Hat]. rewrite length_be_bytes in Hat.
    rewrite (u32_small (len - 2 - 4 - 4)) by lia.
    apply A; [|lia|done].
    eapply (at_off_shift _ _ [] _ _ Hat). cbn [length].
    change (Z.of_nat 2) with 2. change (Z.of_nat 4) with 4. lia.
  - cbn [app] in Hat. rewrite (Hpid eq_refl).
    apply A; [|lia|done].
    eapply (at_off_shift _ _ [] _ _ Hat). cbn [length].
    change (Z.of_nat 2) with 2. change (Z.of_nat 4) with 4. lia.
Qed.

Lemma rib_subtype_sets v6 mc ap :
  let st := rib_subtype v6 mc ap in
  bool_decide (st ∈ [MRT_DUMP_V2_RIB_IPV4_UNICAST_ADDPATH;
                     MRT_DUMP_V2_RIB_IPV4_MULTICAST_ADDPATH;
                     MRT_DUMP_V2_RIB_IPV6_UNICAST_ADDPATH;
                     MRT_DUMP_V2_RIB_IPV6_MULTICAST_ADDPATH;
                     MRT_DUMP_V2_RIB_GENERIC_ADDPATH]) = ap /\
  bool_decide (st ∈ [MRT_DUMP_V2_RIB_IPV4_UNICAST_ADDPATH;
                     MRT_DUMP_V2_RIB_IPV4_MULTICAST_ADDPATH;
                     MRT_DUMP_V2_RIB_IPV4_UNICAST;
                     MRT_DUMP_V2_RIB_IPV4_MULTICAST]) = negb v6 /\
  bool_decide (st ∈ [MRT_DUMP_V2_RIB_IPV6_UNICAST_ADDPATH;
                     MRT_DUMP_V2_RIB_IPV6_MULTICAST_ADDPATH;
                     MRT_DUMP_V2_RIB_IPV6_UNICAST;
                     MRT_DUMP_V2_RIB_IPV6_MULTICAST]) = v6.
Proof. destruct v6, mc, ap; vm_compute; auto. Qed.

Lemma mrt_parse_v2_rib_wire (v6 mc ap : bool) nlri hdr msg seq pfx es rest
    prefix plen verbose w :
  h_subtype hdr = rib_subtype v6 mc ap ->
  h_length hdr = Z.of_nat (length msg) -> Z.of_nat (length msg) < 2 ^ 32 ->
  msg = rib_record_wire ap seq pfx es ++ rest ->
  0 <= seq < 2 ^ 32 -> Z.of_nat (length es) < 2 ^ 16 ->
  Forall (rv_wf (ba_aid prefix)) es ->
  (if v6 then nlri_get_prefix6 nlri else nlri_get_prefix nlri)
    (pfx ++ be_bytes 2 (Z.of_nat (length es)) ++
     flat_map (rv_enc ap) es ++ rest)
  = Some (prefix, plen, Z.of_nat (length pfx)) ->
  mrt_parse_v2_rib nlri hdr msg verbose w
  = Ret (Some (mk_rib (Some (rv_decode (ba_aid prefix) ap es w).1) prefix seq
                      (Z.of_nat (length es)) plen (if ap then 1 else 0)))
        (rv_decode (ba_aid prefix) ap es w).2.
Proof.
  intros Hst Hlen Hmax Hmsg Hseq Hcnt Hwf Hpfx.
  assert (Hat : at_off msg 0 (rib_record_wire ap seq pfx es ++ rest)).
  { rewrite Hmsg. apply at_off_whole. }
  unfold rib_record_wire in Hat. rewrite <- !app_assoc in Hat.
  assert (Hn : Z.of_nat (length msg)
               = 4 + Z.of_nat (length pfx) + 2
                 + Z.of_nat (length (flat_map (rv_enc ap) es ++ rest))).
  { rewrite Hmsg. unfold rib_record_wire.
    rewrite !length_app, !length_be_bytes. lia. }
  destruct (rib_subtype_sets v6 mc ap) as (Sa & S4 & S6). cbv zeta in Sa, S4, S6.
  unfold mrt_parse_v2_rib. rewrite Hlen, Hst. cbv zeta.
  rewrite Sa, S4, S6.
  rewrite Zltb_false by lia.
  erewrite bind_eq; [|eapply load32_at; [exact Hat|lia|lia]].
  apply at_off_app in Hat as [_ Hat]. rewrite length_be_bytes in Hat.
  rewrite (u32_small (_ - 4)) by lia.
  assert (Ep : mrt_extract_prefix nlri msg 4 (Z.of_nat (length msg) - 4)
                 (if v6 then AID_INET6 else AID_INET) verbose w
               = Ret (Z.of_nat (length pfx), prefix, plen) w).
  { eapply (mrt_extract_prefix_at v6); [exact Hat|done| |exact Hpfx].
    rewrite !length_app, length_be_bytes. rewrite length_app in Hn. lia. }
  apply at_off_app in Hat as [_ Hat].
  assert (Erest :
    (if Z.of_nat (length pfx) =? -1 then ret None
     else
       if u32 (Z.of_nat (length msg) - 4 - Z.of_nat (length pfx)) <? 2
       then ret None
       else
         let* cnt := load16 msg (4 + Z.of_nat (length pfx)) in
         let* entries :=
           v2_rib_entries (Z.to_nat cnt) msg (4 + Z.of_nat (length pfx) + 2)
             (u32 (u32 (Z.of_nat (length msg) - 4 - Z.of_nat (length pfx)) - 2))
             (if ap then 1 else 0) (ba_aid prefix) 0 [] in
         match entries with
         | None => ret None
         | Some entries =>
             ret (Some (mk_rib (Some entries) prefix seq cnt plen
                               (if ap then 1 else 0)))
         end) w
    = Ret (Some (mk_rib (Some (rv_decode (ba_aid prefix) ap es w).1) prefix seq
                        (Z.of_nat (length es)) plen (if ap then 1 else 0)))
          (rv_decode (ba_aid prefix) ap es w).2).
  { replace (Z.of_nat (length pfx) =? -1) with false
      by (symmetry; apply Z.eqb_neq; lia).
    rewrite (u32_small (_ - 4 - _)) by lia.
    rewrite Zltb_false by lia.
    erewrite bind_eq; [|eapply load16_at; [exact Hat|lia|lia]].
    apply at_off_app in Hat as [_ Hat]. rewrite length_be_bytes in Hat.
    rewrite Nat2Z.id. rewrite u32_small by lia.
    erewrite bind_eq.
    2:{ apply (v2_rib_entries_vals (ba_aid prefix) ap es msg _ _ 0 [] rest w
                 Hwf ltac:(done)); [|lia|lia].
        eapply (at_off_shift _ _ [] _ _ Hat). cbn [length].
        change (Z.of_nat 4) with 4. change (Z.of_nat 2) with 2. lia. }
    reflexivity. }
  destruct v6; cbn [negb].
  - rewrite (bind_eq _ _ _ _ _ Ep). exact Erest.
  - rewrite (bind_eq _ _ _ _ _ Ep). exact Erest.
Qed.

(** X28: an IPv4 or IPv6, unicast or multicast RIB record of TABLE_DUMP_V2 in
    wire form, with or without ADD-PATH, whose prefix the NLRI decoder
    accepts and whose entries each have at least one attribute and only
    well-formed ones, is decoded by [mrt_parse_v2_rib] into the RIB with
    the sequence number, the prefix and the entry count of the record and
    one entry for each entry of the record, in the same order, with its
    peer index, its originated time, its path id (0 without ADD-PATH) and
    what its attributes make of a zeroed entry. *)
Theorem v2_rib_record_decoded (v6 mc ap : bool) nlri hdr msg seq pfx es rest
    prefix plen verbose w :
  h_subtype hdr = rib_subtype v6 mc ap ->
  h_length hdr = Z.of_nat (length msg) -> Z.of_nat (length msg) < 2 ^ 32 ->
  msg = rib_record_wire ap seq pfx es ++ rest ->
  0 <= seq < 2 ^ 32 -> Z.of_nat (length es) < 2 ^ 16 ->
  Forall (rv_wf (ba_aid prefix)) es ->
  (if v6 then nlri_get_prefix6 nlri else nlri_get_prefix nlri)
    (pfx ++ be_bytes 2 (Z.of_nat (length es)) ++
     flat_map (rv_enc ap) es ++ rest)
  = Some (prefix, plen, Z.of_nat (length pfx)) ->
  mrt_parse_v2_rib nlri hdr msg verbose w
  = Ret (Some (mk_rib (Some (rv_decode (ba_aid prefix) ap es w).1) prefix seq
                      (Z.of_nat (length es)) plen (if ap then 1 else 0)))
        (rv_decode (ba_aid prefix) ap es w).2.
Proof. apply mrt_parse_v2_rib_wire. Qed.

Lemma v2_rib_record_decoded_witness :
  mrt_parse_v2_rib spec_nlri route_hdr route_msg false w0
  = Ret (Some (mk_rib (Some (rv_decode AID_INET false route_entries w0).1)
                      route_prefix 7 1 24 0))
        (rv_decode AID_INET false route_entries w0).2.
Proof.
  apply (v2_rib_record_decoded false false false spec_nlri route_hdr route_msg
           7 (bytes_of [24; 10; 0; 0]) route_entries [] route_prefix 24 false
           w0).
  - reflexivity.
  - reflexivity.
  - vm_compute. reflexivity.
  - reflexivity.
  - lia.
  - simpl. lia.
  - repeat constructor; try (vm_compute; congruence).
  - vm_compute. reflexivity.
Defined.

(** ** A TABLE_DUMP_V2 dump: the peer table and its RIB records *)

Lemma grows_refl w : grows w w.
Proof. by repeat split. Qed.

Lemma grows_trans w1 w2 w3 : grows w1 w2 -> grows w2 w3 -> grows w1 w3.
Proof.
  intros (H1 & H2 & H3 & H4 & H5) (G1 & G2 & G3 & G4 & G5).
  split; [congruence|]. split; [congruence|]. split; [congruence|].
  split; [lia|]. intros q Hq. rewrite G5 by lia. by apply H5.
Qed.

Lemma grows_alloc bs w : grows w (alloc_world bs w).
Proof.
  split; [done|]. split; [done|]. split; [done|]. split; [cbn; lia|].
  intros q Hq. cbn. apply lookup_insert_ne. lia.
Qed.

Lemma attr_val_effect_grows aid s x : grows s.2 (attr_val_effect aid s x).2.
Proof.
  destruct s as [re w], x as [fl v]. unfold attr_val_effect. cbn [fst snd].
  destruct v; cbn [snd]; first [apply grows_refl | apply grows_alloc].
Qed.

Lemma attr_vals_effect_grows aid attrs : forall s,
  grows s.2 (attr_vals_effect aid s attrs).2.
Proof.
  induction attrs as [|x attrs IH]; intros s; [apply grows_refl|].
  unfold attr_vals_effect in *. cbn [fold_left].
  eapply grows_trans; [apply attr_val_effect_grows|apply IH].
Qed.

Lemma rv_decode_grows aid ap es : forall w, grows w (rv_decode aid ap es w).2.
Proof.
  induction es as [|e es IH]; intros w; [apply grows_refl|].
  cbn [rv_decode]. cbv zeta. cbn [snd].
  eapply grows_trans; [|apply IH].
  apply (attr_vals_effect_grows aid (rv_attrs e) (_, w)).
Qed.

(** The entries depend on the world through its next pointer only. *)
Lemma attr_val_effect_next aid re1 re2 w1 w2 x :
  re1 = re2 -> w_next w1 = w_next w2 ->
  (attr_val_effect aid (re1, w1) x).1 = (attr_val_effect aid (re2, w2) x).1 /\
  w_next (attr_val_effect aid (re1, w1) x).2
  = w_next (attr_val_effect aid (re2, w2) x).2.
Proof.
  intros -> Hn. destruct x as [fl v]. unfold attr_val_effect. cbn [fst snd].
  destruct v; cbn [fst snd alloc_world w_next]; rewrite ?Hn; done.
Qed.

Lemma attr_vals_effect_next aid attrs : forall re1 re2 w1 w2,
  re1 = re2 -> w_next w1 = w_next w2 ->
  (attr_vals_effect aid (re1, w1) attrs).1
  = (attr_vals_effect aid (re2, w2) attrs).1 /\
  w_next (attr_vals_effect aid (re1, w1) attrs).2
  = w_next (attr_vals_effect aid (re2, w2) attrs).2.
Proof.
  induction attrs as [|x attrs IH]; intros re1 re2 w1 w2 Hre Hn; [done|].
  unfold attr_vals_effect in *. cbn [fold_left].
  destruct (attr_val_effect_next aid re1 re2 w1 w2 x Hre Hn) as [E1 E2].
  destruct (attr_val_effect aid (re1, w1) x) as [ra wa].
  destruct (attr_val_effect aid (re2, w2) x) as [rb wb].
  by apply IH.
Qed.

Lemma rv_decode_next aid ap es : forall w1 w2,
  w_next w1 = w_next w2 ->
  (rv_decode aid ap es w1).1 = (rv_decode aid ap es w2).1 /\
  w_next (rv_decode aid ap es w1).2 = w_next (rv_decode aid ap es w2).2.
Proof.
  induction es as [|e es IH]; intros w1 w2 Hn; [done|].
  cbn [rv_decode]. cbv zeta. cbn [fst snd].
  destruct (attr_vals_effect_next aid (rv_attrs e)
              (re_set_entry_hdr (rv_peer_idx e) (rv_originated e)
                 (if ap then rv_path_id e else 0) re_zero) _ w1 w2
              eq_refl Hn) as [E1 E2].
  destruct (IH _ _ E2) as [E3 E4].
  by rewrite E1, E3, E4.
Qed.

(** [mrt_free_rib] touches the buffers of the entries only. *)
Lemma free_frame q w w' :
  free q w = Ret tt w' ->
  w_out w' = w_out w /\ w_file w' = w_file w /\ w_reads w' = w_reads w /\
  w_next w' = w_next w /\
  (forall q', Some q' <> q -> w_heap w' !! q' = w_heap w !! q').
Proof.
  unfold free. destruct q as [q|]; [|by intros [= <-]].
  destruct (w_heap w !! q); [|done]. intros [= <-]. cbn.
  repeat split; try done. intros q' Hq. apply lookup_delete_ne. congruence.
Qed.

Lemma free_attrs_frame l : forall w w',
  free_attrs l w = Ret tt w' ->
  w_out w' = w_out w /\ w_file w' = w_file w /\ w_reads w' = w_reads w /\
  w_next w' = w_next w /\
  (forall q, q ∉ map ap_attr l -> w_heap w' !! q = w_heap w !! q).
Proof.
  induction l as [|a l IH]; intros w w' H; [by injection H as <-|].
  cbn [free_attrs] in H. apply bind_inv in H as ([] & w1 & E1 & H).
  apply free_frame in E1 as (H1 & H2 & H3 & H4 & H5).
  apply IH in H as (G1 & G2 & G3 & G4 & G5).
  repeat split; try congruence.
  intros q Hq. cbn [map] in Hq. apply not_elem_of_cons in Hq as [Hq1 Hq2].
  rewrite G5 by done. apply H5. congruence.
Qed.

Lemma free_entries_frame es : forall w w',
  Forall re_attrs_ok es ->
  free_entries es w = Ret tt w' ->
  w_out w' = w_out w /\ w_file w' = w_file w /\ w_reads w' = w_reads w /\
  w_next w' = w_next w /\
  (forall q, q ∉ flat_map entry_ptrs es -> w_heap w' !! q = w_heap w !! q).
Proof.
  induction es as [|re es IH]; intros w w' Hok H; [by injection H as <-|].
  apply Forall_cons in Hok as [[Hn _] Hok].
  cbn [free_entries] in H. rewrite Hn, Nat2Z.id, take_ge in H by lia.
  apply bind_inv in H as ([] & w1 & E1 & H).
  apply bind_inv in H as ([] & w2 & E2 & H).
  apply free_attrs_frame in E1 as (H1 & H2 & H3 & H4 & H5).
  apply free_frame in E2 as (F1 & F2 & F3 & F4 & F5).
  apply IH in H as (G1 & G2 & G3 & G4 & G5); [|done].
  repeat split; try congruence.
  intros q Hq. cbn [flat_map] in Hq. unfold entry_ptrs at 1 in Hq.
  rewrite !not_elem_of_app in Hq. destruct Hq as [[Hq1 Hq2] Hq3].
  rewrite G5, F5, H5; try done.
  intros E. apply Hq2. rewrite <- E. cbn. set_solver.
Qed.

Lemma rr_hdr_ok nlri r : rr_ok nlri r -> hdr_ok (rr_hdr r).
Proof.
  intros (Ht & _ & _ & Hl & _). unfold hdr_ok, rr_hdr.
  cbn [h_timestamp h_type h_subtype h_length].
  split; [exact Ht|]. split; [done|]. split; [|lia].
  by destruct (rr_v6 r), (rr_mc r), (rr_ap r).
Qed.

(** One RIB record: the callback gets the decoded RIB and the peer
    context, and the buffers of the entries are freed behind it. *)
Lemma mrt_dispatch_v2_rib nlri p verbose r c v w :
  mp_dump p = true -> rr_ok nlri r -> owned [v] w ->
  exists w' h,
    mrt_dispatch nlri p verbose (rr_hdr r) (rr_msg r) (Some c) w
    = Ret (Some c) w' /\
    w_out w' = w_out w ++ [EvDump (rr_rib r (w_next w)) (Some c) h] /\
    h !! v = w_heap w !! v /\
    w_heap w' !! v = w_heap w !! v /\
    w_next w' = w_next (rr_decode r (w_next w)).2 /\
    w_file w' = w_file w /\ w_reads w' = w_reads w /\ owned [v] w'.
Proof.
  intros Hp (Ht & Hseq & Hcnt & Hmax & Hwf & Hpfx) Ho.
  pose proof (mrt_parse_v2_rib_wire (rr_v6 r) (rr_mc r) (rr_ap r) nlri (rr_hdr r)
                (rr_msg r) (rr_seq r) (rr_pfx r) (rr_entries r) []
                (rr_prefix r) (rr_plen r) verbose w eq_refl eq_refl Hmax) as E.
  rewrite !app_nil_r in E. specialize (E eq_refl Hseq Hcnt Hwf Hpfx).
  set (s := rv_decode (ba_aid (rr_prefix r)) (rr_ap r) (rr_entries r) w) in *.
  destruct (rv_decode_grows (ba_aid (rr_prefix r)) (rr_ap r) (rr_entries r) w)
    as (F1 & F2 & F3 & F4 & F5). fold s in F1, F2, F3, F4, F5.
  destruct (rv_decode_next (ba_aid (rr_prefix r)) (rr_ap r) (rr_entries r) w
              (mk_world ∅ (w_next w) [] [] []) eq_refl) as [N1 N2].
  fold s in N1, N2. fold (rr_decode r (w_next w)) in N1, N2.
  destruct (mrt_parse_v2_rib_owned [v] _ _ _ _ _ _ _ Ho E)
    as (entries & He & Hn & Hok & Hown).
  cbn [r_entries r_nentries] in He, Hn. injection He as <-.
  assert (Hv : (v < w_next w)%nat).
  { destruct Ho as (_ & Hl & Hlt). apply Hlt, Hl. set_solver. }
  set (w2 := mk_world (w_heap s.2) (w_next s.2)
               (w_out s.2 ++ [EvDump (rr_rib r (w_next w)) (Some c)
                                (w_heap s.2)])
               (w_file s.2) (w_reads s.2)).
  assert (Hown2 : owned (flat_map entry_ptrs s.1 ++ [v]) w2).
  { eapply owned_perm; [apply Permutation_app_comm|exact Hown]. }
  destruct (free_entries_owned s.1 [v] w2 Hok Hown2) as (w' & Ef & Ho').
  destruct (free_entries_frame _ _ _ Hok Ef) as (G1 & G2 & G3 & G4 & G5).
  exists w', (w_heap s.2).
  assert (Ed : mrt_dispatch nlri p verbose (rr_hdr r) (rr_msg r) (Some c) w
               = (let* x := mrt_parse_v2_rib nlri (rr_hdr r) (rr_msg r) verbose in
                  match x with
                  | Some rib => let* _ := deliver_rib p rib (Some c) in
                                ret (Some c)
                  | None => ret (Some c)
                  end) w).
  { unfold mrt_dispatch. cbv zeta. cbn [rr_hdr h_type h_subtype]. rewrite Hp.
    by destruct (rr_v6 r), (rr_mc r), (rr_ap r). }
  rewrite Ed. step E. unfold deliver_rib. rewrite Hp.
  unfold mrt_free_rib. cbn [r_entries r_nentries].
  rewrite Hn, take_ge by lia.
  split.
  { assert (Erib : mk_rib (Some s.1) (rr_prefix r) (rr_seq r)
                     (Z.of_nat (length (rr_entries r))) (rr_plen r)
                     (if rr_ap r then 1 else 0) = rr_rib r (w_next w))
      by (unfold rr_rib; by rewrite N1).
    unfold bind at 1 2 3, heap_now, emit. rewrite Erib. fold w2.
    by rewrite Ef. }
  split; [by rewrite G1, <- F1|].
  split; [by apply F5|].
  split.
  { rewrite G5; [by apply F5|].
    destruct Hown2 as (Hnd & _). apply NoDup_app in Hnd as (_ & Hnd & _).
    intros Hq. apply (Hnd v Hq). set_solver. }
  split; [by rewrite G4, <- N2|].
  split; [by rewrite G2|]. split; [by rewrite G3|]. exact Ho'.
Qed.

Lemma v2_rib_stream nlri p verbose c v blk recs : forall tail w,
  mp_dump p = true -> p_view c = Some v ->
  reads_succeed (w_reads w) -> owned [v] w -> w_heap w !! v = Some blk ->
  Forall (rr_ok nlri) recs ->
  w_file w = flat_map rr_wire recs ++ tail -> record_truncated tail ->
  exists w' heaps,
    mrt_parse_from nlri p verbose (Some c) w = Ret tt w' /\
    length heaps = length recs /\
    Forall (fun h => h !! v = Some blk) heaps /\
    w_out w' = w_out w ++
               zip_with (fun rib h => EvDump rib (Some c) h)
                        (dump_ribs (w_next w) recs) heaps.
Proof.
  induction recs as [|r recs IH];
    intros tail w Hp Hview Hrd Hown Hblk Hok Hfile Htail.
  - cbn [flat_map app] in Hfile. rewrite <- Hfile in Htail.
    destruct (mrt_read_msg_end w Hrd Htail) as (file' & reads' & E).
    unfold mrt_parse_from. cbn [mrt_parse_loop]. step E.
    unfold mrt_free_peers, free. rewrite Hview. cbn [at_file w_heap].
    rewrite Hblk. eexists _, []. split; [reflexivity|].
    split; [done|]. split; [done|]. cbn. by rewrite app_nil_r.
  - apply Forall_cons in Hok as [Hr Hok].
    cbn [flat_map] in Hfile. rewrite <- app_assoc in Hfile.
    destruct (mrt_parse_from_record nlri p verbose (Some c) (rr_hdr r)
                (rr_msg r) _ w Hrd (rr_hdr_ok nlri r Hr) eq_refl Hfile)
      as (reads' & Hrd' & E).
    rewrite E. clear E.
    set (w1 := at_file _ reads' w).
    assert (Hown1 : owned [v] w1) by exact Hown.
    destruct (mrt_dispatch_v2_rib nlri p verbose r c v w1 Hp Hr Hown1)
      as (w2 & h & Ed & Hout & Hh & Hv & Hnext & Hf & Hreads & Hown2).
    rewrite (bind_eq _ _ _ _ _ Ed).
    destruct (IH tail w2 Hp Hview) as (w' & heaps & E & Hlen & Hall & Hout').
    + by rewrite Hreads.
    + exact Hown2.
    + by rewrite Hv.
    + exact Hok.
    + by rewrite Hf.
    + exact Htail.
    + exists w', (h :: heaps). split; [exact E|].
      split; [cbn [length]; by rewrite Hlen|].
      split; [apply Forall_cons; split; [by rewrite Hh|exact Hall]|].
      rewrite Hout', Hout, Hnext. cbn [dump_ribs zip_with].
      by rewrite <- app_assoc.
Qed.

(** X29: when the dump callback is set and no read fails, on a file that is a
    peer index table of TABLE_DUMP_V2 followed by RIB records in wire form
    (IPv4 or IPv6, unicast or multicast, with or without ADD-PATH, with
    well-formed entries), which may end in a truncated record, [mrt_parse]
    returns, and what it did is one call of the dump callback for each RIB
    record, in the order of the file, with the decoded RIB and the peer
    context of the table, whose view name is in its buffer, NUL-terminated,
    at every call; the pointers of the entries are those that malloc hands
    out from the one behind the view name on. *)
Theorem v2_dump_delivered nlri p verbose time collector view peers recs tail w :
  mp_dump p = true -> reads_succeed (w_reads w) -> owned [] w ->
  peer_table_ok time collector view peers -> Forall (rr_ok nlri) recs ->
  w_file w = record_wire (peer_index_hdr time collector view peers)
                         (peer_index_wire collector view peers) ++
             flat_map rr_wire recs ++ tail ->
  record_truncated tail ->
  exists w' heaps,
    mrt_parse nlri p verbose w = Ret tt w' /\
    length heaps = length recs /\
    Forall (fun h => h !! w_next w = Some (view ++ [Byte.x00])) heaps /\
    w_out w' = w_out w ++
               zip_with (fun rib h =>
                           EvDump rib
                             (Some (mk_peer (Some (w_next w))
                                      (Some (map peer_of_wire peers))
                                      collector (Z.of_nat (length peers))))
                             h)
                        (dump_ribs (S (w_next w)) recs) heaps.
Proof.
  intros Hp Hrd Hown (Ht & Hc & Hv & Hn & Hwf & Hmax) Hok Hfile Htail.
  change (mrt_parse nlri p verbose)
    with (mrt_parse_from nlri p verbose None).
  assert (Hh : hdr_ok (peer_index_hdr time collector view peers)).
  { unfold hdr_ok, peer_index_hdr.
    cbn [h_timestamp h_type h_subtype h_length].
    split; [exact Ht|]. split; [done|]. split; [done|]. lia. }
  destruct (mrt_parse_from_record nlri p verbose None _ _ _ w Hrd Hh eq_refl
              Hfile) as (reads' & Hrd' & E).
  rewrite E. clear E.
  set (w1 := at_file _ reads' w).
  set (c := mk_peer (Some (w_next w)) (Some (map peer_of_wire peers))
                    collector (Z.of_nat (length peers))).
  assert (Ed : mrt_dispatch nlri p verbose
                 (peer_index_hdr time collector view peers)
                 (peer_index_wire collector view peers) None w1
               = Ret (Some c) (alloc_world (view ++ [Byte.x00]) w1)).
  { unfold mrt_dispatch. cbv zeta.
    cbn [peer_index_hdr h_type h_subtype]. rewrite Hp.
    change (MSG_TABLE_DUMP_V2 =? MSG_TABLE_DUMP) with false.
    change (MSG_TABLE_DUMP_V2 =? MSG_TABLE_DUMP_V2) with true.
    change (MRT_DUMP_V2_PEER_INDEX_TABLE =? MRT_DUMP_V2_PEER_INDEX_TABLE)
      with true.
    cbn [negb]. unfold bind at 1, ret at 1.
    apply (mrt_parse_v2_peer_wire _ collector view peers []);
      [done|done|done|done|by rewrite app_nil_r|reflexivity|exact Hmax]. }
  rewrite (bind_eq _ _ _ _ _ Ed).
  destruct (v2_rib_stream nlri p verbose c (w_next w) (view ++ [Byte.x00])
              recs tail (alloc_world (view ++ [Byte.x00]) w1) Hp eq_refl)
    as (w' & heaps & E & Hlen & Hall & Hout).
  - exact Hrd'.
  - apply (owned_alloc [] w1 _ Hown); [done|].
    cbn [alloc_world w_heap]. by rewrite dom_insert_L.
  - cbn [alloc_world w_heap w1 at_file w_next]. apply lookup_insert_eq.
  - exact Hok.
  - reflexivity.
  - exact Htail.
  - by exists w', heaps.
Qed.

Lemma v2_dump_delivered_witness :
  exists w' heaps,
    mrt_parse spec_nlri dump_only false dump_world = Ret tt w' /\
    length heaps = length dump_recs /\
    Forall (fun h => h !! w_next dump_world
                     = Some (bytes_of [97; 98] ++ [Byte.x00])) heaps /\
    w_out w' = w_out dump_world ++
               zip_with (fun rib h =>
                           EvDump rib
                             (Some (mk_peer (Some (w_next dump_world))
                                      (Some (map peer_of_wire
                                               peer_table_entries))
                                      0x01020304
                                      (Z.of_nat (length peer_table_entries))))
                             h)
                        (dump_ribs (S (w_next dump_world)) dump_recs) heaps.
Proof.
  apply (v2_dump_delivered spec_nlri dump_only false 0 0x01020304
           (bytes_of [97; 98]) peer_table_entries dump_recs [] dump_world).
  - reflexivity.
  - constructor.
  - apply owned_world_of.
  - unfold peer_table_ok. repeat split; try (simpl; lia).
    repeat constructor; simpl; lia.
  - repeat constructor; try (vm_compute; congruence).
  - reflexivity.
  - left. simpl. lia.
Defined.
